(* ===== verification/_CoqProject ===== *)
-Q . S2P
Prelude.v
Bytes.v
Wire.v
Codec.v
CodecFacts.v
Text.v
Duration.v
Matcher.v
Address.v
Message.v
Transaction.v
Env.v
Memory.v
BodyLog.v
FileLog.v
FileLogFacts.v
Router.v
Delivery.v
DeliveryInv.v
DeliveryFacts.v
TxService.v
TxFacts.v
Broker.v
Concurrent.v
ConcurrentInv.v
Pool.v
Sql.v
SqlRef.v
Repository.v
Postgres.v
PostgresFacts.v
Stores.v
Cluster.v
Connection.v
Registry.v
Session.v
Link.v
Peer.v
PeerInv.v
PeerFacts.v
PeerSteps.v
Client.v
Snapshot.v
Runtime.v
Config.v
Lifecycle.v
Recovery.v
Http.v
HttpFacts.v
HttpApi.v
Grpc.v
Probe.v
System.v
