(* ===== verification/Prelude.v ===== *)
(** * A verification development of amqp-broker-core

    [amqp-broker-core] is an AMQP 1.0 broker in Go.  Clients speak AMQP to a
    server that decodes frames and drives connections, sessions and links;
    operators use an HTTP and a gRPC interface; all of them call the address,
    delivery and transaction services, which share one in-memory store of
    metadata and a log of message bodies.  A runtime puts the parts together on
    a data directory, a worker sweeps expired messages and transactions, and a
    coordinator hands out fenced leases on shards.  This library models that
    program in Gallina, definition by definition, and proves what makes it
    correct.

    ** How the code is modelled

    A Go function is a function of the same name ([Type.Method] becomes
    [Type_Method]; where two packages use a name, a prefix tells them apart).
    [res A] is the outcome of a function that returns [(A, error)]: a value, an
    error, or a panic, which is an outcome of its own.  [go S A] threads a store
    [S] through calls; an error does not roll the store back.  Machine integers
    are [Z] with their wrap-around written out ([u32], [u64]); the offsets of the
    memory log ([int64]) and delivery counts ([int]), which grow by one per call,
    are taken not to reach [2^63]; bytes are characters of eight bits; Go maps are
    [gmap]s, and where the code ranges over one, the order is chosen by the
    environment.

    Everything a call observes that its arguments do not determine (context,
    clock, random source, map order, file and socket errors, how much a failed
    write left behind) is answered by an [Oracle] (Env.v).  A theorem for all
    oracles is about every environment; [wpe] is the weakest precondition over
    them.  A theorem that a call succeeds assumes a [Quiet] oracle, in which the
    context stays live, the random source works and files behave.

    A value that Go returns beside an error is dropped where no caller reads
    it.  A service call is one step, and whole calls interleave ([step] in
    Broker.v, [co_call] in Cluster.v, the activity of other connections in
    PeerFacts.v, [node_step] in System.v, and in Lifecycle.v [process_step], in
    which calls of handlers, sweeps and the steps of [run] alternate).  The
    interleaving inside the calls is in Concurrent.v and Pool.v: there a call
    is a thread of the repository and log calls it makes, which are atomic
    because each holds the mutex of its store, and of its locking of the
    mutex of the delivery service.

    ** Files, with the sources under src/internal/ and src/cmd/

    Shared: Prelude (monads, errors, automation), Bytes (integers, big-endian,
    hexadecimal, UTF-8), Text ([strings], [path.Match]), Duration ([time]), Env.

    AMQP: Wire ([amqp/domain]), Codec and CodecFacts ([amqp/application]),
    Connection ([connection/]), Registry, Session ([session/]) and Link
    ([link/]), Peer, PeerInv, PeerFacts and PeerSteps ([amqp/adapter/server.go]),
    Client (the simulator [cmd/amqp-sim], over any server).

    Services: Matcher ([routing/domain]), Address ([address/domain]), Message
    ([delivery/domain]), Transaction ([transaction/domain]), Router
    ([routing/application], [address/application]), Delivery, DeliveryInv and
    DeliveryFacts ([delivery/application]), TxService and TxFacts
    ([transaction/application]), Broker (the services as one transition
    system), Concurrent, ConcurrentInv and Pool (the service calls as threads,
    their soundness, and any interleaving of them), Cluster ([cluster/]).

    Storage ([storage/infrastructure]): Memory (the repositories), BodyLog (the
    log interface as a class with its laws, and the memory log), FileLog and
    FileLogFacts (the file log), Snapshot.  Repository states the message and
    address repositories as classes with laws, which the memory discharges;
    Sql is the database as an interface with laws, SqlRef a concrete database
    that satisfies them, Postgres and PostgresFacts the PostgreSQL repositories
    over it, Stores what holds of every repository and of the two side by side.

    Process: Runtime ([broker/runtime.go], the sweep of [worker/]), Config
    ([config/], the settings of [cmd/broker]), Lifecycle ([cmd/broker/main.go],
    the listeners of the AMQP and gRPC servers and the worker's goroutine, as
    one transition system), Recovery (a run, its end and the next run), Http
    HttpFacts and HttpApi ([platform/httpx]), Grpc ([platform/grpcx]), Probe
    ([cmd/grpc-check]), System (the running node: requests, calls, connections
    and sweeps as one transition system).

    ** What the theorems show

    - Codec: the decoder is total and safe on arbitrary bytes; values,
      performatives, frames, streams of frames and data sections survive the
      round trip; [WriteFrame] ends and sends exactly the frame.
    - Routing: the recursive topic matcher agrees with a relational reference;
      [Resolve] returns exactly the destinations of the matching bindings.
    - Broker: an invariant of every reachable state ties each stored message to
      its logged body; no call panics; messages outside transactions are
      conserved; a queue keeps its length bound; [Acquire] delivers the best
      message with the published body; commit and rollback leave nothing
      staged, staging is invisible, completed transactions are final.
    - Interleaved calls: at the granularity of the repository calls the
      broker's invariant holds in every interleaving, no call panics, every
      call returns, and the calls that hold the mutex are serializable.  What
      the theorems of whole calls say beyond that (conservation, exactness,
      the finality of a commit) does not carry over: [rollback_races_commit],
      [commit_races_commit] and [sweep_races_acquire] are runs in which it
      fails.
    - Storage: both logs discharge the laws the services are proved against;
      bodies survive failed and partial writes; opening a log recovers it;
      saving a snapshot is atomic; a stop and a start on the same directory
      recover the store and keep the invariant.  Memory and PostgreSQL
      repositories satisfy the same laws; the database follows the memory
      through any calls that both carry out or refuse, and reads agree up to
      what the table keeps; a statement that fails may have been executed, and
      then entirely.
    - Life of the process: with an expired deadline [run] returns within nine
      actions; exit status 0 means that everything has ended and the metadata
      file is a snapshot of the final store; a deadline that expires before the
      snapshot is taken leaves the file as it was; the invariant of the broker holds from start to end in every
      interleaving; and from an empty directory, while files work, a clean exit
      leaves a directory from which the next run recovers the store and every
      body.
    - Simulator: against every server it ends, sends a beginning of its script,
      and reports only what was answered as the protocol asks.
    - Connections: no frame makes the handler panic (for clients that detach
      before they end a session), transfers are acknowledged exactly when
      published, the frame loop ends, connections clean up, authentication and
      frame-size negotiation are exact; sessions keep their windows, links
      their credit, registries their indexes.
    - Cluster: a lease that has been superseded is worthless for ever.
    - Front ends: an HTTP request to a service endpoint, and every gRPC call,
      is exactly the service call that its method and path name, and is
      answered with its result or its error; requests without the token reach
      nothing; the rate limit bounds every second; routes do not overlap; from
      an empty directory the node keeps the broker's invariant through any
      requests, connections and sweeps; a configuration that loads is usable.

    Some theorems show where the code departs from its documentation:
    [no_ttl_is_dead_lettered], [released_is_not_redelivered],
    [replay_resurrects_accepted], [Settle_never_succeeds], [StagePublish_orphans],
    [key_surrogates_collide], [transfer_after_end_panics],
    [closed_connection_leaks], [FileLog_Compact_renumbers],
    [FileLog_torn_tail_corrupts], [restart_loses_acquired], [token_not_required],
    [Close_only_saves] (no lease is released), [grpc_empty_token_open],
    [listen_failure_exits_0], [connected_client_loses_metadata],
    [late_shutdown_saves_nothing], [accept_never_resumes],
    [oversized_record_refused], [released_listed_by_postgres],
    [rollback_races_commit], [commit_races_commit], [sweep_races_acquire],
    [trimmed_disposition_rejected].

    ** Fuel

    Recursions that are not structural take fuel that is shown to be enough:
    the decoder uses the length of its input ([DecodePerformative_safe] says the
    fuel never runs out), [reindex] the length of the file, the trimming and
    matching functions of Text the length of their argument, [enforce_loop] the
    number of messages, [WriteFrame] the length of the frame (each turn sends a
    byte), the disposition loop the size of the range, and the frame loop any
    number above the input's length ([handle_loop_ends]).

    ** Parameters

    [encoding/json] for snapshots ([SnapshotJSON], with its round trip), for
    request bodies ([RequestJSON]) and for gRPC structures ([StructJSON]);
    [yaml.v3], the configuration file and the process environment (arguments of
    [Load]); [database/sql] and PostgreSQL ([SqlDB] with [SqlLaws]) and the JSON
    of string maps ([MapJSON]); the files of the browser console.  Each is instantiated by a
    concrete function in the witnesses.

    ** Not modelled

    Sockets and TLS below [Accept], [Read] and [Write]; the internals of
    [net/http] beyond the mux, the time limit and the graceful stop (parsing, the
    text of a redirect), of [google.golang.org/grpc] and of the database; the
    passing of time in Lifecycle.v (a timer is an event that may happen);
    interleaving inside the sessions, links and leases (each of their operations is a step) and data
    races below a mutex; flag parsing and logging; the JavaScript console. *)

From stdpp Require Export base list gmap strings sorting.

From Stdlib Require Export ZArith Lia.
From Stdlib Require Import Ascii.

#[global] Open Scope Z_scope.

(** ** Errors and results

    A Go function that returns [(A, error)] is modelled by [res A]; a run-time
    panic (nil dereference, index out of range, division by zero) is its own
    outcome, distinct from an error value. *)

(** The error values the sources build: [errors.New], [fmt.Errorf] with its
    integer or string arguments, the package sentinels compared with [errors.Is], the
    conflict type of the memory store, and a wrapped error ([%w]). *)
Inductive error :=
  | ErrNew (text : string)
  | ErrFmt (text : string) (args : list Z)
  | ErrFmtS (text : string) (arg : string)
  | ErrMessageNotFound
  | ErrAddressNotFound
  | ErrAddressConflict
  | ErrTransactionNotFound
  | ErrNoRows
  | ErrConflict (text : string)
  | ErrContext (text : string)
  | ErrIO (text : string)
  | ErrWrap (text : string) (cause : error).

Inductive res (A : Type) :=
  | Ok (a : A)
  | Err (e : error)
  | Panic.
Arguments Ok {A} a.
Arguments Err {A} e.
Arguments Panic {A}.

Definition res_bind {A B} (m : res A) (f : A → res B) : res B :=
  match m with
  | Ok a => f a
  | Err e => Err e
  | Panic => Panic
  end.

(** [errors.Is]: the target is compared with every error of the chain. *)
#[global] Instance error_eq_dec : EqDecision error.
Proof. solve_decision. Defined.

Fixpoint errors_Is (e target : error) : bool :=
  bool_decide (e = target) ||
  match e with ErrWrap _ e' => errors_Is e' target | _ => false end.

Definition is_ok {A} (r : res A) : Prop := match r with Ok _ => True | _ => False end.
Definition is_panic {A} (r : res A) : bool := match r with Panic => true | _ => false end.

(** ** The state-and-error monad

    [go S A] is a Go call over a store [S].  An error does not roll the store
    back: the new store is returned on every outcome, as in Go. *)
Definition go (S A : Type) : Type := S → res A * S.

#[global] Instance res_ret : MRet res := λ A a, Ok a.
#[global] Instance res_mbind : MBind res := λ A B f m, res_bind m f.

#[global] Instance go_ret {S} : MRet (go S) := λ A a s, (Ok a, s).
#[global] Instance go_bind {S} : MBind (go S) := λ A B f m s,
  match m s with
  | (Ok a, s') => f a s'
  | (Err e, s') => (Err e, s')
  | (Panic, s') => (Panic, s')
  end.

(** [return err] and a run-time panic. *)
Definition raise {S A} (e : error) : go S A := λ s, (Err e, s).
Definition panic {S A} : go S A := λ s, (Panic, s).

(** A pure fallible computation inside the monad. *)
Definition lift {S A} (r : res A) : go S A := λ s, (r, s).

(** [x, err := m] with [err] examined by the caller instead of returned. *)
Definition try {S A} (m : go S A) : go S (error + A) := λ s,
  match m s with
  | (Ok a, s') => (Ok (inr a), s')
  | (Err e, s') => (Ok (inl e), s')
  | (Panic, s') => (Panic, s')
  end.

(** [return fmt.Errorf("text: %w", err)] on the error of [m]. *)
Definition wrap {S A} (text : string) (m : go S A) : go S A := λ s,
  match m s with
  | (Err e, s') => (Err (ErrWrap text e), s')
  | r => r
  end.

Definition gets {S A} (f : S → A) : go S A := λ s, (Ok (f s), s).
Definition modify {S} (f : S → S) : go S unit := λ s, (Ok tt, f s).

(** Run [m] on a part of the store. *)
Definition zoom {S T A} (get : S → T) (put : T → S → S) (m : go T A) : go S A := λ s,
  let '(r, t) := m (get s) in (r, put t s).

(** [if cond { return err }]. *)
Definition guard_err {S} (cond : bool) (e : error) : go S unit :=
  if cond then raise e else mret tt.

(** A Go [for _, x := range l] whose body may return early with an error. *)
Fixpoint for_each {S A} (l : list A) (body : A → go S unit) : go S unit :=
  match l with
  | [] => mret tt
  | x :: l' => body x;; for_each l' body
  end.

(** The same loop with an accumulator: [body] returns the next accumulator. *)
Fixpoint fold_each {S A B} (l : list A) (acc : B) (body : B → A → go S B) : go S B :=
  match l with
  | [] => mret acc
  | x :: l' => acc' ← body acc x; fold_each l' acc' body
  end.

(** ** Stable sorting

    [sort.SliceStable(out, less)]: insertion keeps elements that [less] does
    not separate in their original order. *)
Section stable_sort.
Context {A : Type} (less : A → A → bool).

Fixpoint sort_insert (x : A) (l : list A) : list A :=
  match l with
  | [] => [x]
  | y :: l' => if less y x then y :: sort_insert x l' else x :: l
  end.

Definition sort_stable (l : list A) : list A := foldr sort_insert [] l.
End stable_sort.

(** Go slices [l[:n]] with [limit > 0 && len(out) > limit] as the guard. *)
Definition truncate_limit {A} (limit : Z) (l : list A) : list A :=
  if bool_decide (0 < limit ∧ limit < Z.of_nat (length l))
  then take (Z.to_nat limit) l else l.

(** ** Slices that panic out of range

    [l[i]], [l[lo:hi]] and [l[lo:]]; [copy(dst, src)] returns the new [dst]. *)
Definition index {A} (l : list A) (i : nat) : res A :=
  match l !! i with Some a => Ok a | None => Panic end.

Definition slice {A} (l : list A) (lo hi : nat) : res (list A) :=
  if bool_decide (lo ≤ hi ≤ length l)%nat then Ok (take (hi - lo) (drop lo l)) else Panic.

Definition slice_from {A} (l : list A) (lo : nat) : res (list A) :=
  slice l lo (length l).

Definition go_copy {A} (dst src : list A) : list A :=
  take (length dst) src ++ drop (length src) dst.

(** ** Weakest preconditions for [go]

    [wp m Q s]: running [m] from [s] ends in an outcome and a store that
    satisfy [Q].  Every [go] computation is total, so this is total
    correctness. *)
Definition wp {S A} (m : go S A) (Q : res A → S → Prop) (s : S) : Prop :=
  Q (m s).1 (m s).2.

(** A postcondition that constrains successful outcomes only in [Q], and the
    store alone in [E] for errors. *)
Definition on_ok {S A} (Q : A → S → Prop) (E : S → Prop) : res A → S → Prop := λ r s,
  match r with Ok a => Q a s | Err _ => E s | Panic => False end.

Section wp.
Context {S : Type}.

Lemma wp_unfold {A} (m : go S A) Q s : wp m Q s ↔ Q (m s).1 (m s).2.
Proof. done. Qed.

Lemma wp_mono {A} (m : go S A) (Q R : res A → S → Prop) s :
  wp m Q s → (∀ r s', Q r s' → R r s') → wp m R s.
Proof. unfold wp. auto. Qed.

Lemma wp_ret {A} (a : A) Q s : Q (Ok a) s → wp (mret a : go S A) Q s.
Proof. done. Qed.

Lemma wp_raise {A} e Q s : Q (Err e) s → wp (raise e : go S A) Q s.
Proof. done. Qed.

Lemma wp_lift {A} (r : res A) Q s : Q r s → wp (lift r : go S A) Q s.
Proof. done. Qed.

Lemma wp_gets {A} (f : S → A) Q s : Q (Ok (f s)) s → wp (gets f) Q s.
Proof. done. Qed.

Lemma wp_modify (f : S → S) Q s : Q (Ok tt) (f s) → wp (modify f) Q s.
Proof. done. Qed.

Lemma wp_bind {A B} (m : go S A) (f : A → go S B) Q s :
  wp m (λ r s', match r with
                | Ok a => wp (f a) Q s'
                | Err e => Q (Err e) s'
                | Panic => Q Panic s'
                end) s →
  wp (m ≫= f) Q s.
Proof. unfold wp, mbind, go_bind. destruct (m s) as [[] ?]; done. Qed.

Lemma wp_try {A} (m : go S A) Q s :
  wp m (λ r s', match r with
                | Ok a => Q (Ok (inr a)) s'
                | Err e => Q (Ok (inl e)) s'
                | Panic => Q Panic s'
                end) s →
  wp (try m) Q s.
Proof. unfold wp, try. destruct (m s) as [[] ?]; done. Qed.

Lemma wp_wrap {A} text (m : go S A) Q s :
  wp m (λ r s', match r with
                | Err e => Q (Err (ErrWrap text e)) s'
                | _ => Q r s'
                end) s →
  wp (wrap text m) Q s.
Proof. unfold wp, wrap. destruct (m s) as [[] ?]; done. Qed.

Lemma wp_guard (b : bool) e (Q : res unit → S → Prop) s :
  (b = true → Q (Err e) s) → (b = false → Q (Ok tt) s) → wp (guard_err b e) Q s.
Proof. unfold wp. destruct b; cbn; auto. Qed.

(** Loops: an invariant [I] that the body preserves on success. *)
Lemma wp_for_each {A} (l : list A) (body : A → go S unit)
    (I : list A → S → Prop) (Q : res unit → S → Prop) s :
  I l s →
  (∀ x l' s', I (x :: l') s' →
     wp (body x) (λ r s'', match r with Ok _ => I l' s'' | _ => Q r s'' end) s') →
  (∀ s', I [] s' → Q (Ok tt) s') →
  wp (for_each l body) Q s.
Proof.
  intros HI Hbody Hdone. revert s HI. induction l as [|x l IH]; intros s HI; cbn.
  { apply wp_ret. auto. }
  apply wp_bind. eapply wp_mono; [by apply Hbody|].
  intros [[]|e|] s' H; auto.
Qed.

Lemma wp_fold_each {A B} (l : list A) (acc : B) (body : B → A → go S B)
    (I : list A → B → S → Prop) (Q : res B → S → Prop) s :
  I l acc s →
  (∀ x l' b s', I (x :: l') b s' →
     wp (body b x) (λ r s'', match r with Ok b' => I l' b' s'' | _ => Q r s'' end) s') →
  (∀ b s', I [] b s' → Q (Ok b) s') →
  wp (fold_each l acc body) Q s.
Proof.
  intros HI Hbody Hdone. revert acc s HI. induction l as [|x l IH]; intros acc s HI; cbn.
  { apply wp_ret. auto. }
  apply wp_bind. eapply wp_mono; [by apply Hbody|].
  intros [b|e|] s' H; auto.
Qed.
End wp.

(** [wp_step] takes the head of the program off; [wp_auto] repeats it. *)
Ltac wp_step :=
  lazymatch goal with
  | |- wp (mbind _ _) _ _ => apply wp_bind
  | |- wp (mret _) _ _ => apply wp_ret
  | |- wp (raise _) _ _ => apply wp_raise
  | |- wp (lift _) _ _ => apply wp_lift
  | |- wp (gets _) _ _ => apply wp_gets
  | |- wp (modify _) _ _ => apply wp_modify
  | |- wp (try _) _ _ => apply wp_try
  | |- wp (wrap _ _) _ _ => apply wp_wrap
  | |- wp (guard_err _ _) _ _ => apply wp_guard; intros ?
  end.
Ltac wp_auto := repeat (wp_step; cbn beta iota).

(** ** Sorting lemmas *)
Section stable_sort_lemmas.
Context {A : Type} (less : A → A → bool).

Lemma sort_insert_perm x (l : list A) : sort_insert less x l ≡ₚ x :: l.
Proof.
  induction l as [|y l IH]; cbn; [done|].
  destruct (less y x); [rewrite IH; constructor|done].
Qed.

Lemma sort_stable_perm (l : list A) : sort_stable less l ≡ₚ l.
Proof.
  induction l as [|x l IH]; cbn; [done|]. by rewrite sort_insert_perm, IH.
Qed.

(** The order a [less] function induces: nothing later is less than [x]. *)
Definition not_less (x y : A) : Prop := less y x = false.

Lemma sort_insert_sorted x (l : list A) :
  (∀ a b c, not_less a b → not_less b c → not_less a c) →
  (∀ a b, less a b = true → less b a = false) →
  StronglySorted not_less l → StronglySorted not_less (sort_insert less x l).
Proof.
  intros Htrans Hasym. induction 1 as [|y l Hl IH Hy]; cbn; [by repeat constructor|].
  destruct (less y x) eqn:E.
  - constructor; [done|]. rewrite sort_insert_perm. constructor; [|done].
    by apply Hasym.
  - constructor; [by constructor|]. constructor; [done|].
    eapply Forall_impl; [exact Hy|]. intros z Hz. by eapply Htrans.
Qed.

Lemma sort_stable_sorted (l : list A) :
  (∀ a b c, not_less a b → not_less b c → not_less a c) →
  (∀ a b, less a b = true → less b a = false) →
  StronglySorted not_less (sort_stable less l).
Proof.
  intros. induction l as [|x l IH]; cbn; [constructor|]. by apply sort_insert_sorted.
Qed.
End stable_sort_lemmas.

(** ** Lists *)
Lemma StronglySorted_impl {A} (R R' : A → A → Prop) l :
  (∀ x y, R x y → R' x y) → StronglySorted R l → StronglySorted R' l.
Proof. intros HR H. rewrite <-(list_fmap_id l). by eapply StronglySorted_fmap. Qed.

Lemma truncate_limit_prefix {A} limit (l : list A) :
  truncate_limit limit l `prefix_of` l.
Proof.
  unfold truncate_limit. case_bool_decide; [|done].
  eexists. symmetry. apply take_drop.
Qed.

Lemma truncate_limit_sublist {A} limit (l : list A) :
  truncate_limit limit l `sublist_of` l.
Proof. unfold truncate_limit. case_bool_decide; [apply sublist_take|done]. Qed.

Lemma truncate_limit_1 {A} (l : list A) : truncate_limit 1 l = take 1 l.
Proof.
  unfold truncate_limit. case_bool_decide as H; [done|].
  rewrite take_ge by lia. done.
Qed.

Lemma truncate_limit_0 {A} (l : list A) : truncate_limit 0 l = l.
Proof. reflexivity. Qed.

Lemma index_Ok {A} (l : list A) i a : l !! i = Some a → index l i = Ok a.
Proof. unfold index. by intros ->. Qed.

Lemma index_app_l {A} (l k : list A) i a : l !! i = Some a → index (l ++ k) i = Ok a.
Proof. intros H. apply index_Ok. by apply lookup_app_l_Some. Qed.

Lemma index_lt {A} (l : list A) i : (i < length l)%nat → ∃ a, l !! i = Some a ∧ index l i = Ok a.
Proof. intros [a H]%lookup_lt_is_Some_2. eauto using index_Ok. Qed.

Lemma slice_Ok {A} (l : list A) lo hi :
  (lo ≤ hi ≤ length l)%nat → slice l lo hi = Ok (take (hi - lo) (drop lo l)).
Proof. intros. unfold slice. by rewrite bool_decide_eq_true_2. Qed.

Lemma slice_from_Ok {A} (l : list A) lo :
  (lo ≤ length l)%nat → slice_from l lo = Ok (drop lo l).
Proof.
  intros. unfold slice_from. rewrite slice_Ok by lia.
  by rewrite take_ge by (rewrite length_drop; lia).
Qed.

Lemma length_go_copy {A} (dst src : list A) : length (go_copy dst src) = length dst.
Proof. unfold go_copy. rewrite length_app, length_take, length_drop. lia. Qed.

Lemma go_copy_exact {A} (dst src : list A) : length dst = length src → go_copy dst src = src.
Proof.
  intros H. unfold go_copy. rewrite take_ge, drop_ge by lia. apply app_nil_r.
Qed.

(** ** Automation *)
Create HintDb broker discriminated.
Create Rewrite HintDb broker.
#[export] Hint Resolve sort_stable_perm truncate_limit_prefix : broker.

Lemma Ok_inj {A} (a b : A) : Ok a = Ok b → a = b.
Proof. congruence. Qed.

Lemma Err_inj {A} (e f : error) : Err (A := A) e = Err f → e = f.
Proof. congruence. Qed.

(** Boolean tests of the hypotheses as propositions, then [lia]. *)
Ltac zbool := repeat match goal with
  | H : _ || _ = false |- _ => apply orb_false_iff in H as [? ?]
  | H : _ || _ = true |- _ => apply orb_true_iff in H as [?|?]
  | H : _ && _ = true |- _ => apply andb_true_iff in H as [? ?]
  | H : _ && _ = false |- _ => apply andb_false_iff in H as [?|?]
  | H : negb _ = true |- _ => apply negb_true_iff in H
  | H : negb _ = false |- _ => apply negb_false_iff in H
  | H : (_ <? _) = true |- _ => apply Z.ltb_lt in H
  | H : (_ <? _) = false |- _ => apply Z.ltb_ge in H
  | H : (_ <=? _) = true |- _ => apply Z.leb_le in H
  | H : (_ <=? _) = false |- _ => apply Z.leb_gt in H
  | H : (_ =? _) = true |- _ => apply Z.eqb_eq in H
  | H : (_ =? _) = false |- _ => apply Z.eqb_neq in H
  | H : bool_decide _ = true |- _ => apply bool_decide_eq_true in H
  | H : bool_decide _ = false |- _ => apply bool_decide_eq_false in H
  end.
Ltac zlia := zbool; lia.

Ltac simplify_res := repeat match goal with
  | H : Ok _ = Ok _ |- _ => apply Ok_inj in H
  | H : Err _ = Err _ |- _ => apply Err_inj in H
  | H : Ok _ = Err _ |- _ => discriminate H
  | H : Err _ = Ok _ |- _ => discriminate H
  | H : Ok _ = Panic |- _ => discriminate H
  | H : Panic = Ok _ |- _ => discriminate H
  | H : Err _ = Panic |- _ => discriminate H
  | H : Panic = Err _ |- _ => discriminate H
  | H : (_, _) = (_, _) |- _ => apply pair_eq in H as [? ?]
  end; subst.
