(* ===== verification/Bytes.v ===== *)
(** * Bytes, machine integers and text

    What the sources use of Go's fixed-width integers, of [encoding/binary]
    (big-endian), of [encoding/hex] and of the [string(rune(x))] conversion.
    A byte is an [ascii], so that a Go string (a byte sequence) is a
    [string] and a [[]byte] is a [list byte]. *)

From S2P Require Import Prelude.
From Stdlib Require Import Ascii.
From Stdlib Require String.

Abbreviation byte := ascii.
Abbreviation bytes := (list ascii).

(** ** Bytes and unsigned integers *)
Definition b2z (b : byte) : Z := Z.of_N (N_of_ascii b).

(** The conversion [byte(x)]: truncation to eight bits. *)
Definition z2b (x : Z) : byte := ascii_of_N (Z.to_N (x `mod` 256)).

Definition u16 (x : Z) : Z := x `mod` 2 ^ 16.
Definition u32 (x : Z) : Z := x `mod` 2 ^ 32.
Definition u64 (x : Z) : Z := x `mod` 2 ^ 64.

(** The conversion of a 32-bit pattern to [rune] (int32). *)
Definition s32 (x : Z) : Z := (x + 2 ^ 31) `mod` 2 ^ 32 - 2 ^ 31.

Lemma u32_range x : 0 ≤ u32 x < 2 ^ 32.
Proof. apply Z.mod_pos_bound. lia. Qed.

(** ** Strings and byte slices: [[]byte(s)] and [string(b)] *)
Definition string_bytes (s : string) : bytes := String.list_ascii_of_string s.
Definition bytes_string (l : bytes) : string := String.string_of_list_ascii l.

(** ** Big-endian integers: [binary.BigEndian.UintN] and [PutUintN] *)
Definition be_get (l : bytes) : Z := foldl (λ acc b, acc * 256 + b2z b) 0 l.

Fixpoint be_put (n : nat) (x : Z) : bytes :=
  match n with
  | O => []
  | S n' => z2b (x / 256 ^ Z.of_nat n') :: be_put n' x
  end.

(** ** [string(rune(x))]: UTF-8 encoding, invalid code points replaced *)
Definition valid_rune (r : Z) : bool :=
  ((0 <=? r) && (r <? 0xD800)) || ((0xDFFF <? r) && (r <=? 0x10FFFF)).

Definition utf8_encode (r : Z) : bytes :=
  if r <? 0x80 then [z2b r]
  else if r <? 0x800 then [z2b (0xC0 + r / 64); z2b (0x80 + r `mod` 64)]
  else if r <? 0x10000 then
    [z2b (0xE0 + r / 4096); z2b (0x80 + (r / 64) `mod` 64); z2b (0x80 + r `mod` 64)]
  else
    [z2b (0xF0 + r / 262144); z2b (0x80 + (r / 4096) `mod` 64);
     z2b (0x80 + (r / 64) `mod` 64); z2b (0x80 + r `mod` 64)].

Definition rune_string (r : Z) : bytes :=
  utf8_encode (if valid_rune r then r else 0xFFFD).

(** ** [hex.EncodeToString] *)
Definition hex_digit (n : Z) : byte := z2b (if n <? 10 then 48 + n else 87 + n).

Definition hex_encode (l : bytes) : string :=
  bytes_string (l ≫= λ b, [hex_digit (b2z b / 16); hex_digit (b2z b `mod` 16)]).

(** ** Lemmas *)
Lemma b2z_range b : 0 ≤ b2z b < 256.
Proof. unfold b2z. pose proof (N_ascii_bounded b). lia. Qed.

Lemma b2z_z2b x : b2z (z2b x) = x `mod` 256.
Proof.
  unfold b2z, z2b. pose proof (Z.mod_pos_bound x 256 ltac:(lia)).
  rewrite N_ascii_embedding by lia. lia.
Qed.

Lemma b2z_z2b_small x : 0 ≤ x < 256 → b2z (z2b x) = x.
Proof. intros. rewrite b2z_z2b. by apply Z.mod_small. Qed.

Lemma z2b_b2z b : z2b (b2z b) = b.
Proof.
  unfold z2b. rewrite Z.mod_small by apply b2z_range.
  unfold b2z. rewrite N2Z.id. apply ascii_N_embedding.
Qed.

Lemma b2z_inj a b : b2z a = b2z b → a = b.
Proof. intros H. by rewrite <-(z2b_b2z a), H, z2b_b2z. Qed.

Lemma z2b_inj x y : 0 ≤ x < 256 → 0 ≤ y < 256 → z2b x = z2b y → x = y.
Proof. intros ?? H. apply (f_equal b2z) in H. by rewrite !b2z_z2b_small in H. Qed.

Lemma string_bytes_string l : string_bytes (bytes_string l) = l.
Proof. apply String.list_ascii_of_string_of_list_ascii. Qed.

Lemma bytes_string_bytes s : bytes_string (string_bytes s) = s.
Proof. apply String.string_of_list_ascii_of_string. Qed.

Lemma bytes_string_inj l k : bytes_string l = bytes_string k → l = k.
Proof. intros H. by rewrite <-(string_bytes_string l), H, string_bytes_string. Qed.

Lemma string_bytes_inj s t : string_bytes s = string_bytes t → s = t.
Proof. intros H. by rewrite <-(bytes_string_bytes s), H, bytes_string_bytes. Qed.

Lemma string_bytes_app s t : string_bytes (s +:+ t) = string_bytes s ++ string_bytes t.
Proof.
  unfold string_bytes. induction s as [|c s IH]; cbn; [done|]. by rewrite <-IH.
Qed.

Lemma length_be_put n x : length (be_put n x) = n.
Proof. induction n; cbn; congruence. Qed.

Lemma be_get_foldl l acc :
  foldl (λ a b, a * 256 + b2z b) acc l = acc * 256 ^ Z.of_nat (length l) + be_get l.
Proof.
  unfold be_get. revert acc. induction l as [|b l IH]; intros acc; cbn [foldl length].
  { cbn. lia. }
  rewrite IH, (IH (0 * 256 + b2z b)), Nat2Z.inj_succ, Z.pow_succ_r by lia. ring.
Qed.

Lemma be_get_cons b l :
  be_get (b :: l) = b2z b * 256 ^ Z.of_nat (length l) + be_get l.
Proof. unfold be_get at 1. cbn [foldl]. rewrite be_get_foldl. lia. Qed.

Lemma be_get_range l : 0 ≤ be_get l < 256 ^ Z.of_nat (length l).
Proof.
  induction l as [|b l IH]; [done|].
  rewrite be_get_cons. cbn [length]. rewrite Nat2Z.inj_succ, Z.pow_succ_r by lia.
  pose proof (b2z_range b). nia.
Qed.

Lemma be_get_put n x : be_get (be_put n x) = x `mod` 256 ^ Z.of_nat n.
Proof.
  induction n as [|n IH]; [cbn; by rewrite Z.mod_1_r|].
  cbn [be_put]. rewrite be_get_cons, length_be_put, b2z_z2b, IH.
  rewrite Nat2Z.inj_succ, Z.pow_succ_r, (Z.mul_comm 256), Z.rem_mul_r by lia. lia.
Qed.

Lemma be_get_put_small n x :
  0 ≤ x < 256 ^ Z.of_nat n → be_get (be_put n x) = x.
Proof. intros. rewrite be_get_put. by apply Z.mod_small. Qed.

Lemma be_put_add_high k n x y :
  (k ≤ n)%nat → be_put k (x * 256 ^ Z.of_nat n + y) = be_put k y.
Proof.
  induction k as [|k IH]; intros Hle; [done|]. cbn [be_put].
  rewrite IH by lia. f_equal. unfold z2b. do 2 f_equal.
  replace (Z.of_nat n) with (Z.of_nat (n - S k) + 1 + Z.of_nat k) by lia.
  rewrite !Z.pow_add_r, Z.pow_1_r, !Z.mul_assoc, Z.div_add_l by lia.
  rewrite (Z.add_comm _ (y / _)), Z.mod_add by lia. done.
Qed.

Lemma be_put_get l : be_put (length l) (be_get l) = l.
Proof.
  induction l as [|b l IH]; [done|]. cbn [length be_put]. rewrite be_get_cons.
  pose proof (be_get_range l). f_equal.
  - rewrite Z.div_add_l, Z.div_small by lia. rewrite Z.add_0_r. apply z2b_b2z.
  - by rewrite be_put_add_high.
Qed.

Lemma be_put_get' n l : length l = n → be_put n (be_get l) = l.
Proof. intros <-. apply be_put_get. Qed.

(** A valid code point is recovered from its encoding, so [string(rune(_))]
    separates valid code points; every invalid one becomes U+FFFD. *)
Definition utf8_value (l : bytes) : Z :=
  match l with
  | [a] => b2z a
  | [a; b] => (b2z a - 0xC0) * 64 + (b2z b - 0x80)
  | [a; b; c] => (b2z a - 0xE0) * 4096 + (b2z b - 0x80) * 64 + (b2z c - 0x80)
  | [a; b; c; d] =>
      (b2z a - 0xF0) * 262144 + (b2z b - 0x80) * 4096 + (b2z c - 0x80) * 64 + (b2z d - 0x80)
  | _ => -1
  end.

Lemma utf8_value_encode r : valid_rune r = true → utf8_value (utf8_encode r) = r.
Proof.
  unfold valid_rune, utf8_encode. intros H.
  repeat case_match; cbn [utf8_value]; rewrite ?b2z_z2b;
    repeat match goal with
    | H : (_ <? _) = _ |- _ => first [apply Z.ltb_lt in H | apply Z.ltb_ge in H]
    end; Z.div_mod_to_equations; lia.
Qed.

Lemma rune_string_inj r s :
  valid_rune r = true → valid_rune s = true → rune_string r = rune_string s → r = s.
Proof.
  unfold rune_string. intros Hr Hs. rewrite Hr, Hs. intros H.
  by rewrite <-(utf8_value_encode r), H, utf8_value_encode.
Qed.

Lemma rune_string_invalid r : valid_rune r = false → rune_string r = utf8_encode 0xFFFD.
Proof. unfold rune_string. by intros ->. Qed.

#[global] Arguments be_put : simpl never.
#[global] Arguments be_get : simpl never.
#[global] Arguments b2z : simpl never.
#[global] Arguments z2b : simpl never.

#[export] Hint Resolve b2z_range be_get_range : broker.
#[export] Hint Rewrite b2z_z2b z2b_b2z length_be_put string_bytes_string bytes_string_bytes
  string_bytes_app : broker.
