(* ===== verification/Wire.v ===== *)
(** * AMQP wire data: frames, performatives and the protocol header

    Models [internal/amqp/domain]: [constants.go], [frame.go],
    [performative.go] and [protocol.go].  Indexing and slicing go through
    [index], [slice] and [slice_from], which panic out of range, so that a
    theorem that a parser returns [Ok] or [Err] says it never panics. *)

From S2P Require Import Prelude Bytes.

(** ** Constants *)
Definition FrameHeaderSize : Z := 8.
Definition FrameTypeAMQP : byte := z2b 0.
Definition FrameTypeSASL : byte := z2b 1.
Definition DescriptorOpen : byte := z2b 0x10.
Definition DescriptorBegin : byte := z2b 0x11.
Definition DescriptorAttach : byte := z2b 0x12.
Definition DescriptorFlow : byte := z2b 0x13.
Definition DescriptorTransfer : byte := z2b 0x14.
Definition DescriptorDisposition : byte := z2b 0x15.
Definition DescriptorDetach : byte := z2b 0x16.
Definition DescriptorEnd : byte := z2b 0x17.
Definition DescriptorClose : byte := z2b 0x18.
Definition DescriptorSASLMechanisms : byte := z2b 0x40.
Definition DescriptorSASLInit : byte := z2b 0x41.
Definition DescriptorSASLChallenge : byte := z2b 0x42.
Definition DescriptorSASLResponse : byte := z2b 0x43.
Definition DescriptorSASLOutcome : byte := z2b 0x44.

Definition Names : list (byte * string) :=
  [(DescriptorOpen, "open"); (DescriptorBegin, "begin"); (DescriptorAttach, "attach");
   (DescriptorFlow, "flow"); (DescriptorTransfer, "transfer");
   (DescriptorDisposition, "disposition"); (DescriptorDetach, "detach");
   (DescriptorEnd, "end"); (DescriptorClose, "close");
   (DescriptorSASLMechanisms, "sasl-mechanisms"); (DescriptorSASLInit, "sasl-init");
   (DescriptorSASLChallenge, "sasl-challenge"); (DescriptorSASLResponse, "sasl-response");
   (DescriptorSASLOutcome, "sasl-outcome")].

(** A Go map literal with a byte key, read with [v, ok := m[k]]. *)
Fixpoint byte_map_get {A} (m : list (byte * A)) (k : byte) : option A :=
  match m with
  | [] => None
  | (k', a) :: m' => if bool_decide (k = k') then Some a else byte_map_get m' k
  end.

(** ** Frames *)
Record Frame := mkFrame {
  f_Size : Z;
  f_DataOffset : byte;
  f_Type : byte;
  f_Channel : Z;
  f_Body : bytes
}.

Definition ParseFrame (raw : bytes) (max : Z) : res Frame :=
  if Z.of_nat (length raw) <? FrameHeaderSize then Err (ErrNew "frame shorter than header")
  else
    hd ← slice raw 0 4;
    let size := be_get hd in
    if size <? FrameHeaderSize then Err (ErrNew "frame size below minimum")
    else if (0 <? max) && (max <? size) then
      Err (ErrFmt "frame size exceeds maximum" [size; max])
    else if negb (size =? Z.of_nat (length raw)) then
      Err (ErrFmt "declared frame size differs from bytes" [size; Z.of_nat (length raw)])
    else
      offset ← index raw 4;
      if b2z offset <? 2 then Err (ErrNew "data offset below two words")
      else
        let headerBytes := b2z offset * 4 in
        if Z.of_nat (length raw) <? headerBytes then
          Err (ErrNew "data offset exceeds frame")
        else
          typ ← index raw 5;
          if negb (bool_decide (typ = FrameTypeAMQP)) && negb (bool_decide (typ = FrameTypeSASL))
          then Err (ErrFmt "unsupported frame type" [b2z typ])
          else
            chan ← slice raw 6 8;
            body ← slice_from raw (Z.to_nat headerBytes);
            Ok (mkFrame size offset typ (be_get chan) body).

Definition Frame_Marshal (f : Frame) (max : Z) : res bytes :=
  let offset := if b2z (f_DataOffset f) =? 0 then z2b 2 else f_DataOffset f in
  let size := u32 (b2z offset * 4 + u32 (Z.of_nat (length (f_Body f)))) in
  if size <? 8 then Err (ErrNew "invalid frame size")
  else if (0 <? max) && (max <? size) then Err (ErrNew "frame exceeds negotiated maximum")
  else
    let out := replicate (Z.to_nat size) (z2b 0) in
    let out := be_put 4 size ++ [offset; f_Type f] ++ be_put 2 (f_Channel f) ++ drop 8 out in
    let k := Z.to_nat (b2z offset * 4) in
    tail ← slice_from out k;
    Ok (take k out ++ go_copy tail (f_Body f)).

(** ** Performatives

    The dynamic types of a field ([any]) that the codec knows.  A Go
    [map[string]any] is an association list; [VOther] is a value of any
    dynamic type the codec does not handle. *)
#[local] Unset Elimination Schemes.
Inductive value :=
  | VNil
  | VBool (b : bool)
  | VU8 (x : byte)
  | VU16 (x : Z)
  | VU32 (x : Z)
  | VU64 (x : Z)
  | VString (s : string)
  | VSymbol (s : string)
  | VBinary (b : bytes)
  | VList (l : list value)
  | VMap (m : list (string * value))
  | VOther.
#[local] Set Elimination Schemes.

Definition is_nil (v : value) : bool := match v with VNil => true | _ => false end.

Record Performative := mkPerformative {
  p_Descriptor : byte;
  p_Fields : list value
}.

(** [%x] of a byte: no leading zero. *)
Definition hex_byte (b : byte) : string :=
  if b2z b <? 16 then bytes_string [hex_digit (b2z b)]
  else bytes_string [hex_digit (b2z b / 16); hex_digit (b2z b `mod` 16)].

Definition Performative_Name (p : Performative) : string :=
  match byte_map_get Names (p_Descriptor p) with
  | Some n => n
  | None => "unknown-0x" +:+ hex_byte (p_Descriptor p)
  end.

Definition Performative_Field (p : Performative) (i : Z) : value :=
  if (i <? 0) || (Z.of_nat (length (p_Fields p)) <=? i) then VNil
  else default VNil (p_Fields p !! Z.to_nat i).

Definition Performative_String (p : Performative) (i : Z) : string :=
  match Performative_Field p i with
  | VString s => s
  | VSymbol s => s
  | _ => ""
  end.

Definition Performative_Uint (p : Performative) (i : Z) : Z :=
  match Performative_Field p i with
  | VU32 x => x
  | VU16 x => x
  | VU8 x => b2z x
  | VU64 x => u32 x
  | _ => 0
  end.

Definition Performative_Bool (p : Performative) (i : Z) : bool :=
  match Performative_Field p i with VBool b => b | _ => false end.

Definition Performative_Binary (p : Performative) (i : Z) : bytes :=
  match Performative_Field p i with VBinary b => b | _ => [] end.

Definition min_fields : list (byte * Z) :=
  [(DescriptorOpen, 1); (DescriptorBegin, 0); (DescriptorAttach, 3); (DescriptorFlow, 0);
   (DescriptorTransfer, 1); (DescriptorDisposition, 2); (DescriptorDetach, 1);
   (DescriptorEnd, 0); (DescriptorClose, 0); (DescriptorSASLMechanisms, 1);
   (DescriptorSASLInit, 1); (DescriptorSASLChallenge, 1); (DescriptorSASLResponse, 1);
   (DescriptorSASLOutcome, 1)].

Definition Performative_Validate (p : Performative) : res unit :=
  match byte_map_get min_fields (p_Descriptor p) with
  | None => Err (ErrFmt "unknown performative descriptor" [b2z (p_Descriptor p)])
  | Some n =>
      if Z.of_nat (length (p_Fields p)) <? n then
        Err (ErrWrap (Performative_Name p) (ErrFmt "requires at least n fields" [n]))
      else if bool_decide (p_Descriptor p = DescriptorOpen) && bool_decide (Performative_String p 0 = "") then
        Err (ErrNew "open container-id required")
      else if bool_decide (p_Descriptor p = DescriptorAttach) && bool_decide (Performative_String p 0 = "") then
        Err (ErrNew "attach name required")
      else if bool_decide (p_Descriptor p = DescriptorTransfer) && is_nil (Performative_Field p 0) then
        Err (ErrNew "transfer handle required")
      else Ok tt
  end.

(** ** The protocol header *)
Definition AMQPHeader : bytes := string_bytes "AMQP" ++ [z2b 0; z2b 1; z2b 0; z2b 0].
Definition SASLHeader : bytes := string_bytes "AMQP" ++ [z2b 3; z2b 1; z2b 0; z2b 0].

Definition ValidateProtocolHeader (h : bytes) : res byte :=
  if negb (Z.of_nat (length h) =? 8) then
    Err (ErrNew "protocol header must be eight bytes")
  else
    magic ← slice h 0 4;
    if negb (bool_decide (magic = string_bytes "AMQP")) then Err (ErrNew "invalid AMQP magic")
    else
      h5 ← index h 5; h6 ← index h 6; h7 ← index h 7;
      if negb (b2z h5 =? 1) || negb (b2z h6 =? 0) || negb (b2z h7 =? 0) then
        Err (ErrFmt "unsupported AMQP version" [b2z h5; b2z h6; b2z h7])
      else
        h4 ← index h 4;
        if negb (b2z h4 =? 0) && negb (b2z h4 =? 3) then
          Err (ErrFmt "unsupported protocol id" [b2z h4])
        else Ok h4.

(** ** Frame lemmas *)

(** A frame the sender may build: the channel is a uint16, the type is one of
    the two known, the data offset is the default (0) or at least two words and
    the total size fits a uint32. *)
Definition frame_offset (f : Frame) : Z :=
  if b2z (f_DataOffset f) =? 0 then 2 else b2z (f_DataOffset f).

Definition frame_total (f : Frame) : Z := frame_offset f * 4 + Z.of_nat (length (f_Body f)).

Definition frame_wf (f : Frame) : Prop :=
  0 ≤ f_Channel f < 2 ^ 16 ∧ 2 ≤ frame_offset f ∧ frame_total f < 2 ^ 32 ∧
  (f_Type f = FrameTypeAMQP ∨ f_Type f = FrameTypeSASL).

(** The bytes of a marshalled frame: the header, the zeroed extended header
    and the body. *)
Definition frame_bytes (f : Frame) : bytes :=
  be_put 4 (frame_total f) ++ [z2b (frame_offset f); f_Type f] ++ be_put 2 (f_Channel f) ++
  replicate (Z.to_nat (frame_offset f * 4) - 8) (z2b 0) ++ f_Body f.

Lemma frame_offset_byte f :
  (if b2z (f_DataOffset f) =? 0 then z2b 2 else f_DataOffset f) = z2b (frame_offset f).
Proof. unfold frame_offset. case_match; [done|]. by rewrite z2b_b2z. Qed.

Lemma frame_offset_range f : 0 ≤ frame_offset f < 256.
Proof. unfold frame_offset. pose proof (b2z_range (f_DataOffset f)). case_match; lia. Qed.

Lemma length_frame_bytes f :
  2 ≤ frame_offset f → Z.of_nat (length (frame_bytes f)) = frame_total f.
Proof.
  intros. unfold frame_bytes, frame_total.
  rewrite !length_app, !length_be_put, length_replicate. cbn [length]. lia.
Qed.

Lemma Frame_Marshal_wf f max :
  frame_wf f → (0 < max → frame_total f ≤ max) →
  Frame_Marshal f max = Ok (frame_bytes f).
Proof.
  intros (_ & Hoff & Htot & _) Hmax. pose proof (frame_offset_range f).
  assert (frame_total f = frame_offset f * 4 + Z.of_nat (length (f_Body f))) as Et by done.
  unfold Frame_Marshal. cbv zeta. rewrite frame_offset_byte, b2z_z2b_small by lia.
  unfold u32. rewrite !Z.mod_small by (rewrite ?Z.mod_small; lia). rewrite <-Et.
  rewrite (proj2 (Z.ltb_ge _ _)) by lia.
  replace ((0 <? max) && (max <? frame_total f)) with false by lia.
  rewrite slice_from_Ok.
  2: { rewrite !length_app, !length_be_put, length_drop, length_replicate. cbn [length]. lia. }
  unfold mbind, res_mbind, res_bind. f_equal. rewrite go_copy_exact.
  2: { rewrite length_drop, !length_app, !length_be_put, length_drop, length_replicate.
       cbn [length]. lia. }
  unfold frame_bytes. rewrite !app_assoc. f_equal. rewrite drop_replicate, take_app.
  rewrite take_ge by (rewrite !length_app, !length_be_put; cbn [length]; lia).
  f_equal. rewrite take_replicate. f_equal.
  rewrite !length_app, !length_be_put. cbn [length]. lia.
Qed.

Lemma Frame_Marshal_Ok_bound f max raw :
  frame_wf f → Frame_Marshal f max = Ok raw → 0 < max → frame_total f ≤ max.
Proof.
  intros (_ & Hoff & Htot & _) H Hmax. pose proof (frame_offset_range f).
  assert (frame_total f = frame_offset f * 4 + Z.of_nat (length (f_Body f))) as Et by done.
  unfold Frame_Marshal in H. cbv zeta in H.
  rewrite frame_offset_byte, b2z_z2b_small in H by lia.
  unfold u32 in H. rewrite !Z.mod_small in H by (rewrite ?Z.mod_small; lia).
  rewrite <-Et in H. repeat case_match; simplify_res; lia.
Qed.

(** What [ParseFrame] returns on bytes laid out as a frame. *)
Lemma ParseFrame_bytes f max :
  frame_wf f → (0 < max → frame_total f ≤ max) →
  ParseFrame (frame_bytes f) max =
    Ok (mkFrame (frame_total f) (z2b (frame_offset f)) (f_Type f) (f_Channel f) (f_Body f)).
Proof.
  intros (Hch & Hoff & Htot & Hty) Hmax. pose proof (frame_offset_range f).
  pose proof (length_frame_bytes f Hoff) as Hlen.
  unfold ParseFrame, mbind, res_mbind. rewrite Hlen. unfold FrameHeaderSize.
  assert (frame_total f = frame_offset f * 4 + Z.of_nat (length (f_Body f))) as Et by done.
  rewrite (proj2 (Z.ltb_ge _ _)) by lia.
  rewrite slice_Ok by lia. cbn [res_bind Nat.sub]. rewrite drop_0.
  replace (take 4 (frame_bytes f)) with (be_put 4 (frame_total f)).
  2: { unfold frame_bytes. rewrite take_app_le, take_ge by (rewrite length_be_put; lia). done. }
  rewrite be_get_put_small by (cbn; lia). rewrite (proj2 (Z.ltb_ge _ _)) by lia.
  replace ((0 <? max) && (max <? frame_total f)) with false by lia.
  rewrite Z.eqb_refl. cbn [negb].
  assert (frame_bytes f !! 4%nat = Some (z2b (frame_offset f))) as H4 by reflexivity.
  rewrite (index_Ok _ _ _ H4). cbn [res_bind]. rewrite b2z_z2b_small by lia.
  rewrite !(proj2 (Z.ltb_ge _ _)) by lia.
  assert (frame_bytes f !! 5%nat = Some (f_Type f)) as H5 by reflexivity.
  rewrite (index_Ok _ _ _ H5). cbn [res_bind].
  replace (negb _ && negb _) with false
    by (destruct Hty as [-> | ->]; vm_compute; reflexivity).
  rewrite slice_Ok by lia. cbn [res_bind].
  replace (take (8 - 6) (drop 6 (frame_bytes f))) with (be_put 2 (f_Channel f)) by reflexivity.
  rewrite slice_from_Ok by lia. cbn [res_bind]. do 2 f_equal.
  - apply be_get_put_small. cbn. lia.
  - unfold frame_bytes. rewrite !app_assoc. rewrite drop_app_length'; [done|].
    rewrite !length_app, !length_be_put, length_replicate. cbn [length]. lia.
Qed.

(** [ParseFrame] on arbitrary bytes: it never panics, and what it accepts is
    a frame of the declared size within the maximum. *)
Definition accepted_frame (raw : bytes) (max : Z) (f : Frame) : Prop :=
  f_Size f = Z.of_nat (length raw) ∧ 8 ≤ f_Size f < 2 ^ 32 ∧ (0 < max → f_Size f ≤ max) ∧
  2 ≤ b2z (f_DataOffset f) ∧ b2z (f_DataOffset f) * 4 ≤ f_Size f ∧
  (f_Type f = FrameTypeAMQP ∨ f_Type f = FrameTypeSASL) ∧
  0 ≤ f_Channel f < 2 ^ 16 ∧
  f_Body f = drop (Z.to_nat (b2z (f_DataOffset f) * 4)) raw ∧
  take 8 raw = be_put 4 (f_Size f) ++ [f_DataOffset f; f_Type f] ++ be_put 2 (f_Channel f).

Lemma take8_split (raw : bytes) o t :
  (8 ≤ length raw)%nat → raw !! 4%nat = Some o → raw !! 5%nat = Some t →
  take 8 raw = take 4 raw ++ [o; t] ++ take 2 (drop 6 raw).
Proof.
  intros Hlen. do 8 (destruct raw as [|? raw]; [cbn in Hlen; lia|]).
  intros [= ->] [= ->]. done.
Qed.

Lemma ParseFrame_spec raw max :
  match ParseFrame raw max with
  | Ok f => accepted_frame raw max f
  | Err _ => True
  | Panic => False
  end.
Proof.
  unfold ParseFrame, mbind, res_mbind, FrameHeaderSize.
  destruct (Z.ltb_spec (Z.of_nat (length raw)) 8) as [|Hlen]; [done|].
  rewrite slice_Ok by lia. cbn [res_bind Nat.sub]. rewrite drop_0.
  destruct (Z.ltb_spec (be_get (take 4 raw)) 8) as [|H8]; [done|].
  destruct ((0 <? max) && _) eqn:Hmax; [done|].
  destruct (Z.eqb_spec (be_get (take 4 raw)) (Z.of_nat (length raw))) as [Hsz|]; [|done].
  cbn [negb]. destruct (index_lt raw 4) as (o & Ho & ->); [lia|]. cbn [res_bind].
  destruct (Z.ltb_spec (b2z o) 2); [done|].
  destruct (Z.ltb_spec (Z.of_nat (length raw)) (b2z o * 4)); [done|].
  destruct (index_lt raw 5) as (t & Ht & ->); [lia|]. cbn [res_bind].
  destruct (negb _ && negb _) eqn:Hty; [done|].
  rewrite slice_Ok, slice_from_Ok by lia. cbn [res_bind Nat.sub].
  assert (length (take 2 (drop 6 raw)) = 2%nat) as L2 by (rewrite length_take, length_drop; lia).
  assert (length (take 4 raw) = 4%nat) as L4 by (rewrite length_take; lia).
  pose proof (be_get_range (take 2 (drop 6 raw))) as Hch. rewrite L2 in Hch.
  pose proof (be_get_range (take 4 raw)) as Hs4. rewrite L4 in Hs4.
  unfold accepted_frame. cbn [f_Size f_DataOffset f_Type f_Channel f_Body].
  repeat split; try lia; try done.
  - apply andb_false_iff in Hty as [E|E]; apply negb_false_iff, bool_decide_eq_true in E; auto.
  - rewrite (take8_split raw o t) by (done || lia).
    by rewrite !be_put_get' by (done || rewrite length_take; lia).
Qed.

(** ** Properties of frames *)

(** Frame round trip: whatever [Frame.Marshal] writes for a frame with a
    uint16 channel, a known type, a default or at least two-word data offset
    and a size that fits a uint32, [ParseFrame] reads back with the same
    maximum: same type, channel and body, and the size and data offset that
    were written. *)
Theorem ParseFrame_Marshal (f : Frame) (max : Z) (raw : bytes) :
  frame_wf f → Frame_Marshal f max = Ok raw →
  ParseFrame raw max =
    Ok (mkFrame (frame_total f) (z2b (frame_offset f)) (f_Type f) (f_Channel f) (f_Body f)).
Proof.
  intros Hwf H. pose proof (Frame_Marshal_Ok_bound _ _ _ Hwf H) as Hmax.
  rewrite (Frame_Marshal_wf _ _ Hwf Hmax) in H. injection H as <-.
  by apply ParseFrame_bytes.
Qed.

(** [ParseFrame] is safe on arbitrary input: it never indexes or slices
    out of range, and a frame it accepts has the declared size, which is the
    number of bytes given and at most the (non-zero) maximum, a data offset of
    at least two words inside the frame, a known type and the bytes after the
    data offset as its body. *)
Theorem ParseFrame_safe (raw : bytes) (max : Z) :
  ParseFrame raw max ≠ Panic ∧
  (∀ f, ParseFrame raw max = Ok f → accepted_frame raw max f).
Proof.
  pose proof (ParseFrame_spec raw max) as H.
  destruct (ParseFrame raw max); split; try done. by intros ? [= <-].
Qed.

(** Re-marshalling: a frame parsed without an extended header (data
    offset 2) marshals back to the very bytes it was parsed from. *)
Theorem Marshal_ParseFrame (raw : bytes) (max : Z) (f : Frame) :
  ParseFrame raw max = Ok f → f_DataOffset f = z2b 2 → Frame_Marshal f max = Ok raw.
Proof.
  intros H Ho. pose proof (ParseFrame_spec raw max) as Hs. rewrite H in Hs.
  destruct Hs as (Hsz & H8 & Hmax & _ & _ & Hty & Hch & Hb & Htk).
  assert (length raw = 8 + length (f_Body f))%nat as Hlen.
  { rewrite Hb, Ho, length_drop. change (Z.to_nat (b2z (z2b 2) * 4)) with 8%nat. lia. }
  assert (frame_offset f = 2) as Eo by (unfold frame_offset; by rewrite Ho).
  assert (frame_total f = f_Size f) as Et by (unfold frame_total; lia).
  rewrite Frame_Marshal_wf.
  - f_equal. unfold frame_bytes. rewrite Eo, Et, Ho in *. cbn [replicate].
    change (Z.to_nat (2 * 4) - 8)%nat with 0%nat. cbn [replicate app].
    rewrite Hb. change (Z.to_nat (b2z (z2b 2) * 4)) with 8%nat.
    rewrite <-(take_drop 8 raw) at 2. rewrite Htk. by rewrite <-!app_assoc.
  - unfold frame_wf. rewrite Eo, Et. repeat split; try done; lia.
  - rewrite Et. done.
Qed.

Lemma ValidateProtocolHeader_spec (h : bytes) :
  ValidateProtocolHeader h ≠ Panic ∧
  ∀ id, ValidateProtocolHeader h = Ok id ↔
    (h = AMQPHeader ∧ id = z2b 0) ∨ (h = SASLHeader ∧ id = z2b 3).
Proof.
  unfold ValidateProtocolHeader.
  destruct (Z.eqb_spec (Z.of_nat (length h)) 8) as [Hlen|Hlen]; cbn [negb].
  2: { split; [done|]. intros id. split; [done|]. by intros [[-> _]|[-> _]]. }
  do 8 (destruct h as [|? h]; [cbn in Hlen; lia|]). destruct h; [|cbn in Hlen; lia].
  rewrite slice_Ok by (cbn; lia).
  cbn -[Z.eqb b2z z2b string_bytes bool_decide]. clear Hlen.
  case_bool_decide as Hm; cbn -[Z.eqb b2z z2b string_bytes bool_decide].
  2: { split; [done|]. intros id. split; [done|].
       intros [[E _]|[E _]]; cbn in E; by simplify_eq/=. }
  destruct (negb (b2z a4 =? 1) || _ || _) eqn:Hv.
  { split; [done|]. intros id. split; [done|].
    intros [[E _]|[E _]]; cbn in E; simplify_eq/=; by vm_compute in Hv. }
  destruct (negb (b2z a3 =? 0) && _) eqn:Hp.
  { split; [done|]. intros id. split; [done|].
    intros [[E _]|[E _]]; cbn in E; simplify_eq/=; by vm_compute in Hp. }
  split; [done|]. intros id.
  assert (a4 = z2b 1) as -> by (apply b2z_inj; rewrite b2z_z2b_small by lia; lia).
  assert (a5 = z2b 0) as -> by (apply b2z_inj; rewrite b2z_z2b_small by lia; lia).
  assert (a6 = z2b 0) as -> by (apply b2z_inj; rewrite b2z_z2b_small by lia; lia).
  assert (a3 = z2b 0 ∨ a3 = z2b 3) as Ha.
  { assert (b2z a3 = 0 ∨ b2z a3 = 3) as [E|E] by lia; [left|right];
      apply b2z_inj; by rewrite b2z_z2b_small by lia. }
  cbn in Hm. injection Hm as -> -> -> ->. split.
  - intros [= <-]. destruct Ha as [-> | ->]; auto.
  - intros [[[= ->] ->]|[[= ->] ->]]; done.
Qed.

(** The protocol header check accepts exactly the two headers the broker
    speaks, AMQP 1.0.0 and SASL 1.0.0, returns their protocol id (0 or 3), and
    never panics, whatever the bytes. *)
Theorem ValidateProtocolHeader_exact (h : bytes) :
  ValidateProtocolHeader h ≠ Panic ∧
  ∀ id, ValidateProtocolHeader h = Ok id ↔
    (h = AMQPHeader ∧ id = z2b 0) ∨ (h = SASLHeader ∧ id = z2b 3).
Proof. apply ValidateProtocolHeader_spec. Qed.

(** ** Witnesses *)
Definition wit_raw : bytes := [z2b 0; z2b 0; z2b 0; z2b 10; z2b 2; z2b 1; z2b 1; z2b 3] ++ string_bytes "ab".

Lemma ParseFrame_Marshal_witness :
  ParseFrame wit_raw 512 = Ok (mkFrame 10 (z2b 2) FrameTypeSASL 259 (string_bytes "ab")).
Proof.
  apply (ParseFrame_Marshal (mkFrame 0 (z2b 0) FrameTypeSASL 259 (string_bytes "ab"))).
  - repeat split; try (vm_compute; congruence). by right.
  - vm_compute. reflexivity.
Defined.

Lemma Marshal_ParseFrame_witness :
  Frame_Marshal (mkFrame 10 (z2b 2) FrameTypeSASL 259 (string_bytes "ab")) 512 = Ok wit_raw.
Proof.
  apply (Marshal_ParseFrame wit_raw 512); vm_compute; reflexivity.
Defined.
