(* ===== verification/Codec.v ===== *)
(** * The AMQP type codec

    Models [internal/amqp/application]: [encoder.go], [decoder.go],
    [message.go] and [io.go].  The encoder is structurally recursive on the
    value.  The decoder is the Go [decoder] struct threaded through the [go]
    monad; its mutual recursion ([value], [list8], [list32]) takes fuel, and
    running out of fuel is reported as [Panic], so the no-panic theorem below
    also shows that the fuel [2 * remaining + 1] always suffices. *)

From S2P Require Import Prelude Bytes Wire.

(** ** Encoder *)
Definition encodeBytes (short long : byte) (v : bytes) : bytes :=
  if Z.of_nat (length v) <=? 255 then [short; z2b (Z.of_nat (length v))] ++ v
  else [long] ++ be_put 4 (u32 (Z.of_nat (length v))) ++ v.

Definition encode_concat (enc : value → res bytes) : list value → res bytes :=
  fix loop (fields : list value) : res bytes :=
    match fields with
    | [] => Ok []
    | f :: fields' => b ← enc f; rest ← loop fields'; Ok (b ++ rest)
    end.

Definition encode_list_with (enc : value → res bytes) (fields : list value) : res bytes :=
  match fields with
  | [] => Ok [z2b 0x45]
  | _ =>
      payload ← encode_concat enc fields;
      let n := Z.of_nat (length payload) in
      let count := Z.of_nat (length fields) in
      if (n + 1 <=? 255) && (count <=? 255) then
        Ok ([z2b 0xc0; z2b (n + 1); z2b count] ++ payload)
      else
        Ok ([z2b 0xd0] ++ be_put 4 (u32 (n + 4)) ++ be_put 4 (u32 count) ++ payload)
  end.

(** [m[k]] on a [map[string]any]: the zero value nil when absent. *)
Fixpoint map_get (m : list (string * value)) (k : string) : value :=
  match m with
  | [] => VNil
  | (k', v) :: m' => if bool_decide (k = k') then v else map_get m' k
  end.

Definition encode_at (enc : value → res bytes) (k : string) :
    list (string * value) → res bytes :=
  fix loop m :=
    match m with
    | [] => Ok [z2b 0x40]
    | (k', v) :: m' => if bool_decide (k = k') then enc v else loop m'
    end.

Fixpoint encodeValue (v : value) : res bytes :=
  match v with
  | VNil => Ok [z2b 0x40]
  | VBool x => if x then Ok [z2b 0x41] else Ok [z2b 0x42]
  | VU8 x => Ok [z2b 0x50; x]
  | VU16 x => Ok ([z2b 0x60] ++ be_put 2 x)
  | VU32 x =>
      if x =? 0 then Ok [z2b 0x43]
      else if x <? 256 then Ok [z2b 0x52; z2b x]
      else Ok ([z2b 0x70] ++ be_put 4 x)
  | VU64 x =>
      if x =? 0 then Ok [z2b 0x44]
      else if x <? 256 then Ok [z2b 0x53; z2b x]
      else Ok ([z2b 0x80] ++ be_put 8 x)
  | VString x => Ok (encodeBytes (z2b 0xa1) (z2b 0xb1) (string_bytes x))
  | VSymbol x => Ok (encodeBytes (z2b 0xa3) (z2b 0xb3) (string_bytes x))
  | VBinary x => Ok (encodeBytes (z2b 0xa0) (z2b 0xb0) x)
  | VList x => encode_list_with encodeValue x
  | VMap x =>
      match map_get x "descriptor" with
      | VU8 desc =>
          value ← encode_at encodeValue "value" x;
          Ok ([z2b 0x00; z2b 0x53; desc] ++ value)
      | _ => Err (ErrNew "described value lacks descriptor")
      end
  | VOther => Err (ErrNew "cannot encode AMQP value")
  end.

Definition encodeList (fields : list value) : res bytes := encode_list_with encodeValue fields.

(** [trimNulls]: the loop that steps [n] down past trailing nils. *)
Fixpoint trim_loop (v : list value) (n : nat) : nat :=
  match n with
  | O => O
  | S n' => if is_nil (default VNil (v !! n')) then trim_loop v n' else n
  end.

Definition trimNulls (v : list value) : list value := take (trim_loop v (length v)) v.

Definition EncodePerformative (p : Performative) : res bytes :=
  Performative_Validate p ≫= λ _,
  list ← encodeList (trimNulls (p_Fields p));
  Ok ([z2b 0x00; z2b 0x53; p_Descriptor p] ++ list).

(** ** Decoder *)
Record decoder := mkDecoder { d_data : bytes; d_pos : nat }.

Definition remaining (d : decoder) : Z := Z.of_nat (length (d_data d)) - Z.of_nat (d_pos d).

Definition set_pos (n : nat) (d : decoder) : decoder := mkDecoder (d_data d) n.

Definition need (n : Z) : go decoder unit := λ d,
  if (n <? 0) || (remaining d <? n) then (Err (ErrNew "truncated AMQP value"), d)
  else (Ok tt, d).

Definition d_byte : go decoder byte := λ d,
  match index (d_data d) (d_pos d) with
  | Ok v => (Ok v, set_pos (d_pos d + 1) d)
  | Err e => (Err e, d)
  | Panic => (Panic, d)
  end.

(** [binary.BigEndian.UintN(d.data[d.pos:])] panics on a short slice. *)
Definition d_uint (n : nat) : go decoder Z := λ d,
  match slice (d_data d) (d_pos d) (d_pos d + n) with
  | Ok v => (Ok (be_get v), set_pos (d_pos d + n) d)
  | Err e => (Err e, d)
  | Panic => (Panic, d)
  end.

(** [append([]byte(nil), d.data[d.pos:d.pos+n]...); d.pos += n]. *)
Definition d_take (n : Z) : go decoder bytes := λ d,
  match slice (d_data d) (d_pos d) (d_pos d + Z.to_nat n) with
  | Ok v => (Ok v, set_pos (d_pos d + Z.to_nat n) d)
  | Err e => (Err e, d)
  | Panic => (Panic, d)
  end.

Definition binary8 : go decoder bytes :=
  need 1;; n ← d_byte; need (b2z n);; d_take (b2z n).

Definition binary32 : go decoder bytes :=
  need 4;; n ← d_uint 4; rem ← gets remaining;
  if (n <? 0) || (rem <? n) then raise (ErrNew "invalid binary32 length")
  else d_take n.

Definition descriptor : go decoder byte :=
  need 1;; code ← d_byte;
  if b2z code =? 0x53 then need 1;; d_byte
  else if b2z code =? 0x70 then
    need 4;; v ← d_uint 4;
    if 255 <? v then raise (ErrNew "descriptor exceeds supported range")
    else mret (z2b v)
  else raise (ErrFmt "unsupported descriptor constructor" [b2z code]).

(** The tail of [list8] and [list32] once size and count are read: [adj] is
    the width of the count inside the declared size. *)
Definition list_body (items : Z → go decoder (list value)) (size count adj : Z)
    (bad_size exceed : string) : go decoder value :=
  rem ← gets remaining;
  if (size <? adj) || (rem <? size - adj) then raise (ErrNew bad_size)
  else
    pos ← gets d_pos;
    let end_ := Z.of_nat pos + size - adj in
    out ← items count;
    pos' ← gets d_pos;
    if end_ <? Z.of_nat pos' then raise (ErrNew exceed)
    else modify (set_pos (Z.to_nat end_));; mret (VList out).

Definition list8 (items : Z → go decoder (list value)) : go decoder value :=
  need 2;; size ← d_byte; count ← d_byte;
  list_body items (b2z size) (b2z count) 1 "invalid list8 size"
    "list8 fields exceed declared size".

Definition list32 (items : Z → go decoder (list value)) : go decoder value :=
  need 8;; size ← d_uint 4; count ← d_uint 4;
  list_body items size count 4 "invalid list32 size" "list32 fields exceed declared size".

(** The [switch code] of [decoder.value]; [val_] and [items] are the recursive
    calls. *)
Definition decode_code (val_ : go decoder value) (items : Z → go decoder (list value))
    (c : Z) : go decoder value :=
  if c =? 0x40 then mret VNil
  else if c =? 0x41 then mret (VBool true)
  else if c =? 0x42 then mret (VBool false)
  else if c =? 0x56 then need 1;; b ← d_byte; mret (VBool (negb (b2z b =? 0)))
  else if c =? 0x43 then mret (VU32 0)
  else if c =? 0x44 then mret (VU64 0)
  else if c =? 0x50 then need 1;; b ← d_byte; mret (VU8 b)
  else if c =? 0x52 then need 1;; b ← d_byte; mret (VU32 (b2z b))
  else if c =? 0x53 then need 1;; b ← d_byte; mret (VU64 (b2z b))
  else if c =? 0x60 then need 2;; x ← d_uint 2; mret (VU16 x)
  else if c =? 0x70 then need 4;; x ← d_uint 4; mret (VU32 x)
  else if c =? 0x80 then need 8;; x ← d_uint 8; mret (VU64 x)
  else if c =? 0xa0 then v ← binary8; mret (VBinary v)
  else if c =? 0xb0 then v ← binary32; mret (VBinary v)
  else if c =? 0xa1 then v ← binary8; mret (VString (bytes_string v))
  else if c =? 0xb1 then v ← binary32; mret (VString (bytes_string v))
  else if c =? 0xa3 then v ← binary8; mret (VSymbol (bytes_string v))
  else if c =? 0xb3 then v ← binary32; mret (VSymbol (bytes_string v))
  else if c =? 0x45 then mret (VList [])
  else if c =? 0xc0 then list8 items
  else if c =? 0xd0 then list32 items
  else if c =? 0x00 then
    desc ← descriptor; val ← val_;
    mret (VMap [("descriptor", VU8 desc); ("value", val)])
  else raise (ErrFmt "unsupported AMQP type" [c]).

Fixpoint decode_value (fuel : nat) : go decoder value :=
  match fuel with
  | O => panic
  | S fuel' =>
      need 1;; code ← d_byte;
      decode_code (decode_value fuel') (decode_items fuel') (b2z code)
  end
with decode_items (fuel : nat) (count : Z) : go decoder (list value) :=
  match fuel with
  | O => panic
  | S fuel' =>
      if count <=? 0 then mret []
      else v ← decode_value fuel'; vs ← decode_items fuel' (count - 1); mret (v :: vs)
  end.

Definition decode_fuel (d : decoder) : nat :=
  S (2 * (length (d_data d) - d_pos d)).

(** [decoder.value]. *)
Definition d_value : go decoder value := λ d, decode_value (decode_fuel d) d.

Definition decode_performative : go decoder (Performative * nat) :=
  need 3;; b ← d_byte;
  if negb (b2z b =? 0) then raise (ErrNew "performative must be described type")
  else
    desc ← descriptor;
    v ← wrap (default "" (byte_map_get Names desc)) d_value;
    match v with
    | VList fields =>
        let p := mkPerformative desc fields in
        lift (Performative_Validate p);;
        pos ← gets d_pos;
        mret (p, pos)
    | _ => raise (ErrNew "performative value must be list")
    end.

Definition DecodePerformative (data : bytes) : res (Performative * nat) :=
  (decode_performative (mkDecoder data 0)).1.

(** ** Message sections *)
Definition DecodeDataSection (raw : bytes) : res bytes :=
  match raw with
  | [] => Err (ErrNew "empty transfer payload")
  | r0 :: r1 :: r2 :: rest =>
      if (b2z r0 =? 0x00) && (b2z r1 =? 0x53) && (b2z r2 =? 0x75) then
        match (d_value (mkDecoder rest 0)).1 with
        | Ok (VBinary b) => Ok b
        | Ok _ => Err (ErrNew "data section is not binary")
        | Err e => Err (ErrWrap "decode data section" e)
        | Panic => Panic
        end
      else Ok raw
  | _ => Ok raw
  end.

Definition EncodeDataSection (body : bytes) : bytes :=
  [z2b 0x00; z2b 0x53; z2b 0x75] ++ encodeBytes (z2b 0xa0) (z2b 0xb0) body.

(** ** Frames over a byte stream

    A reader is the bytes not yet read.  [io.ReadFull] on an exhausted stream
    is [io.EOF], on a short one [io.ErrUnexpectedEOF]; both leave the stream
    empty. *)
Definition ReadFull (n : nat) : go bytes bytes := λ s,
  if bool_decide (n ≤ length s)%nat then (Ok (take n s), drop n s)
  else match s with
       | [] => (Err (ErrIO "EOF"), [])
       | _ => (Err (ErrIO "unexpected EOF"), [])
       end.

Definition ReadFrame (max : Z) : go bytes Frame :=
  header ← ReadFull 8;
  hd ← lift (slice header 0 4);
  let size := be_get hd in
  if size <? 8 then raise (ErrFmt "invalid frame size" [size])
  else if (0 <? max) && (max <? size) then
    raise (ErrFmt "frame size exceeds maximum" [size; max])
  else
    body ← wrap "read frame body" (ReadFull (Z.to_nat size - 8));
    lift (ParseFrame (header ++ body) max).

(** The loop of [WriteFrame] over a writer [w]: [write] returns the number of
    bytes taken.  One round per byte is enough for a writer that takes at
    least one byte; a writer that takes none and reports no error loops for
    ever in Go and runs out of fuel here. *)
Section write.
Context {W : Type} (write : bytes → go W nat).

Fixpoint write_loop (fuel : nat) (raw : bytes) : go W unit :=
  match raw with
  | [] => mret tt
  | _ => match fuel with
         | O => panic
         | S fuel' => n ← write raw; rest ← lift (slice_from raw n); write_loop fuel' rest
         end
  end.

Definition WriteFrame (f : Frame) (max : Z) : go W unit :=
  raw ← lift (Frame_Marshal f max);
  write_loop (length raw) raw.
End write.

Definition FrameFor (channel : Z) (p : Performative) (payload : bytes) : res Frame :=
  body ← EncodePerformative p;
  Ok (mkFrame 0 (z2b 2) FrameTypeAMQP channel (body ++ payload)).
