(* ===== verification/CodecFacts.v ===== *)
(** * Properties of the AMQP codec

    Safety of the decoder on arbitrary bytes (no panic, enough fuel, values in
    range) and the round trips of values, performatives, data sections and
    frames over a stream. *)

From S2P Require Import Prelude Bytes Wire Codec.

(** ** Induction on values *)
Section value_induction.
Variable P : value → Prop.
Hypotheses (HNil : P VNil) (HBool : ∀ b, P (VBool b)) (HU8 : ∀ x, P (VU8 x))
  (HU16 : ∀ x, P (VU16 x)) (HU32 : ∀ x, P (VU32 x)) (HU64 : ∀ x, P (VU64 x))
  (HString : ∀ s, P (VString s)) (HSymbol : ∀ s, P (VSymbol s)) (HBinary : ∀ b, P (VBinary b))
  (HList : ∀ l, Forall P l → P (VList l))
  (HMap : ∀ m, Forall (λ kv, P kv.2) m → P (VMap m))
  (HOther : P VOther).

Fixpoint value_induction (v : value) : P v :=
  match v with
  | VNil => HNil
  | VBool b => HBool b
  | VU8 x => HU8 x
  | VU16 x => HU16 x
  | VU32 x => HU32 x
  | VU64 x => HU64 x
  | VString s => HString s
  | VSymbol s => HSymbol s
  | VBinary b => HBinary b
  | VList l => HList l ((fix loop l : Forall P l :=
      match l with
      | [] => Forall_nil_2 P
      | x :: l' => Forall_cons_2 P x l' (value_induction x) (loop l')
      end) l)
  | VMap m => HMap m ((fix loop m : Forall (λ kv, P kv.2) m :=
      match m with
      | [] => Forall_nil_2 _
      | kv :: m' => Forall_cons_2 _ kv m' (value_induction kv.2) (loop m')
      end) m)
  | VOther => HOther
  end.
End value_induction.

(** A value of the types the decoder produces: integers within their width,
    and a map is a described value with its two keys. *)
Fixpoint wf_value (v : value) : Prop :=
  match v with
  | VU16 x => 0 ≤ x < 2 ^ 16
  | VU32 x => 0 ≤ x < 2 ^ 32
  | VU64 x => 0 ≤ x < 2 ^ 64
  | VList l => foldr (λ x acc, wf_value x ∧ acc) True l
  | VMap m =>
      match m with
      | [(k1, VU8 _); (k2, val)] => k1 = "descriptor" ∧ k2 = "value" ∧ wf_value val
      | _ => False
      end
  | VOther => False
  | _ => True
  end.

Lemma wf_list l : wf_value (VList l) ↔ Forall wf_value l.
Proof.
  cbn. induction l as [|x l IH]; cbn; [by split|]. rewrite IH. by rewrite Forall_cons.
Qed.

(** ** Safety of the decoder *)
Definition d_inv (d : decoder) : Prop := (d_pos d ≤ length (d_data d))%nat.
Definition d_rem (d : decoder) : nat := length (d_data d) - d_pos d.

Definition advances (k : nat) (d d' : decoder) : Prop :=
  d_data d' = d_data d ∧ (d_pos d + k ≤ d_pos d')%nat ∧ d_inv d'.

(** Never [Panic]; on success the result satisfies [P] and the position has
    moved by at least [k] bytes, within the data. *)
Definition dpost {A} (k : nat) (P : A → Prop) (d : decoder) : res A → decoder → Prop :=
  λ r d', match r with Ok a => P a ∧ advances k d d' | Err _ => True | Panic => False end.

Lemma advances_trans k j d d' d'' :
  advances k d d' → advances j d' d'' → advances (k + j) d d''.
Proof. unfold advances, d_inv. intuition (congruence || lia). Qed.

Lemma advances_weaken k j d d' : advances k d d' → (j ≤ k)%nat → advances j d d'.
Proof. unfold advances. intuition lia. Qed.

Lemma advances_refl d : d_inv d → advances 0 d d.
Proof. unfold advances. intuition lia. Qed.

Lemma advances_rem k d d' : d_inv d → advances k d d' → (d_rem d' + k ≤ d_rem d)%nat.
Proof. unfold advances, d_rem, d_inv. intros ? (E & ? & ?). rewrite E in *. lia. Qed.

Lemma remaining_rem d : d_inv d → remaining d = Z.of_nat (d_rem d).
Proof. unfold remaining, d_rem, d_inv. lia. Qed.

Lemma wp_dbind {A B} k j (P : A → Prop) (R : B → Prop) (m : go decoder A) (f : A → go decoder B) d :
  wp m (dpost k P d) d →
  (∀ a d', P a → advances k d d' → wp (f a) (dpost j R d') d') →
  wp (m ≫= f) (dpost (k + j) R d) d.
Proof.
  intros Hm Hf. apply wp_bind. eapply wp_mono; [exact Hm|].
  intros [a|e|] d' H; cbn in H |- *; [|done..].
  destruct H as [Ha Hd]. eapply wp_mono; [by apply Hf|].
  intros [b|e|] d'' H; cbn in H |- *; [|done..].
  destruct H. split; [done|]. by eapply advances_trans.
Qed.

Lemma wp_dweaken {A} k j (P Q : A → Prop) (m : go decoder A) d :
  wp m (dpost k P d) d → (∀ a, P a → Q a) → (j ≤ k)%nat → wp m (dpost j Q d) d.
Proof.
  intros Hm HP Hj. eapply wp_mono; [exact Hm|]. intros [a|e|] d' H; cbn in *; auto.
  destruct H; eauto using advances_weaken.
Qed.

Lemma wp_dless {A} k j (P : A → Prop) (m : go decoder A) d :
  (j ≤ k)%nat → wp m (dpost k P d) d → wp m (dpost j P d) d.
Proof. intros. by eapply wp_dweaken. Qed.

Lemma wp_dret {A} (a : A) (P : A → Prop) d : d_inv d → P a → wp (mret a) (dpost 0 P d) d.
Proof. intros. apply wp_ret. split; [done|]. by apply advances_refl. Qed.

Lemma wp_draise {A} e k (P : A → Prop) d : wp (raise e) (dpost k P d) d.
Proof. by apply wp_raise. Qed.

(** [need n;; m]: [m] runs only when [n] bytes remain. *)
Lemma wp_need {A} n k (P : A → Prop) (m : go decoder A) d :
  d_inv d → (0 ≤ n → (Z.to_nat n ≤ d_rem d)%nat → wp m (dpost k P d) d) →
  wp (need n;; m) (dpost k P d) d.
Proof.
  intros Hi Hm. apply wp_bind. unfold wp, need. rewrite remaining_rem by done.
  destruct ((n <? 0) || _) eqn:E; cbn; [done|]. apply Hm; lia.
Qed.

Lemma wp_d_byte d : (1 ≤ d_rem d)%nat → wp d_byte (dpost 1 (λ _, True) d) d.
Proof.
  unfold d_rem. intros Hr. unfold wp, d_byte.
  destruct (index_lt (d_data d) (d_pos d)) as (b & _ & ->); [lia|].
  cbn. repeat split; unfold d_inv; cbn; lia.
Qed.

Lemma wp_d_uint n d :
  (n ≤ d_rem d)%nat → d_inv d →
  wp (d_uint n) (dpost n (λ x, 0 ≤ x < 256 ^ Z.of_nat n) d) d.
Proof.
  unfold d_rem, d_inv. intros Hr Hi. unfold wp, d_uint. rewrite slice_Ok by lia.
  cbn [fst snd dpost]. split.
  - pose proof (be_get_range (take (d_pos d + n - d_pos d) (drop (d_pos d) (d_data d)))) as H.
    rewrite length_take, length_drop in H.
    by replace ((d_pos d + n - d_pos d) `min` (length (d_data d) - d_pos d))%nat with n in H by lia.
  - repeat split; unfold d_inv; cbn; lia.
Qed.

(** The exact forms: the position moves by exactly the width read. *)
Lemma wp_d_byte_exact Q d :
  (1 ≤ d_rem d)%nat → (∀ b, Q (Ok b) (set_pos (d_pos d + 1) d)) → wp d_byte Q d.
Proof.
  unfold d_rem. intros Hr HQ. unfold wp, d_byte.
  destruct (index_lt (d_data d) (d_pos d)) as (b & _ & ->); [lia|]. apply HQ.
Qed.

Lemma wp_d_uint_exact n Q d :
  (n ≤ d_rem d)%nat → d_inv d →
  (∀ x, 0 ≤ x < 256 ^ Z.of_nat n → Q (Ok x) (set_pos (d_pos d + n) d)) → wp (d_uint n) Q d.
Proof.
  intros Hr Hi HQ. pose proof (wp_d_uint n d Hr Hi) as H. unfold wp, d_uint, d_rem, d_inv in *.
  rewrite slice_Ok in * by lia. cbn [fst snd dpost] in *. apply HQ, H.
Qed.

Lemma dpost_shift {A} j k (P : A → Prop) (m : go decoder A) d d' :
  advances j d d' → wp m (dpost k P d') d' → wp m (dpost k P d) d'.
Proof.
  intros Hd Hm. eapply wp_mono; [exact Hm|]. intros [a|e|] d'' H; cbn in *; auto.
  destruct H as [Ha H]. split; [done|].
  eapply advances_weaken; [by eapply advances_trans|]. lia.
Qed.

Lemma wp_d_take n d :
  (Z.to_nat n ≤ d_rem d)%nat → d_inv d → wp (d_take n) (dpost 0 (λ _, True) d) d.
Proof.
  unfold d_rem, d_inv. intros Hr Hi. unfold wp, d_take. rewrite slice_Ok by lia.
  repeat split; unfold d_inv; cbn; lia.
Qed.

Lemma advances_inv k d d' : advances k d d' → d_inv d'.
Proof. by intros (? & ? & ?). Qed.
#[local] Hint Resolve advances_inv : core.

Lemma wp_binary8 d : d_inv d → wp binary8 (dpost 0 (λ _, True) d) d.
Proof.
  intros Hi. apply wp_need; [done|]. intros _ Hr.
  apply (wp_dless (1 + 0)); [lia|]. eapply wp_dbind; [by apply wp_d_byte|].
  intros n d' _ Hd. apply wp_need; [by eauto|]. intros _ Hr'. apply wp_d_take; eauto.
Qed.

Lemma wp_binary32 d : d_inv d → wp binary32 (dpost 0 (λ _, True) d) d.
Proof.
  intros Hi. apply wp_need; [done|]. intros _ Hr.
  apply (wp_dless (4 + 0)); [lia|]. eapply wp_dbind; [by apply wp_d_uint|].
  intros n d' _ Hd. apply wp_bind, wp_gets. rewrite remaining_rem by eauto.
  destruct ((n <? 0) || _) eqn:E; [apply wp_draise|]. apply wp_d_take; eauto. lia.
Qed.

Lemma wp_descriptor d : d_inv d → wp descriptor (dpost 0 (λ _, True) d) d.
Proof.
  intros Hi. apply wp_need; [done|]. intros _ Hr.
  apply (wp_dless (1 + 0)); [lia|]. eapply wp_dbind; [by apply wp_d_byte|].
  intros c d' _ Hd. destruct (b2z c =? 0x53).
  { apply wp_need; [by eauto|]. intros. eapply wp_dweaken; [by apply wp_d_byte|done|lia]. }
  destruct (b2z c =? 0x70); [|apply wp_draise].
  apply wp_need; [by eauto|]. intros _ Hr'.
  apply (wp_dless (4 + 0)); [lia|]. eapply wp_dbind; [apply wp_d_uint; eauto|].
  intros v d'' _ Hd'. destruct (255 <? v); [apply wp_draise|]. apply wp_dret; [by eauto|done].
Qed.

(** A list: the items decoder is safe from every later position. *)
Lemma wp_list_body items size count adj s1 s2 d :
  d_inv d → wp (items count) (dpost 0 (Forall wf_value) d) d →
  wp (list_body items size count adj s1 s2) (dpost 0 wf_value d) d.
Proof.
  intros Hi Hit. apply wp_bind, wp_gets. rewrite remaining_rem by done.
  destruct ((size <? adj) || _) eqn:E; [apply wp_draise|].
  apply wp_bind, wp_gets. cbv zeta. eapply (wp_dbind 0 0); [exact Hit|].
  intros vs d' Hvs Hd. apply wp_bind, wp_gets.
  destruct (_ <? Z.of_nat (d_pos d')) eqn:E'; [apply wp_draise|].
  apply wp_bind, wp_modify, wp_ret. cbn [dpost]. split; [by apply wf_list|].
  destruct Hd as (Ed & Hp & Hi'). unfold advances, d_inv, d_rem, set_pos in *. cbn in *.
  rewrite Ed. apply orb_false_iff in E as [E0%Z.ltb_ge E1%Z.ltb_ge]. apply Z.ltb_ge in E'.
  split; [done|]. split; lia.
Qed.

Section decode_code_safety.
Context (val_ : go decoder value) (items : Z → go decoder (list value)) (bound : nat).
Hypothesis Hval : ∀ d, d_inv d → (d_rem d ≤ bound)%nat → wp val_ (dpost 1 wf_value d) d.
Hypothesis Hitems : ∀ count d, d_inv d → (d_rem d < bound)%nat →
  wp (items count) (dpost 0 (Forall wf_value) d) d.

Lemma wp_list8 d : d_inv d → (d_rem d ≤ bound)%nat → wp (list8 items) (dpost 0 wf_value d) d.
Proof using Hitems.
  intros Hi Hb. apply wp_need; [done|]. intros _ Hr. unfold d_rem in *.
  apply wp_bind, wp_d_byte_exact; [unfold d_rem; lia|]. intros size.
  apply wp_bind, wp_d_byte_exact; [unfold d_rem; cbn; lia|]. intros count.
  eapply (dpost_shift 2); [unfold advances, d_inv; cbn; repeat split; lia|].
  apply wp_list_body; [unfold d_inv; cbn; lia|]. apply Hitems; unfold d_inv, d_rem; cbn; lia.
Qed.

Lemma wp_list32 d : d_inv d → (d_rem d ≤ bound)%nat → wp (list32 items) (dpost 0 wf_value d) d.
Proof using Hitems.
  intros Hi Hb. apply wp_need; [done|]. intros _ Hr. unfold d_rem in *.
  apply wp_bind, wp_d_uint_exact; [unfold d_rem; lia|done|]. intros size _.
  apply wp_bind, wp_d_uint_exact; [unfold d_rem; cbn; lia|unfold d_inv; cbn; lia|].
  intros count _. eapply (dpost_shift 8); [unfold advances, d_inv; cbn; repeat split; lia|].
  apply wp_list_body; [unfold d_inv; cbn; lia|]. apply Hitems; unfold d_inv, d_rem; cbn; lia.
Qed.

(** One read after its [need]. *)
Lemma wp_need_read {A} n k (R : A → Prop) (m : go decoder A) (f : A → value) d :
  d_inv d → (d_inv d → (Z.to_nat n ≤ d_rem d)%nat → wp m (dpost k R d) d) →
  (∀ a, R a → wf_value (f a)) →
  wp (need n;; a ← m; mret (f a)) (dpost 0 wf_value d) d.
Proof.
  intros Hi Hm Hf. apply wp_need; [done|]. intros _ Hr.
  apply (wp_dless (k + 0)); [lia|]. eapply wp_dbind; [by apply Hm|].
  intros a d' Ha Hd. apply wp_dret; eauto.
Qed.

Lemma wp_read_bytes (m : go decoder bytes) (f : bytes → value) d :
  wp m (dpost 0 (λ _, True) d) d → (∀ a, wf_value (f a)) →
  wp (a ← m; mret (f a)) (dpost 0 wf_value d) d.
Proof.
  intros Hm Hf. eapply (wp_dbind 0 0); [exact Hm|]. intros. apply wp_dret; [by eauto|done].
Qed.

Lemma decode_code_safe c d :
  d_inv d → (d_rem d ≤ bound)%nat → wp (decode_code val_ items c) (dpost 0 wf_value d) d.
Proof using Hval Hitems.
  intros Hi Hb. unfold decode_code.
  repeat match goal with
  | |- wp (if ?b then _ else _) _ _ => destruct b
  end; try (apply wp_dret; cbn; [done|by repeat split]); try apply wp_draise;
  try (apply wp_read_bytes; [by first [apply wp_binary8|apply wp_binary32]|done]).
  (* single-byte and fixed-width reads *)
  all: try (eapply wp_need_read with (R := λ _, True);
    [done|intros _ Hr; by apply wp_d_byte|done]).
  all: try (eapply wp_need_read; [done|intros _ Hr; apply wp_d_byte; exact Hr|];
    intros a _; cbn; pose proof (b2z_range a); lia).
  all: try (eapply wp_need_read; [done|intros; by apply wp_d_uint|]; cbn; intros; lia).
  - by apply wp_list8.
  - by apply wp_list32.
  - eapply (wp_dbind 0 0); [by apply wp_descriptor|]. intros desc d' _ Hd.
    pose proof (advances_rem _ _ _ Hi Hd).
    apply (wp_dless (1 + 0)); [lia|].
    eapply wp_dbind; [apply Hval; [by eauto|lia]|].
    intros v d'' Hv Hd'. apply wp_dret; eauto. by repeat split.
Qed.
End decode_code_safety.

Lemma decode_safe fuel :
  (∀ d, d_inv d → (2 * d_rem d + 1 ≤ fuel)%nat →
     wp (decode_value fuel) (dpost 1 wf_value d) d) ∧
  (∀ count d, d_inv d → (2 * d_rem d + 2 ≤ fuel)%nat →
     wp (decode_items fuel count) (dpost 0 (Forall wf_value) d) d).
Proof.
  induction fuel as [|fuel [IHv IHi]]; [split; intros; lia|]. split.
  - intros d Hi Hf. cbn [decode_value]. apply wp_need; [done|]. intros _ Hr.
    eapply (wp_dbind 1 0); [by apply wp_d_byte|]. intros c d' _ Hd.
    pose proof (advances_rem _ _ _ Hi Hd).
    apply (decode_code_safe _ _ (d_rem d')); [|by intros; apply IHi; [done|lia]|by eauto|done].
    intros; apply IHv; [done|lia].
  - intros count d Hi Hf. cbn [decode_items].
    destruct (count <=? 0); [by apply wp_dret|].
    apply (wp_dless (1 + (0 + 0))); [lia|].
    eapply wp_dbind; [apply IHv; [done|lia]|]. intros v d' Hv Hd.
    pose proof (advances_rem _ _ _ Hi Hd).
    eapply wp_dbind; [apply IHi; [by eauto|lia]|]. intros vs d'' Hvs Hd'.
    apply wp_dret; eauto.
Qed.

(** ** Running the decoder on known bytes

    [dec_at pre suf]: [pre] is consumed, [suf] is ahead. *)
Definition dec_at (pre suf : bytes) : decoder := mkDecoder (pre ++ suf) (length pre).

Lemma go_bind_Ok {S A B} (m : go S A) (f : A → go S B) s a s' :
  m s = (Ok a, s') → (m ≫= f) s = f a s'.
Proof. unfold mbind, go_bind. by intros ->. Qed.

Lemma go_bind_gets {S A B} (g : S → A) (f : A → go S B) s : (gets g ≫= f) s = f (g s) s.
Proof. done. Qed.

Lemma remaining_at pre suf : remaining (dec_at pre suf) = Z.of_nat (length suf).
Proof. unfold remaining, dec_at. cbn. rewrite length_app. lia. Qed.

Lemma need_at n pre suf :
  0 ≤ n ≤ Z.of_nat (length suf) → need n (dec_at pre suf) = (Ok tt, dec_at pre suf).
Proof.
  intros. unfold need. rewrite remaining_at.
  by replace ((n <? 0) || (Z.of_nat (length suf) <? n)) with false by lia.
Qed.

Lemma d_byte_at pre b suf : d_byte (dec_at pre (b :: suf)) = (Ok b, dec_at (pre ++ [b]) suf).
Proof.
  unfold d_byte, dec_at. cbn [d_data d_pos].
  rewrite (index_Ok _ _ b) by (by rewrite lookup_app_r, Nat.sub_diag by lia).
  unfold set_pos. cbn. by rewrite length_app, <-app_assoc.
Qed.

Lemma slice_at {A} (pre mid suf : list A) :
  slice (pre ++ mid ++ suf) (length pre) (length pre + length mid) = Ok mid.
Proof.
  rewrite slice_Ok by (rewrite !length_app; lia).
  rewrite drop_app_length, take_app_le by lia. by rewrite take_ge by lia.
Qed.

Lemma d_uint_at n pre mid suf :
  length mid = n →
  d_uint n (dec_at pre (mid ++ suf)) = (Ok (be_get mid), dec_at (pre ++ mid) suf).
Proof.
  intros <-. unfold d_uint, dec_at. cbn [d_data d_pos]. rewrite slice_at.
  unfold set_pos. cbn. by rewrite length_app, <-app_assoc.
Qed.

Lemma d_take_at n pre mid suf :
  n = Z.of_nat (length mid) →
  d_take n (dec_at pre (mid ++ suf)) = (Ok mid, dec_at (pre ++ mid) suf).
Proof.
  intros ->. unfold d_take, dec_at. cbn [d_data d_pos]. rewrite Nat2Z.id, slice_at.
  unfold set_pos. cbn. by rewrite length_app, <-app_assoc.
Qed.

Lemma gets_remaining_at pre suf :
  gets remaining (dec_at pre suf) = (Ok (Z.of_nat (length suf)), dec_at pre suf).
Proof. unfold gets. by rewrite remaining_at. Qed.

(** The code byte is read and dispatched. *)
Lemma decode_value_code fuel pre c suf :
  0 ≤ c < 256 →
  decode_value (S fuel) (dec_at pre (z2b c :: suf)) =
    decode_code (decode_value fuel) (decode_items fuel) c (dec_at (pre ++ [z2b c]) suf).
Proof.
  intros Hc. cbn [decode_value].
  rewrite (go_bind_Ok _ _ _ _ _ (need_at 1 pre (z2b c :: suf) ltac:(cbn; lia))).
  rewrite (go_bind_Ok _ _ _ _ _ (d_byte_at pre (z2b c) suf)).
  by rewrite b2z_z2b_small.
Qed.

(** [dstep] runs the next decoder primitive on known bytes. *)
Ltac dlen := rewrite ?length_app, ?length_be_put; cbn [length]; lia.
Ltac dstep :=
  match goal with
  | |- (need ?n ≫= _) (dec_at ?pre ?suf) = _ =>
      rewrite (go_bind_Ok _ _ _ _ _ (need_at n pre suf ltac:(dlen)))
  | |- (d_byte ≫= _) (dec_at ?pre (?b :: ?suf)) = _ =>
      rewrite (go_bind_Ok _ _ _ _ _ (d_byte_at pre b suf))
  | |- (d_uint ?n ≫= _) (dec_at ?pre (?mid ++ ?suf)) = _ =>
      rewrite (go_bind_Ok _ _ _ _ _ (d_uint_at n pre mid suf ltac:(dlen)))
  | |- (gets remaining ≫= _) (dec_at ?pre ?suf) = _ =>
      rewrite (go_bind_Ok _ _ _ _ _ (gets_remaining_at pre suf))
  end.

Lemma binary8_at pre v suf :
  Z.of_nat (length v) ≤ 255 →
  binary8 (dec_at pre (z2b (Z.of_nat (length v)) :: v ++ suf)) =
    (Ok v, dec_at (pre ++ z2b (Z.of_nat (length v)) :: v) suf).
Proof.
  intros Hv. unfold binary8. dstep. dstep. rewrite b2z_z2b_small by lia. dstep.
  rewrite d_take_at by done. by rewrite <-app_assoc.
Qed.

Lemma binary32_at pre v suf :
  Z.of_nat (length v) < 2 ^ 32 →
  binary32 (dec_at pre (be_put 4 (u32 (Z.of_nat (length v))) ++ v ++ suf)) =
    (Ok v, dec_at (pre ++ be_put 4 (u32 (Z.of_nat (length v))) ++ v) suf).
Proof.
  intros Hv. unfold binary32, u32. rewrite Z.mod_small by lia. dstep. dstep.
  rewrite be_get_put_small by (cbn; lia). dstep. rewrite length_app.
  destruct ((_ <? 0) || _) eqn:E; [zlia|]. rewrite d_take_at by done. by rewrite <-app_assoc.
Qed.

(** [encodeBytes] is read back by the matching pair of readers. *)
Lemma decode_bytes_at fuel pre short long v suf (f : bytes → value) :
  0 ≤ short < 256 → 0 ≤ long < 256 → Z.of_nat (length v) < 2 ^ 32 →
  (∀ val_ items, decode_code val_ items short = (x ← binary8; mret (f x))) →
  (∀ val_ items, decode_code val_ items long = (x ← binary32; mret (f x))) →
  decode_value (S fuel) (dec_at pre (encodeBytes (z2b short) (z2b long) v ++ suf)) =
    (Ok (f v), dec_at (pre ++ encodeBytes (z2b short) (z2b long) v) suf).
Proof.
  intros Hs Hl Hv H8 H32. unfold encodeBytes. case_match; cbn [app].
  - rewrite decode_value_code, H8 by done.
    rewrite (go_bind_Ok _ _ _ _ _ (binary8_at _ v suf ltac:(lia))).
    unfold mret, go_ret. by rewrite <-app_assoc.
  - rewrite decode_value_code, H32, <-app_assoc by done.
    rewrite (go_bind_Ok _ _ _ _ _ (binary32_at _ v suf Hv)).
    unfold mret, go_ret. by rewrite <-app_assoc.
Qed.

(** ** Values: decoding what the encoder wrote *)
Lemma encodeBytes_length short long v :
  (length v < length (encodeBytes short long v))%nat.
Proof. unfold encodeBytes. case_match; rewrite ?length_app, ?length_be_put; cbn; lia. Qed.

Lemma res_bind_Ok {A B} (m : res A) (f : A → res B) b :
  m ≫= f = Ok b → ∃ a, m = Ok a ∧ f a = Ok b.
Proof. destruct m; cbn; [eauto|done..]. Qed.

Lemma encodeValue_nonempty v bs : encodeValue v = Ok bs → (1 ≤ length bs)%nat.
Proof.
  destruct v; cbn [encodeValue]; intros H; simplify_res; try (cbn; lia).
  1: destruct b; simplify_res; cbn; lia.
  1-2: repeat case_match; simplify_res; cbn; lia.
  1-3: match goal with |- context [encodeBytes ?a ?b ?v] =>
         pose proof (encodeBytes_length a b v) end; lia.
  - destruct l; cbn [encode_list_with] in H; simplify_res; [cbn; lia|].
    apply res_bind_Ok in H as (pl & _ & H). case_match; simplify_res; cbn; lia.
  - case_match; try done. apply res_bind_Ok in H as (w & _ & H). simplify_res. cbn. lia.
Qed.

(** What the induction needs of each element. *)
Definition decodes (v : value) : Prop :=
  ∀ bs pre suf fuel, encodeValue v = Ok bs → Z.of_nat (length bs) < 2 ^ 32 →
  (2 * length bs + 1 ≤ fuel)%nat →
  decode_value fuel (dec_at pre (bs ++ suf)) = (Ok v, dec_at (pre ++ bs) suf).

Lemma decode_items_at l : Forall decodes l → ∀ bs pre suf fuel,
  encode_concat encodeValue l = Ok bs → Z.of_nat (length bs) < 2 ^ 32 →
  (2 * length bs + 2 ≤ fuel)%nat →
  decode_items fuel (Z.of_nat (length l)) (dec_at pre (bs ++ suf)) =
    (Ok l, dec_at (pre ++ bs) suf).
Proof.
  induction 1 as [|v l Hv Hl IH]; intros bs pre suf fuel Henc Hlen Hf;
    (destruct fuel as [|fuel]; [lia|]); cbn [decode_items].
  - injection Henc as <-. cbn. by rewrite app_nil_r.
  - cbn [encode_concat] in Henc.
    apply res_bind_Ok in Henc as (b & Hb & (rest & Hr & [= <-])%res_bind_Ok).
    pose proof (encodeValue_nonempty _ _ Hb). rewrite length_app in *.
    rewrite (proj2 (Z.leb_gt _ _)) by (cbn [length]; lia).
    rewrite <-app_assoc, (go_bind_Ok _ _ _ _ _ (Hv b pre (rest ++ suf) fuel Hb ltac:(lia) ltac:(lia))).
    replace (Z.of_nat (length (v :: l)) - 1) with (Z.of_nat (length l)) by (cbn [length]; lia).
    rewrite (go_bind_Ok _ _ _ _ _ (IH rest (pre ++ b) suf fuel Hr ltac:(lia) ltac:(lia))).
    unfold mret, go_ret. by rewrite <-app_assoc.
Qed.

Lemma encode_concat_count l bs :
  encode_concat encodeValue l = Ok bs → (length l ≤ length bs)%nat.
Proof.
  revert bs. induction l as [|v l IH]; intros bs H; [cbn; lia|]. cbn [encode_concat] in H.
  apply res_bind_Ok in H as (b & Hb & (rest & Hr & [= <-])%res_bind_Ok).
  apply IH in Hr. apply encodeValue_nonempty in Hb. rewrite length_app. cbn. lia.
Qed.

(** The body of a list whose declared size and count match its payload. *)
Lemma list_body_at l payload adj pre suf fuel s1 s2 :
  Forall decodes l → encode_concat encodeValue l = Ok payload →
  Z.of_nat (length payload) < 2 ^ 32 → (2 * length payload + 2 ≤ fuel)%nat →
  list_body (decode_items fuel) (Z.of_nat (length payload) + adj) (Z.of_nat (length l)) adj s1 s2
    (dec_at pre (payload ++ suf)) = (Ok (VList l), dec_at (pre ++ payload) suf).
Proof.
  intros Hl Henc Hlen Hf. unfold list_body. dstep. rewrite length_app.
  destruct ((_ <? adj) || _) eqn:E; [zlia|].
  rewrite go_bind_gets. cbv zeta.
  rewrite (go_bind_Ok _ _ _ _ _ (decode_items_at l Hl payload pre suf fuel Henc Hlen Hf)).
  rewrite go_bind_gets. cbn [d_pos dec_at].
  rewrite length_app. destruct (_ <? Z.of_nat _) eqn:E'; [zlia|].
  unfold mbind, go_bind, modify, mret, go_ret, set_pos, dec_at. cbn. do 2 f_equal.
  rewrite length_app. lia.
Qed.

Lemma decodes_list l : Forall decodes l → decodes (VList l).
Proof.
  intros Hl bs pre suf fuel Henc Hlen Hf. destruct fuel as [|fuel]; [lia|].
  cbn [encodeValue] in Henc. destruct l as [|v l'].
  { cbn in Henc. injection Henc as <-. cbn [app]. by rewrite decode_value_code by lia. }
  set (l := v :: l') in *. unfold encode_list_with in Henc. fold l in Henc.
  assert (∃ payload, encode_concat encodeValue l = Ok payload ∧
    (if (Z.of_nat (length payload) + 1 <=? 255) && (Z.of_nat (length l) <=? 255)
     then Ok ([z2b 192; z2b (Z.of_nat (length payload) + 1); z2b (Z.of_nat (length l))] ++ payload)
     else Ok ([z2b 208] ++ be_put 4 (u32 (Z.of_nat (length payload) + 4)) ++
              be_put 4 (u32 (Z.of_nat (length l))) ++ payload)) = Ok bs)
    as (payload & Hp & H).
  { subst l. by apply res_bind_Ok in Henc. }
  clear Henc. clearbody l. clear v l'.
  pose proof (encode_concat_count _ _ Hp).
  destruct ((_ <=? 255) && _) eqn:E; simplify_res;
    rewrite ?length_app, ?length_be_put in *; cbn [length] in *.
  - zbool. cbn [app]. rewrite decode_value_code by lia. change (decode_code _ _ 192) with
      (list8 (decode_items fuel)). unfold list8. dstep. dstep. dstep.
    rewrite !b2z_z2b_small by lia. rewrite list_body_at by (done || lia).
    by rewrite <-!app_assoc.
  - cbn [app]. rewrite decode_value_code by lia. change (decode_code _ _ 208) with
      (list32 (decode_items fuel)). unfold list32, u32. rewrite !Z.mod_small by lia.
    rewrite <-!app_assoc. dstep. dstep. dstep.
    rewrite !be_get_put_small by (cbn; lia). rewrite list_body_at by (done || lia).
    by rewrite <-!app_assoc.
Qed.

Lemma decodes_described desc v :
  decodes v → decodes (VMap [("descriptor", VU8 desc); ("value", v)]).
Proof.
  intros Hv bs pre suf fuel Henc Hlen Hf. destruct fuel as [|fuel]; [lia|].
  cbn [encodeValue] in Henc. cbn -[encodeValue] in Henc.
  apply res_bind_Ok in Henc as (b & Hb & [= <-]). cbn [app length] in *.
  rewrite decode_value_code by lia. change (decode_code _ _ 0) with
    (desc ← descriptor; val ← decode_value fuel;
     mret (VMap [("descriptor", VU8 desc); ("value", val)])).
  assert (∀ p s, descriptor (dec_at p (z2b 83 :: desc :: s)) =
    (Ok desc, dec_at (p ++ [z2b 83; desc]) s)) as Hd.
  { intros p s. unfold descriptor. dstep. dstep. change (b2z (z2b 83) =? 83) with true.
    cbn iota. dstep. rewrite d_byte_at. by rewrite <-app_assoc. }
  rewrite (go_bind_Ok _ _ _ _ _ (Hd _ _)).
  rewrite (go_bind_Ok _ _ _ _ _ (Hv b _ suf fuel Hb ltac:(lia) ltac:(lia))).
  unfold mret, go_ret. by rewrite <-!app_assoc.
Qed.

(** The fixed-width scalars.  [dread code prog] rewrites the dispatch of
    [code] to [prog] and finishes after the reads of [prog]. *)
Ltac dintro :=
  intros bs pre suf fuel Henc Hlen Hf; (destruct fuel as [|fuel]; [lia|]);
  cbn [encodeValue] in Henc.
Ltac dread code prog :=
  change (decode_code _ _ code) with prog; repeat dstep;
  rewrite ?b2z_z2b_small, ?be_get_put_small by (cbn; lia);
  unfold mret, go_ret; by rewrite <-app_assoc.

Lemma decodes_simple v :
  match v with VNil | VBool _ | VU8 _ => True | VU16 x => 0 ≤ x < 2 ^ 16 | _ => False end →
  decodes v.
Proof.
  destruct v as [|b|x|x| | | | | | | |]; intros Hwf; try done; dintro;
    [|destruct b|..]; simplify_res; cbn [app]; rewrite decode_value_code by lia; try done.
  - dread 80 (need 1;; b ← d_byte; mret (VU8 b)).
  - dread 96 (need 2;; x ← d_uint 2; mret (VU16 x)).
Qed.

Lemma decodes_u32 x : 0 ≤ x < 2 ^ 32 → decodes (VU32 x).
Proof.
  intros Hx. dintro.
  destruct (Z.eqb_spec x 0) as [->|?]; [|destruct (Z.ltb_spec x 256)]; simplify_res;
    cbn [app]; rewrite decode_value_code by lia; [done|..].
  - dread 82 (need 1;; b ← d_byte; mret (VU32 (b2z b))).
  - dread 112 (need 4;; x ← d_uint 4; mret (VU32 x)).
Qed.

Lemma decodes_u64 x : 0 ≤ x < 2 ^ 64 → decodes (VU64 x).
Proof.
  intros Hx. dintro.
  destruct (Z.eqb_spec x 0) as [->|?]; [|destruct (Z.ltb_spec x 256)]; simplify_res;
    cbn [app]; rewrite decode_value_code by lia; [done|..].
  - dread 83 (need 1;; b ← d_byte; mret (VU64 (b2z b))).
  - dread 128 (need 8;; x ← d_uint 8; mret (VU64 x)).
Qed.

(** The variable-width values; [code] is the short form. *)
Lemma decodes_bytes v short long b (f : bytes → value) :
  encodeValue v = Ok (encodeBytes (z2b short) (z2b long) b) → f b = v →
  0 ≤ short < 256 → 0 ≤ long < 256 →
  (∀ val_ items, decode_code val_ items short = (x ← binary8; mret (f x))) →
  (∀ val_ items, decode_code val_ items long = (x ← binary32; mret (f x))) →
  decodes v.
Proof.
  intros Hv <- ? ? H8 H32. intros bs pre suf fuel Henc Hlen Hf.
  rewrite Hv in Henc. simplify_res. destruct fuel as [|fuel]; [lia|].
  pose proof (encodeBytes_length (z2b short) (z2b long) b).
  by rewrite (decode_bytes_at _ _ short long _ _ f) by (done || lia).
Qed.

Lemma decodes_wf v : wf_value v → decodes v.
Proof.
  induction v as [| | | | | |s|s|b|l IH|m IH|] using value_induction; intros Hwf;
    try (by apply decodes_simple).
  - by apply decodes_u32.
  - by apply decodes_u64.
  - by apply (decodes_bytes _ 161 177 (string_bytes s) (λ x, VString (bytes_string x)));
      rewrite ?bytes_string_bytes.
  - by apply (decodes_bytes _ 163 179 (string_bytes s) (λ x, VSymbol (bytes_string x)));
      rewrite ?bytes_string_bytes.
  - by apply (decodes_bytes _ 160 176 b VBinary).
  - apply decodes_list. apply wf_list in Hwf.
    induction IH as [|v l Hv _ IHl]; inversion_clear Hwf; constructor; auto.
  - destruct m as [|[k1 []] [|[k2 v2] []]]; cbn in Hwf; try done.
    destruct Hwf as (-> & -> & Hv). apply decodes_described.
    inversion_clear IH as [|? ? _ IH']. inversion_clear IH' as [|? ? Hd _]. by apply Hd.
Qed.

(** ** Performatives *)
Lemma trim_loop_spec v n :
  (n ≤ length v)%nat → (trim_loop v n ≤ n)%nat ∧
  (∀ i, (trim_loop v n ≤ i < n)%nat → default VNil (v !! i) = VNil).
Proof.
  induction n as [|n IH]; intros Hn; cbn [trim_loop]; [split; intros; lia|].
  destruct (is_nil (default VNil (v !! n))) eqn:E; [|split; intros; lia].
  destruct IH as [IH1 IH2]; [lia|]. split; [lia|]. intros i Hi.
  destruct (decide (i = n)) as [->|]; [|apply IH2; lia].
  by destruct (default VNil (v !! n)).
Qed.

(** Trimming trailing nulls is invisible through the field accessor. *)
Lemma trim_loop_last v n k : trim_loop v n = S k → default VNil (v !! k) ≠ VNil.
Proof.
  induction n as [|n IH]; cbn [trim_loop]; [done|]. destruct (is_nil (default VNil (v !! n))) eqn:E; [done|].
  intros [= <-] Hn. by rewrite Hn in E.
Qed.

Lemma trimNulls_Field p i :
  Performative_Field (mkPerformative (p_Descriptor p) (trimNulls (p_Fields p))) i =
  Performative_Field p i.
Proof.
  unfold Performative_Field, trimNulls. cbn [p_Fields]. set (v := p_Fields p).
  destruct (trim_loop_spec v (length v)) as [H1 H2]; [lia|].
  set (k := trim_loop v (length v)) in *. rewrite length_take.
  destruct (Z.ltb_spec i 0) as [|Hi]; [done|]. cbn [orb].
  destruct (Z.leb_spec (Z.of_nat (k `min` length v)) i).
  - destruct (Z.leb_spec (Z.of_nat (length v)) i); [done|]. symmetry. apply H2. lia.
  - destruct (Z.leb_spec (Z.of_nat (length v)) i); [lia|]. by rewrite lookup_take_lt by lia.
Qed.

Lemma trimNulls_wf v : Forall wf_value v → Forall wf_value (trimNulls v).
Proof. unfold trimNulls. intros. by apply Forall_take. Qed.

Lemma d_value_at v bs pre suf :
  wf_value v → encodeValue v = Ok bs → Z.of_nat (length bs) < 2 ^ 32 →
  d_value (dec_at pre (bs ++ suf)) = (Ok v, dec_at (pre ++ bs) suf).
Proof.
  intros Hwf Henc Hlen. unfold d_value. apply decodes_wf; [done..|].
  unfold decode_fuel, dec_at. cbn [d_data d_pos]. rewrite !length_app. lia.
Qed.

Lemma d_value_eq d : d_value d = decode_value (decode_fuel d) d.
Proof. reflexivity. Qed.

Lemma d_value_safe d : d_inv d → wp d_value (dpost 1 wf_value d) d.
Proof.
  intros Hi. assert (2 * d_rem d + 1 ≤ decode_fuel d)%nat as Hf.
  { unfold decode_fuel, d_rem. lia. }
  pose proof (proj1 (decode_safe (decode_fuel d)) d Hi Hf) as H.
  unfold wp in *. rewrite d_value_eq. exact H.
Qed.

Lemma descriptor_at pre d suf :
  descriptor (dec_at pre (z2b 83 :: d :: suf)) = (Ok d, dec_at (pre ++ [z2b 83; d]) suf).
Proof.
  unfold descriptor. dstep. dstep. change (b2z (z2b 83) =? 83) with true. cbn iota.
  dstep. rewrite d_byte_at. by rewrite <-app_assoc.
Qed.

(** ** Properties of the codec *)

Lemma DecodePerformative_spec (data : bytes) :
  match DecodePerformative data with
  | Ok (p, n) => (n ≤ length data)%nat ∧ Forall wf_value (p_Fields p) ∧
                 Performative_Validate p = Ok tt
  | Err _ => True
  | Panic => False
  end.
Proof.
  set (Q := λ (r : res (Performative * nat)) (_ : decoder), match r with
    | Ok (p, n) => (n ≤ length data)%nat ∧ Forall wf_value (p_Fields p) ∧
                   Performative_Validate p = Ok tt
    | Err _ => True | Panic => False end).
  set (d0 := mkDecoder data 0). assert (d_inv d0) as Hi by (unfold d_inv; cbn; lia).
  enough (wp decode_performative Q d0) as H by exact H.
  unfold decode_performative. apply wp_bind. unfold wp at 1, need. rewrite remaining_rem by done.
  destruct ((3 <? 0) || _) eqn:E; [done|]. cbn [fst snd].
  apply wp_bind, wp_d_byte_exact; [zlia|]. intros b. destruct (negb _); [done|].
  set (d1 := set_pos _ d0). assert (advances 0 d0 d1) as Hd1.
  { unfold advances, d_inv, d_rem in *. subst d1 d0. cbn in *. repeat split; zlia. }
  apply wp_bind. eapply wp_mono; [apply (wp_descriptor d1); by eapply advances_inv|].
  intros [desc|e|] d2 H2; cbn in H2; [|done..]. destruct H2 as [_ H2].
  apply wp_bind, wp_wrap. eapply wp_mono; [apply d_value_safe; by eapply advances_inv|].
  intros [v|e|] d3 H3; cbn in H3; [|done..]. destruct H3 as [Hv H3].
  destruct v; try done. apply wp_bind, wp_lift.
  destruct (Performative_Validate _) as [[]|e|] eqn:EV; cbn; [|done|].
  - apply wp_bind, wp_gets, wp_ret. cbn. split; [|split; [by apply wf_list|done]].
    destruct Hd1 as (E1 & _), H2 as (E2 & _), H3 as (E3 & _ & Hi3). unfold d_inv in Hi3.
    by rewrite E3, E2, E1 in Hi3.
  - revert EV. unfold Performative_Validate. by repeat case_match.
Qed.

(** C26. The decoder is safe on arbitrary bytes: whatever a peer sends,
    [DecodePerformative] never reads out of range and always terminates (it
    does not run out of its [2 * remaining + 1] steps); when it accepts, it
    reports a length within the input, every field is a value of the AMQP
    types with its integers in range, and the performative has passed
    [Validate]. *)
Theorem DecodePerformative_safe (data : bytes) :
  match DecodePerformative data with
  | Ok (p, n) => (n ≤ length data)%nat ∧ Forall wf_value (p_Fields p) ∧
                 Performative_Validate p = Ok tt
  | Err _ => True
  | Panic => False
  end.
Proof. apply DecodePerformative_spec. Qed.

(** C40. Value round trip: every AMQP value, lists and described values nested
    to any depth, whose encoding is shorter than 4 GiB is decoded from its
    encoding unchanged, with whatever follows it left unread. *)
Theorem value_roundtrip (v : value) (bs rest : bytes) :
  wf_value v → encodeValue v = Ok bs → Z.of_nat (length bs) < 2 ^ 32 →
  d_value (mkDecoder (bs ++ rest) 0) = (Ok v, mkDecoder (bs ++ rest) (length bs)).
Proof. intros Hwf Henc Hlen. exact (d_value_at v bs [] rest Hwf Henc Hlen). Qed.

(** What the decoder makes of an encoded performative: the trimmed one, if
    that is still valid. *)
Lemma performative_decodes_as (p : Performative) (bs payload : bytes) :
  let p' := mkPerformative (p_Descriptor p) (trimNulls (p_Fields p)) in
  Forall wf_value (p_Fields p) → EncodePerformative p = Ok bs → Z.of_nat (length bs) < 2 ^ 32 →
  DecodePerformative (bs ++ payload) = (Performative_Validate p' ≫= λ _, Ok (p', length bs)).
Proof.
  intros p' Hwf Henc Hlen.
  unfold EncodePerformative in Henc. apply res_bind_Ok in Henc as (_ & _ & Henc).
  apply res_bind_Ok in Henc as (l & Hl & [= <-]). cbn [app length] in *.
  assert (encodeValue (VList (trimNulls (p_Fields p))) = Ok l) as Hl' by exact Hl.
  assert (decode_performative (dec_at [] (z2b 0 :: z2b 83 :: p_Descriptor p :: l ++ payload)) =
    (Performative_Validate p' ≫= λ _, Ok (p', S (S (S (length l)))),
     dec_at (z2b 0 :: z2b 83 :: p_Descriptor p :: l) payload)) as E.
  { unfold decode_performative. dstep. dstep.
    change (negb (b2z (z2b 0) =? 0)) with false. cbn iota.
    rewrite (go_bind_Ok _ _ _ _ _ (descriptor_at _ _ _)).
    rewrite (go_bind_Ok _ _ _ (VList (trimNulls (p_Fields p)))
      (dec_at (z2b 0 :: z2b 83 :: p_Descriptor p :: l) payload)).
    2: { unfold wrap. rewrite (d_value_at (VList (trimNulls (p_Fields p))) l); [done|by apply wf_list, trimNulls_wf|done|lia]. }
    fold p'. unfold mbind at 1, go_bind at 1, lift. by destruct (Performative_Validate p'). }
  unfold DecodePerformative. change (mkDecoder ?x 0) with (dec_at [] x). by rewrite E.
Qed.

Lemma performative_decodes (p : Performative) (bs payload : bytes) :
  let p' := mkPerformative (p_Descriptor p) (trimNulls (p_Fields p)) in
  Forall wf_value (p_Fields p) → EncodePerformative p = Ok bs →
  Z.of_nat (length bs) < 2 ^ 32 → Performative_Validate p' = Ok tt →
  DecodePerformative (bs ++ payload) = Ok (p', length bs) ∧
  (∀ i, Performative_Field p' i = Performative_Field p i).
Proof.
  intros p' Hwf Henc Hlen Hval. split; [|intros; apply trimNulls_Field].
  rewrite (performative_decodes_as p bs payload Hwf Henc Hlen). fold p'. by rewrite Hval.
Qed.

(** The last field that is not null decides the length. *)
Lemma trimNulls_length (p : Performative) (n : Z) :
  n ≤ Z.of_nat (length (trimNulls (p_Fields p))) ↔
  n ≤ 0 ∨ ∃ i, n ≤ i + 1 ∧ Performative_Field p i ≠ VNil.
Proof.
  set (v := p_Fields p). unfold trimNulls. destruct (trim_loop_spec v (length v)) as [H1 H2]; [lia|].
  rewrite length_take, Nat.min_l by lia. split.
  - intros Hn. destruct (trim_loop v (length v)) as [|k] eqn:Ek; [left; lia|]. right. exists (Z.of_nat k). split; [lia|].
    pose proof (trim_loop_last v (length v) k Ek) as Hk. unfold Performative_Field. fold v.
    destruct (Z.ltb_spec (Z.of_nat k) 0); [lia|]. destruct (Z.leb_spec (Z.of_nat (length v)) (Z.of_nat k)); [lia|].
    cbn. by rewrite Nat2Z.id.
  - intros [Hn|(i & Hi & Hf)]; [lia|]. destruct (Z.le_gt_cases (i + 1) (Z.of_nat (trim_loop v (length v)))); [lia|].
    exfalso. apply Hf. unfold Performative_Field. fold v.
    destruct (Z.ltb_spec i 0); [done|]. destruct (Z.leb_spec (Z.of_nat (length v)) i); [done|]. cbn. apply H2. lia.
Qed.

Lemma Validate_trimmed (p : Performative) (n : Z) :
  Performative_Validate p = Ok tt → byte_map_get min_fields (p_Descriptor p) = Some n →
  Performative_Validate (mkPerformative (p_Descriptor p) (trimNulls (p_Fields p))) =
    if Z.of_nat (length (trimNulls (p_Fields p))) <? n
    then Err (ErrWrap (Performative_Name p) (ErrFmt "requires at least n fields" [n])) else Ok tt.
Proof.
  unfold Performative_Validate. cbn [p_Descriptor p_Fields]. intros Hv Hn. rewrite Hn in *.
  unfold Performative_String in *. rewrite trimNulls_Field.
  change (Performative_Name (mkPerformative _ _)) with (Performative_Name p).
  destruct (Z.of_nat (length (trimNulls _)) <? n); [done|]. by destruct (Z.of_nat (length (p_Fields p)) <? n).
Qed.

(** C27. Performative round trip: what [EncodePerformative] accepts and writes,
    followed by any payload, [DecodePerformative] reads back as the same
    descriptor with the trailing nulls gone, and every field accessor returns
    what it returned on the original; it reports exactly the encoded length,
    so the payload starts there.  This holds when some field at or after the
    last required one (there are [n] of them) is not null; otherwise the
    encoder has trimmed required fields away and the decoder refuses what it
    wrote. *)
Theorem performative_roundtrip (p : Performative) (bs payload : bytes) (n : Z) :
  let p' := mkPerformative (p_Descriptor p) (trimNulls (p_Fields p)) in
  Forall wf_value (p_Fields p) → EncodePerformative p = Ok bs → Z.of_nat (length bs) < 2 ^ 32 →
  byte_map_get min_fields (p_Descriptor p) = Some n →
  (∀ i, Performative_Field p' i = Performative_Field p i) ∧
  (n ≤ 0 ∨ (∃ i, n ≤ i + 1 ∧ Performative_Field p i ≠ VNil) →
     DecodePerformative (bs ++ payload) = Ok (p', length bs)) ∧
  (0 < n → (∀ i, n ≤ i + 1 → Performative_Field p i = VNil) →
     DecodePerformative (bs ++ payload) =
       Err (ErrWrap (Performative_Name p) (ErrFmt "requires at least n fields" [n]))).
Proof.
  intros p' Hwf Henc Hlen Hn. split; [intros; apply trimNulls_Field|].
  rewrite (performative_decodes_as p bs payload Hwf Henc Hlen).
  unfold EncodePerformative in Henc. apply res_bind_Ok in Henc as ([] & Hv & _).
  rewrite (Validate_trimmed p n Hv Hn). fold p'. pose proof (trimNulls_length p n) as Hl.
  destruct (Z.ltb_spec (Z.of_nat (length (trimNulls (p_Fields p)))) n) as [Hlt|Hge]; split.
  - intros Hc. apply Hl in Hc. lia.
  - done.
  - done.
  - intros Hpos Hnil. apply Hl in Hge as [?|(i & Hi & Hf)]; [lia|]. by destruct (Hf (Hnil i Hi)).
Qed.

(** A disposition without its second field passes the encoder, which checks
    the fields before it trims the nulls, and is refused by the decoder. *)
Theorem trimmed_disposition_rejected :
  ∃ bs e, EncodePerformative (mkPerformative DescriptorDisposition [VBool true; VNil]) = Ok bs ∧
    DecodePerformative bs = Err e.
Proof. eexists _, _. split; vm_compute; reflexivity. Qed.

Lemma DecodeDataSection_no_panic raw : DecodeDataSection raw ≠ Panic.
Proof.
  unfold DecodeDataSection.
  destruct raw as [|r0 [|r1 [|r2 rest]]]; try done. case_match; [|done].
  pose proof (d_value_safe (mkDecoder rest 0) (Nat.le_0_l _)) as Hs. unfold wp in Hs.
  by destruct (d_value _) as [[[]|e|] d].
Qed.

(** Data sections: [DecodeDataSection] returns the body that
    [EncodeDataSection] wrote, for any body under 4 GiB less the header, and
    on arbitrary bytes it never panics. *)
Theorem data_section_roundtrip :
  (∀ body rest : bytes, Z.of_nat (length body) + 5 < 2 ^ 32 →
     DecodeDataSection (EncodeDataSection body ++ rest) = Ok body) ∧
  (∀ raw, DecodeDataSection raw ≠ Panic).
Proof.
  split.
  - intros body rest Hlen. unfold EncodeDataSection, DecodeDataSection. cbn [app].
    change ((b2z (z2b 0) =? 0) && (b2z (z2b 83) =? 83) && (b2z (z2b 117) =? 117)) with true.
    cbn iota. change (mkDecoder ?x 0) with (dec_at [] x).
    rewrite d_value_at with (v := VBinary body); [done..|].
    unfold encodeBytes. case_match; rewrite !length_app, ?length_be_put; cbn [length]; lia.
  - intros raw. apply DecodeDataSection_no_panic.
Qed.

(** ** Frames over a stream *)

(** What [ParseFrame] makes of a marshalled frame. *)
Definition parsed (f : Frame) : Frame :=
  mkFrame (frame_total f) (z2b (frame_offset f)) (f_Type f) (f_Channel f) (f_Body f).

Definition frame_fits (max : Z) (f : Frame) : Prop :=
  frame_wf f ∧ (0 < max → frame_total f ≤ max).

(** The read side of the connection loop: [n] frames in sequence. *)
Fixpoint read_frames (n : nat) (max : Z) : go bytes (list Frame) :=
  match n with
  | O => mret []
  | S n' => f ← ReadFrame max; fs ← read_frames n' max; mret (f :: fs)
  end.

Lemma ReadFull_app n l rest : length l = n → ReadFull n (l ++ rest) = (Ok l, rest).
Proof.
  intros <-. unfold ReadFull. rewrite bool_decide_eq_true_2 by (rewrite length_app; lia).
  by rewrite take_app_length, drop_app_length.
Qed.

Lemma ReadFrame_bytes max f rest :
  frame_fits max f → ReadFrame max (frame_bytes f ++ rest) = (Ok (parsed f), rest).
Proof.
  intros [Hwf Hmax]. destruct (Hwf) as (_ & Hoff & Htot & _).
  pose proof (length_frame_bytes f Hoff) as Hlen.
  assert (frame_total f = frame_offset f * 4 + Z.of_nat (length (f_Body f))) as Et by done.
  rewrite <-(take_drop 8 (frame_bytes f)), <-app_assoc. unfold ReadFrame.
  assert (length (take 8 (frame_bytes f)) = 8%nat) as L8 by (rewrite length_take; lia).
  rewrite (go_bind_Ok _ _ _ _ _ (ReadFull_app 8 _ _ L8)).
  unfold lift at 1. rewrite slice_Ok by (rewrite length_take; lia).
  erewrite go_bind_Ok by reflexivity. rewrite drop_0. cbn [Nat.sub].
  replace (take 4 (take 8 (frame_bytes f))) with (be_put 4 (frame_total f))
    by (by unfold frame_bytes).
  rewrite be_get_put_small by (cbn; lia).
  destruct (Z.ltb_spec (frame_total f) 8); [lia|].
  destruct ((0 <? max) && _) eqn:E; [zlia|].
  rewrite (go_bind_Ok _ _ _ (drop 8 (frame_bytes f)) rest).
  2: { unfold wrap. rewrite ReadFull_app; [done|]. rewrite length_drop. lia. }
  unfold lift. rewrite take_drop. f_equal. by apply ParseFrame_bytes.
Qed.

(** C28. Framing: frames written one after the other are read back one by one,
    in order and completely, and nothing beyond them is consumed: reading
    [length fs] frames from their concatenation followed by [rest] returns
    exactly those frames and leaves [rest]. *)
Theorem read_frames_concat (fs : list Frame) (max : Z) (rest : bytes) :
  Forall (frame_fits max) fs →
  read_frames (length fs) max (concat (frame_bytes <$> fs) ++ rest) = (Ok (parsed <$> fs), rest).
Proof.
  induction 1 as [|f fs Hf Hfs IH]; [done|]. cbn [length read_frames fmap list_fmap concat].
  rewrite <-app_assoc, (go_bind_Ok _ _ _ _ _ (ReadFrame_bytes max f _ Hf)).
  by rewrite (go_bind_Ok _ _ _ _ _ IH).
Qed.

Lemma ReadFrame_spec (max : Z) (s : bytes) :
  match ReadFrame max s with
  | (Ok f, s') => (0 < max → f_Size f ≤ max) ∧
      ∃ raw, s = raw ++ s' ∧ Z.of_nat (length raw) = f_Size f ∧ ParseFrame raw max = Ok f
  | (Err _, _) => True
  | (Panic, _) => False
  end.
Proof.
  unfold ReadFrame, ReadFull, mbind, go_bind.
  destruct (bool_decide_reflect (8 ≤ length s)%nat) as [H8|]; [|by destruct s].
  unfold lift. rewrite slice_Ok by (rewrite length_take; lia).
  set (size := be_get _). destruct (Z.ltb_spec size 8); [done|].
  destruct ((0 <? max) && _) eqn:E; [done|]. unfold wrap.
  destruct (bool_decide_reflect (Z.to_nat size - 8 ≤ length (drop 8 s))%nat) as [Hb|];
    [|by destruct (drop 8 s)].
  rewrite length_drop in Hb. rewrite take_take_drop, drop_drop.
  replace (8 + (Z.to_nat size - 8))%nat with (Z.to_nat size) by lia.
  pose proof (ParseFrame_spec (take (Z.to_nat size) s) max) as Hp.
  destruct (ParseFrame _ _) as [f|e|] eqn:EP; [|done..].
  destruct Hp as (Hsz & ? & Hm & _). split; [done|].
  exists (take (Z.to_nat size) s). rewrite take_drop. done.
Qed.

(** [ReadFrame] never panics, whatever the stream holds, and a frame it
    accepts is within the maximum and is a prefix of the stream: the bytes
    consumed are exactly the frame's declared size. *)
Theorem ReadFrame_safe (max : Z) (s : bytes) :
  match ReadFrame max s with
  | (Ok f, s') => (0 < max → f_Size f ≤ max) ∧
      ∃ raw, s = raw ++ s' ∧ Z.of_nat (length raw) = f_Size f ∧ ParseFrame raw max = Ok f
  | (Err _, _) => True
  | (Panic, _) => False
  end.
Proof. apply ReadFrame_spec. Qed.

(** A writer that keeps the [io.Writer] contract: a successful [Write] of a
    non-empty slice takes at least one byte and no more than it was given, and
    appends what it took to what was sent. *)
Definition good_writer {W} (write : bytes → go W nat) (sent : W → bytes) : Prop :=
  ∀ raw w, raw ≠ [] → ∃ n w', write raw w = (Ok n, w') ∧
    (1 ≤ n ≤ length raw)%nat ∧ sent w' = sent w ++ take n raw.

Lemma write_loop_good {W} (write : bytes → go W nat) (sent : W → bytes) :
  good_writer write sent → ∀ fuel raw w, (length raw ≤ fuel)%nat →
  ∃ w', write_loop write fuel raw w = (Ok tt, w') ∧ sent w' = sent w ++ raw.
Proof.
  intros Hw. induction fuel as [|fuel IH]; intros raw w Hf.
  { destruct raw; [|cbn in Hf; lia]. exists w. by rewrite app_nil_r. }
  destruct raw as [|b raw]; [exists w; by rewrite app_nil_r|].
  destruct (Hw (b :: raw) w) as (n & w1 & E1 & Hn & Hs1); [done|].
  cbn [write_loop]. rewrite (go_bind_Ok _ _ _ _ _ E1). unfold lift.
  rewrite slice_from_Ok by lia. erewrite go_bind_Ok by reflexivity.
  destruct (IH (drop n (b :: raw)) w1) as (w2 & -> & Hs2).
  { rewrite length_drop. lia. }
  exists w2. split; [done|]. by rewrite Hs2, Hs1, <-app_assoc, take_drop.
Qed.

(** [WriteFrame] over a writer that may take its bytes in pieces: for a
    well-formed frame within the maximum it succeeds (the loop ends) and sends
    exactly the frame's bytes, however the writer splits them. *)
Theorem WriteFrame_sends {W} (write : bytes → go W nat) (sent : W → bytes) (f : Frame)
    (max : Z) (w : W) :
  good_writer write sent → frame_fits max f →
  ∃ w', WriteFrame write f max w = (Ok tt, w') ∧ sent w' = sent w ++ frame_bytes f.
Proof.
  intros Hw [Hwf Hmax]. unfold WriteFrame, lift.
  rewrite (Frame_Marshal_wf f max Hwf Hmax). erewrite go_bind_Ok by reflexivity.
  by apply write_loop_good.
Qed.

(** The encoder and [Marshal] never panic (the latter for the data offset of
    two words that [FrameFor] sets). *)
Lemma encode_concat_no_panic l :
  Forall (λ v, encodeValue v ≠ Panic) l → encode_concat encodeValue l ≠ Panic.
Proof.
  induction 1 as [|v l Hv _ IH]; [done|]. cbn. unfold mbind, res_mbind, res_bind.
  destruct (encodeValue v); [|done..]. by destruct (encode_concat encodeValue l).
Qed.

Lemma encode_list_no_panic l :
  Forall (λ v, encodeValue v ≠ Panic) l → encode_list_with encodeValue l ≠ Panic.
Proof.
  intros Hl%encode_concat_no_panic. unfold encode_list_with. destruct l; [done|].
  unfold mbind, res_mbind, res_bind. destruct (encode_concat _ _); [|done..]. by case_match.
Qed.

Lemma encodeValue_no_panic v : encodeValue v ≠ Panic.
Proof.
  induction v as [|b|x|x|x|x|s|s|b|l IH|m IH|] using value_induction; cbn -[encode_list_with];
    try done; try (by repeat case_match).
  - by apply encode_list_no_panic.
  - destruct (map_get m _); try done.
    assert (encode_at encodeValue "value" m ≠ Panic) as H.
    { induction IH as [|[k v] m Hv _ IHm]; [done|]. cbn. by case_bool_decide. }
    unfold mbind, res_mbind, res_bind. by destruct (encode_at _ _ _).
Qed.

Lemma FrameFor_no_panic ch p payload : FrameFor ch p payload ≠ Panic.
Proof.
  unfold FrameFor, EncodePerformative, encodeList, mbind, res_mbind, res_bind.
  assert (Performative_Validate p ≠ Panic) as Hv by (unfold Performative_Validate; by repeat case_match).
  destruct (Performative_Validate p); [|done..].
  assert (encode_list_with encodeValue (trimNulls (p_Fields p)) ≠ Panic) as Hl.
  { apply encode_list_no_panic, Forall_forall. intros v _. apply encodeValue_no_panic. }
  by destruct (encode_list_with _ _).
Qed.

Lemma Frame_Marshal_no_panic size typ ch body max :
  Frame_Marshal (mkFrame size (z2b 2) typ ch body) max ≠ Panic.
Proof.
  unfold Frame_Marshal. cbv zeta. cbn [f_DataOffset f_Body].
  change (b2z (z2b 2) =? 0) with false. cbn iota. set (n := u32 _).
  destruct (Z.ltb_spec n 8); [done|]. case_match; [done|].
  rewrite slice_from_Ok; [done|]. rewrite !length_app, !length_be_put, length_drop, length_replicate.
  change (Z.to_nat (b2z (z2b 2) * 4)) with 8%nat. cbn [length]. lia.
Qed.

(** ** Witnesses *)
Definition wit_open : Performative :=
  mkPerformative DescriptorOpen
    [VString "client"; VNil; VU32 65536; VU16 12; VMap [("descriptor", VU8 (z2b 0x24));
     ("value", VList [])]; VNil].

Definition wit_frame : Frame := mkFrame 0 (z2b 2) FrameTypeAMQP 3 (string_bytes "body").
Definition wit_frame4 : Frame := mkFrame 0 (z2b 4) FrameTypeSASL 0 [].

Lemma value_roundtrip_witness :
  ∃ bs, encodeValue (VList (p_Fields wit_open)) = Ok bs ∧
  d_value (mkDecoder (bs ++ string_bytes "tail") 0) =
    (Ok (VList (p_Fields wit_open)), mkDecoder (bs ++ string_bytes "tail") (length bs)).
Proof.
  eexists. split; [vm_compute; reflexivity|].
  apply (value_roundtrip (VList (p_Fields wit_open))).
  - cbn. repeat split; lia.
  - vm_compute. reflexivity.
  - vm_compute. reflexivity.
Defined.

Lemma performative_roundtrip_witness :
  ∃ bs, EncodePerformative wit_open = Ok bs ∧
  DecodePerformative (bs ++ string_bytes "payload") =
    Ok (mkPerformative DescriptorOpen (take 5 (p_Fields wit_open)), length bs) ∧ length bs = 27%nat.
Proof.
  eexists. split; [vm_compute; reflexivity|]. split; [|vm_compute; reflexivity].
  refine (proj1 (proj2 (performative_roundtrip wit_open _ (string_bytes "payload") 1 _ _ _ _)) _).
  - repeat (constructor; [cbn; repeat split; lia|]). constructor.
  - vm_compute. reflexivity.
  - vm_compute. reflexivity.
  - vm_compute. reflexivity.
  - right. exists 0. split; [lia|]. vm_compute. discriminate.
Defined.

Lemma wit_frames_fit : Forall (frame_fits 1024) [wit_frame; wit_frame4].
Proof.
  apply Forall_cons_2; [|apply Forall_cons_2; [|apply Forall_nil_2]];
    (split; [repeat split; try (vm_compute; congruence)|vm_compute; congruence]).
  - by left.
  - by right.
Qed.

Lemma read_frames_concat_witness :
  read_frames 2 1024 (concat (frame_bytes <$> [wit_frame; wit_frame4]) ++ string_bytes "next") =
    (Ok (parsed <$> [wit_frame; wit_frame4]), string_bytes "next").
Proof. apply (read_frames_concat [wit_frame; wit_frame4]). exact wit_frames_fit. Defined.

(** A writer that takes at most three bytes per call. *)
Definition chunk_writer (raw : bytes) : go bytes nat := λ sent,
  (Ok (length (take 3 raw)), sent ++ take 3 raw).

Lemma WriteFrame_sends_witness :
  ∃ w', WriteFrame chunk_writer wit_frame 1024 [] = (Ok tt, w') ∧ w' = frame_bytes wit_frame.
Proof.
  apply (WriteFrame_sends chunk_writer id wit_frame 1024 []).
  - intros raw w Hraw. eexists _, _. split; [reflexivity|]. rewrite length_take.
    destruct raw; [done|]. split; [cbn [length]; lia|]. cbn [id]. f_equal.
    destruct (decide (3 ≤ length (a :: raw))%nat).
    + by replace (3 `min` length (a :: raw))%nat with 3%nat by lia.
    + rewrite !take_ge by lia. done.
  - pose proof wit_frames_fit as H. by inversion H.
Defined.
