(* ===== verification/Text.v ===== *)
(** * Text functions of Go's standard library

    What the sources use of [strings.TrimSpace], [strings.Split],
    [strings.TrimPrefix] and [path.Match], on byte strings.  [path.Match]
    follows the library's algorithm (chunks between stars, character classes,
    escapes); the matcher of [internal/routing] calls it on every literal
    segment of a topic pattern. *)

From S2P Require Import Prelude Bytes.

(** ** [strings.Split] on a one-byte separator *)
Fixpoint split_loop (sep : byte) (cur : bytes) (l : bytes) : list bytes :=
  match l with
  | [] => [reverse cur]
  | c :: l' =>
      if bool_decide (c = sep) then reverse cur :: split_loop sep [] l'
      else split_loop sep (c :: cur) l'
  end.

Definition Split (sep : byte) (l : bytes) : list bytes := split_loop sep [] l.

Definition split_string (sep : byte) (s : string) : list string :=
  bytes_string <$> Split sep (string_bytes s).

(** ** [strings.TrimSpace]

    The encodings of the code points of [unicode.IsSpace]. *)
Definition space_runes : list Z :=
  [9; 10; 11; 12; 13; 32; 0x85; 0xA0; 0x1680; 0x2000; 0x2001; 0x2002; 0x2003; 0x2004; 0x2005;
   0x2006; 0x2007; 0x2008; 0x2009; 0x200A; 0x2028; 0x2029; 0x202F; 0x205F; 0x3000].

Definition space_seqs : list bytes := utf8_encode <$> space_runes.

Fixpoint strip_prefix (p l : bytes) : option bytes :=
  match p, l with
  | [], _ => Some l
  | a :: p', b :: l' => if bool_decide (a = b) then strip_prefix p' l' else None
  | _, _ => None
  end.

Fixpoint strip_any (ps : list bytes) (l : bytes) : option bytes :=
  match ps with
  | [] => None
  | p :: ps' => match strip_prefix p l with Some r => Some r | None => strip_any ps' l end
  end.

(** One round per byte is enough: every round removes at least one byte. *)
Fixpoint trim_rounds (ps : list bytes) (fuel : nat) (l : bytes) : bytes :=
  match fuel with
  | O => l
  | S n => match strip_any ps l with Some r => trim_rounds ps n r | None => l end
  end.

Definition TrimLeft (l : bytes) : bytes := trim_rounds space_seqs (length l) l.
Definition TrimRight (l : bytes) : bytes :=
  reverse (trim_rounds (reverse <$> space_seqs) (length l) (reverse l)).
Definition TrimSpace (s : string) : string :=
  bytes_string (TrimRight (TrimLeft (string_bytes s))).

(** ** [strings.TrimPrefix] *)
Definition TrimPrefix (s p : string) : string :=
  match strip_prefix (string_bytes p) (string_bytes s) with
  | Some r => bytes_string r
  | None => s
  end.

(** ** [utf8.DecodeRuneInString]: the rune and its width; (0xFFFD, 1) on an
    invalid encoding, (0xFFFD, 0) on the empty string. *)
Definition cont (b : byte) : bool := (0x80 <=? b2z b) && (b2z b <=? 0xBF).

Definition decode_rune (s : bytes) : Z * nat :=
  match s with
  | [] => (0xFFFD, 0%nat)
  | a :: r =>
      let x := b2z a in
      if x <? 0x80 then (x, 1%nat)
      else if (x <? 0xC2) || (0xF4 <? x) then (0xFFFD, 1%nat)
      else match r with
      | [] => (0xFFFD, 1%nat)
      | b :: r2 =>
          let lo := if x =? 0xE0 then 0xA0 else if x =? 0xF0 then 0x90 else 0x80 in
          let hi := if x =? 0xED then 0x9F else if x =? 0xF4 then 0x8F else 0xBF in
          if (b2z b <? lo) || (hi <? b2z b) then (0xFFFD, 1%nat)
          else if x <? 0xE0 then ((x - 0xC0) * 64 + (b2z b - 0x80), 2%nat)
          else match r2 with
          | [] => (0xFFFD, 1%nat)
          | c :: r3 =>
              if negb (cont c) then (0xFFFD, 1%nat)
              else if x <? 0xF0 then
                ((x - 0xE0) * 4096 + (b2z b - 0x80) * 64 + (b2z c - 0x80), 3%nat)
              else match r3 with
              | [] => (0xFFFD, 1%nat)
              | d :: _ =>
                  if negb (cont d) then (0xFFFD, 1%nat)
                  else ((x - 0xF0) * 262144 + (b2z b - 0x80) * 4096 +
                        (b2z c - 0x80) * 64 + (b2z d - 0x80), 4%nat)
              end
          end
      end
  end.

(** ** [path.Match] *)
Definition chr (x : Z) : byte := z2b x.
Definition c_star : byte := chr 42.
Definition c_quest : byte := chr 63.
Definition c_open : byte := chr 91.
Definition c_close : byte := chr 93.
Definition c_back : byte := chr 92.
Definition c_dash : byte := chr 45.
Definition c_caret : byte := chr 94.
Definition c_slash : byte := chr 47.

Definition starts (c : byte) (l : bytes) : bool :=
  match l with x :: _ => bool_decide (x = c) | [] => false end.

(** [None] is [ErrBadPattern]. *)
Definition getEsc (chunk : bytes) : option (Z * bytes) :=
  if starts c_dash chunk || starts c_close chunk || bool_decide (chunk = []) then None
  else
    let chunk := if starts c_back chunk then tail chunk else chunk in
    if bool_decide (chunk = []) then None
    else
      let '(r, n) := decode_rune chunk in
      if (r =? 0xFFFD) && bool_decide (n = 1%nat) then None
      else
        let nchunk := drop n chunk in
        if bool_decide (nchunk = []) then None else Some (r, nchunk).

(** The loop over the ranges of a class: [match_] so far, [nrange > 0]. *)
Fixpoint class_loop (fuel : nat) (chunk : bytes) (r : Z) (match_ some : bool) :
    option (bool * bytes) :=
  match fuel with
  | O => None
  | S fuel' =>
      if starts c_close chunk && some then Some (match_, tail chunk)
      else
        match getEsc chunk with
        | None => None
        | Some (lo, chunk1) =>
            match (if starts c_dash chunk1 then getEsc (tail chunk1) else Some (lo, chunk1)) with
            | None => None
            | Some (hi, chunk2) =>
                class_loop fuel' chunk2 r (match_ || ((lo <=? r) && (r <=? hi))) true
            end
        end
  end.

Fixpoint matchChunk (fuel : nat) (chunk s : bytes) (failed : bool) : option (bytes * bool) :=
  match fuel with
  | O => None
  | S fuel' =>
      match chunk with
      | [] => Some (if failed then ([], false) else (s, true))
      | c :: chunk' =>
          let failed := failed || bool_decide (s = []) in
          if bool_decide (c = c_open) then
            let '(r, n) := if failed then (0, 0%nat) else decode_rune s in
            let s := drop n s in
            let negated := starts c_caret chunk' in
            let chunk' := if negated then tail chunk' else chunk' in
            match class_loop (S (length chunk')) chunk' r false false with
            | None => None
            | Some (match_, chunk'') =>
                matchChunk fuel' chunk'' s (failed || eqb match_ negated)
            end
          else if bool_decide (c = c_quest) then
            if failed then matchChunk fuel' chunk' s failed
            else matchChunk fuel' chunk' (drop (decode_rune s).2 s) (starts c_slash s)
          else
            let lit := if bool_decide (c = c_back) then chunk' else chunk in
            match lit with
            | [] => None
            | x :: lit' =>
                if failed then matchChunk fuel' lit' s failed
                else matchChunk fuel' lit' (tail s) (negb (starts x s))
            end
      end
  end.

Definition match_chunk (chunk s : bytes) : option (bytes * bool) :=
  matchChunk (S (length chunk)) chunk s false.

(** The index loop of [scanChunk] after the stars: the chunk and the rest. *)
Fixpoint scan_loop (pattern : bytes) (inrange : bool) : bytes * bytes :=
  match pattern with
  | [] => ([], [])
  | c :: p' =>
      if bool_decide (c = c_star) && negb inrange then ([], pattern)
      else if bool_decide (c = c_back) then
        match p' with
        | [] => ([c], [])
        | x :: p'' => let '(a, b) := scan_loop p'' inrange in (c :: x :: a, b)
        end
      else
        let inrange' := if bool_decide (c = c_open) then true
                        else if bool_decide (c = c_close) then false else inrange in
        let '(a, b) := scan_loop p' inrange' in (c :: a, b)
  end.

Fixpoint drop_stars (pattern : bytes) : bytes :=
  match pattern with
  | c :: p' => if bool_decide (c = c_star) then drop_stars p' else pattern
  | [] => []
  end.

Definition scanChunk (pattern : bytes) : bool * bytes * bytes :=
  let p := drop_stars pattern in
  let '(chunk, rest) := scan_loop p false in
  (starts c_star pattern, chunk, rest).

(** The skip loop of a starred chunk: [None] is a bad pattern, [Some None] no
    match, [Some (Some t)] the name left after the match. *)
Fixpoint star_loop (chunk name : bytes) (last : bool) : option (option bytes) :=
  match name with
  | [] => Some None
  | c :: name' =>
      if bool_decide (c = c_slash) then Some None
      else
        match match_chunk chunk name' with
        | None => None
        | Some (t, true) =>
            if last && negb (bool_decide (t = [])) then star_loop chunk name' last
            else Some (Some t)
        | Some (_, false) => star_loop chunk name' last
        end
  end.

(** A false result or a bad pattern: [ok, _ := path.Match(...)] does not tell
    them apart, and neither does the caller. *)
Fixpoint match_loop (fuel : nat) (pattern name : bytes) : bool :=
  match fuel with
  | O => false
  | S fuel' =>
      match pattern with
      | [] => bool_decide (name = [])
      | _ =>
          let '(star, chunk, rest) := scanChunk pattern in
          if star && bool_decide (chunk = []) then negb (bool_decide (c_slash ∈ name))
          else
            match match_chunk chunk name with
            | None => false
            | Some (t, ok) =>
                if ok && (bool_decide (t = []) || negb (bool_decide (rest = []))) then
                  match_loop fuel' rest t
                else if star then
                  match star_loop chunk name (bool_decide (rest = [])) with
                  | Some (Some t') => match_loop fuel' rest t'
                  | _ => false
                  end
                else false
            end
      end
  end.

Definition PathMatch (pattern name : bytes) : bool :=
  match_loop (S (length pattern)) pattern name.

(** ** Lemmas *)

(** A byte that [path.Match] reads literally. *)
Definition literal (c : byte) : bool :=
  negb (bool_decide (c = c_star)) && negb (bool_decide (c = c_quest)) &&
  negb (bool_decide (c = c_open)) && negb (bool_decide (c = c_back)).

Lemma scan_loop_literal p :
  forallb literal p = true → scan_loop p false = (p, []).
Proof.
  assert (∀ q b, forallb literal q = true → b = false → scan_loop q b = (q, [])) as H;
    [|by intros; apply H].
  induction q as [|c q IH]; intros b Hq ->; [done|].
  cbn in Hq. apply andb_true_iff in Hq as [Hc Hq]. unfold literal in Hc. zbool.
  cbn [scan_loop]. rewrite !bool_decide_eq_false_2 by done. cbn [andb].
  rewrite IH by (done || by case_bool_decide). done.
Qed.

Lemma matchChunk_failed p s fuel :
  forallb literal p = true → (length p < fuel)%nat →
  matchChunk fuel p s true = Some ([], false).
Proof.
  revert s fuel. induction p as [|c p IH]; intros s [|fuel] Hp Hf; cbn in Hf; try lia; [done|].
  cbn in Hp. apply andb_true_iff in Hp as [Hc Hp]. unfold literal in Hc. zbool.
  cbn [matchChunk orb]. rewrite !bool_decide_eq_false_2 by done. apply IH; [done|lia].
Qed.

Lemma matchChunk_literal p s fuel :
  forallb literal p = true → (length p < fuel)%nat →
  matchChunk fuel p s false =
    Some (match strip_prefix p s with Some t => (t, true) | None => ([], false) end).
Proof.
  revert s fuel. induction p as [|c p IH]; intros s [|fuel] Hp Hf; cbn in Hf; try lia; [done|].
  cbn in Hp. apply andb_true_iff in Hp as [Hc Hp]. pose proof Hc as Hc'. unfold literal in Hc. zbool.
  cbn [matchChunk orb]. rewrite (bool_decide_eq_false_2 (c = c_open)) by done.
  rewrite (bool_decide_eq_false_2 (c = c_quest)), (bool_decide_eq_false_2 (c = c_back)) by done.
  destruct s as [|x s]; cbn [bool_decide strip_prefix starts tail].
  { rewrite bool_decide_eq_true_2 by done. apply matchChunk_failed; [done|lia]. }
  rewrite bool_decide_eq_false_2 by done. case_bool_decide as E.
  - subst x. rewrite bool_decide_eq_true_2 by done. apply IH; [done|lia].
  - rewrite bool_decide_eq_false_2 by done. apply matchChunk_failed; [done|lia].
Qed.

Lemma strip_prefix_nil p s : strip_prefix p s = Some [] ↔ p = s.
Proof.
  revert s. induction p as [|a p IH]; intros [|b s]; cbn; try done.
  case_bool_decide; [subst; rewrite IH; split; congruence|split; congruence].
Qed.

(** On a pattern without meta characters [path.Match] is equality. *)
Lemma PathMatch_literal p s :
  forallb literal p = true → PathMatch p s = bool_decide (p = s).
Proof.
  intros Hp. unfold PathMatch. destruct p as [|c p].
  { cbn. apply bool_decide_ext. by split. }
  assert (starts c_star (c :: p) = false ∧ drop_stars (c :: p) = c :: p) as [Hs Hd].
  { cbn in Hp. apply andb_true_iff in Hp as [Hc _]. unfold literal in Hc. zbool.
    cbn. by rewrite bool_decide_eq_false_2 by done. }
  cbn [match_loop]. unfold scanChunk. rewrite Hs, Hd, scan_loop_literal by done. cbn [andb].
  unfold match_chunk. rewrite matchChunk_literal by (done || lia).
  destruct (strip_prefix (c :: p) s) as [t|] eqn:E.
  - destruct t as [|x t]; cbn [andb].
    + apply strip_prefix_nil in E as <-. rewrite !bool_decide_eq_true_2 by done. cbn.
      done.
    + rewrite (bool_decide_eq_false_2 (x :: t = [])) by done.
      rewrite (bool_decide_eq_true_2 (_ = [])) by done. cbn.
      symmetry. apply bool_decide_eq_false_2. intros Heq. apply strip_prefix_nil in Heq. congruence.
  - cbn. symmetry. apply bool_decide_eq_false_2. intros Heq. apply strip_prefix_nil in Heq. congruence.
Qed.

Example TrimSpace_ex : TrimSpace "  jobs.dead	 " = "jobs.dead".
Proof. reflexivity. Qed.
Example split_ex : split_string (chr 46) "a..b" = ["a"; ""; "b"].
Proof. reflexivity. Qed.
Example PathMatch_ex :
  PathMatch (string_bytes "b*l[a-k]?") (string_bytes "bxxlix") = true ∧
  PathMatch (string_bytes "a[") (string_bytes "a[") = false ∧
  PathMatch (string_bytes "a*") (string_bytes "ab/c") = false.
Proof. split_and!; reflexivity. Qed.
