(* ===== verification/Duration.v ===== *)
(** * Durations and instants

    Models what the sources use of Go's [time] package: [time.Duration] as an
    [int64] count of nanoseconds, [time.ParseDuration] (with the [float64]
    arithmetic of its fractions, through the Standard Library's executable
    IEEE 754 operations), and [time.Time] as nanoseconds since the zero time,
    so that [IsZero] is [= 0]; [UTC()] changes only the location and is the
    identity. *)

From Stdlib Require Import Ascii SpecFloat.
From S2P Require Import Prelude Bytes.

(** ** Definitions *)
Abbreviation time := Z.
Abbreviation duration := Z.

Definition Nanosecond : duration := 1.
Definition Microsecond : duration := 1000.
Definition Millisecond : duration := 1000000.
Definition Second : duration := 1000000000.
Definition Minute : duration := 60 * Second.
Definition Hour : duration := 60 * Minute.

Definition time_IsZero (t : time) : bool := t =? 0.
Definition time_After (t u : time) : bool := u <? t.
Definition time_Before (t u : time) : bool := t <? u.
Definition time_Add (t : time) (d : duration) : time := t + d.

(** [float64] values: conversion from an unsigned integer, product, quotient
    and truncation to an integer. *)
Definition f64_of (n : Z) : spec_float := binary_normalize 53 1024 n 0 false.
Definition f64_mul : spec_float → spec_float → spec_float := SFmul 53 1024.
Definition f64_div : spec_float → spec_float → spec_float := SFdiv 53 1024.
Definition f64_trunc (f : spec_float) : Z :=
  match f with
  | S754_finite false m e =>
      if 0 <=? e then Z.pos m * 2 ^ e else (Z.pos m) / (2 ^ (- e))
  | _ => 0
  end.

Definition digit (c : byte) : bool := (48 <=? b2z c) && (b2z c <=? 57).

(** [leadingInt]: [None] is its overflow error. *)
Fixpoint leadingInt (x : Z) (s : bytes) : option (Z * bytes) :=
  match s with
  | c :: s' =>
      if negb (digit c) then Some (x, s)
      else if (2 ^ 63) / 10 <? x then None
      else let x' := x * 10 + (b2z c - 48) in
           if 2 ^ 63 <? x' then None else leadingInt x' s'
  | [] => Some (x, s)
  end.

Fixpoint leadingFraction (overflow : bool) (x : Z) (scale : spec_float) (s : bytes) :
    Z * spec_float * bytes :=
  match s with
  | c :: s' =>
      if negb (digit c) then (x, scale, s)
      else if overflow then leadingFraction true x scale s'
      else if (2 ^ 63 - 1) / 10 <? x then leadingFraction true x scale s'
      else let y := x * 10 + (b2z c - 48) in
           if 2 ^ 63 <? y then leadingFraction true x scale s'
           else leadingFraction false y (f64_mul scale (f64_of 10)) s'
  | [] => (x, scale, s)
  end.

Fixpoint unit_span (s : bytes) : bytes * bytes :=
  match s with
  | c :: s' =>
      if (b2z c =? 46) || digit c then ([], s)
      else let '(u, r) := unit_span s' in (c :: u, r)
  | [] => ([], [])
  end.

(** [unitMap]; the two spellings of microseconds are U+00B5 and U+03BC. *)
Definition unitMap (u : bytes) : option Z :=
  if bool_decide (u = string_bytes "ns") then Some Nanosecond
  else if bool_decide (u = string_bytes "us") then Some Microsecond
  else if bool_decide (u = [z2b 194; z2b 181; z2b 115]) then Some Microsecond
  else if bool_decide (u = [z2b 206; z2b 188; z2b 115]) then Some Microsecond
  else if bool_decide (u = string_bytes "ms") then Some Millisecond
  else if bool_decide (u = string_bytes "s") then Some Second
  else if bool_decide (u = string_bytes "m") then Some Minute
  else if bool_decide (u = string_bytes "h") then Some Hour
  else None.

(** One turn of [for s != ""]: the nanoseconds read and the rest. *)
Definition duration_item (s : bytes) : option (Z * bytes) :=
  '(v, s1) ← leadingInt 0 s;
  let pre := negb (length s1 =? length s)%nat in
  let '(f, scale, s2, post) :=
    match s1 with
    | c :: s1' =>
        if b2z c =? 46 then
          let '(f, scale, s2) := leadingFraction false 0 (f64_of 1) s1' in
          (f, scale, s2, negb (length s2 =? length s1')%nat)
        else (0, f64_of 1, s1, false)
    | [] => (0, f64_of 1, s1, false)
    end in
  if negb pre && negb post then None
  else
    let '(u, s3) := unit_span s2 in
    if bool_decide (u = []) then None
    else
      unit ← unitMap u;
      if (2 ^ 63) / unit <? v then None
      else
        let v1 := v * unit in
        let v2 := if 0 <? f
                  then v1 + f64_trunc (f64_mul (f64_of f) (f64_div (f64_of unit) scale))
                  else v1 in
        if (0 <? f) && (2 ^ 63 <? v2) then None else Some (v2, s3).

Fixpoint duration_loop (fuel : nat) (d : Z) (s : bytes) : option Z :=
  match s, fuel with
  | [], _ => Some d
  | _, O => None
  | c :: _, S fuel' =>
      if negb ((b2z c =? 46) || digit c) then None
      else
        '(v, s') ← duration_item s;
        let d' := u64 (d + v) in
        if 2 ^ 63 <? d' then None else duration_loop fuel' d' s'
  end.

(** [time.ParseDuration]; every turn of the loop consumes a byte, so the
    length of the text is enough fuel. *)
Definition ParseDuration (text : string) : option duration :=
  let s := string_bytes text in
  let '(neg, s) :=
    match s with
    | c :: s' => if b2z c =? 45 then (true, s') else if b2z c =? 43 then (false, s') else (false, s)
    | [] => (false, s)
    end in
  if bool_decide (s = string_bytes "0") then Some 0
  else if bool_decide (s = []) then None
  else
    d ← duration_loop (length s) 0 s;
    if (neg : bool) then Some (- d)
    else if 2 ^ 63 - 1 <? d then None else Some d.

#[global] Arguments f64_of : simpl never.

(** ** Lemmas *)
Lemma leadingInt_suffix s : ∀ x v r, leadingInt x s = Some (v, r) → r `suffix_of` s.
Proof.
  induction s as [|c s IH]; intros x v r H; cbn in H; [by injection H as <- <-|].
  repeat case_match; try done; [by injection H as <- <-|].
  apply IH in H as [p ->]. by exists (c :: p).
Qed.

Lemma leadingFraction_suffix s :
  ∀ o x sc v sc' r, leadingFraction o x sc s = (v, sc', r) → r `suffix_of` s.
Proof.
  induction s as [|c s IH]; intros o x sc v sc' r H; cbn in H; [by injection H as <- <- <-|].
  repeat case_match; try (injection H as <- <- <-; done);
    apply IH in H as [p ->]; by exists (c :: p).
Qed.

Lemma unit_span_app s : ∀ u r, unit_span s = (u, r) → s = u ++ r.
Proof.
  induction s as [|c s IH]; intros u r H; cbn in H; [by injection H as <- <-|].
  case_match; [by injection H as <- <-|].
  destruct (unit_span s) as [u' r'] eqn:E. injection H as <- <-. cbn. f_equal. by apply IH.
Qed.

(** Every item consumes input, so the fuel of [ParseDuration] is never what
    makes it fail. *)
Lemma duration_item_shorter s v r : duration_item s = Some (v, r) → (length r < length s)%nat.
Proof.
  unfold duration_item. destruct (leadingInt 0 s) as [[x s1]|] eqn:E1; [|done]. cbn.
  apply leadingInt_suffix, suffix_length in E1.
  assert (∀ s2 : bytes, (length s2 ≤ length s1)%nat → ∀ u, unit_span s2 = (u, r) → u ≠ [] →
    (length r < length s)%nat) as Hu.
  { intros s2 H2 u ->%unit_span_app Hne. rewrite length_app in H2.
    destruct u; [done|cbn in H2; lia]. }
  destruct (match s1 with [] => _ | _ => _ end) as [[[f scale] s2] post] eqn:E2.
  assert (length s2 ≤ length s1)%nat as Hs2.
  { destruct s1 as [|c s1']; [by inversion E2; subst|].
    destruct (b2z c =? 46); [|by inversion E2; subst].
    destruct (leadingFraction false 0 (f64_of 1) s1') as [[f' sc'] s2'] eqn:E3.
    inversion E2; subst. apply leadingFraction_suffix, suffix_length in E3. cbn. lia. }
  destruct (_ && _); [done|]. destruct (unit_span s2) as [u s3] eqn:E4.
  case_bool_decide as Hne; [done|]. destruct (unitMap u); [|done]. cbn.
  repeat (case_match; try done); intros [= _ <-]; by eapply Hu.
Qed.

Example parse_90s : ParseDuration "1m30s" = Some (90 * Second).
Proof. vm_compute. reflexivity. Qed.
Example parse_half_hour : ParseDuration "-0.5h" = Some (- (30 * Minute)).
Proof. vm_compute. reflexivity. Qed.
Example parse_bad : ParseDuration "10" = None.
Proof. vm_compute. reflexivity. Qed.
