(* ===== verification/Matcher.v ===== *)
(** * The topic and header matcher

    Models [internal/routing/domain/matcher.go]: the [Matcher] interface as a
    class, [StandardMatcher] as its instance, and the recursive matching of
    topic segments.  The reference semantics of topic patterns is the
    inductive relation [topic_rel]. *)

From S2P Require Import Prelude Bytes Text.

Abbreviation headers := (gmap string string).

(** ** Definitions *)
Class Matcher := Match : string → headers → string → headers → bool.

(** [for i := 0; i <= len(key); i++] over the suffixes [key[i:]]. *)
Fixpoint any_suffix {A} (f : list A → bool) (key : list A) : bool :=
  f key || match key with [] => false | _ :: key' => any_suffix f key' end.

Fixpoint matchParts (pattern key : list string) : bool :=
  match pattern with
  | [] => bool_decide (key = [])
  | p :: pattern' =>
      if bool_decide (p = "#") then
        match pattern' with
        | [] => true
        | _ => any_suffix (matchParts pattern') key
        end
      else if bool_decide (p = "*") then
        match key with
        | [] => false
        | _ :: key' => matchParts pattern' key'
        end
      else
        match key with
        | [] => false
        | k :: key' =>
            if PathMatch (string_bytes p) (string_bytes k) then matchParts pattern' key' else false
        end
  end.

Definition dot : byte := z2b 46.

Definition topicMatch (pattern key : string) : bool :=
  if bool_decide (pattern = "#") || bool_decide (pattern = "") then true
  else matchParts (split_string dot pattern) (split_string dot key).

Definition filter_matches (hdrs filter_ : headers) : bool :=
  forallb (λ kv, match hdrs !! kv.1 with
                 | Some got => bool_decide (got = kv.2)
                 | None => false
                 end) (map_to_list filter_).

#[export] Instance StandardMatcher : Matcher := λ key hdrs pattern filter_,
  if negb (bool_decide (pattern = "")) && negb (topicMatch pattern key) then false
  else filter_matches hdrs filter_.

(** ** The reference semantics of topic patterns *)

(** A segment without [path.Match] meta characters. *)
Definition literal_segment (p : string) : bool := forallb literal (string_bytes p).

Inductive topic_rel : list string → list string → Prop :=
  | topic_nil : topic_rel [] []
  | topic_hash_none ps ks : topic_rel ps ks → topic_rel ("#" :: ps) ks
  | topic_hash_more ps k ks : topic_rel ("#" :: ps) ks → topic_rel ("#" :: ps) (k :: ks)
  | topic_star ps k ks : topic_rel ps ks → topic_rel ("*" :: ps) (k :: ks)
  | topic_literal p ps ks :
      literal_segment p = true → topic_rel ps ks → topic_rel (p :: ps) (p :: ks).

(** Every segment of the pattern is a wildcard or literal. *)
Definition plain_pattern (ps : list string) : Prop :=
  Forall (λ p, p = "#" ∨ p = "*" ∨ literal_segment p = true) ps.

(** ** Lemmas *)
Lemma any_suffix_true {A} (f : list A → bool) key :
  any_suffix f key = true ↔ ∃ pre suf, key = pre ++ suf ∧ f suf = true.
Proof.
  induction key as [|k key IH]; cbn; rewrite orb_true_iff.
  - split; [intros [H|H]; [by exists [], []|done]|]. intros ([] & [] & [=] & H). by left.
  - rewrite IH. split.
    + intros [H|(pre & suf & -> & H)]; [by exists [], (k :: key)|by exists (k :: pre), suf].
    + intros ([|x pre] & suf & E & H); [left; by rewrite E|].
      injection E as -> ->. right. by exists pre, suf.
Qed.

Lemma topic_hash_app ps pre suf : topic_rel ps suf → topic_rel ("#" :: ps) (pre ++ suf).
Proof. intros H. induction pre as [|k pre IH]; cbn; by constructor. Qed.

Lemma topic_hash_inv ps ks :
  topic_rel ("#" :: ps) ks → ∃ pre suf, ks = pre ++ suf ∧ topic_rel ps suf.
Proof.
  intros H. remember ("#" :: ps) as p eqn:E. revert ps E.
  induction H as [|ps' ks H _|ps' k ks H IH|ps' k ks H _|p' ps' ks Hl H _]; intros ps E; try done.
  - injection E as ->. by exists [], ks.
  - destruct (IH ps E) as (pre & suf & -> & Hs). by exists (k :: pre), suf.
  - injection E as -> ->. by exists ["#"], ks.
Qed.

Lemma topic_rel_hash ks : topic_rel ["#"] ks.
Proof. rewrite <-(app_nil_r ks). apply topic_hash_app. constructor. Qed.

Lemma matchParts_topic_rel ps :
  plain_pattern ps → ∀ ks, matchParts ps ks = true ↔ topic_rel ps ks.
Proof.
  induction 1 as [|p ps Hp Hps IH]; intros ks.
  { cbn. rewrite bool_decide_eq_true. split; [intros ->; constructor|by inversion 1]. }
  cbn [matchParts]. case_bool_decide as E1; [subst p|].
  - destruct ps as [|q ps]; [split; [intros _; apply topic_rel_hash|done]|].
    rewrite any_suffix_true. split.
    + intros (pre & suf & -> & H). apply topic_hash_app. by apply IH.
    + intros (pre & suf & -> & H)%topic_hash_inv. exists pre, suf. by rewrite IH.
  - case_bool_decide as E2; [subst p|].
    + destruct ks as [|k ks]; [split; [done|by inversion 1]|]. rewrite IH.
      split; [by constructor|]. inversion 1; by subst.
    + destruct Hp as [|[|Hl]]; [done..|]. destruct ks as [|k ks]; [split; [done|by inversion 1]|].
      rewrite (PathMatch_literal _ _ Hl). case_bool_decide as E.
      * apply string_bytes_inj in E as <-. rewrite IH.
        split; [by constructor|]. inversion 1; by subst.
      * split; [done|]. inversion 1; by subst.
Qed.

Lemma filter_matches_subseteq hdrs filter_ : filter_matches hdrs filter_ = true ↔ filter_ ⊆ hdrs.
Proof.
  unfold filter_matches. rewrite forallb_forall, map_subseteq_spec. split.
  - intros H k v Hk. specialize (H (k, v)). cbn in H.
    rewrite <-list_elem_of_In, elem_of_map_to_list in H. specialize (H Hk).
    destruct (hdrs !! k); [|done]. by apply bool_decide_eq_true in H as ->.
  - intros H [k v] Hk. rewrite <-list_elem_of_In, elem_of_map_to_list in Hk. cbn.
    rewrite (H _ _ Hk). by apply bool_decide_eq_true.
Qed.

(** ** Properties *)

(** C23. Topic matching agrees with the documented semantics: for a pattern
    whose segments are [*], [#] or literal text, the recursive matcher accepts
    a key exactly when the reference relation does: a literal segment stands
    for itself, [*] for exactly one segment and [#] for zero or more. *)
Theorem topicMatch_reference (pattern key : string) :
  plain_pattern (split_string dot pattern) →
  topicMatch pattern key = true ↔
    pattern = "" ∨ topic_rel (split_string dot pattern) (split_string dot key).
Proof.
  intros Hp. unfold topicMatch. destruct (decide (pattern = "#")) as [->|H1].
  { split; [|done]. intros _. right. apply topic_rel_hash. }
  destruct (decide (pattern = "")) as [->|H2]; [by split; [left|]|].
  rewrite !bool_decide_eq_false_2 by done. cbn [orb].
  rewrite matchParts_topic_rel by done. intuition.
Qed.

(** Binding filters require exact header values: the matcher accepts
    exactly when the pattern is empty or matches the key and every entry of
    the filter is among the headers, whatever other headers there are. *)
Theorem StandardMatcher_exact (key pattern : string) (hdrs filter_ : headers) :
  Match (Matcher := StandardMatcher) key hdrs pattern filter_ = true ↔
    (pattern = "" ∨ topicMatch pattern key = true) ∧ filter_ ⊆ hdrs.
Proof.
  unfold Match, StandardMatcher. rewrite <-filter_matches_subseteq.
  destruct (decide (pattern = "")) as [->|H]; [cbn; tauto|].
  rewrite bool_decide_eq_false_2 by done.
  destruct (topicMatch pattern key); cbn; [tauto|]. split; [done|]. by intros [[|] _].
Qed.

Lemma topicMatch_reference_witness :
  topicMatch "billing.#.created" "billing.invoice.eu.created" = true ↔
    "billing.#.created" = "" ∨
    topic_rel (split_string dot "billing.#.created") (split_string dot "billing.invoice.eu.created").
Proof.
  apply (topicMatch_reference "billing.#.created" "billing.invoice.eu.created").
  repeat constructor; vm_compute; tauto.
Defined.
