(* ===== verification/Address.v ===== *)
(** * Addresses and bindings

    Models [internal/address/domain/address.go] and [binding.go]: the address
    and binding records, their validating constructors, and [Accepting]. *)

From Stdlib Require Import Ascii.
From S2P Require Import Prelude Bytes Text Duration Matcher.

(** ** Definitions *)

(** [type Kind string]: the five constants, or any other text. *)
Inductive Kind :=
  | KindQueue | KindTopic | KindFanout | KindDirect | KindTemporary
  | KindOther (text : string).

#[global] Instance Kind_eq_dec : EqDecision Kind.
Proof. solve_decision. Defined.

Definition Kind_string (k : Kind) : string :=
  match k with
  | KindQueue => "queue" | KindTopic => "topic" | KindFanout => "fanout"
  | KindDirect => "direct" | KindTemporary => "temporary" | KindOther s => s
  end.

Record Address := mkAddress {
  a_Name : string; a_Kind : Kind; a_Durable : bool; a_MaxLength : Z;
  a_DefaultTTL : duration; a_DeadLetter : string; a_Paused : bool;
  a_CreatedAt : time; a_Version : Z }.

#[global] Instance Address_eq_dec : EqDecision Address.
Proof. solve_decision. Defined.

Record Create := mkCreate {
  c_Name : string; c_Kind : Kind; c_Durable : bool; c_MaxLength : Z;
  c_DefaultTTL : string; c_DeadLetter : string }.

Definition alnum (c : byte) : bool :=
  let z := b2z c in
  ((97 <=? z) && (z <=? 122)) || ((65 <=? z) && (z <=? 90)) || ((48 <=? z) && (z <=? 57)).

(** The regular expression [^[a-zA-Z0-9][a-zA-Z0-9._/-]{0,127}$]. *)
Definition namePattern (name : string) : bool :=
  match string_bytes name with
  | [] => false
  | c :: cs =>
      alnum c && forallb (λ d, alnum d || existsb (Z.eqb (b2z d)) [46; 95; 47; 45]) cs &&
      (length cs <=? 127)%nat
  end.

Definition Kind_Valid (k : Kind) : bool :=
  match k with KindOther _ => false | _ => true end.

Definition address_New (c : Create) (now : time) : res Address :=
  let name := TrimSpace (c_Name c) in
  if negb (namePattern name) then Err (ErrNew "invalid address name") else
  let kind := if bool_decide (c_Kind c = KindOther "") then KindQueue else c_Kind c in
  if negb (Kind_Valid kind) then
    Err (ErrFmtS "unsupported address kind %q" (Kind_string kind)) else
  if c_MaxLength c <? 0 then Err (ErrNew "max_length cannot be negative") else
  match (if bool_decide (c_DefaultTTL c = "") then Some 0 else ParseDuration (c_DefaultTTL c)) with
  | None => Err (ErrNew "default_ttl must be a non-negative duration")
  | Some ttl =>
      if ttl <? 0 then Err (ErrNew "default_ttl must be a non-negative duration") else
      if bool_decide (c_DeadLetter c = name) then
        Err (ErrNew "address cannot dead-letter to itself")
      else
        Ok {| a_Name := name; a_Kind := kind; a_Durable := c_Durable c;
              a_MaxLength := c_MaxLength c; a_DefaultTTL := ttl;
              a_DeadLetter := c_DeadLetter c; a_Paused := false;
              a_CreatedAt := now; a_Version := 1 |}
  end.

Definition Accepting (a : Address) : res unit :=
  if a_Paused a then Err (ErrNew "address ingress is paused") else Ok tt.

Record Binding := mkBinding {
  bd_ID : string; bd_Source : string; bd_Destination : string;
  bd_RoutingKey : string; bd_Filter : headers; bd_Priority : Z;
  bd_CreatedAt : time }.

(** The request: its filter may be a nil map. *)
Record Bind := mkBind {
  bi_Source : string; bi_Destination : string; bi_RoutingKey : string;
  bi_Filter : option headers; bi_Priority : Z }.

Definition NewBinding (id : string) (b : Bind) (now : time) : res Binding :=
  let source := TrimSpace (bi_Source b) in
  let destination := TrimSpace (bi_Destination b) in
  if bool_decide (id = "") || bool_decide (source = "") || bool_decide (destination = "") then
    Err (ErrNew "id, source and destination are required") else
  if bool_decide (source = destination) then Err (ErrNew "self binding is not allowed") else
  if (bi_Priority b <? 0) || (9 <? bi_Priority b) then
    Err (ErrNew "priority must be between 0 and 9")
  else
    Ok {| bd_ID := id; bd_Source := source; bd_Destination := destination;
          bd_RoutingKey := bi_RoutingKey b; bd_Filter := default ∅ (bi_Filter b);
          bd_Priority := bi_Priority b; bd_CreatedAt := now |}.

(** ** Well-formedness *)

(** What the constructors guarantee, and what the store keeps. *)
Definition wf_address (a : Address) : Prop :=
  namePattern (a_Name a) = true ∧ Kind_Valid (a_Kind a) = true ∧ 0 ≤ a_MaxLength a ∧
  0 ≤ a_DefaultTTL a ∧ a_DeadLetter a ≠ a_Name a.

Definition wf_binding (b : Binding) : Prop :=
  bd_ID b ≠ "" ∧ bd_Source b ≠ "" ∧ bd_Destination b ≠ "" ∧
  bd_Source b ≠ bd_Destination b ∧ 0 ≤ bd_Priority b ≤ 9.

Lemma address_New_wf c now a : address_New c now = Ok a →
  wf_address a ∧ a_Name a = TrimSpace (c_Name c) ∧ a_Paused a = false ∧
  a_Version a = 1 ∧ a_CreatedAt a = now ∧ a_DeadLetter a = c_DeadLetter c ∧
  a_MaxLength a = c_MaxLength c.
Proof.
  unfold address_New. intros H. repeat case_match; try done; simplify_res; cbn;
    repeat split; cbn; zlia || (zbool; done).
Qed.

Lemma NewBinding_wf id b now r : NewBinding id b now = Ok r → wf_binding r ∧ bd_ID r = id.
Proof.
  unfold NewBinding. intros H. repeat case_match; try done; simplify_res; zbool.
  repeat split; cbn; done || lia.
Qed.
