(* ===== verification/Message.v ===== *)
(** * Messages and consumers

    Models [internal/delivery/domain/message.go] and [consumer.go].  A method
    with a pointer receiver is a [go] computation over its receiver. *)

From S2P Require Import Prelude Bytes Duration Matcher.

(** ** Definitions *)

(** [type State string]: the constants, or any other text a request carries. *)
Inductive State :=
  | StateAvailable | StateAcquired | StateAccepted | StateReleased | StateRejected
  | StateDeadLettered | StateExpired
  | StateOther (text : string).

#[global] Instance State_eq_dec : EqDecision State.
Proof. solve_decision. Defined.

Record Message := mkMessage {
  m_ID : string; m_Address : string; m_RoutingKey : string; m_Headers : headers;
  m_Body : bytes; m_Priority : Z; m_CreatedAt : time; m_ExpiresAt : time;
  m_State : State; m_DeliveryCount : Z; m_Redelivered : bool;
  m_TransactionID : string; m_LogOffset : Z }.

(** The request: its header map may be nil. *)
Record Publish := mkPublish {
  p_Address : string; p_RoutingKey : string; p_Headers : option headers; p_Body : bytes;
  p_Priority : Z; p_TTL : duration; p_Settled : bool; p_TransactionID : string }.

Definition NewMessage (id : string) (p : Publish) (now : time) : res Message :=
  if bool_decide (id = "") || bool_decide (p_Address p = "") then
    Err (ErrNew "message id and address are required") else
  if bool_decide (p_Body p = []) then Err (ErrNew "message body is required") else
  if (p_Priority p <? 0) || (9 <? p_Priority p) then
    Err (ErrNew "priority must be between 0 and 9")
  else
    Ok {| m_ID := id; m_Address := p_Address p; m_RoutingKey := p_RoutingKey p;
          m_Headers := default ∅ (p_Headers p); m_Body := p_Body p;
          m_Priority := p_Priority p; m_CreatedAt := now;
          m_ExpiresAt := if 0 <? p_TTL p then time_Add now (p_TTL p) else 0;
          m_State := StateAvailable; m_DeliveryCount := 0; m_Redelivered := false;
          m_TransactionID := p_TransactionID p; m_LogOffset := -1 |}.

Definition Message_Expired (m : Message) (now : time) : bool :=
  time_IsZero (m_ExpiresAt m) || time_After now (m_ExpiresAt m).

(** Field assignments [msg.F = v]. *)
Definition set_State (s : State) (m : Message) : Message :=
  mkMessage (m_ID m) (m_Address m) (m_RoutingKey m) (m_Headers m) (m_Body m) (m_Priority m)
    (m_CreatedAt m) (m_ExpiresAt m) s (m_DeliveryCount m) (m_Redelivered m)
    (m_TransactionID m) (m_LogOffset m).
Definition set_Redelivered (r : bool) (m : Message) : Message :=
  mkMessage (m_ID m) (m_Address m) (m_RoutingKey m) (m_Headers m) (m_Body m) (m_Priority m)
    (m_CreatedAt m) (m_ExpiresAt m) (m_State m) (m_DeliveryCount m) r
    (m_TransactionID m) (m_LogOffset m).
Definition set_Body (b : bytes) (m : Message) : Message :=
  mkMessage (m_ID m) (m_Address m) (m_RoutingKey m) (m_Headers m) b (m_Priority m)
    (m_CreatedAt m) (m_ExpiresAt m) (m_State m) (m_DeliveryCount m) (m_Redelivered m)
    (m_TransactionID m) (m_LogOffset m).
Definition set_LogOffset (o : Z) (m : Message) : Message :=
  mkMessage (m_ID m) (m_Address m) (m_RoutingKey m) (m_Headers m) (m_Body m) (m_Priority m)
    (m_CreatedAt m) (m_ExpiresAt m) (m_State m) (m_DeliveryCount m) (m_Redelivered m)
    (m_TransactionID m) o.
Definition set_TransactionID (t : string) (m : Message) : Message :=
  mkMessage (m_ID m) (m_Address m) (m_RoutingKey m) (m_Headers m) (m_Body m) (m_Priority m)
    (m_CreatedAt m) (m_ExpiresAt m) (m_State m) (m_DeliveryCount m) (m_Redelivered m)
    t (m_LogOffset m).
Definition set_DeliveryCount (n : Z) (m : Message) : Message :=
  mkMessage (m_ID m) (m_Address m) (m_RoutingKey m) (m_Headers m) (m_Body m) (m_Priority m)
    (m_CreatedAt m) (m_ExpiresAt m) (m_State m) n (m_Redelivered m)
    (m_TransactionID m) (m_LogOffset m).
Definition set_Header (k v : string) (m : Message) : Message :=
  mkMessage (m_ID m) (m_Address m) (m_RoutingKey m) (<[k := v]> (m_Headers m)) (m_Body m)
    (m_Priority m) (m_CreatedAt m) (m_ExpiresAt m) (m_State m) (m_DeliveryCount m)
    (m_Redelivered m) (m_TransactionID m) (m_LogOffset m).
Definition set_Address (a : string) (m : Message) : Message :=
  mkMessage (m_ID m) a (m_RoutingKey m) (m_Headers m) (m_Body m) (m_Priority m)
    (m_CreatedAt m) (m_ExpiresAt m) (m_State m) (m_DeliveryCount m) (m_Redelivered m)
    (m_TransactionID m) (m_LogOffset m).
Definition set_ExpiresAt (t : time) (m : Message) : Message :=
  mkMessage (m_ID m) (m_Address m) (m_RoutingKey m) (m_Headers m) (m_Body m) (m_Priority m)
    (m_CreatedAt m) t (m_State m) (m_DeliveryCount m) (m_Redelivered m)
    (m_TransactionID m) (m_LogOffset m).

Inductive Semantics :=
  | AtMostOnce | AtLeastOnce
  | SemanticsOther (text : string).

#[global] Instance Semantics_eq_dec : EqDecision Semantics.
Proof. solve_decision. Defined.

(** Prefetch, credit and delivery identifiers are [uint32]. *)
Record Consumer := mkConsumer {
  cn_ID : string; cn_Address : string; cn_Prefetch : Z; cn_Credit : Z;
  cn_Unsettled : gmap Z string; cn_Semantics : Semantics; cn_Connected : bool;
  cn_CreatedAt : time; cn_LastSeen : time }.

Definition NewConsumer (id address : string) (prefetch : Z) (sem : Semantics) (now : time) :
    res Consumer :=
  if bool_decide (id = "") || bool_decide (address = "") then
    Err (ErrNew "consumer id and address required") else
  let prefetch := if prefetch =? 0 then 1 else prefetch in
  if 65535 <? prefetch then Err (ErrNew "prefetch exceeds limit") else
  let sem := if bool_decide (sem = SemanticsOther "") then AtLeastOnce else sem in
  if negb (bool_decide (sem = AtMostOnce)) && negb (bool_decide (sem = AtLeastOnce)) then
    Err (ErrNew "invalid delivery semantics")
  else
    Ok {| cn_ID := id; cn_Address := address; cn_Prefetch := prefetch; cn_Credit := prefetch;
          cn_Unsettled := ∅; cn_Semantics := sem; cn_Connected := true;
          cn_CreatedAt := now; cn_LastSeen := now |}.

Definition Consumer_Acquire (deliveryID : Z) (messageID : string) : go Consumer unit :=
  c ← gets id;
  guard_err (negb (cn_Connected c)) (ErrNew "consumer disconnected");;
  guard_err (cn_Credit c =? 0) (ErrNew "consumer has no credit");;
  guard_err (bool_decide (is_Some (cn_Unsettled c !! deliveryID)))
    (ErrNew "delivery id already unsettled").

Definition Consumer_Settle (deliveryID : Z) : go Consumer unit :=
  c ← gets id;
  guard_err (negb (bool_decide (is_Some (cn_Unsettled c !! deliveryID))))
    (ErrNew "unknown unsettled delivery").

Definition set_Credit (n : Z) (c : Consumer) : Consumer :=
  mkConsumer (cn_ID c) (cn_Address c) (cn_Prefetch c) n (cn_Unsettled c) (cn_Semantics c)
    (cn_Connected c) (cn_CreatedAt c) (cn_LastSeen c).

(** [room := c.Prefetch - c.Credit] and the sum wrap at 32 bits. *)
Definition Consumer_Grant (n : Z) : go Consumer unit :=
  modify (λ c,
    let room := u32 (cn_Prefetch c - cn_Credit c) in
    let n := if room <? n then room else n in
    set_Credit (u32 (cn_Credit c + n)) c).

(** ** Lemmas *)
Lemma NewMessage_Ok id p now m : NewMessage id p now = Ok m →
  m_ID m = id ∧ m_Address m = p_Address p ∧ m_Body m = p_Body p ∧ m_Body m ≠ [] ∧
  0 ≤ m_Priority m ≤ 9 ∧ m_State m = StateAvailable ∧ m_TransactionID m = p_TransactionID p ∧
  m_CreatedAt m = now ∧ m_ID m ≠ "" ∧ m_Address m ≠ "" ∧ m_DeliveryCount m = 0 ∧
  m_Priority m = p_Priority p.
Proof.
  unfold NewMessage. intros H. repeat case_match; try done; simplify_res; zbool; cbn;
    repeat split; try done; lia.
Qed.

(** What [NewConsumer] establishes and the methods keep. *)
Definition wf_consumer (c : Consumer) : Prop :=
  cn_ID c ≠ "" ∧ cn_Address c ≠ "" ∧ 1 ≤ cn_Prefetch c ≤ 65535 ∧
  0 ≤ cn_Credit c ≤ cn_Prefetch c ∧
  (cn_Semantics c = AtMostOnce ∨ cn_Semantics c = AtLeastOnce).

Lemma NewConsumer_Ok id addr n sem now c : 0 ≤ n < 2 ^ 32 → NewConsumer id addr n sem now = Ok c →
  wf_consumer c ∧ cn_ID c = id ∧ cn_Address c = addr ∧ cn_Unsettled c = ∅ ∧
  cn_Connected c = true ∧ cn_Credit c = cn_Prefetch c.
Proof.
  intros Hn. unfold NewConsumer. intros H.
  destruct (bool_decide (id = "") || _) eqn:E1; [done|]. zbool.
  set (p := if n =? 0 then 1 else n) in *.
  assert (1 ≤ p) by (unfold p; destruct (Z.eqb_spec n 0); lia).
  destruct (Z.ltb_spec 65535 p); [done|].
  set (sm := if bool_decide _ then _ else _) in *.
  destruct (negb (bool_decide (sm = AtMostOnce)) && _) eqn:E2; [done|]. simplify_res.
  unfold wf_consumer; cbn. repeat split; try done; try lia.
  zbool; tauto.
Qed.

(** Granting credit never takes a consumer above its prefetch, and gives
    exactly the grant or the room left, whichever is smaller: the 32-bit
    subtraction and addition of the code do not wrap for a consumer the
    constructor built. *)
Theorem Grant_bounded (c : Consumer) (n : Z) :
  wf_consumer c → 0 ≤ n < 2 ^ 32 →
  ∃ c', Consumer_Grant n c = (Ok tt, c') ∧ wf_consumer c' ∧
    cn_Credit c' = Z.min (cn_Prefetch c) (cn_Credit c + n) ∧
    cn_Unsettled c' = cn_Unsettled c.
Proof.
  intros (H1 & H2 & H3 & H4 & H5) Hn. eexists. split; [reflexivity|].
  assert (u32 (cn_Prefetch c - cn_Credit c) = cn_Prefetch c - cn_Credit c) as E.
  { unfold u32. rewrite Z.mod_small; lia. }
  rewrite E. unfold wf_consumer. cbn [set_Credit cn_ID cn_Address cn_Prefetch cn_Credit
    cn_Unsettled cn_Semantics cn_Connected].
  destruct (Z.ltb_spec (cn_Prefetch c - cn_Credit c) n); unfold u32;
    rewrite !Z.mod_small by lia; repeat split; done || lia.
Qed.

Lemma Grant_bounded_witness :
  ∃ c c', NewConsumer "c1" "orders" 10 AtLeastOnce 5 = Ok c ∧
    Consumer_Grant 4 (set_Credit 8 c) = (Ok tt, c') ∧ cn_Credit c' = 10.
Proof.
  eexists. destruct (Grant_bounded
    (mkConsumer "c1" "orders" 10 8 ∅ AtLeastOnce true 5 5) 4) as (c' & H & _ & Hc & _).
  - unfold wf_consumer; cbn. repeat split; try lia; try discriminate. by right.
  - lia.
  - exists c'. split; [reflexivity|]. split; [exact H|]. exact Hc.
Defined.
