(* ===== verification/Transaction.v ===== *)
(** * Transactions

    Models [internal/transaction/domain/transaction.go]: the transaction
    record, its operations and its terminal states. *)

From S2P Require Import Prelude Bytes Duration.

(** ** Definitions *)
Inductive TxState :=
  | StateActive | StateCommitted | StateRolledBack | StateTimedOut
  | TxStateOther (text : string).

#[global] Instance TxState_eq_dec : EqDecision TxState.
Proof. solve_decision. Defined.

Inductive OperationKind :=
  | OpPublish | OpAccept | OpRelease
  | OpOther (text : string).

#[global] Instance OperationKind_eq_dec : EqDecision OperationKind.
Proof. solve_decision. Defined.

Record Operation := mkOperation {
  op_Kind : OperationKind; op_MessageID : string; op_Address : string; op_DeliveryID : Z }.

Record Transaction := mkTransaction {
  tx_ID : string; tx_ConnectionID : string; tx_State : TxState; tx_CreatedAt : time;
  tx_ExpiresAt : time; tx_CompletedAt : time; tx_Operations : list Operation; tx_Version : Z }.

Definition transaction_New (id connection : string) (now : time) (ttl : duration) :
    res Transaction :=
  if bool_decide (id = "") || bool_decide (connection = "") then
    Err (ErrNew "id and connection required")
  else
    let ttl := if ttl <=? 0 then 30 * Second else ttl in
    Ok {| tx_ID := id; tx_ConnectionID := connection; tx_State := StateActive;
          tx_CreatedAt := now; tx_ExpiresAt := time_Add now ttl; tx_CompletedAt := 0;
          tx_Operations := []; tx_Version := 1 |}.

(** The version is a [uint64]. *)
Definition Transaction_Add (op : Operation) : go Transaction unit :=
  t ← gets id;
  guard_err (negb (bool_decide (tx_State t = StateActive)))
    (ErrNew "transaction is not active");;
  guard_err (bool_decide (op_MessageID op = ""))
    (ErrNew "operation message id required");;
  modify (λ t, mkTransaction (tx_ID t) (tx_ConnectionID t) (tx_State t) (tx_CreatedAt t)
    (tx_ExpiresAt t) (tx_CompletedAt t) (tx_Operations t ++ [op]) (u64 (tx_Version t + 1))).

Definition Transaction_Complete (state : TxState) (now : time) : go Transaction unit :=
  t ← gets id;
  guard_err (negb (bool_decide (tx_State t = StateActive)))
    (ErrNew "transaction already completed");;
  guard_err (negb (bool_decide (state = StateCommitted)) &&
             negb (bool_decide (state = StateRolledBack)) &&
             negb (bool_decide (state = StateTimedOut)))
    (ErrNew "invalid terminal transaction state");;
  modify (λ t, mkTransaction (tx_ID t) (tx_ConnectionID t) state (tx_CreatedAt t)
    (tx_ExpiresAt t) now (tx_Operations t) (u64 (tx_Version t + 1))).

Definition Transaction_Expired (t : Transaction) (now : time) : bool :=
  bool_decide (tx_State t = StateActive) && negb (time_Before now (tx_ExpiresAt t)).

(** ** Lemmas *)

(** The terminal states: the only targets of [Complete], and nothing leaves
    them. *)
Definition terminal (s : TxState) : Prop :=
  s = StateCommitted ∨ s = StateRolledBack ∨ s = StateTimedOut.

Lemma Transaction_Add_cases op t :
  (tx_State t = StateActive ∧ op_MessageID op ≠ "" ∧
   Transaction_Add op t =
     (Ok tt, mkTransaction (tx_ID t) (tx_ConnectionID t) (tx_State t) (tx_CreatedAt t)
       (tx_ExpiresAt t) (tx_CompletedAt t) (tx_Operations t ++ [op]) (u64 (tx_Version t + 1)))) ∨
  (∃ e, Transaction_Add op t = (Err e, t)).
Proof.
  unfold Transaction_Add, mbind, go_bind, gets. cbn.
  destruct (decide (tx_State t = StateActive)) as [Hs|Hs].
  - rewrite bool_decide_eq_true_2 by done. cbn.
    destruct (decide (op_MessageID op = "")).
    + rewrite bool_decide_eq_true_2 by done. cbn. eauto.
    + rewrite bool_decide_eq_false_2 by done. cbn. by left.
  - rewrite bool_decide_eq_false_2 by done. cbn. eauto.
Qed.

Lemma Transaction_Complete_cases s now t :
  (tx_State t = StateActive ∧ terminal s ∧
   Transaction_Complete s now t =
     (Ok tt, mkTransaction (tx_ID t) (tx_ConnectionID t) s (tx_CreatedAt t)
       (tx_ExpiresAt t) now (tx_Operations t) (u64 (tx_Version t + 1)))) ∨
  (∃ e, Transaction_Complete s now t = (Err e, t)).
Proof.
  unfold Transaction_Complete, mbind, go_bind, gets, terminal. cbn.
  destruct (decide (tx_State t = StateActive)) as [Hs|Hs];
    [rewrite bool_decide_eq_true_2 by done|rewrite bool_decide_eq_false_2 by done; cbn; eauto].
  destruct s; cbn; eauto 10.
Qed.
