(* ===== verification/Env.v ===== *)
(** * The environment of a call

    What a broker call observes that its arguments do not determine: whether
    its context is cancelled, the clock, the random source, the iteration
    order of Go maps, and the outcome of file operations.  An [Oracle] answers
    the [n]-th such question; every computation threads the number of the next
    question, so a theorem about all oracles and all numbers is about every
    environment.  [wpe] is the corresponding weakest precondition: it forgets
    the question number and quantifies over the answers. *)

From S2P Require Import Prelude Bytes Duration.

(** ** Definitions *)
Class Oracle := {
  (** [ctx.Err()]: [None] while the context is live. *)
  o_ctx : nat → option error;
  o_ctx_error : ∀ n e, o_ctx n = Some e → ∃ text, e = ErrContext text;
  (** [clock.Now()]. *)
  o_now : nat → time;
  (** [crypto/rand.Read] into a buffer of the given length. *)
  o_rand : nat → nat → error + bytes;
  o_rand_length : ∀ n k b, o_rand n k = inr b → length b = k;
  (** The error of a file operation, [None] when it succeeds. *)
  o_io : nat → option error;
  (** How many bytes a failed write left in the file. *)
  o_short : nat → nat;
  (** The order in which a [range] visits the entries of a map. *)
  o_order : ∀ {A : Type}, nat → list A → list A;
  o_order_perm : ∀ {A : Type} n (l : list A), o_order n l ≡ₚ l
}.

(** [env T A]: a call over a component [T] in an environment. *)
Abbreviation env T A := (go (T * nat) A).

Section primitives.
Context `{orc : Oracle} {T : Type}.

(** Put question [n] to the oracle. *)
Definition ask {A} (f : nat → A) : env T A := λ s, (Ok (f s.2), (s.1, S s.2)).

(** [if err := ctx.Err(); err != nil { return err }]. *)
Definition ctx_Err : env T unit :=
  r ← ask o_ctx;
  match r with Some e => raise e | None => mret tt end.

Definition clock_Now : env T time := ask o_now.

Definition rand_Read (n : nat) : env T bytes :=
  r ← ask (λ k, o_rand k n);
  match r with inl e => raise e | inr b => mret b end.

(** The entries of a map in the order this [range] visits them. *)
Definition map_range {A} (l : list A) : env T (list A) := ask (λ k, o_order k l).

Definition get_ : env T T := λ s, (Ok s.1, s).
Definition put_ (t : T) : env T unit := λ s, (Ok tt, (t, s.2)).
Definition update_ (f : T → T) : env T unit := λ s, (Ok tt, (f s.1, s.2)).
End primitives.

(** Run a component's call inside a larger store. *)
Definition on {S T A} (get : S → T) (put : T → S → S) (m : env T A) : env S A := λ s,
  let '(r, (t, n)) := m (get s.1, s.2) in (r, (put t s.1, n)).

(** A call that asks nothing of the environment. *)
Definition quietly {T A} (m : go T A) : env T A := λ s,
  let '(r, t) := m s.1 in (r, (t, s.2)).

(** [defer d] around the body [m]: [d] runs however [m] ends, and its errors
    are dropped. *)
Definition deferred {T A} (d : env T unit) (m : env T A) : env T A := λ s,
  let '(r, s') := m s in
  let '(r', s'') := d s' in
  (match r' with Panic => Panic | _ => r end, s'').

(** [prefix + "_" + hex.EncodeToString(b)]. *)
Definition id_of (prefix : string) (b : bytes) : string :=
  (prefix +:+ "_" +:+ hex_encode b)%string.

(** ** The weakest precondition over every environment *)
Definition wpe {T A} (m : env T A) (Q : res A → T → Prop) (t : T) : Prop :=
  ∀ n, Q (m (t, n)).1 (m (t, n)).2.1.
#[global] Arguments wpe : simpl never.

Section wpe.
Context `{orc : Oracle} {T : Type}.

Lemma wpe_mono {A} (m : env T A) (Q R : res A → T → Prop) t :
  wpe m Q t → (∀ r t', Q r t' → R r t') → wpe m R t.
Proof. unfold wpe. eauto. Qed.

Lemma wpe_and {A} (m : env T A) (Q R : res A → T → Prop) t :
  wpe m Q t → wpe m R t → wpe m (λ r t', Q r t' ∧ R r t') t.
Proof. unfold wpe. auto. Qed.

Lemma wpe_elim {A} (m : env T A) (Q : res A → T → Prop) t n r t' n' :
  wpe m Q t → m (t, n) = (r, (t', n')) → Q r t'.
Proof. intros H E. specialize (H n). by rewrite E in H. Qed.

Lemma wpe_ret {A} (a : A) (Q : res A → T → Prop) t : Q (Ok a) t → wpe (mret a) Q t.
Proof. by intros ? ?. Qed.

Lemma wpe_raise {A} e (Q : res A → T → Prop) t : Q (Err e) t → wpe (raise e) Q t.
Proof. by intros ? ?. Qed.

Lemma wpe_panic {A} (Q : res A → T → Prop) t : Q Panic t → wpe panic Q t.
Proof. by intros ? ?. Qed.

Lemma wpe_lift {A} (r : res A) (Q : res A → T → Prop) t : Q r t → wpe (lift r) Q t.
Proof. by intros ? ?. Qed.

Lemma wpe_guard (b : bool) e (Q : res unit → T → Prop) t :
  (b = true → Q (Err e) t) → (b = false → Q (Ok tt) t) → wpe (guard_err b e) Q t.
Proof. intros ?? n. destruct b; cbn; auto. Qed.

Lemma wpe_bind {A B} (m : env T A) (f : A → env T B) (Q : res B → T → Prop) t :
  wpe m (λ r t', match r with
                 | Ok a => wpe (f a) Q t'
                 | Err e => Q (Err e) t'
                 | Panic => Q Panic t'
                 end) t →
  wpe (m ≫= f) Q t.
Proof.
  intros Hm n. specialize (Hm n). unfold mbind, go_bind.
  destruct (m (t, n)) as [[a|e|] [t' n']]; cbn in *; auto.
Qed.

Lemma wpe_try {A} (m : env T A) (Q : res (error + A) → T → Prop) t :
  wpe m (λ r t', match r with
                 | Ok a => Q (Ok (inr a)) t'
                 | Err e => Q (Ok (inl e)) t'
                 | Panic => Q Panic t'
                 end) t →
  wpe (try m) Q t.
Proof.
  intros Hm n. specialize (Hm n). unfold try.
  destruct (m (t, n)) as [[a|e|] [t' n']]; cbn in *; auto.
Qed.

Lemma wpe_wrap {A} text (m : env T A) (Q : res A → T → Prop) t :
  wpe m (λ r t', match r with Err e => Q (Err (ErrWrap text e)) t' | _ => Q r t' end) t →
  wpe (wrap text m) Q t.
Proof.
  intros Hm n. specialize (Hm n). unfold wrap.
  destruct (m (t, n)) as [[a|e|] [t' n']]; cbn in *; auto.
Qed.

Lemma wpe_ctx_Err (Q : res unit → T → Prop) t :
  (∀ e, Q (Err e) t) → Q (Ok tt) t → wpe ctx_Err Q t.
Proof. intros ?? n. unfold ctx_Err, mbind, go_bind, ask. cbn. destruct (o_ctx n); cbn; auto. Qed.

(** The same with the question that was asked. *)
Lemma wpe_ctx_Err_asked (Q : res unit → T → Prop) t :
  (∀ n e, o_ctx n = Some e → Q (Err e) t) → Q (Ok tt) t → wpe ctx_Err Q t.
Proof. intros He ? n. unfold ctx_Err, mbind, go_bind, ask. cbn. destruct (o_ctx n) eqn:E; cbn; [by eapply He|done]. Qed.

(** The same with the error of a cancelled context. *)
Lemma wpe_ctx_Err_exact (Q : res unit → T → Prop) t :
  (∀ text, Q (Err (ErrContext text)) t) → Q (Ok tt) t → wpe ctx_Err Q t.
Proof.
  intros He HQ n. unfold ctx_Err, mbind, go_bind, ask. cbn.
  destruct (o_ctx n) as [e|] eqn:E; cbn; [|done]. by destruct (o_ctx_error _ _ E) as [s ->].
Qed.

Lemma wpe_clock_Now (Q : res time → T → Prop) t : (∀ now, Q (Ok now) t) → wpe clock_Now Q t.
Proof. intros ? n. unfold clock_Now, ask. cbn. auto. Qed.

Lemma wpe_rand_Read k (Q : res bytes → T → Prop) t :
  (∀ e, Q (Err e) t) → (∀ b, length b = k → Q (Ok b) t) → wpe (rand_Read k) Q t.
Proof.
  intros ?? n. unfold rand_Read, mbind, go_bind, ask. cbn.
  destruct (o_rand n k) eqn:E; cbn; eauto using o_rand_length.
Qed.

Lemma wpe_map_range {A} (l : list A) (Q : res (list A) → T → Prop) t :
  (∀ l', l' ≡ₚ l → Q (Ok l') t) → wpe (map_range l) Q t.
Proof. intros HQ n. apply HQ, o_order_perm. Qed.

Lemma wpe_get (Q : res T → T → Prop) t : Q (Ok t) t → wpe get_ Q t.
Proof. by intros ? ?. Qed.

Lemma wpe_put t' (Q : res unit → T → Prop) t : Q (Ok tt) t' → wpe (put_ t') Q t.
Proof. by intros ? ?. Qed.

Lemma wpe_update f (Q : res unit → T → Prop) t : Q (Ok tt) (f t) → wpe (update_ f) Q t.
Proof. by intros ? ?. Qed.

Lemma wpe_for_each {A} (l : list A) (body : A → env T unit)
    (I : list A → T → Prop) (Q : res unit → T → Prop) t :
  I l t →
  (∀ x l' t', I (x :: l') t' →
     wpe (body x) (λ r t'', match r with Ok _ => I l' t'' | _ => Q r t'' end) t') →
  (∀ t', I [] t' → Q (Ok tt) t') →
  wpe (for_each l body) Q t.
Proof.
  intros HI Hbody Hdone. revert t HI. induction l as [|x l IH]; intros t HI; cbn.
  { apply wpe_ret. auto. }
  apply wpe_bind. eapply wpe_mono; [by apply Hbody|]. intros [[]|e|] t' Hr; auto.
Qed.

Lemma wpe_fold_each {A B} (l : list A) (acc : B) (body : B → A → env T B)
    (I : list A → B → T → Prop) (Q : res B → T → Prop) t :
  I l acc t →
  (∀ x l' b t', I (x :: l') b t' →
     wpe (body b x) (λ r t'', match r with Ok b' => I l' b' t'' | _ => Q r t'' end) t') →
  (∀ b t', I [] b t' → Q (Ok b) t') →
  wpe (fold_each l acc body) Q t.
Proof.
  intros HI Hbody Hdone. revert acc t HI. induction l as [|x l IH]; intros acc t HI; cbn.
  { apply wpe_ret. auto. }
  apply wpe_bind. eapply wpe_mono; [by apply Hbody|]. intros [b|e|] t' Hr; auto.
Qed.
End wpe.

Lemma wpe_on {S T A} (get : S → T) (put : T → S → S) (m : env T A)
    (Q : res A → S → Prop) (s : S) :
  wpe m (λ r t, Q r (put t s)) (get s) → wpe (on get put m) Q s.
Proof.
  intros Hm n. specialize (Hm n). unfold on. cbn [fst snd].
  destruct (m (get s, n)) as [r [t' n']]. exact Hm.
Qed.

Lemma wpe_quietly {T A} (m : go T A) (Q : res A → T → Prop) t :
  Q (m t).1 (m t).2 → wpe (quietly m) Q t.
Proof. intros HQ n. unfold quietly. cbn. by destruct (m t). Qed.

Lemma wpe_deferred {T A} (d : env T unit) (m : env T A) (Q : res A → T → Prop) t :
  wpe m (λ r t', wpe d (λ r' t'', Q (match r' with Panic => Panic | _ => r end) t'') t') t →
  wpe (deferred d m) Q t.
Proof.
  intros Hm n. specialize (Hm n). unfold deferred.
  destruct (m (t, n)) as [r [t' n']]. specialize (Hm n'). cbn in Hm.
  by destruct (d (t', n')) as [r' [t'' n'']].
Qed.

(** ** A quiet environment

    The context stays live, the random source works and files behave: the
    hypothesis of the theorems that a call succeeds. *)
Class Quiet (orc : Oracle) : Prop := {
  quiet_ctx : ∀ n, o_ctx n = None;
  quiet_rand : ∀ n k, ∃ b, o_rand n k = inr b;
  quiet_io : ∀ n, o_io n = None
}.

(** Files behave, whatever the rest of the environment does. *)
Class FilesWork (orc : Oracle) : Prop := files_work : ∀ n, o_io n = None.

#[export] Instance quiet_files orc : Quiet orc → FilesWork orc.
Proof. intros HQ n. apply quiet_io. Qed.

Section quiet.
Context `{orc : Oracle, !Quiet orc} {T : Type}.

Lemma quiet_ctx_Err (Q : res unit → T → Prop) t : Q (Ok tt) t → wpe ctx_Err Q t.
Proof. intros ? n. unfold ctx_Err, mbind, go_bind, ask. cbn. by rewrite quiet_ctx. Qed.

Lemma quiet_rand_Read k (Q : res bytes → T → Prop) t :
  (∀ b, length b = k → Q (Ok b) t) → wpe (rand_Read k) Q t.
Proof.
  intros ? n. unfold rand_Read, mbind, go_bind, ask. cbn.
  destruct (quiet_rand n k) as [b E]. rewrite E. cbn. eauto using o_rand_length.
Qed.
End quiet.

(** An environment for concrete runs: a clock that advances by one second per
    question, distinct random bytes, maps visited in their stored order. *)
Definition test_oracle : Oracle.
Proof.
  refine {|
    o_ctx := λ _, None; o_now := λ n, (1 + Z.of_nat n) * Second;
    o_rand := λ n k, inr (be_put k (Z.of_nat n)); o_io := λ _, None; o_short := λ _, O;
    o_order := λ _ _ l, l; o_order_perm := λ _ _ _, Permutation_refl _ |}.
  - discriminate.
  - intros n k b [= <-]. apply length_be_put.
Defined.

#[global] Instance test_oracle_quiet : Quiet test_oracle.
Proof. split; [done| |done]. intros n k. by eexists. Qed.

(** [wpe_step] takes the head of a program off, [wpe_auto] repeats it; loops
    and calls of other operations are left to their own lemmas. *)
Ltac wpe_step :=
  lazymatch goal with
  | |- wpe (mbind _ _) _ _ => apply wpe_bind
  | |- wpe (mret _) _ _ => apply wpe_ret
  | |- wpe (raise _) _ _ => apply wpe_raise
  | |- wpe panic _ _ => apply wpe_panic
  | |- wpe (lift _) _ _ => apply wpe_lift
  | |- wpe (guard_err _ _) _ _ => apply wpe_guard; intros ?
  | |- wpe (try _) _ _ => apply wpe_try
  | |- wpe (wrap _ _) _ _ => apply wpe_wrap
  | |- wpe ctx_Err _ _ => apply wpe_ctx_Err; [intros ?|]
  | |- wpe clock_Now _ _ => apply wpe_clock_Now; intros ?
  | |- wpe (rand_Read _) _ _ => apply wpe_rand_Read; [intros ?|intros ??]
  | |- wpe (map_range _) _ _ => apply wpe_map_range; intros ??
  | |- wpe get_ _ _ => apply wpe_get
  | |- wpe (put_ _) _ _ => apply wpe_put
  | |- wpe (update_ _) _ _ => apply wpe_update
  | |- wpe (on _ _ _) _ _ => apply wpe_on
  | |- wpe (quietly _) _ _ => apply wpe_quietly
  end; cbn beta iota.
Ltac wpe_auto := repeat wpe_step.
