(* ===== verification/Memory.v ===== *)
(** * The in-memory store

    Models [internal/storage/infrastructure/memory.go], [memory_delivery.go],
    [memory_consumer.go], [memory_transaction.go] and [delivery_adapter.go]
    (whose methods call the [Memory] methods of the same meaning).  The five
    Go maps are finite maps; every method reads and writes under the store's
    mutex, so a method is one atomic call.  The [clone] functions of the code
    copy maps and slices in and out of the store: that is what makes the
    values here plain values, shared with nobody.  [sort.Slice] is not stable;
    the entries it sorts come from a map in any order, so a stable sort of an
    arbitrary permutation gives every order it can give. *)

From Stdlib Require Import String.
From S2P Require Import Prelude Bytes Duration Matcher Address Message Transaction Env.

(** ** State *)
Record Memory := mkMemory {
  mm_addresses : gmap string Address;
  mm_bindings : gmap string Binding;
  mm_messages : gmap string Message;
  mm_consumers : gmap string Consumer;
  mm_transactions : gmap string Transaction }.

Definition NewMemory : Memory := mkMemory ∅ ∅ ∅ ∅ ∅.

Definition set_addresses f (m : Memory) : Memory :=
  mkMemory (f (mm_addresses m)) (mm_bindings m) (mm_messages m) (mm_consumers m) (mm_transactions m).
Definition set_bindings f (m : Memory) : Memory :=
  mkMemory (mm_addresses m) (f (mm_bindings m)) (mm_messages m) (mm_consumers m) (mm_transactions m).
Definition set_messages f (m : Memory) : Memory :=
  mkMemory (mm_addresses m) (mm_bindings m) (f (mm_messages m)) (mm_consumers m) (mm_transactions m).
Definition set_consumers f (m : Memory) : Memory :=
  mkMemory (mm_addresses m) (mm_bindings m) (mm_messages m) (f (mm_consumers m)) (mm_transactions m).
Definition set_transactions f (m : Memory) : Memory :=
  mkMemory (mm_addresses m) (mm_bindings m) (mm_messages m) (mm_consumers m) (f (mm_transactions m)).

(** The values of a map. *)
Definition map_values {A} (m : gmap string A) : list A := (map_to_list m).*2.

(** ** Operations *)
Section operations.
Context `{orc : Oracle}.

Definition Memory_Create (a : Address) : env Memory unit :=
  ctx_Err;;
  m ← get_;
  match mm_addresses m !! a_Name a with
  | Some _ => raise ErrAddressConflict
  | None => update_ (set_addresses (insert (a_Name a) a))
  end.

Definition Memory_Get (name : string) : env Memory Address :=
  ctx_Err;;
  m ← get_;
  match mm_addresses m !! name with
  | None => raise ErrAddressNotFound
  | Some a => mret a
  end.

Definition Memory_List : env Memory (list Address) :=
  ctx_Err;;
  m ← get_;
  out ← map_range (map_values (mm_addresses m));
  mret (sort_stable (λ x y, String.ltb (a_Name x) (a_Name y)) out).

Definition Memory_SetPaused (name : string) (paused : bool) : env Memory Address :=
  ctx_Err;;
  m ← get_;
  match mm_addresses m !! name with
  | None => raise ErrAddressNotFound
  | Some a =>
      let a' := mkAddress (a_Name a) (a_Kind a) (a_Durable a) (a_MaxLength a) (a_DefaultTTL a)
                  (a_DeadLetter a) paused (a_CreatedAt a) (u64 (a_Version a + 1)) in
      update_ (set_addresses (insert name a'));;
      mret a'
  end.

Definition Memory_Delete (name : string) : env Memory unit :=
  ctx_Err;;
  m ← get_;
  match mm_addresses m !! name with
  | None => raise ErrAddressNotFound
  | Some _ => update_ (set_addresses (delete name))
  end.

Definition Memory_CreateBinding (b : Binding) : env Memory unit :=
  ctx_Err;;
  m ← get_;
  match mm_bindings m !! bd_ID b with
  | Some _ => raise (ErrNew "binding already exists")
  | None => update_ (set_bindings (insert (bd_ID b) b))
  end.

(** Higher priority first, then the smaller identifier. *)
Definition binding_less (x y : Binding) : bool :=
  if bd_Priority x =? bd_Priority y then String.ltb (bd_ID x) (bd_ID y)
  else bd_Priority y <? bd_Priority x.

Definition Memory_ListBindings (source : string) : env Memory (list Binding) :=
  ctx_Err;;
  m ← get_;
  bs ← map_range (map_values (mm_bindings m));
  mret (sort_stable binding_less
          (filter (λ b, source = "" ∨ bd_Source b = source) bs)).

Definition Memory_DeleteBinding (id : string) : env Memory unit :=
  ctx_Err;;
  m ← get_;
  match mm_bindings m !! id with
  | None => raise (ErrNew "binding not found")
  | Some _ => update_ (set_bindings (delete id))
  end.

Definition Memory_Put (msg : Message) : env Memory unit :=
  ctx_Err;;
  m ← get_;
  match mm_messages m !! m_ID msg with
  | Some _ => raise (ErrConflict "message already exists")
  | None => update_ (set_messages (insert (m_ID msg) msg))
  end.

Definition Memory_message (id : string) : env Memory Message :=
  ctx_Err;;
  m ← get_;
  match mm_messages m !! id with
  | None => raise ErrMessageNotFound
  | Some msg => mret msg
  end.

Definition Memory_Update (msg : Message) : env Memory unit :=
  ctx_Err;;
  m ← get_;
  match mm_messages m !! m_ID msg with
  | None => raise ErrMessageNotFound
  | Some _ => update_ (set_messages (insert (m_ID msg) msg))
  end.

Definition Memory_deleteMessage (id : string) : env Memory unit :=
  ctx_Err;;
  m ← get_;
  match mm_messages m !! id with
  | None => raise ErrMessageNotFound
  | Some _ => update_ (set_messages (delete id))
  end.

Definition ready (address : string) (msg : Message) : Prop :=
  m_Address msg = address ∧ m_State msg = StateAvailable.

#[global] Instance ready_dec address msg : Decision (ready address msg).
Proof. unfold ready. apply _. Defined.

(** Higher priority first, then the older message. *)
Definition ready_less (x y : Message) : bool :=
  if negb (m_Priority x =? m_Priority y) then m_Priority y <? m_Priority x
  else time_Before (m_CreatedAt x) (m_CreatedAt y).

Definition Memory_ListReady (address : string) (limit : Z) : env Memory (list Message) :=
  ctx_Err;;
  m ← get_;
  ms ← map_range (map_values (mm_messages m));
  mret (truncate_limit limit (sort_stable ready_less (filter (ready address) ms))).

Definition dead (msg : Message) : Prop :=
  m_State msg = StateDeadLettered ∨ m_State msg = StateExpired.

#[global] Instance dead_dec msg : Decision (dead msg).
Proof. unfold dead. apply _. Defined.

Definition Memory_ListDead (limit : Z) : env Memory (list Message) :=
  ctx_Err;;
  m ← get_;
  ms ← map_range (map_values (mm_messages m));
  mret (truncate_limit limit
          (sort_stable (λ x y, time_Before (m_CreatedAt x) (m_CreatedAt y)) (filter dead ms))).

Definition Memory_Depth (address : string) : env Memory Z :=
  ctx_Err;;
  m ← get_;
  ms ← map_range (map_values (mm_messages m));
  mret (Z.of_nat (length (filter (ready address) ms))).

Definition Memory_All : env Memory (list Message) :=
  ctx_Err;;
  m ← get_;
  map_range (map_values (mm_messages m)).

Definition Memory_SaveConsumer (c : Consumer) : env Memory unit :=
  ctx_Err;;
  update_ (set_consumers (insert (cn_ID c) c)).

Definition Memory_GetConsumer (id : string) : env Memory Consumer :=
  ctx_Err;;
  m ← get_;
  match mm_consumers m !! id with
  | None => raise (ErrNew "consumer not found")
  | Some c => mret c
  end.

Definition Memory_ListConsumers (address : string) : env Memory (list Consumer) :=
  ctx_Err;;
  m ← get_;
  cs ← map_range (map_values (mm_consumers m));
  mret (sort_stable (λ x y, String.ltb (cn_ID x) (cn_ID y))
          (filter (λ c, address = "" ∨ cn_Address c = address) cs)).

Definition Memory_DeleteConsumer (id : string) : env Memory unit :=
  ctx_Err;;
  m ← get_;
  match mm_consumers m !! id with
  | None => raise (ErrNew "consumer not found")
  | Some _ => update_ (set_consumers (delete id))
  end.

Definition TransactionMemory_Create (tx : Transaction) : env Memory unit :=
  ctx_Err;;
  m ← get_;
  match mm_transactions m !! tx_ID tx with
  | Some _ => raise (ErrConflict "transaction already exists")
  | None => update_ (set_transactions (insert (tx_ID tx) tx))
  end.

Definition TransactionMemory_Get (id : string) : env Memory Transaction :=
  ctx_Err;;
  m ← get_;
  match mm_transactions m !! id with
  | None => raise ErrTransactionNotFound
  | Some tx => mret tx
  end.

Definition TransactionMemory_Update (tx : Transaction) : env Memory unit :=
  ctx_Err;;
  m ← get_;
  match mm_transactions m !! tx_ID tx with
  | None => raise ErrTransactionNotFound
  | Some old =>
      if tx_Version tx <=? tx_Version old then raise (ErrConflict "stale transaction version")
      else update_ (set_transactions (insert (tx_ID tx) tx))
  end.

Definition TransactionMemory_ListActive : env Memory (list Transaction) :=
  ctx_Err;;
  m ← get_;
  txs ← map_range (map_values (mm_transactions m));
  mret (sort_stable (λ x y, time_Before (tx_CreatedAt x) (tx_CreatedAt y))
          (filter (λ tx, tx_State tx = StateActive) txs)).
End operations.

(** ** Reasoning rules

    One rule per method: what the caller must show for each outcome.  A
    method never panics, and an error leaves the store as it was. *)
Ltac mem_rule :=
  intros; wpe_auto; try done; repeat (case_match; wpe_auto); eauto.

Section rules.
Context `{orc : Oracle}.
Implicit Types m : Memory.

Lemma wpe_Create a (Q : res unit → Memory → Prop) m :
  (∀ e, Q (Err e) m) →
  (mm_addresses m !! a_Name a = None → Q (Ok tt) (set_addresses (insert (a_Name a) a) m)) →
  wpe (Memory_Create a) Q m.
Proof. unfold Memory_Create. mem_rule. Qed.

Lemma wpe_Get name (Q : res Address → Memory → Prop) m :
  (∀ e, Q (Err e) m) → (∀ a, mm_addresses m !! name = Some a → Q (Ok a) m) →
  wpe (Memory_Get name) Q m.
Proof. unfold Memory_Get. mem_rule. Qed.

Lemma wpe_SetPaused name b (Q : res Address → Memory → Prop) m :
  (∀ e, Q (Err e) m) →
  (∀ a a', mm_addresses m !! name = Some a →
     a' = mkAddress (a_Name a) (a_Kind a) (a_Durable a) (a_MaxLength a) (a_DefaultTTL a)
            (a_DeadLetter a) b (a_CreatedAt a) (u64 (a_Version a + 1)) →
     Q (Ok a') (set_addresses (insert name a') m)) →
  wpe (Memory_SetPaused name b) Q m.
Proof. unfold Memory_SetPaused. mem_rule. Qed.

Lemma wpe_CreateBinding b (Q : res unit → Memory → Prop) m :
  (∀ e, Q (Err e) m) →
  (mm_bindings m !! bd_ID b = None → Q (Ok tt) (set_bindings (insert (bd_ID b) b) m)) →
  wpe (Memory_CreateBinding b) Q m.
Proof. unfold Memory_CreateBinding. mem_rule. Qed.

Lemma wpe_ListBindings source (Q : res (list Binding) → Memory → Prop) m :
  (∀ e, Q (Err e) m) →
  (∀ bs, bs ≡ₚ map_values (mm_bindings m) →
     Q (Ok (sort_stable binding_less (filter (λ b, source = "" ∨ bd_Source b = source) bs))) m) →
  wpe (Memory_ListBindings source) Q m.
Proof. unfold Memory_ListBindings. mem_rule. Qed.

Lemma wpe_Put msg (Q : res unit → Memory → Prop) m :
  (∀ e, Q (Err e) m) →
  (mm_messages m !! m_ID msg = None → Q (Ok tt) (set_messages (insert (m_ID msg) msg) m)) →
  wpe (Memory_Put msg) Q m.
Proof. unfold Memory_Put. mem_rule. Qed.

Lemma wpe_message id (Q : res Message → Memory → Prop) m :
  (∀ e, Q (Err e) m) → (∀ x, mm_messages m !! id = Some x → Q (Ok x) m) →
  wpe (Memory_message id) Q m.
Proof. unfold Memory_message. mem_rule. Qed.

Lemma wpe_message_exact id (Q : res Message → Memory → Prop) m :
  (∀ text, Q (Err (ErrContext text)) m) →
  (mm_messages m !! id = None → Q (Err ErrMessageNotFound) m) →
  (∀ x, mm_messages m !! id = Some x → Q (Ok x) m) →
  wpe (Memory_message id) Q m.
Proof.
  intros. unfold Memory_message. wpe_step. apply wpe_ctx_Err_exact; [done|]. wpe_auto.
  case_match; wpe_auto; eauto.
Qed.

Lemma wpe_deleteMessage_exact id (Q : res unit → Memory → Prop) m :
  (∀ text, Q (Err (ErrContext text)) m) →
  (mm_messages m !! id = None → Q (Err ErrMessageNotFound) m) →
  (∀ x, mm_messages m !! id = Some x → Q (Ok tt) (set_messages (delete id) m)) →
  wpe (Memory_deleteMessage id) Q m.
Proof.
  intros. unfold Memory_deleteMessage. wpe_step. apply wpe_ctx_Err_exact; [done|]. wpe_auto.
  case_match; wpe_auto; eauto.
Qed.

Lemma wpe_Update msg (Q : res unit → Memory → Prop) m :
  (∀ e, Q (Err e) m) →
  (∀ x, mm_messages m !! m_ID msg = Some x →
     Q (Ok tt) (set_messages (insert (m_ID msg) msg) m)) →
  wpe (Memory_Update msg) Q m.
Proof. unfold Memory_Update. mem_rule. Qed.

Lemma wpe_deleteMessage id (Q : res unit → Memory → Prop) m :
  (∀ e, Q (Err e) m) →
  (∀ x, mm_messages m !! id = Some x → Q (Ok tt) (set_messages (delete id) m)) →
  wpe (Memory_deleteMessage id) Q m.
Proof. unfold Memory_deleteMessage. mem_rule. Qed.

Lemma wpe_ListReady a limit (Q : res (list Message) → Memory → Prop) m :
  (∀ e, Q (Err e) m) →
  (∀ ms, ms ≡ₚ map_values (mm_messages m) →
     Q (Ok (truncate_limit limit (sort_stable ready_less (filter (ready a) ms)))) m) →
  wpe (Memory_ListReady a limit) Q m.
Proof. unfold Memory_ListReady. mem_rule. Qed.

Lemma wpe_All (Q : res (list Message) → Memory → Prop) m :
  (∀ e, Q (Err e) m) → (∀ ms, ms ≡ₚ map_values (mm_messages m) → Q (Ok ms) m) →
  wpe Memory_All Q m.
Proof. unfold Memory_All. mem_rule. Qed.

Lemma wpe_SaveConsumer c (Q : res unit → Memory → Prop) m :
  (∀ e, Q (Err e) m) → Q (Ok tt) (set_consumers (insert (cn_ID c) c) m) →
  wpe (Memory_SaveConsumer c) Q m.
Proof. unfold Memory_SaveConsumer. mem_rule. Qed.

Lemma wpe_GetConsumer id (Q : res Consumer → Memory → Prop) m :
  (∀ e, Q (Err e) m) → (∀ c, mm_consumers m !! id = Some c → Q (Ok c) m) →
  wpe (Memory_GetConsumer id) Q m.
Proof. unfold Memory_GetConsumer. mem_rule. Qed.

Lemma wpe_TxCreate tx (Q : res unit → Memory → Prop) m :
  (∀ e, Q (Err e) m) →
  (mm_transactions m !! tx_ID tx = None →
     Q (Ok tt) (set_transactions (insert (tx_ID tx) tx) m)) →
  wpe (TransactionMemory_Create tx) Q m.
Proof. unfold TransactionMemory_Create. mem_rule. Qed.

Lemma wpe_TxGet id (Q : res Transaction → Memory → Prop) m :
  (∀ e, Q (Err e) m) → (∀ tx, mm_transactions m !! id = Some tx → Q (Ok tx) m) →
  wpe (TransactionMemory_Get id) Q m.
Proof. unfold TransactionMemory_Get. mem_rule. Qed.

Lemma wpe_TxUpdate tx (Q : res unit → Memory → Prop) m :
  (∀ e, Q (Err e) m) →
  (∀ old, mm_transactions m !! tx_ID tx = Some old → tx_Version old < tx_Version tx →
     Q (Ok tt) (set_transactions (insert (tx_ID tx) tx) m)) →
  wpe (TransactionMemory_Update tx) Q m.
Proof.
  unfold TransactionMemory_Update. intros He HQ. wpe_auto; try done.
  destruct (mm_transactions m !! tx_ID tx) as [old|] eqn:E; [|wpe_auto; auto].
  destruct (Z.leb_spec (tx_Version tx) (tx_Version old)); wpe_auto; eauto.
Qed.

Lemma wpe_ListActive (Q : res (list Transaction) → Memory → Prop) m :
  (∀ e, Q (Err e) m) →
  (∀ txs, txs ≡ₚ map_values (mm_transactions m) →
     Q (Ok (sort_stable (λ x y, time_Before (tx_CreatedAt x) (tx_CreatedAt y))
          (filter (λ tx, tx_State tx = StateActive) txs))) m) →
  wpe TransactionMemory_ListActive Q m.
Proof. unfold TransactionMemory_ListActive. mem_rule. Qed.
End rules.

(** The same in a quiet environment, where the outcome is determined. *)
Ltac quiet_rule :=
  intros; repeat (wpe_step || (apply wpe_bind, quiet_ctx_Err)); repeat (case_match; wpe_auto); eauto.

Section quiet_rules.
Context `{orc : Oracle, !Quiet orc}.
Implicit Types m : Memory.

Lemma quiet_Get name (Q : res Address → Memory → Prop) m :
  (mm_addresses m !! name = None → Q (Err ErrAddressNotFound) m) →
  (∀ a, mm_addresses m !! name = Some a → Q (Ok a) m) →
  wpe (Memory_Get name) Q m.
Proof. unfold Memory_Get. intros. apply wpe_bind, quiet_ctx_Err. quiet_rule. Qed.

Lemma quiet_ListBindings source (Q : res (list Binding) → Memory → Prop) m :
  (∀ bs, bs ≡ₚ map_values (mm_bindings m) →
     Q (Ok (sort_stable binding_less (filter (λ b, source = "" ∨ bd_Source b = source) bs))) m) →
  wpe (Memory_ListBindings source) Q m.
Proof. unfold Memory_ListBindings. intros. apply wpe_bind, quiet_ctx_Err. quiet_rule. Qed.

Lemma quiet_message id (Q : res Message → Memory → Prop) m :
  (mm_messages m !! id = None → Q (Err ErrMessageNotFound) m) →
  (∀ x, mm_messages m !! id = Some x → Q (Ok x) m) →
  wpe (Memory_message id) Q m.
Proof. unfold Memory_message. intros. apply wpe_bind, quiet_ctx_Err. quiet_rule. Qed.

Lemma quiet_Update msg x (Q : res unit → Memory → Prop) m :
  mm_messages m !! m_ID msg = Some x →
  Q (Ok tt) (set_messages (insert (m_ID msg) msg) m) →
  wpe (Memory_Update msg) Q m.
Proof.
  unfold Memory_Update. intros Hx HQ. apply wpe_bind, quiet_ctx_Err. wpe_auto. rewrite Hx. by wpe_auto.
Qed.

Lemma quiet_All (Q : res (list Message) → Memory → Prop) m :
  (∀ ms, ms ≡ₚ map_values (mm_messages m) → Q (Ok ms) m) → wpe Memory_All Q m.
Proof. unfold Memory_All. intros. apply wpe_bind, quiet_ctx_Err. quiet_rule. Qed.
End quiet_rules.

(** ** Facts about the stored lists *)
Lemma elem_of_map_values {A} (m : gmap string A) x : x ∈ map_values m ↔ ∃ k, m !! k = Some x.
Proof.
  unfold map_values. rewrite list_elem_of_fmap. split.
  - intros ([k y] & -> & H%elem_of_map_to_list). eauto.
  - intros [k H%elem_of_map_to_list]. by exists (k, x).
Qed.

(** Every entry is stored under its own identifier. *)
Definition keyed {A} (key : A → string) (m : gmap string A) : Prop :=
  ∀ k x, m !! k = Some x → key x = k.

Lemma keyed_empty {A} (key : A → string) : keyed key ∅.
Proof. intros k x. by rewrite lookup_empty. Qed.

Lemma keyed_insert {A} (key : A → string) m k x :
  keyed key m → key x = k → keyed key (<[k := x]> m).
Proof. intros Hm Hk k' y [[<- <-]|[? ?]]%lookup_insert_Some; eauto. Qed.

Lemma keyed_delete {A} (key : A → string) m k : keyed key m → keyed key (delete k m).
Proof. intros Hm k' y [? ?]%lookup_delete_Some; eauto. Qed.

#[export] Hint Resolve keyed_empty keyed_insert keyed_delete : broker.

Lemma elem_of_keyed_values {A} (key : A → string) m x :
  keyed key m → x ∈ map_values m ↔ m !! key x = Some x.
Proof.
  intros Hm. rewrite elem_of_map_values. split; [|by eauto].
  intros [k H]. by rewrite (Hm _ _ H).
Qed.

Lemma NoDup_keyed_values {A} (key : A → string) (m : gmap string A) :
  keyed key m → NoDup (key <$> map_values m).
Proof.
  intros Hm. unfold map_values. rewrite <-list_fmap_compose.
  rewrite (list_fmap_ext _ fst).
  - apply NoDup_fst_map_to_list.
  - intros i [k x] Hx. apply list_elem_of_lookup_2, elem_of_map_to_list in Hx. cbn. by apply Hm.
Qed.

(** The order of [ListReady]. *)
Definition ready_before (x y : Message) : Prop :=
  m_Priority y < m_Priority x ∨
  (m_Priority x = m_Priority y ∧ m_CreatedAt x ≤ m_CreatedAt y).

Lemma ready_less_false x y : not_less ready_less x y ↔ ready_before x y.
Proof.
  unfold not_less, ready_less, ready_before, time_Before.
  destruct (Z.eqb_spec (m_Priority y) (m_Priority x)) as [E|E]; cbn.
  - rewrite Z.ltb_ge. lia.
  - rewrite Z.ltb_ge. lia.
Qed.

Lemma ready_sorted ms : StronglySorted ready_before (sort_stable ready_less ms).
Proof.
  eapply StronglySorted_impl; [|apply (sort_stable_sorted ready_less)].
  - intros x y. apply ready_less_false.
  - intros a b c. rewrite !ready_less_false. unfold ready_before. lia.
  - intros a b H. apply ready_less_false. unfold ready_less, time_Before, ready_before in *.
    destruct (Z.eqb_spec (m_Priority a) (m_Priority b)); cbn in H; zlia.
Qed.
