(* ===== verification/BodyLog.v ===== *)
(** * The body log interface and the in-memory log

    Models the [BodyLog] interface of [internal/delivery/domain/repository.go]
    and [internal/storage/infrastructure/memorylog.go].  [BodyLogLaws] is what
    a log promises the delivery service, in terms of an abstract view from
    offsets to bodies: an append puts the body at an offset that was free and
    changes nothing else, a read returns what the view holds.  The clients are
    proved against the laws; the memory and the file log discharge them. *)

From Stdlib Require Import Ascii.
From S2P Require Import Prelude Bytes Duration Env.

(** ** The interface *)
Class BodyLog (L : Type) := {
  Log_Append : ∀ {orc : Oracle}, string → bytes → env L Z;
  Log_Read : ∀ {orc : Oracle}, Z → env L bytes;
  Log_Compact : ∀ {orc : Oracle}, gset Z → env L unit;
  Log_Close : ∀ {orc : Oracle}, env L unit
}.

(** An identifier a record can start with: one line, short enough for the
    scanner of the file log.  The generated identifiers are of this form. *)
Definition log_id (id : string) : bool :=
  forallb (λ c, negb (b2z c =? 10) && negb (b2z c =? 13)) (string_bytes id) &&
  (Z.of_nat (length (string_bytes id)) <? 65536).

Class BodyLogLaws (L : Type) `{BodyLog L} := {
  log_view : L → gmap Z bytes;
  log_inv : L → Prop;
  wpe_Log_Append : ∀ `{orc : Oracle} id b l (Q : res Z → L → Prop),
    log_inv l → log_id id = true →
    (∀ e l', log_inv l' → log_view l' = log_view l → Q (Err e) l') →
    (∀ off l', log_inv l' → log_view l !! off = None →
       log_view l' = <[off := b]> (log_view l) → Q (Ok off) l') →
    wpe (Log_Append id b) Q l;
  wpe_Log_Read : ∀ `{orc : Oracle} off l (Q : res bytes → L → Prop),
    log_inv l →
    (∀ e l', log_inv l' → log_view l' = log_view l → Q (Err e) l') →
    (∀ b l', log_inv l' → log_view l' = log_view l → log_view l !! off = Some b →
       Q (Ok b) l') →
    wpe (Log_Read off) Q l
}.

(** In a quiet environment a body that is in the view is read. *)
Class BodyLogLive (L : Type) `{BodyLogLaws L} := {
  quiet_Log_Read : ∀ `{orc : Oracle, !Quiet orc} off b l (Q : res bytes → L → Prop),
    log_inv l → log_view l !! off = Some b →
    (∀ l', log_inv l' → log_view l' = log_view l → Q (Ok b) l') →
    wpe (Log_Read off) Q l
}.

(** Generated identifiers can start a record. *)
Lemma hex_digit_line n : 0 ≤ n < 16 →
  negb (b2z (hex_digit n) =? 10) && negb (b2z (hex_digit n) =? 13) = true.
Proof.
  intros Hn. unfold hex_digit.
  destruct (Z.ltb_spec n 10); rewrite b2z_z2b_small by lia; apply andb_true_iff;
    split; apply negb_true_iff, Z.eqb_neq; lia.
Qed.

Lemma hex_encode_line l :
  forallb (λ c, negb (b2z c =? 10) && negb (b2z c =? 13)) (string_bytes (hex_encode l)) = true ∧
  length (string_bytes (hex_encode l)) = (2 * length l)%nat.
Proof.
  unfold hex_encode. rewrite string_bytes_string. induction l as [|c l [IH1 IH2]]; [done|].
  cbn. rewrite <-!andb_assoc. pose proof (b2z_range c).
  assert (0 ≤ b2z c / 16 < 16) by (Z.div_mod_to_equations; lia).
  assert (0 ≤ b2z c `mod` 16 < 16) by (Z.div_mod_to_equations; lia).
  pose proof (hex_digit_line (b2z c / 16)) as Hd1.
  pose proof (hex_digit_line (b2z c `mod` 16)) as Hd2.
  apply andb_true_iff in Hd1 as [-> ->]; [|done]. apply andb_true_iff in Hd2 as [-> ->]; [|done].
  cbn. split; [exact IH1|]. rewrite IH2. lia.
Qed.

Lemma log_id_msg b : length b = 12%nat → log_id (id_of "msg" b) = true.
Proof.
  intros Hb. destruct (hex_encode_line b) as [H1 H2].
  unfold log_id, id_of. rewrite !string_bytes_app, !forallb_app, H1, !length_app, H2, Hb. done.
Qed.

(** ** The in-memory log

    The next offset is an [int64] that grows by one per append. *)
Record MemoryLog := mkMemoryLog { ml_records : gmap Z bytes; ml_next : Z }.

Definition NewMemoryLog : MemoryLog := mkMemoryLog ∅ 0.

Section memory_log.
Context `{orc : Oracle}.

Definition MemoryLog_Append (id : string) (b : bytes) : env MemoryLog Z :=
  ctx_Err;;
  l ← get_;
  let off := ml_next l in
  put_ (mkMemoryLog (<[off := b]> (ml_records l)) (off + 1));;
  mret off.

Definition MemoryLog_Read (off : Z) : env MemoryLog bytes :=
  ctx_Err;;
  l ← get_;
  match ml_records l !! off with
  | None => raise (ErrNew "log offset not found")
  | Some b => mret b
  end.

Definition MemoryLog_Compact (live : gset Z) : env MemoryLog unit :=
  ctx_Err;;
  update_ (λ l, mkMemoryLog (filter (λ kv, kv.1 ∈ live) (ml_records l)) (ml_next l)).

Definition MemoryLog_Close : env MemoryLog unit := mret tt.
End memory_log.

#[export] Instance MemoryLog_BodyLog : BodyLog MemoryLog := {|
  Log_Append orc := MemoryLog_Append; Log_Read orc := MemoryLog_Read;
  Log_Compact orc := MemoryLog_Compact; Log_Close orc := MemoryLog_Close |}.

(** Every offset in use is below the next one. *)
Definition ml_inv (l : MemoryLog) : Prop :=
  ∀ off b, ml_records l !! off = Some b → off < ml_next l.

#[export] Instance MemoryLog_BodyLogLaws : BodyLogLaws MemoryLog.
Proof.
  refine {| log_view := ml_records; log_inv := ml_inv |}.
  - intros orc id b l Q Hi _ HE HQ. unfold Log_Append. cbn. unfold MemoryLog_Append.
    wpe_auto; [by apply HE|]. apply HQ; [|destruct (ml_records l !! ml_next l) eqn:E; [|done]|done].
    + intros off c Hc. cbn in *. apply lookup_insert_Some in Hc as [[<- _]|[_ H]]; [lia|]. apply Hi in H. lia.
    + apply Hi in E. lia.
  - intros orc off l Q Hi HE HQ. unfold Log_Read. cbn. unfold MemoryLog_Read.
    wpe_auto; [by apply HE|]. destruct (ml_records l !! off) eqn:E; wpe_auto; eauto.
Defined.

#[export] Instance MemoryLog_BodyLogLive : BodyLogLive MemoryLog.
Proof.
  split. intros orc HO off b l Q Hi Hv HQ. unfold Log_Read. cbn. unfold MemoryLog_Read.
  apply wpe_bind, quiet_ctx_Err. wpe_auto. cbn in Hv. rewrite Hv. wpe_auto. by apply HQ.
Qed.

(** Compacting the in-memory log keeps exactly the live bodies, each at
    its offset, and never frees an offset for reuse; on an error the log is
    unchanged. *)
Theorem MemoryLog_Compact_exact (orc : Oracle) (live : gset Z) (l : MemoryLog) (n : nat) :
  let '(r, (l', _)) := MemoryLog_Compact live (l, n) in
  match r with
  | Ok _ => (∀ off b, ml_records l' !! off = Some b ↔ off ∈ live ∧ ml_records l !! off = Some b) ∧
            ml_next l' = ml_next l ∧ (ml_inv l → ml_inv l')
  | Err _ => l' = l
  | Panic => False
  end.
Proof.
  destruct (MemoryLog_Compact live (l, n)) as [r [l' n']] eqn:E.
  refine (wpe_elim _ (λ r l', _) l n r l' n' _ E). unfold MemoryLog_Compact.
  wpe_auto; [done|]. cbn.
  assert (∀ off b, filter (λ kv : Z * bytes, kv.1 ∈ live) (ml_records l) !! off = Some b ↔
    off ∈ live ∧ ml_records l !! off = Some b) as Hf.
  { intros off b. rewrite map_lookup_filter_Some. cbn. tauto. }
  split; [done|]. split; [done|]. intros Hi off b [_ H]%Hf. by eapply Hi.
Qed.
