(* ===== verification/FileLog.v ===== *)
(** * The durable body log

    Models [internal/storage/infrastructure/filelog.go]: an open file with its
    position, the record format (a big-endian length, the message identifier,
    a newline, the body), the index rebuilt on opening, appends that may fail
    after writing part of a record, reads through the line scanner, and
    compaction into a temporary file. *)

From Stdlib Require Import Ascii.
From S2P Require Import Prelude Bytes Duration Env BodyLog.

(** ** Files *)

(** An open (or closed) handle: the contents and the position. *)
Record File := mkFile { fd_data : bytes; fd_pos : nat; fd_open : bool }.

Inductive whence := SeekStart (pos : nat) | SeekCurrent (n : nat) | SeekEnd.

Definition zero_byte : byte := z2b 0.

(** Contents after writing [b] at [pos]; a gap is filled with zeros. *)
Definition write_at (data : bytes) (pos : nat) (b : bytes) : bytes :=
  take pos data ++ replicate (pos - length data) zero_byte ++ b ++ drop (pos + length b) data.

(** [bufio.ScanLines] on the first line: a trailing carriage return is
    dropped, and a line must end within the scanner's 64 KiB buffer. *)
Definition dropCR (l : bytes) : bytes :=
  match last l with
  | Some c => if b2z c =? 13 then take (length l - 1) l else l
  | None => l
  end.

Fixpoint find_newline (l : bytes) : option nat :=
  match l with
  | [] => None
  | c :: l' => if b2z c =? 10 then Some O else S <$> find_newline l'
  end.

Definition MaxScanTokenSize : Z := 64 * 1024.

Definition scan_line (data : bytes) : option bytes :=
  match find_newline data with
  | Some i => if Z.of_nat i <? MaxScanTokenSize then Some (dropCR (take i data)) else None
  | None => if bool_decide (data ≠ []) && (Z.of_nat (length data) <? MaxScanTokenSize)
            then Some (dropCR data) else None
  end.

(** The tail of [Read]: the body after the identifier line. *)
Definition record_body (data : bytes) : res bytes :=
  match scan_line data with
  | None => Err (ErrNew "invalid log record")
  | Some line =>
      let cut := (length line + 1)%nat in
      if bool_decide (length data < cut)%nat then Err (ErrNew "invalid log delimiter")
      else Ok (drop cut data)
  end.

Definition record_limit : Z := 64 * 2 ^ 20.

Record FileLog := mkFileLog { fl_file : File; fl_offsets : gmap Z nat }.

Definition set_file (f : File) (l : FileLog) : FileLog := mkFileLog f (fl_offsets l).
Definition set_offsets (o : gmap Z nat) (l : FileLog) : FileLog := mkFileLog (fl_file l) o.

Section operations.
Context `{orc : Oracle}.

(** The outcome of a system call that does not touch the contents. *)
Definition io {T} : env T unit :=
  r ← ask o_io;
  match r with Some e => raise e | None => mret tt end.

Definition file_op : env File unit :=
  f ← get_;
  guard_err (negb (fd_open f)) (ErrIO "file already closed");;
  io.

Definition file_Seek (w : whence) : env File nat :=
  file_op;;
  f ← get_;
  let pos := match w with
             | SeekStart p => p
             | SeekCurrent n => (fd_pos f + n)%nat
             | SeekEnd => length (fd_data f)
             end in
  put_ (mkFile (fd_data f) pos true);;
  mret pos.

(** [io.ReadFull(file, make([]byte, n))]. *)
Definition file_ReadFull (n : nat) : env File bytes :=
  file_op;;
  f ← get_;
  let b := take n (drop (fd_pos f) (fd_data f)) in
  put_ (mkFile (fd_data f) (fd_pos f + length b) true);;
  guard_err (bool_decide (length b < n ∧ b = [])%nat) (ErrIO "EOF");;
  guard_err (bool_decide (length b < n)%nat) (ErrIO "unexpected EOF");;
  mret b.

(** [file.Write(b)]: a failed write leaves a prefix of [b] behind. *)
Definition file_Write (b : bytes) : env File unit :=
  f ← get_;
  guard_err (negb (fd_open f)) (ErrIO "file already closed");;
  r ← ask o_io;
  k ← ask o_short;
  let written := match r with None => b | Some _ => take k b end in
  put_ (mkFile (write_at (fd_data f) (fd_pos f) written) (fd_pos f + length written) true);;
  match r with None => mret tt | Some e => raise e end.

Definition file_Close : env File unit :=
  file_op;;
  update_ (λ f, mkFile (fd_data f) (fd_pos f) false).

Definition on_file {A} (m : env File A) : env FileLog A := on fl_file set_file m.

(** [binary.Read] of a [uint32]. *)
Definition read_uint32 : env FileLog Z :=
  h ← on_file (file_ReadFull 4);
  mret (be_get h).

Fixpoint reindex_loop (fuel : nat) (logical : Z) : env FileLog unit :=
  match fuel with
  | O => panic
  | S fuel' =>
      pos ← on_file (file_Seek (SeekCurrent 0));
      r ← try read_uint32;
      match r with
      | inl e => if errors_Is e (ErrIO "EOF") then mret tt else raise (ErrWrap "read log header" e)
      | inr n =>
          guard_err (record_limit <? n) (ErrNew "corrupt message log record");;
          update_ (λ l, set_offsets (<[logical := pos]> (fl_offsets l)) l);;
          on_file (file_Seek (SeekCurrent (Z.to_nat n)));;
          reindex_loop fuel' (logical + 1)
      end
  end.

(** Every turn reads a header, so the length of the file is enough fuel. *)
Definition reindex : env FileLog unit :=
  on_file (file_Seek (SeekStart 0));;
  l ← get_;
  reindex_loop (S (length (fd_data (fl_file l)))) 0;;
  on_file (file_Seek SeekEnd);;
  mret tt.

(** Opening: the contents of the file on disk are those of the store's
    handle; the handle starts at position zero with an empty index. *)
Definition OpenFileLog : env FileLog unit :=
  wrap "create data dir" io;;
  wrap "open message log" io;;
  update_ (λ l, mkFileLog (mkFile (fd_data (fl_file l)) 0 true) ∅);;
  r ← try reindex;
  match r with
  | inl e => try (on_file file_Close);; raise e
  | inr _ => mret tt
  end.

Definition record_of (id : string) (body : bytes) : bytes := string_bytes id ++ z2b 10 :: body.

Definition FileLog_Append (id : string) (body : bytes) : env FileLog Z :=
  ctx_Err;;
  guard_err (record_limit <? Z.of_nat (length body)) (ErrNew "message body exceeds log limit");;
  pos ← on_file (file_Seek SeekEnd);
  let record := record_of id body in
  on_file (file_Write (be_put 4 (u32 (Z.of_nat (length record)))));;
  on_file (file_Write record);;
  on_file file_op;;
  l ← get_;
  let logical := Z.of_nat (size (fl_offsets l)) in
  update_ (set_offsets (<[logical := pos]> (fl_offsets l)));;
  mret logical.

Definition FileLog_Read (offset : Z) : env FileLog bytes :=
  ctx_Err;;
  l ← get_;
  match fl_offsets l !! offset with
  | None => raise (ErrNew "log offset not found")
  | Some pos =>
      on_file (file_Seek (SeekStart pos));;
      n ← read_uint32;
      data ← on_file (file_ReadFull (Z.to_nat n));
      lift (record_body data)
  end.

(** One record of [Compact]: the temporary file and its index so far.  A map
    read of an absent offset gives position zero. *)
Definition compact_step (live : gset Z) (acc : bytes * gmap Z nat * Z) (old : Z) :
    env FileLog (bytes * gmap Z nat * Z) :=
  let '(tmp, newOffsets, next) := acc in
  if bool_decide (old ∉ live) then mret acc
  else
    l ← get_;
    let pos := default 0%nat (fl_offsets l !! old) in
    on_file (file_Seek (SeekStart pos));;
    n ← read_uint32;
    data ← on_file (file_ReadFull (Z.to_nat n));
    io;;
    io;;
    mret (tmp ++ be_put 4 n ++ data, <[next := length tmp]> newOffsets, next + 1).

Definition FileLog_Compact (live : gset Z) : env FileLog unit :=
  ctx_Err;;
  io;;
  l ← get_;
  '(tmp, newOffsets, _) ←
    fold_each (Z.of_nat <$> seq 0 (size (fl_offsets l))) ([], ∅, 0) (compact_step live);
  io;;
  on_file file_Close;;
  io;;
  update_ (λ _, mkFileLog (mkFile tmp 0 false) newOffsets);;
  io;;
  update_ (λ _, mkFileLog (mkFile tmp 0 true) newOffsets).

Definition FileLog_Close : env FileLog unit := on_file file_Close.
End operations.

#[export] Instance FileLog_BodyLog : BodyLog FileLog := {|
  Log_Append orc := FileLog_Append; Log_Read orc := FileLog_Read;
  Log_Compact orc := FileLog_Compact; Log_Close orc := FileLog_Close |}.
