(* ===== verification/FileLogFacts.v ===== *)
(** * The file log implements the body log interface

    The invariant of [FileLog], the proof that appends and reads satisfy
    [BodyLogLaws] whatever fails underneath, recovery of the index from the
    file, and what compaction does to offsets. *)

From Stdlib Require Import Ascii.
From S2P Require Import Prelude Bytes Duration Env BodyLog FileLog.

(** ** The abstract view *)

(** The body of the record at a position, when a whole record is there. *)
Definition record_at (data : bytes) (pos : nat) : option bytes :=
  let h := take 4 (drop pos data) in
  let n := Z.to_nat (be_get h) in
  let d := take n (drop (pos + 4) data) in
  if bool_decide (length h = 4%nat ∧ length d = n) then
    match record_body d with Ok b => Some b | _ => None end
  else None.

Definition fl_view (l : FileLog) : gmap Z bytes :=
  omap (record_at (fd_data (fl_file l))) (fl_offsets l).

(** The logical offsets are [0 .. len-1] and each indexes a whole record. *)
Definition fl_inv (l : FileLog) : Prop :=
  (∀ off, is_Some (fl_offsets l !! off) ↔ 0 ≤ off < Z.of_nat (size (fl_offsets l))) ∧
  (∀ off pos, fl_offsets l !! off = Some pos → is_Some (record_at (fd_data (fl_file l)) pos)).

(** ** Rules for files *)
Section file_rules.
Context `{orc : Oracle}.

Lemma wpe_io {T} (Q : res unit → T → Prop) t :
  (∀ e, Q (Err e) t) → Q (Ok tt) t → wpe io Q t.
Proof. intros ?? n. unfold io, mbind, go_bind, ask. cbn. destruct (o_io n); cbn; auto. Qed.

Lemma wpe_file_op (Q : res unit → File → Prop) f :
  (∀ e, Q (Err e) f) → (fd_open f = true → Q (Ok tt) f) → wpe file_op Q f.
Proof.
  intros He HQ. unfold file_op. wpe_auto; [done|].
  apply wpe_io; [done|]. apply HQ. by zbool.
Qed.

Lemma wpe_Seek w (Q : res nat → File → Prop) f :
  (∀ e, Q (Err e) f) →
  (∀ pos, pos = match w with SeekStart p => p | SeekCurrent n => (fd_pos f + n)%nat
                | SeekEnd => length (fd_data f) end →
     Q (Ok pos) (mkFile (fd_data f) pos true)) →
  wpe (file_Seek w) Q f.
Proof.
  intros He HQ. unfold file_Seek. apply wpe_bind, wpe_file_op; [done|]. intros _.
  wpe_auto. by apply HQ.
Qed.

Lemma wpe_ReadFull n (Q : res bytes → File → Prop) f :
  (∀ e f', fd_data f' = fd_data f → Q (Err e) f') →
  (∀ b, b = take n (drop (fd_pos f) (fd_data f)) → length b = n →
     Q (Ok b) (mkFile (fd_data f) (fd_pos f + n) true)) →
  wpe (file_ReadFull n) Q f.
Proof.
  intros He HQ. unfold file_ReadFull. apply wpe_bind, wpe_file_op; [by intros; apply He|].
  intros _. wpe_auto; [by apply He..|]. zbool.
  set (b := take n _) in *. assert (length b = n) as Hl.
  { unfold b in *. rewrite length_take in *. lia. }
  rewrite Hl. by apply HQ.
Qed.

Lemma write_at_end data b : write_at data (length data) b = data ++ b.
Proof.
  unfold write_at. rewrite take_ge, Nat.sub_diag, (drop_ge data) by lia. cbn.
  by rewrite app_nil_r.
Qed.

Lemma wpe_Write_end b (Q : res unit → File → Prop) f :
  fd_pos f = length (fd_data f) →
  (∀ e f' x, fd_data f' = fd_data f ++ x → Q (Err e) f') →
  Q (Ok tt) (mkFile (fd_data f ++ b) (length (fd_data f ++ b)) true) →
  wpe (file_Write b) Q f.
Proof.
  intros Hp He HQ n. unfold file_Write, mbind, go_bind, get_, ask, guard_err, put_. cbn.
  destruct (fd_open f); cbn; [|apply (He _ _ []); by rewrite app_nil_r].
  rewrite Hp. destruct (o_io n) as [e|]; cbn; rewrite write_at_end; [by eapply He|].
  by rewrite <-length_app.
Qed.
End file_rules.

(** ** Records *)
Lemma record_at_app data x pos b :
  record_at data pos = Some b → record_at (data ++ x) pos = Some b.
Proof.
  unfold record_at. intros H. case_bool_decide as Hb; [|done]. destruct Hb as [H1 H2].
  assert (4 ≤ length (drop pos data))%nat as Hd by (rewrite length_take in H1; lia).
  assert (take 4 (drop pos (data ++ x)) = take 4 (drop pos data)) as E1.
  { rewrite drop_app, take_app_le by done. done. }
  rewrite E1. set (n := Z.to_nat _) in *.
  rewrite length_drop in Hd.
  assert (take n (drop (pos + 4) (data ++ x)) = take n (drop (pos + 4) data)) as E2.
  { rewrite drop_app, take_app_le; [done|]. rewrite length_take in H2. lia. }
  rewrite E2, bool_decide_eq_true_2 by done. done.
Qed.

Lemma find_newline_record id body :
  forallb (λ c, negb (b2z c =? 10) && negb (b2z c =? 13)) id = true →
  find_newline (id ++ z2b 10 :: body) = Some (length id).
Proof.
  induction id as [|c id IH]; cbn; intros H; [done|].
  apply andb_true_iff in H as [H1 H2]. zbool.
  destruct (Z.eqb_spec (b2z c) 10); [done|]. by rewrite IH.
Qed.

Lemma dropCR_id id :
  forallb (λ c, negb (b2z c =? 10) && negb (b2z c =? 13)) id = true → dropCR id = id.
Proof.
  unfold dropCR. intros H. destruct (last id) as [c|] eqn:E; [|done].
  apply last_Some in E as [l ->]. rewrite forallb_app in H. cbn in H. zbool.
  by destruct (Z.eqb_spec (b2z c) 13).
Qed.

Lemma record_body_of id body : log_id id = true → record_body (record_of id body) = Ok body.
Proof.
  intros [H1 H2]%andb_true_iff. unfold record_body, record_of, scan_line.
  rewrite find_newline_record by done.
  replace (Z.of_nat (length (string_bytes id)) <? MaxScanTokenSize) with true by done.
  rewrite take_app_length, dropCR_id by done.
  rewrite bool_decide_eq_false_2 by (rewrite length_app; cbn; lia).
  rewrite drop_app_ge by lia. replace (_ + 1 - _)%nat with 1%nat by lia. done.
Qed.

Lemma record_at_end data x n d b :
  length d = Z.to_nat n → 0 ≤ n < 2 ^ 32 → record_body d = Ok b →
  record_at (data ++ be_put 4 n ++ d ++ x) (length data) = Some b.
Proof.
  intros Hd Hn Hb. unfold record_at. rewrite drop_app_length.
  rewrite (take_app_length' (be_put 4 n)) by (rewrite length_be_put; done).
  rewrite be_get_put_small by (change (256 ^ Z.of_nat 4) with (2 ^ 32); lia).
  rewrite (drop_app_ge data) by lia. replace (_ + 4 - _)%nat with 4%nat by lia.
  rewrite (drop_app_ge (be_put 4 n)) by (rewrite length_be_put; lia).
  rewrite length_be_put, Nat.sub_diag, drop_0, <-Hd, take_app_length.
  rewrite bool_decide_eq_true_2 by auto. by rewrite Hb.
Qed.

Lemma length_record_of id body :
  length (record_of id body) = (length (string_bytes id) + 1 + length body)%nat.
Proof. unfold record_of. rewrite length_app. cbn. lia. Qed.

(** ** The invariant *)
Section view.
Implicit Types l : FileLog.

Lemma fl_view_lookup l off b :
  fl_view l !! off = Some b ↔
  ∃ pos, fl_offsets l !! off = Some pos ∧ record_at (fd_data (fl_file l)) pos = Some b.
Proof.
  unfold fl_view. rewrite lookup_omap. destruct (fl_offsets l !! off) as [p|]; cbn.
  - split; [by exists p|]. by intros (? & [= <-] & ?).
  - split; [done|]. by intros (? & ? & ?).
Qed.

Lemma fl_view_free l : fl_inv l → fl_view l !! Z.of_nat (size (fl_offsets l)) = None.
Proof.
  intros [Hd _]. unfold fl_view. rewrite lookup_omap.
  destruct (fl_offsets l !! _) eqn:E; [|done].
  assert (is_Some (fl_offsets l !! Z.of_nat (size (fl_offsets l)))) as H%Hd by (by rewrite E).
  lia.
Qed.

(** A file that only grew keeps the invariant and the view. *)
Lemma fl_grow l f x : fl_inv l → fd_data f = fd_data (fl_file l) ++ x →
  fl_inv (set_file f l) ∧ fl_view (set_file f l) = fl_view l.
Proof.
  intros [Hd Hr] E. split.
  - split; cbn; [done|]. intros off pos [b Hb]%Hr. rewrite E. exists b. by apply record_at_app.
  - apply map_eq. intros off. unfold fl_view. rewrite !lookup_omap. cbn.
    destruct (fl_offsets l !! off) as [pos|] eqn:Ep; [|done]. cbn. rewrite E.
    destruct (Hr _ _ Ep) as [b Hb]. rewrite Hb. by apply record_at_app.
Qed.

Lemma fl_same l f : fl_inv l → fd_data f = fd_data (fl_file l) →
  fl_inv (set_file f l) ∧ fl_view (set_file f l) = fl_view l.
Proof. intros Hi E. apply (fl_grow _ _ []); [done|]. by rewrite app_nil_r. Qed.

Lemma fl_append l f pos b x : fl_inv l → fd_data f = fd_data (fl_file l) ++ x →
  record_at (fd_data f) pos = Some b →
  let k := Z.of_nat (size (fl_offsets l)) in
  let l' := mkFileLog f (<[k := pos]> (fl_offsets l)) in
  fl_inv l' ∧ fl_view l' = <[k := b]> (fl_view l).
Proof.
  intros Hi E Hb k l'. pose proof (fl_view_free l Hi) as Hfree.
  destruct (fl_grow l f x Hi E) as [[_ Hr'] Hv']. destruct Hi as [Hd Hr].
  assert (fl_offsets l !! k = None) as Hk.
  { destruct (fl_offsets l !! k) eqn:Ek; [|done].
    assert (is_Some (fl_offsets l !! k)) as H%Hd by (by rewrite Ek). unfold k in H. lia. }
  split.
  - split; cbn.
    + intros off. rewrite lookup_insert_is_Some, map_size_insert_None by done. rewrite Hd.
      unfold k. lia.
    + intros off p [[<- <-]|[_ H]]%lookup_insert_Some; [by exists b|]. by apply (Hr' off).
  - unfold fl_view at 1. cbn. rewrite omap_insert_Some with (y := b) by done. f_equal.
    exact Hv'.
Qed.
End view.

(** ** Appends and reads *)
Section laws.
Context `{orc : Oracle}.

Lemma wpe_on_file {A} (m : env File A) (Q : res A → FileLog → Prop) l :
  wpe m (λ r f, Q r (set_file f l)) (fl_file l) → wpe (on_file m) Q l.
Proof. apply wpe_on. Qed.

Lemma wpe_read_uint32 (Q : res Z → FileLog → Prop) l :
  (∀ e f, fd_data f = fd_data (fl_file l) → Q (Err e) (set_file f l)) →
  (∀ h, h = take 4 (drop (fd_pos (fl_file l)) (fd_data (fl_file l))) → length h = 4%nat →
     Q (Ok (be_get h)) (set_file (mkFile (fd_data (fl_file l)) (fd_pos (fl_file l) + 4) true) l)) →
  wpe read_uint32 Q l.
Proof.
  intros He HQ. unfold read_uint32. apply wpe_bind, wpe_on_file, wpe_ReadFull; [done|].
  intros h Eh Hh. wpe_auto. by apply HQ.
Qed.

Lemma FileLog_Append_law id b l (Q : res Z → FileLog → Prop) :
  fl_inv l → log_id id = true →
  (∀ e l', fl_inv l' → fl_view l' = fl_view l → Q (Err e) l') →
  (∀ off l', fl_inv l' → fl_view l !! off = None → fl_view l' = <[off := b]> (fl_view l) →
     Q (Ok off) l') →
  wpe (FileLog_Append id b) Q l.
Proof.
  intros Hi Hid HE HQ.
  assert (∀ e f x, fd_data f = fd_data (fl_file l) ++ x → Q (Err e) (set_file f l)) as HE'.
  { intros e f x Hx. destruct (fl_grow l f x Hi Hx). by apply HE. }
  assert (∀ e f x y, fd_data f = (fd_data (fl_file l) ++ x) ++ y → Q (Err e) (set_file f l)) as HE''.
  { intros e f x y Hx. rewrite <-app_assoc in Hx. by eapply HE'. }
  unfold FileLog_Append. wpe_auto; [by apply HE..|]. zbool.
  apply wpe_on_file, wpe_Seek; [by intros; apply (HE' _ _ []); rewrite app_nil_r|].
  intros pos ->. cbn. wpe_step. apply wpe_on_file, wpe_Write_end; [done|by intros; eapply HE'|].
  cbn. wpe_step. apply wpe_on_file, wpe_Write_end; [done|by intros e f x Hx; eapply HE''; exact Hx|].
  cbn. wpe_step. apply wpe_on_file, wpe_file_op; [intros; eapply HE''; by eauto|].
  intros _. wpe_auto. cbn [fl_offsets set_file].
  pose proof (fl_view_free l Hi) as Hfree. apply andb_true_iff in Hid as Hid'.
  destruct Hid' as [_ Hlen]. unfold record_limit in *. zbool.
  pose proof (length_record_of id b) as Hl.
  set (n := u32 _). assert (n = Z.of_nat (length (record_of id b))) as Hn.
  { unfold n, u32. rewrite Z.mod_small; lia. }
  set (data := (fd_data (fl_file l) ++ be_put 4 n) ++ record_of id b).
  destruct (fl_append l (mkFile data (length data) true) (length (fd_data (fl_file l))) b
    (be_put 4 n ++ record_of id b)) as [Hi' Hv'].
  - done.
  - cbn. unfold data. by rewrite <-app_assoc.
  - cbn. unfold data. rewrite <-app_assoc, <-(app_nil_r (record_of id b)).
    apply record_at_end; [lia|lia|by apply record_body_of].
  - apply HQ; [exact Hi'|done|exact Hv'].
Qed.

(** A read, with the reason it succeeds. *)
Lemma FileLog_Read_law off l (Q : res bytes → FileLog → Prop) :
  fl_inv l →
  (∀ e l', fl_inv l' → fl_view l' = fl_view l → Q (Err e) l') →
  (∀ b l', fl_inv l' → fl_view l' = fl_view l → fl_view l !! off = Some b → Q (Ok b) l') →
  wpe (FileLog_Read off) Q l.
Proof.
  intros Hi HE HQ.
  assert (∀ e f, fd_data f = fd_data (fl_file l) → Q (Err e) (set_file f l)) as HE'.
  { intros e f Hf. destruct (fl_same l f Hi Hf). by apply HE. }
  unfold FileLog_Read. wpe_auto; [by apply HE|].
  destruct (fl_offsets l !! off) as [pos|] eqn:Ep; [|wpe_auto; by apply HE].
  wpe_step. apply wpe_on_file, wpe_Seek; [by intros; apply HE'|]. intros ? ->. cbn.
  wpe_step. apply wpe_read_uint32; [by intros; apply HE'|]. cbn. intros h Eh Hh.
  wpe_step. apply wpe_on_file, wpe_ReadFull; [by intros; apply HE'|]. cbn. intros d Ed Hd.
  wpe_step. destruct (proj2 Hi _ _ Ep) as [b Hb].
  assert (record_body d = Ok b) as ->.
  { unfold record_at in Hb. rewrite <-Eh, <-Ed in Hb. case_bool_decide; [|done].
    destruct (record_body d); by simplify_eq. }
  destruct (fl_same l (mkFile (fd_data (fl_file l)) (pos + 4 + Z.to_nat (be_get h)) true) Hi) as [??];
    [done|].
  apply HQ; [done|done|]. apply fl_view_lookup. eauto.
Qed.
End laws.

#[export] Instance FileLog_BodyLogLaws : BodyLogLaws FileLog.
Proof.
  refine {| log_view := fl_view; log_inv := fl_inv |}.
  - intros orc. apply FileLog_Append_law.
  - intros orc. apply FileLog_Read_law.
Defined.

(** ** Environments in which files work *)
Section quiet.
Context `{orc : Oracle, !FilesWork orc}.

Lemma quiet_io_ok {T} (Q : res unit → T → Prop) t : Q (Ok tt) t → wpe io Q t.
Proof. intros ? n. unfold io, mbind, go_bind, ask. cbn. by rewrite files_work. Qed.

Lemma quiet_file_op (Q : res unit → File → Prop) f :
  fd_open f = true → Q (Ok tt) f → wpe file_op Q f.
Proof.
  intros Ho HQ. unfold file_op. wpe_auto; [by rewrite Ho in *|]. by apply quiet_io_ok.
Qed.

Lemma quiet_Seek w (Q : res nat → File → Prop) f :
  fd_open f = true →
  (∀ pos, pos = match w with SeekStart p => p | SeekCurrent n => (fd_pos f + n)%nat
                | SeekEnd => length (fd_data f) end →
     Q (Ok pos) (mkFile (fd_data f) pos true)) →
  wpe (file_Seek w) Q f.
Proof.
  intros Ho HQ. unfold file_Seek. apply wpe_bind, quiet_file_op; [done|]. wpe_auto. by apply HQ.
Qed.

Lemma quiet_ReadFull n (Q : res bytes → File → Prop) f :
  fd_open f = true → (fd_pos f + n ≤ length (fd_data f))%nat →
  Q (Ok (take n (drop (fd_pos f) (fd_data f)))) (mkFile (fd_data f) (fd_pos f + n) true) →
  wpe (file_ReadFull n) Q f.
Proof.
  intros Ho Hn HQ. unfold file_ReadFull. apply wpe_bind, quiet_file_op; [done|].
  assert (length (take n (drop (fd_pos f) (fd_data f))) = n) as Hl.
  { rewrite length_take, length_drop. lia. }
  wpe_auto; zbool; [lia..|]. by rewrite Hl.
Qed.

(** At the end of the file the header read is [io.EOF]. *)
Lemma quiet_ReadFull_EOF n (Q : res bytes → File → Prop) f :
  fd_open f = true → (length (fd_data f) ≤ fd_pos f)%nat → (0 < n)%nat →
  Q (Err (ErrIO "EOF")) (mkFile (fd_data f) (fd_pos f) true) →
  wpe (file_ReadFull n) Q f.
Proof.
  intros Ho Hp Hn HQ. unfold file_ReadFull. apply wpe_bind, quiet_file_op; [done|].
  assert (take n (drop (fd_pos f) (fd_data f)) = []) as E by (by rewrite drop_ge, take_nil).
  wpe_auto; rewrite E in *; cbn in *; zbool; [by rewrite Nat.add_0_r in *|tauto..].
Qed.
End quiet.

(** ** Recovery of the index *)

(** The file that holds the given records, and the index of them. *)
Definition encode_record (r : bytes) : bytes := be_put 4 (Z.of_nat (length r)) ++ r.
Definition encode_records (rs : list bytes) : bytes := rs ≫= encode_record.

Fixpoint index_from (k : Z) (pos : nat) (rs : list bytes) (o : gmap Z nat) : gmap Z nat :=
  match rs with
  | [] => o
  | r :: rs' => index_from (k + 1) (pos + 4 + length r) rs' (<[k := pos]> o)
  end.

Definition small_record (r : bytes) : Prop := Z.of_nat (length r) ≤ record_limit.

Lemma length_encode_record r : length (encode_record r) = (4 + length r)%nat.
Proof. unfold encode_record. by rewrite length_app, length_be_put. Qed.

Lemma encode_records_snoc rs r : encode_records (rs ++ [r]) = encode_records rs ++ encode_record r.
Proof. unfold encode_records. rewrite bind_app. cbn. by rewrite app_nil_r. Qed.

Lemma index_from_snoc rs r : ∀ k pos o,
  index_from k pos (rs ++ [r]) o =
  <[k + Z.of_nat (length rs) := (pos + length (encode_records rs))%nat]> (index_from k pos rs o).
Proof.
  induction rs as [|r' rs IH]; intros k pos o; cbn [app index_from].
  { cbn. by rewrite Z.add_0_r, Nat.add_0_r. }
  rewrite IH. change (encode_records (r' :: rs)) with (encode_record r' ++ encode_records rs).
  rewrite length_app, length_encode_record. f_equal; cbn [length]; lia.
Qed.

Section recovery.
Context `{orc : Oracle, !Quiet orc}.

Lemma reindex_loop_spec rs : ∀ fuel k pre o (Q : res unit → FileLog → Prop),
  Forall small_record rs → (length rs < fuel)%nat →
  (∀ pos, Q (Ok tt) (mkFileLog (mkFile (pre ++ encode_records rs) pos true)
                       (index_from k (length pre) rs o))) →
  wpe (reindex_loop fuel k) Q
    (mkFileLog (mkFile (pre ++ encode_records rs) (length pre) true) o).
Proof.
  induction rs as [|r rs IH]; intros fuel k pre o Q Hrs Hf HQ;
    (destruct fuel as [|fuel]; [cbn in Hf; lia|]); cbn [reindex_loop].
  - apply wpe_bind, wpe_on_file, quiet_Seek; [done|]. intros ? ->. cbn.
    apply wpe_bind, wpe_try. unfold read_uint32. apply wpe_bind, wpe_on_file.
    apply quiet_ReadFull_EOF; [done| |lia|].
    { cbn. rewrite length_app. cbn. lia. }
    cbn [errors_Is]. rewrite bool_decide_eq_true_2 by done. cbn [orb]. wpe_auto. apply HQ.
  - inversion Hrs as [|?? Hr Hrs']; subst. unfold small_record in Hr.
    change (encode_records (r :: rs)) with (encode_record r ++ encode_records rs) in *.
    apply wpe_bind, wpe_on_file, quiet_Seek; [done|]. intros ? ->. cbn.
    rewrite Nat.add_0_r. apply wpe_bind, wpe_try. unfold read_uint32.
    apply wpe_bind, wpe_on_file, quiet_ReadFull; [done| |].
    { cbn. rewrite !length_app, length_encode_record. lia. }
    cbn. unfold encode_record. rewrite drop_app_length, <-app_assoc.
    rewrite take_app_length' by (by rewrite length_be_put).
    unfold record_limit in *.
    rewrite be_get_put_small by (change (256 ^ Z.of_nat 4) with (2 ^ 32); lia).
    wpe_auto; [zlia|]. apply wpe_on_file, quiet_Seek; [done|]. intros ? ->. cbn.
    rewrite Nat2Z.id.
    specialize (IH fuel (k + 1) (pre ++ encode_record r) (<[k := length pre]> o) Q).
    rewrite length_app, length_encode_record, Nat.add_assoc in IH.
    unfold encode_record in IH, HQ. rewrite <-!app_assoc in IH.
    unfold set_file, set_offsets. cbn. apply IH; [done|cbn in Hf; lia|].
    intros pos. specialize (HQ pos). by rewrite <-app_assoc in HQ.
Qed.
End recovery.
#[local] Arguments reindex_loop : simpl never.

(** The log that the index of a list of records describes. *)
Definition log_of (rs : list bytes) (f : File) : FileLog := mkFileLog f (index_from 0 0 rs ∅).

Lemma size_index rs : size (index_from 0 0 rs ∅) = length rs ∧
  ∀ k, is_Some (index_from 0 0 rs ∅ !! k) ↔ 0 ≤ k < Z.of_nat (length rs).
Proof.
  induction rs as [|r rs [IH1 IH2]] using rev_ind.
  { split; [done|]. intros k. cbn. split; [by intros [? ?]|lia]. }
  rewrite index_from_snoc, length_app. cbn [length].
  assert (index_from 0 0 rs ∅ !! (0 + Z.of_nat (length rs)) = None) as Hn.
  { destruct (_ !! _) eqn:E; [|done].
    assert (is_Some (index_from 0 0 rs ∅ !! (0 + Z.of_nat (length rs)))) as H%IH2 by (by rewrite E).
    lia. }
  split; [rewrite map_size_insert_None by done; lia|].
  intros k. rewrite lookup_insert_is_Some, IH2. lia.
Qed.

(** A message as the log stores it: its identifier and its body. *)
Definition raw_records (ms : list (string * bytes)) : list bytes :=
  (λ m, record_of m.1 m.2) <$> ms.

Definition loggable (m : string * bytes) : Prop :=
  log_id m.1 = true ∧ small_record (record_of m.1 m.2).

Lemma loggable_all ms :
  forallb (λ m, log_id m.1 && (Z.of_nat (length (record_of m.1 m.2)) <=? record_limit)) ms = true →
  Forall loggable ms.
Proof.
  induction ms as [|m ms IH]; cbn; intros H; constructor; zbool; [by split|by apply IH].
Qed.

(** A file of such records is a log whose view is their bodies. *)
Lemma log_of_view ms f :
  fd_data f = encode_records (raw_records ms) → Forall loggable ms →
  fl_inv (log_of (raw_records ms) f) ∧
  ∀ k, 0 ≤ k → fl_view (log_of (raw_records ms) f) !! k = snd <$> ms !! Z.to_nat k.
Proof.
  revert f. induction ms as [|[id b] ms IH] using rev_ind; intros f Hf Hs.
  { split; [split; cbn|].
    - intros off. split; [by intros [? ?]|]. rewrite map_size_empty. lia.
    - intros off pos. by rewrite lookup_empty.
    - intros k _. unfold fl_view. cbn. by rewrite omap_empty, lookup_empty. }
  apply Forall_app in Hs as [Hs Hb]. apply Forall_singleton in Hb as [Hid Hb].
  unfold raw_records in *. rewrite fmap_app in *. cbn in Hf |- *.
  set (rs := (λ m, record_of m.1 m.2) <$> ms) in *. cbn [fst snd] in *.
  rewrite encode_records_snoc in Hf. set (pre := encode_records rs) in *.
  destruct (IH (mkFile pre 0 true)) as [Hi Hv]; [done|done|].
  unfold log_of in *. rewrite index_from_snoc. cbn [Nat.add Z.add].
  destruct (size_index rs) as [Hsz _]. unfold small_record, record_limit in Hb.
  destruct (fl_append _ f (length pre) b (encode_record (record_of id b)) Hi) as [Hi' Hv'].
  { done. }
  { pose proof (record_at_end pre [] (Z.of_nat (length (record_of id b))) (record_of id b) b) as H.
    rewrite app_nil_r in H. rewrite Hf. apply H; [lia|lia|by apply record_body_of]. }
  cbn [fl_offsets] in Hi', Hv'. rewrite Hsz in Hi', Hv'. split; [exact Hi'|].
  intros k Hk. assert (length rs = length ms) as Hrs by apply length_fmap.
  etrans; [exact (f_equal (lookup k) Hv')|]. rewrite Hrs. destruct (decide (k = Z.of_nat (length ms))) as [->|Hne].
  - rewrite lookup_insert_eq, Nat2Z.id, lookup_app_r, Nat.sub_diag by lia. done.
  - rewrite lookup_insert_ne, Hv by done.
    destruct (decide (Z.to_nat k < length ms)%nat).
    + by rewrite lookup_app_l.
    + rewrite (lookup_ge_None_2 ms), lookup_ge_None_2 by (rewrite ?length_app; cbn; lia). done.
Qed.

Lemma raw_records_length ms : length (raw_records ms) = length ms.
Proof. apply length_fmap. Qed.

Lemma length_raw_records ms : (length (raw_records ms) ≤ length (encode_records (raw_records ms)))%nat.
Proof.
  induction (raw_records ms) as [|r rs IH]; [done|].
  change (encode_records (r :: rs)) with (encode_record r ++ encode_records rs).
  rewrite length_app, length_encode_record. cbn [length]. lia.
Qed.

(** A log whose file holds the records of [ms], and whose index is theirs. *)
Definition clean_log (ms : list (string * bytes)) (l : FileLog) : Prop :=
  Forall loggable ms ∧ fd_data (fl_file l) = encode_records (raw_records ms) ∧
  fl_offsets l = index_from 0 0 (raw_records ms) ∅.

Lemma clean_log_view ms l : clean_log ms l →
  fl_inv l ∧ ∀ k, 0 ≤ k → fl_view l !! k = snd <$> ms !! Z.to_nat k.
Proof.
  destruct l as [f o]. intros (Hms & Hd & Ho). cbn in Hd, Ho. subst o. by apply log_of_view.
Qed.

(** Opening a file of whole records makes a clean log of it. *)
Lemma quiet_Open `{orc : Oracle, !Quiet orc} ms l (Q : res unit → FileLog → Prop) :
  Forall loggable ms → fd_data (fl_file l) = encode_records (raw_records ms) →
  (∀ l', clean_log ms l' → fd_open (fl_file l') = true → Q (Ok tt) l') → wpe OpenFileLog Q l.
Proof.
  intros Hms Hdata HQ. unfold OpenFileLog. wpe_step. wpe_step. apply quiet_io_ok. wpe_step. wpe_step.
  apply quiet_io_ok. wpe_auto. unfold reindex. wpe_step.
  apply wpe_on_file, quiet_Seek; [done|]. intros ? ->. cbn. wpe_auto. cbn.
  rewrite Hdata. apply (reindex_loop_spec (raw_records ms) _ 0 [] ∅).
  { apply Forall_fmap. eapply Forall_impl; [done|]. by intros m [_ ?]. }
  { pose proof (length_raw_records ms). lia. }
  intros pos. wpe_step. apply wpe_on_file, quiet_Seek; [done|]. intros ? ->. wpe_auto. by apply HQ.
Qed.

(** Appending and reading keep a log clean while files work. *)
Section clean.
Context `{orc : Oracle, !FilesWork orc}.

Lemma clean_Write_end b (Q : res unit → File → Prop) f :
  fd_open f = true → fd_pos f = length (fd_data f) →
  Q (Ok tt) (mkFile (fd_data f ++ b) (length (fd_data f ++ b)) true) → wpe (file_Write b) Q f.
Proof.
  intros Ho Hp HQ n. unfold file_Write, mbind, go_bind, get_, ask, guard_err, put_. cbn.
  rewrite Ho. cbn. rewrite files_work, Hp. cbn. by rewrite write_at_end, <-length_app.
Qed.

(** The file after a record, whatever its size, has been appended. *)
Lemma grown_Append id body f o (Q : res Z → FileLog → Prop) :
  fd_open f = true → Z.of_nat (length body) ≤ record_limit →
  (∀ n e, o_ctx n = Some e → Q (Err e) (mkFileLog f o)) →
  Q (Ok (Z.of_nat (size o)))
    (mkFileLog (mkFile (fd_data f ++ encode_record (record_of id body))
                  (length (fd_data f ++ encode_record (record_of id body))) true)
       (<[Z.of_nat (size o) := length (fd_data f)]> o)) →
  Z.of_nat (length (record_of id body)) < 2 ^ 32 →
  wpe (FileLog_Append id body) Q (mkFileLog f o).
Proof.
  intros Ho Hb He HQ Hr. unfold FileLog_Append. wpe_step. apply wpe_ctx_Err_asked; [done|]. wpe_step. wpe_step; [zlia|]. wpe_step.
  apply wpe_on_file, quiet_Seek; [done|]. intros ? ->. cbn. wpe_step.
  apply wpe_on_file, clean_Write_end; [done|done|]. cbn. wpe_step.
  apply wpe_on_file, clean_Write_end; [done|done|]. cbn. wpe_step.
  apply wpe_on_file, quiet_file_op; [done|]. wpe_auto. cbn. unfold set_offsets. cbn.
  unfold encode_record, u32 in *. rewrite Z.mod_small, <-app_assoc by lia. exact HQ.
Qed.

Lemma clean_Append ms id body l (Q : res Z → FileLog → Prop) :
  clean_log ms l → fd_open (fl_file l) = true → loggable (id, body) → (∀ e, Q (Err e) l) →
  (∀ l', clean_log (ms ++ [(id, body)]) l' → fd_open (fl_file l') = true →
     Q (Ok (Z.of_nat (length ms))) l') →
  wpe (FileLog_Append id body) Q l.
Proof.
  intros (Hms & Hd & Ho) Hopen Hl He HQ. destruct l as [f o]. cbn in Hd, Ho, Hopen. subst o.
  assert (small_record (record_of id body)) as Hsm by apply Hl. unfold small_record, record_limit in Hsm.
  assert (length body ≤ length (record_of id body))%nat as Hb.
  { unfold record_of. rewrite length_app. cbn. lia. }
  destruct (size_index (raw_records ms)) as [Hsz _].
  apply grown_Append; [done|unfold record_limit; lia|by intros; apply He| |lia].
  rewrite Hsz, raw_records_length. apply HQ; [|done].
  split; [by apply Forall_app; split; [|apply Forall_singleton]|].
  assert (raw_records (ms ++ [(id, body)]) = raw_records ms ++ [record_of id body]) as Er
    by (unfold raw_records; by rewrite fmap_app).
  rewrite Er, encode_records_snoc, index_from_snoc. cbn. by rewrite Hd, raw_records_length.
Qed.

(** A log that is clean and open. *)
Definition good_log (l : FileLog) : Prop := ∃ ms, clean_log ms l ∧ fd_open (fl_file l) = true.

Lemma Append_good id body l :
  loggable (id, body) → good_log l → wpe (FileLog_Append id body) (λ _ l', good_log l') l.
Proof.
  intros Hl (ms & Hc & Ho). apply (clean_Append ms); [done..|by intros; exists ms|].
  intros l' Hc' Ho'. by eexists.
Qed.

Lemma good_same l f : good_log l → fd_data f = fd_data (fl_file l) → fd_open f = true → good_log (set_file f l).
Proof. intros (ms & (H1 & H2 & H3) & _) Hd Ho. exists ms. split; [|done]. split_and!; [done|by rewrite <-H2|done]. Qed.

Lemma ReadFull_open n f :
  fd_open f = true → wpe (file_ReadFull n) (λ _ f', fd_data f' = fd_data f ∧ fd_open f' = true) f.
Proof. intros Ho. unfold file_ReadFull. wpe_step. apply quiet_file_op; [done|]. by wpe_auto. Qed.

Lemma Read_good off l : good_log l → wpe (FileLog_Read off) (λ _ l', good_log l') l.
Proof.
  intros Hg. assert (fd_open (fl_file l) = true) as Ho by by destruct Hg as (? & _ & ?).
  unfold FileLog_Read. wpe_step. wpe_step; [done|]. wpe_step. wpe_step. destruct (_ !! off); [|by wpe_step]. wpe_step.
  apply wpe_on_file, quiet_Seek; [done|]. intros ? ->. cbn. wpe_step.
  unfold read_uint32. wpe_step. apply wpe_on_file. eapply wpe_mono; [by apply ReadFull_open|].
  intros [h|e|] f [Hd Hf]; [wpe_auto|by apply (good_same l)..]. apply wpe_on_file. cbn.
  eapply wpe_mono; [by apply ReadFull_open|]. intros [b|e|] f' [Hd' Hf']; [wpe_step|..];
    (apply (good_same l); [done|by rewrite Hd', Hd|done]).
Qed.
End clean.


(** ** Sequences of calls *)

(** The calls a broker makes on a log while it runs. *)
Inductive log_call := CallAppend (id : string) (body : bytes) | CallRead (off : Z).

(** Run calls one after the other, ignoring their results, each in whatever
    environment it meets. *)
Definition run_call `{orc : Oracle} {L} `{BodyLog L} (c : log_call) : env L unit :=
  match c with
  | CallAppend id body => try (Log_Append id body);; mret tt
  | CallRead off => try (Log_Read off);; mret tt
  end.

Definition run_calls `{orc : Oracle} {L} `{BodyLog L} (cs : list log_call) : env L unit :=
  for_each cs run_call.

Definition call_ok (c : log_call) : Prop :=
  match c with CallAppend id _ => log_id id = true | CallRead _ => True end.

Lemma run_calls_keep `{orc : Oracle} {L} `{BodyLogLaws L} cs (l : L) (V : gmap Z bytes) :
  Forall call_ok cs → log_inv l → V ⊆ log_view l →
  wpe (run_calls cs) (λ r l', r = Ok tt ∧ log_inv l' ∧ V ⊆ log_view l') l.
Proof.
  intros Hcs Hi HV.
  apply (wpe_for_each _ _ (λ cs' l', Forall call_ok cs' ∧ log_inv l' ∧ V ⊆ log_view l')); [done| |].
  - intros c cs' l' (Hc & Hi' & HV'). inversion Hc as [|?? Hc1 Hc2]; subst.
    destruct c as [id b|off]; cbn; wpe_step; wpe_step.
    + apply wpe_Log_Append; [done|done| |].
      * intros e l'' Hi'' Hv. wpe_auto. by rewrite Hv.
      * intros off l'' Hi'' Hfree Hv. wpe_auto. rewrite Hv. split_and!; [done|done|].
        etrans; [exact HV'|]. by apply insert_subseteq.
    + apply wpe_Log_Read; [done| |]; intros ? l'' Hi'' Hv; intros; wpe_auto; by rewrite Hv.
  - by intros l' (_ & ? & ?).
Qed.

(** C24. Durability while the process runs: once an append to the file log has
    returned an offset, every later read of that offset returns exactly the
    appended body or an error, never other bytes, whatever appends and reads
    come in between and whichever of them fail, partially written records
    included. *)
Theorem FileLog_durable (orc : Oracle) (id : string) (body : bytes) (cs : list log_call)
    (l l1 l2 l3 : FileLog) (n n1 n2 n3 : nat) (off : Z) (r2 : res unit) (r3 : res bytes) :
  fl_inv l → log_id id = true → Forall call_ok cs →
  FileLog_Append id body (l, n) = (Ok off, (l1, n1)) →
  run_calls (L := FileLog) cs (l1, n1) = (r2, (l2, n2)) →
  FileLog_Read off (l2, n2) = (r3, (l3, n3)) →
  r3 = Ok body ∨ ∃ e, r3 = Err e.
Proof.
  intros Hi Hid Hcs E1 E2 E3.
  assert (fl_inv l1 ∧ fl_view l1 !! off = Some body) as [Hi1 Hv1].
  { refine (wpe_elim _ (λ r l', match r with Ok o => fl_inv l' ∧ fl_view l' !! o = Some body
      | _ => True end) _ _ _ _ _ _ E1).
    apply FileLog_Append_law; [done|done|done|]. intros o l' Hi' _ ->.
    split; [done|apply lookup_insert_eq]. }
  assert (fl_inv l2 ∧ {[off := body]} ⊆ fl_view l2) as [Hi2 Hv2].
  { refine (proj2 (wpe_elim _ _ _ _ _ _ _ (run_calls_keep cs l1 {[off := body]} Hcs Hi1 _) E2)).
    by apply map_singleton_subseteq_l. }
  apply map_singleton_subseteq_l in Hv2.
  refine (wpe_elim _ (λ r _, r = Ok body ∨ ∃ e, r = Err e) _ _ _ _ _ _ E3).
  apply FileLog_Read_law; [done|by eauto|]. intros b l' _ _ Hb. left. congruence.
Qed.

(** ** Concrete runs *)
Definition abc (s : string) : bytes := string_bytes s.
Definition empty_log : FileLog := mkFileLog (mkFile [] 0 true) ∅.

Lemma FileLog_durable_witness :
  let '(r1, s1) := FileLog_Append (orc := test_oracle) "msg_1" (abc "hello") (empty_log, O) in
  let '(r2, s2) := run_calls (orc := test_oracle) (L := FileLog)
                     [CallAppend "msg_2" (abc "world"); CallRead 7] s1 in
  let '(r3, _) := FileLog_Read (orc := test_oracle) 0 s2 in
  r1 = Ok 0 ∧ (r3 = Ok (abc "hello") ∨ ∃ e, r3 = Err e).
Proof.
  destruct (FileLog_Append (orc := test_oracle) "msg_1" (abc "hello") (empty_log, O))
    as [r1 [l1 n1]] eqn:E1.
  assert (r1 = Ok 0) as -> by (revert E1; vm_compute; congruence).
  destruct (run_calls (orc := test_oracle) (L := FileLog) _ _) as [r2 [l2 n2]] eqn:E2.
  destruct (FileLog_Read (orc := test_oracle) 0 (l2, n2)) as [r3 [l3 n3]] eqn:E3.
  split; [done|].
  apply (FileLog_durable test_oracle "msg_1" (abc "hello")
    [CallAppend "msg_2" (abc "world"); CallRead 7] empty_log l1 l2 l3 O n1 n2 n3 0 r2 r3).
  - split; cbn; [|by intros ??]. intros off. split; [by intros [? ?]|]. rewrite map_size_empty. lia.
  - reflexivity.
  - repeat constructor.
  - exact E1.
  - exact E2.
  - exact E3.
Defined.


(** Two messages, a compaction that keeps the second, and a read at the
    second message's offset. *)
Definition compacted_read : res bytes * res bytes :=
  let '(_, s1) := FileLog_Append (orc := test_oracle) "msg_1" (abc "first") (empty_log, O) in
  let '(_, s2) := FileLog_Append (orc := test_oracle) "msg_2" (abc "second") s1 in
  let '(_, s3) := FileLog_Compact (orc := test_oracle) {[1]} s2 in
  let '(r1, s4) := FileLog_Read (orc := test_oracle) 1 s3 in
  let '(r0, _) := FileLog_Read (orc := test_oracle) 0 s4 in
  (r1, r0).

(** Compaction of the file log renumbers offsets: after compacting a log
    of two messages with only the second live, the second message's offset is
    gone and its body is found at the offset of the first, which is where the
    stored metadata of no live message points. *)
Theorem FileLog_Compact_renumbers :
  compacted_read = (Err (ErrNew "log offset not found"), Ok (abc "second")).
Proof. vm_compute. reflexivity. Qed.

(** A process that stopped while writing a record of ten bytes, restarted,
    appended a message, and restarted again. *)
Definition torn_file : FileLog := mkFileLog (mkFile (be_put 4 10 ++ abc "msg") 0 true) ∅.

Definition torn_restart : res unit * res Z * res bytes * res unit :=
  let '(first_open, s1) := OpenFileLog (orc := test_oracle) (torn_file, O) in
  let '(off, s2) := FileLog_Append (orc := test_oracle) "msg_2" (abc "x") s1 in
  let '(body, s3) := FileLog_Read (orc := test_oracle) 1 s2 in
  let '(second_open, _) := OpenFileLog (orc := test_oracle) s3 in
  (first_open, off, body, second_open).

(** A torn record at the end of the file is indexed as if it were whole:
    the log opens, a message appended then is acknowledged at offset 1 and is
    readable, but the torn record's length now reaches into it, so the next
    start reads a header from the middle of the new record and refuses the
    whole log. *)
Theorem FileLog_torn_tail_corrupts :
  torn_restart = (Ok tt, Ok 1, Ok (abc "x"), Err (ErrNew "corrupt message log record")).
Proof. vm_compute. reflexivity. Qed.
