(* ===== verification/Router.v ===== *)
(** * Routing and the address service

    Models [internal/routing/application/router.go] and
    [internal/address/application/service.go] over the in-memory store. *)

From Stdlib Require Import String.
From S2P Require Import Prelude Bytes Text Duration Matcher Address Message Transaction Env Memory.

(** ** Definitions *)
Record Route := mkRoute { rt_Destination : string; rt_Priority : Z }.

Definition route_less (x y : Route) : bool := rt_Priority y <? rt_Priority x.

Section operations.
Context `{orc : Oracle, mtch : !Matcher}.

(** The body of the loop over the bindings: the destinations seen and the
    routes found so far. *)
Definition resolve_step (kind : Kind) (key : string) (hdrs : headers)
    (acc : gset string * list Route) (b : Binding) : env Memory (gset string * list Route) :=
  let '(seen, out) := acc in
  let pattern := if bool_decide (kind = KindFanout) then "#" else bd_RoutingKey b in
  if bool_decide (kind = KindDirect ∧ pattern ≠ key) then mret acc
  else if negb (Match key hdrs pattern (bd_Filter b)) then mret acc
  else if bool_decide (bd_Destination b ∈ seen) then mret acc
  else
    r ← try (Memory_Get (bd_Destination b));
    match r with
    | inl _ => mret acc
    | inr _ => mret ({[bd_Destination b]} ∪ seen,
                     out ++ [mkRoute (bd_Destination b) (bd_Priority b)])
    end.

(** The rest of [Resolve] once the kind is known to use bindings. *)
Definition resolve_bindings (kind : Kind) (source key : string) (hdrs : headers) :
    env Memory (list Route) :=
  bindings ← wrap "list bindings" (Memory_ListBindings source);
  '(_, out) ← fold_each bindings (∅, []) (resolve_step kind key hdrs);
  mret (sort_stable route_less out).

Definition Router_Resolve (source key : string) (hdrs : headers) : env Memory (list Route) :=
  src ← wrap "load source address" (Memory_Get source);
  match a_Kind src with
  | KindQueue | KindTemporary => mret [mkRoute source 0]
  | KindFanout | KindTopic | KindDirect => resolve_bindings (a_Kind src) source key hdrs
  | KindOther k => raise (ErrFmtS "unsupported source kind %s" k)
  end.

(** The address service. *)
Definition newID (prefix : string) : env Memory string :=
  b ← wrap "random id" (rand_Read 12);
  mret (id_of prefix b).

Definition address_Create (c : Create) : env Memory Address :=
  now ← clock_Now;
  a ← lift (address_New c now);
  (if negb (bool_decide (a_DeadLetter a = "")) then
     wrap "dead-letter address" (Memory_Get (a_DeadLetter a));; mret tt
   else mret tt);;
  wrap "create address" (Memory_Create a);;
  mret a.

Definition address_Bind (b : Bind) : env Memory Binding :=
  wrap "source" (Memory_Get (bi_Source b));;
  wrap "destination" (Memory_Get (bi_Destination b));;
  id ← newID "bnd";
  now ← clock_Now;
  r ← lift (NewBinding id b now);
  wrap "save binding" (Memory_CreateBinding r);;
  mret r.

Definition address_Pause (name : string) (pause : bool) : env Memory Address :=
  wrap "pause address" (Memory_SetPaused name pause).

Definition address_List : env Memory (list Address) := Memory_List.
Definition address_ListBindings (source : string) : env Memory (list Binding) :=
  Memory_ListBindings source.
End operations.

(** ** The reference: the bindings a message follows *)
Section reference.
Context `{mtch : !Matcher}.

(** The kinds whose messages follow bindings. *)
Definition uses_bindings (kind : Kind) : bool :=
  match kind with KindFanout | KindTopic | KindDirect => true | _ => false end.

(** Whether a binding of a source of the given kind takes the message. *)
Definition takes (kind : Kind) (key : string) (hdrs : headers) (b : Binding) : bool :=
  match kind with
  | KindFanout => Match key hdrs "#" (bd_Filter b)
  | KindDirect => bool_decide (bd_RoutingKey b = key) && Match key hdrs (bd_RoutingKey b) (bd_Filter b)
  | _ => Match key hdrs (bd_RoutingKey b) (bd_Filter b)
  end.

(** The destinations reached from [source] in the store, with the binding
    that reaches them. *)
Definition follows (m : Memory) (kind : Kind) (source key : string) (hdrs : headers)
    (b : Binding) : Prop :=
  mm_bindings m !! bd_ID b = Some b ∧ bd_Source b = source ∧ takes kind key hdrs b = true ∧
  is_Some (mm_addresses m !! bd_Destination b).

(** The fold of [resolve_step] when every lookup is answered. *)
Fixpoint pick (m : Memory) (kind : Kind) (key : string) (hdrs : headers)
    (seen : gset string) (bs : list Binding) : list Route :=
  match bs with
  | [] => []
  | b :: bs' =>
      if takes kind key hdrs b && negb (bool_decide (bd_Destination b ∈ seen)) &&
         bool_decide (is_Some (mm_addresses m !! bd_Destination b))
      then mkRoute (bd_Destination b) (bd_Priority b)
             :: pick m kind key hdrs ({[bd_Destination b]} ∪ seen) bs'
      else pick m kind key hdrs seen bs'
  end.

Lemma pick_spec m kind key hdrs bs : ∀ seen r,
  StronglySorted (λ x y, bd_Priority y ≤ bd_Priority x) bs →
  r ∈ pick m kind key hdrs seen bs →
  rt_Destination r ∉ seen ∧
  (∃ b, b ∈ bs ∧ takes kind key hdrs b = true ∧ is_Some (mm_addresses m !! bd_Destination b) ∧
     bd_Destination b = rt_Destination r ∧ bd_Priority b = rt_Priority r) ∧
  (∀ b, b ∈ bs → takes kind key hdrs b = true → bd_Destination b = rt_Destination r →
     bd_Priority b ≤ rt_Priority r).
Proof.
  induction bs as [|b bs IH]; intros seen r Hs Hr; [by apply not_elem_of_nil in Hr|].
  apply StronglySorted_inv in Hs as [Hs Hb]. rewrite Forall_forall in Hb. cbn in Hr.
  destruct (takes kind key hdrs b) eqn:Et; cbn in Hr.
  - case_bool_decide as Hin; cbn in Hr.
    + destruct (IH _ _ Hs Hr) as (H1 & (b' & ? & ?) & H3). split; [done|].
      split; [exists b'; by rewrite elem_of_cons; auto|].
      intros b0 [->|Hb0]%elem_of_cons Ht Hd; [congruence|by apply H3].
    + case_bool_decide as Ha; cbn in Hr.
      * apply elem_of_cons in Hr as [->|Hr]; cbn.
        -- split; [done|]. split; [exists b; by rewrite elem_of_cons; auto|].
           intros b0 [->|Hb0]%elem_of_cons _ _; [lia|by apply Hb].
        -- destruct (IH _ _ Hs Hr) as (H1 & (b' & Hb' & H2) & H3).
           apply not_elem_of_union in H1 as [H1 H1']. split; [done|].
           split; [exists b'; by rewrite elem_of_cons; auto|].
           intros b0 [->|Hb0]%elem_of_cons Ht Hd; [set_solver|by apply H3].
      * destruct (IH _ _ Hs Hr) as (H1 & (b' & ? & Ht' & Ha' & Hd' & ?) & H3). split; [done|].
        split; [exists b'; by rewrite elem_of_cons; auto|].
        intros b0 [->|Hb0]%elem_of_cons Ht Hd; [|by apply H3].
        destruct Ha. by rewrite Hd, <-Hd'.
  - destruct (IH _ _ Hs Hr) as (H1 & (b' & ? & ?) & H3). split; [done|].
    split; [exists b'; by rewrite elem_of_cons; auto|].
    intros b0 [->|Hb0]%elem_of_cons Ht Hd; [congruence|by apply H3].
Qed.

Lemma pick_complete m kind key hdrs bs : ∀ seen b,
  b ∈ bs → takes kind key hdrs b = true → is_Some (mm_addresses m !! bd_Destination b) →
  bd_Destination b ∉ seen →
  ∃ r, r ∈ pick m kind key hdrs seen bs ∧ rt_Destination r = bd_Destination b.
Proof.
  induction bs as [|b' bs IH]; intros seen b Hb Ht Ha Hs; [by apply not_elem_of_nil in Hb|].
  cbn. destruct (_ && _ && _) eqn:E.
  - destruct (decide (bd_Destination b = bd_Destination b')) as [Hd|Hd].
    { eexists. rewrite elem_of_cons. split; [by left|done]. }
    apply elem_of_cons in Hb as [->|Hb]; [done|].
    destruct (IH ({[bd_Destination b']} ∪ seen) b) as (r & Hr & Hr'); [done|done|done|set_solver|].
    exists r. rewrite elem_of_cons. auto.
  - apply elem_of_cons in Hb as [->|Hb]; [|by apply IH].
    rewrite Ht, bool_decide_eq_false_2, bool_decide_eq_true_2 in E by done. done.
Qed.

Lemma pick_NoDup m kind key hdrs bs : ∀ seen,
  NoDup (rt_Destination <$> pick m kind key hdrs seen bs) ∧
  ∀ r, r ∈ pick m kind key hdrs seen bs → rt_Destination r ∉ seen.
Proof.
  induction bs as [|b bs IH]; intros seen; cbn.
  { split; [constructor|]. intros r Hr. by apply not_elem_of_nil in Hr. }
  destruct (_ && _ && _) eqn:E; [|apply IH]. zbool.
  destruct (IH ({[bd_Destination b]} ∪ seen)) as [IH1 IH2]. split.
  - cbn. constructor; [|done]. intros (r & Hd & Hr)%list_elem_of_fmap.
    apply IH2 in Hr. set_solver.
  - intros r [->|Hr]%elem_of_cons; [done|]. apply IH2 in Hr. set_solver.
Qed.
End reference.

(** ** Properties *)
Section properties.
Context `{orc : Oracle, mtch : !Matcher}.

Lemma resolve_step_takes kind key hdrs acc b :
  resolve_step kind key hdrs acc b =
  if takes kind key hdrs b && negb (bool_decide (bd_Destination b ∈ acc.1)) then
    r ← try (Memory_Get (bd_Destination b));
    match r with
    | inl _ => mret acc
    | inr _ => mret ({[bd_Destination b]} ∪ acc.1,
                     acc.2 ++ [mkRoute (bd_Destination b) (bd_Priority b)])
    end
  else mret acc.
Proof.
  destruct acc as [seen out]. unfold resolve_step, takes. cbn [fst snd].
  destruct kind; cbn; repeat (case_bool_decide; cbn); try (destruct (Match _ _ _ _); cbn);
    try done; try (by destruct (bool_decide _)); naive_solver.
Qed.

(** [ListBindings] is ordered by decreasing priority. *)
Lemma binding_less_priority x y :
  if binding_less x y then bd_Priority y ≤ bd_Priority x else bd_Priority x ≤ bd_Priority y.
Proof.
  unfold binding_less. destruct (Z.eqb_spec (bd_Priority x) (bd_Priority y)) as [E|E].
  - destruct (String.ltb _ _); lia.
  - destruct (Z.ltb_spec (bd_Priority y) (bd_Priority x)); lia.
Qed.

Lemma bindings_sorted bs :
  StronglySorted (λ x y, bd_Priority y ≤ bd_Priority x) (sort_stable binding_less bs).
Proof.
  induction bs as [|b bs IH]; [constructor|].
  change (sort_stable _ (b :: bs)) with (sort_insert binding_less b (sort_stable binding_less bs)).
  induction IH as [|y l Hl IHl Hy]; cbn; [by repeat constructor|].
  pose proof (binding_less_priority y b) as H. destruct (binding_less y b).
  - constructor; [done|]. rewrite sort_insert_perm. by constructor.
  - constructor; [by constructor|]. constructor; [done|].
    eapply Forall_impl; [exact Hy|]. cbn. lia.
Qed.

(** When every lookup is answered the loop computes [pick]. *)
Lemma resolve_fold_quiet `{!Quiet orc} m kind key hdrs bs (Q : res (gset string * list Route) → Memory → Prop) :
  ∀ seen out,
  (∀ seen', Q (Ok (seen', out ++ pick m kind key hdrs seen bs)) m) →
  wpe (fold_each bs (seen, out) (resolve_step kind key hdrs)) Q m.
Proof.
  induction bs as [|b bs IH]; intros seen out HQ; cbn [fold_each pick].
  { wpe_auto. specialize (HQ seen). by rewrite app_nil_r in HQ. }
  cbn [pick] in HQ. wpe_step. rewrite resolve_step_takes. cbn [fst snd].
  destruct (takes kind key hdrs b && negb (bool_decide (bd_Destination b ∈ seen))); cbn in HQ.
  - wpe_auto. apply quiet_Get.
    + intros E. rewrite E in HQ. wpe_auto. by apply IH.
    + intros a E. rewrite E in HQ. wpe_auto. apply IH. intros seen'.
      specialize (HQ seen'). rewrite bool_decide_eq_true_2 in HQ by done.
      by rewrite <-app_assoc.
  - wpe_auto. by apply IH.
Qed.

(** What [Resolve] promises for a source of the given kind. *)
Definition exact_routes (m : Memory) (kind : Kind) (source key : string) (hdrs : headers)
    (routes : list Route) : Prop :=
  NoDup (rt_Destination <$> routes) ∧
  StronglySorted (λ x y, rt_Priority y ≤ rt_Priority x) routes ∧
  (∀ b, follows m kind source key hdrs b →
     ∃ r, r ∈ routes ∧ rt_Destination r = bd_Destination b ∧ bd_Priority b ≤ rt_Priority r) ∧
  (∀ r, r ∈ routes → ∃ b, follows m kind source key hdrs b ∧
     bd_Destination b = rt_Destination r ∧ bd_Priority b = rt_Priority r).

Lemma pick_exact m kind source key hdrs bs :
  keyed bd_ID (mm_bindings m) → source ≠ "" → bs ≡ₚ map_values (mm_bindings m) →
  exact_routes m kind source key hdrs
    (sort_stable route_less (pick m kind key hdrs ∅
       (sort_stable binding_less (filter (λ b, source = "" ∨ bd_Source b = source) bs)))).
Proof.
  intros Hk Hne Hbs. set (sorted := sort_stable binding_less _).
  assert (∀ b, b ∈ sorted ↔ mm_bindings m !! bd_ID b = Some b ∧ bd_Source b = source) as Hin.
  { intros b. unfold sorted. rewrite sort_stable_perm, list_elem_of_filter, Hbs.
    rewrite elem_of_keyed_values by done. tauto. }
  assert (∀ r, r ∈ sort_stable route_less (pick m kind key hdrs ∅ sorted) ↔
    r ∈ pick m kind key hdrs ∅ sorted) as Hr by (intros r; by rewrite sort_stable_perm).
  split_and!.
  - rewrite sort_stable_perm. apply pick_NoDup.
  - eapply StronglySorted_impl; [|apply (sort_stable_sorted route_less)];
      unfold not_less, route_less; intros; zlia.
  - intros b (H1 & H2 & H3 & H4).
    destruct (pick_complete m kind key hdrs sorted ∅ b) as (r & Hr1 & Hr2); [by apply Hin|done..|].
    exists r. rewrite Hr. split_and!; [done|done|].
    eapply pick_spec; [apply bindings_sorted|done|by apply Hin|done|done].
  - intros r (_ & (b & [H1 H2]%Hin & H3 & H4 & H5 & H6) & _)%Hr%pick_spec; [|apply bindings_sorted].
    by exists b.
Qed.
End properties.

(** C11. [Resolve] is exact.  For an address whose kind uses bindings, in a
    live context, the routes are: at most one per destination; one for a
    destination exactly when some binding of the source takes the message
    (fanout: its filter; direct: an equal routing key as well; topic: the
    pattern) and leads to an existing address; with the highest priority among
    those bindings; in order of decreasing priority; and nothing is stored. *)
Theorem Resolve_exact (orc : Oracle) (HO : Quiet orc) (M : Matcher) (m : Memory) (n : nat)
    (source key : string) (hdrs : headers) (src : Address) :
  keyed bd_ID (mm_bindings m) → source ≠ "" →
  mm_addresses m !! source = Some src → uses_bindings (a_Kind src) = true →
  ∃ routes n', Router_Resolve source key hdrs (m, n) = (Ok routes, (m, n')) ∧
    exact_routes m (a_Kind src) source key hdrs routes.
Proof.
  intros Hk Hne Hsrc Hkind.
  assert (wpe (Router_Resolve source key hdrs) (λ r m', m' = m ∧ ∃ routes, r = Ok routes ∧
    exact_routes m (a_Kind src) source key hdrs routes) m) as H.
  { unfold Router_Resolve. wpe_step. wpe_step. apply quiet_Get; [by rewrite Hsrc|].
    intros a Ha. rewrite Hsrc in Ha. injection Ha as <-.
    assert (wpe (resolve_bindings (a_Kind src) source key hdrs) (λ r m', m' = m ∧
      ∃ routes, r = Ok routes ∧ exact_routes m (a_Kind src) source key hdrs routes) m) as H.
    { unfold resolve_bindings. wpe_auto. apply quiet_ListBindings. intros bs Hbs. wpe_auto.
      apply resolve_fold_quiet. intros seen'. wpe_auto. split; [done|]. eexists.
      split; [done|]. by apply pick_exact. }
    destruct (a_Kind src); done || exact H. }
  specialize (H n). destruct (Router_Resolve source key hdrs (m, n)) as [r [m' n']]. cbn in H.
  destruct H as (-> & routes & -> & H). eauto.
Qed.

(** A topic with two bindings to one queue and one to a missing address. *)
Definition topic_store : Memory :=
  let addr name kind := mkAddress name kind false 0 0 "" false 0 1 in
  let bind id dst key prio := mkBinding id "events" dst key ∅ prio 0 in
  mkMemory
    (<["events" := addr "events" KindTopic]> {["jobs" := addr "jobs" KindQueue]})
    (<["b1" := bind "b1" "jobs" "a.*" 3]> (<["b2" := bind "b2" "jobs" "a.#" 7]>
      {["b3" := bind "b3" "gone" "#" 9]}))
    ∅ ∅ ∅.

Lemma Resolve_exact_witness :
  ∃ routes n', Router_Resolve (orc := test_oracle) "events" "a.b" ∅ (topic_store, O) =
      (Ok routes, (topic_store, n')) ∧
    exact_routes topic_store KindTopic "events" "a.b" ∅ routes ∧ routes = [mkRoute "jobs" 7].
Proof.
  destruct (Resolve_exact test_oracle test_oracle_quiet StandardMatcher topic_store O
    "events" "a.b" ∅ (mkAddress "events" KindTopic false 0 0 "" false 0 1))
    as (routes & n' & H1 & H2).
  - unfold topic_store; cbn. repeat apply keyed_insert; try done.
  - done.
  - reflexivity.
  - reflexivity.
  - exists routes, n'. split; [exact H1|]. split; [exact H2|].
    revert H1. vm_compute. congruence.
Defined.
