(* ===== verification/Delivery.v ===== *)
(** * The delivery service

    Models [internal/delivery/application/service.go]: publishing, staging for
    transactions, consumers, acquisition and settlement, expiry, dead-lettering
    and replay, over the in-memory store and any body log.  A call is
    one computation here; [Acquire], [Settle] and [Disconnect] run under the
    service's mutex, and the interleavings of calls at the level of repository
    calls are in Concurrent.v and Pool.v.  Where the code returns a partial
    result beside an error, the model returns the error: no caller reads the
    partial result, and what was stored is in the final state. *)

From S2P Require Import Prelude Bytes Text Duration Matcher Address Message Transaction Env.
From S2P Require Import Memory BodyLog Router.

(** ** State *)
Record broker (L : Type) := mkBroker {
  b_mem : Memory;
  b_log : L;
  b_seq : Z  (* deliverySeq, a uint32 *) }.
Arguments mkBroker {L}.
Arguments b_mem {L}.
Arguments b_log {L}.
Arguments b_seq {L}.

Definition set_mem {L} (m : Memory) (b : broker L) : broker L := mkBroker m (b_log b) (b_seq b).
Definition set_log {L} (l : L) (b : broker L) : broker L := mkBroker (b_mem b) l (b_seq b).

Definition with_Address (a : string) (p : Publish) : Publish :=
  mkPublish a (p_RoutingKey p) (p_Headers p) (p_Body p) (p_Priority p) (p_TTL p) (p_Settled p)
    (p_TransactionID p).
Definition with_TTL (t : duration) (p : Publish) : Publish :=
  mkPublish (p_Address p) (p_RoutingKey p) (p_Headers p) (p_Body p) (p_Priority p) t (p_Settled p)
    (p_TransactionID p).
Definition with_TransactionID (t : string) (p : Publish) : Publish :=
  mkPublish (p_Address p) (p_RoutingKey p) (p_Headers p) (p_Body p) (p_Priority p) (p_TTL p)
    (p_Settled p) t.

(** ** Operations *)
Section operations.
Context `{orc : Oracle, mtch : !Matcher} {L : Type} `{BodyLog L}.

Definition mem {A} (m : env Memory A) : env (broker L) A := on b_mem set_mem m.
Definition log {A} (m : env L A) : env (broker L) A := on b_log set_log m.

Definition randomID (prefix : string) : env (broker L) string :=
  b ← rand_Read 12;
  mret (id_of prefix b).

(** [deadLetter]: the updated message is the result. *)
Definition deadLetter (msg : Message) (reason : string) : env (broker L) Message :=
  a ← mem (Memory_Get (m_Address msg));
  let msg := set_Header "x-death-reason" reason msg in
  let msg := set_Header "x-original-address" (m_Address msg) msg in
  let msg := set_State StateDeadLettered msg in
  msg ← (if negb (bool_decide (a_DeadLetter a = "")) then
           r ← try (mem (Memory_Get (a_DeadLetter a)));
           match r with
           | inr dl =>
               if negb (a_Paused dl) then
                 mret (set_ExpiresAt 0 (set_State StateAvailable (set_Address (a_DeadLetter a) msg)))
               else mret msg
           | inl _ => mret msg
           end
         else mret msg);
  mem (Memory_Update msg);;
  mret msg.

(** [for len(ready) > a.MaxLength]: the last message goes first; [ready[-1]]
    panics.  One turn per message is enough fuel. *)
Fixpoint enforce_loop (fuel : nat) (maxLength : Z) (ready : list Message) : env (broker L) unit :=
  if negb (maxLength <? Z.of_nat (length ready)) then mret tt
  else
    match fuel, last ready with
    | S fuel', Some victim =>
        deadLetter victim "max-length";;
        enforce_loop fuel' maxLength (take (length ready - 1) ready)
    | _, _ => panic
    end.

Definition enforceMaxLength (name : string) : env (broker L) unit :=
  a ← mem (Memory_Get name);
  if a_MaxLength a =? 0 then mret tt
  else
    ready ← mem (Memory_ListReady name 0);
    enforce_loop (length ready) (a_MaxLength a) ready.

Definition publish_route (p : Publish) (created : list Message) (route : Route) :
    env (broker L) (list Message) :=
  id ← randomID "msg";
  now ← clock_Now;
  msg ← lift (NewMessage id (with_Address (rt_Destination route) p) now);
  offset ← wrap "append body log" (log (Log_Append (m_ID msg) (m_Body msg)));
  let msg := set_LogOffset offset msg in
  wrap "save message metadata" (mem (Memory_Put msg));;
  enforceMaxLength (rt_Destination route);;
  mret (created ++ [msg]).

Definition Service_Publish (p : Publish) : env (broker L) (list Message) :=
  a ← wrap "load address" (mem (Memory_Get (p_Address p)));
  lift (Accepting a);;
  let p := if p_TTL p =? 0 then with_TTL (a_DefaultTTL a) p else p in
  routes ← wrap "resolve routes"
             (mem (Router_Resolve (p_Address p) (p_RoutingKey p) (default ∅ (p_Headers p))));
  guard_err (bool_decide (routes = [])) (ErrNew "message was unroutable");;
  fold_each routes [] (publish_route p).

Definition stage_route (p : Publish) (out : list Message) (route : Route) :
    env (broker L) (list Message) :=
  id ← randomID "msg";
  now ← clock_Now;
  msg ← lift (NewMessage id (with_Address (rt_Destination route) p) now);
  let msg := set_State StateAcquired msg in
  off ← log (Log_Append (m_ID msg) (m_Body msg));
  let msg := set_LogOffset off msg in
  mem (Memory_Put msg);;
  mret (out ++ [msg]).

Definition Stage (p : Publish) : env (broker L) (list Message) :=
  guard_err (bool_decide (p_TransactionID p = "")) (ErrNew "transaction id required");;
  a ← wrap "load address" (mem (Memory_Get (p_Address p)));
  lift (Accepting a);;
  let p := if p_TTL p =? 0 then with_TTL (a_DefaultTTL a) p else p in
  routes ← mem (Router_Resolve (p_Address p) (p_RoutingKey p) (default ∅ (p_Headers p)));
  guard_err (bool_decide (routes = [])) (ErrNew "message was unroutable");;
  fold_each routes [] (stage_route p).

Definition CommitStaged (messageID : string) : env (broker L) unit :=
  msg ← mem (Memory_message messageID);
  guard_err (negb (bool_decide (m_State msg = StateAcquired)) ||
             bool_decide (m_TransactionID msg = ""))
    (ErrNew "message is not transaction-staged");;
  let msg := set_TransactionID "" (set_State StateAvailable msg) in
  mem (Memory_Update msg);;
  enforceMaxLength (m_Address msg).

Definition RollbackStaged (messageID : string) : env (broker L) unit :=
  msg ← mem (Memory_message messageID);
  guard_err (bool_decide (m_TransactionID msg = ""))
    (ErrNew "message is not transaction-staged");;
  mem (Memory_deleteMessage messageID).

Definition Service_Register (id addressName : string) (prefetch : Z) (sem : Semantics) :
    env (broker L) Consumer :=
  mem (Memory_Get addressName);;
  now ← clock_Now;
  c ← lift (NewConsumer id addressName prefetch sem now);
  wrap "save consumer" (mem (Memory_SaveConsumer c));;
  mret c.

(** [deliverySeq.Add(1)]. *)
Definition next_delivery : env (broker L) Z :=
  b ← get_;
  let id := u32 (b_seq b + 1) in
  put_ (mkBroker (b_mem b) (b_log b) id);;
  mret id.

Definition Service_Acquire (consumerID : string) : env (broker L) (Message * Z) :=
  c ← mem (Memory_GetConsumer consumerID);
  guard_err (cn_Credit c =? 0) (ErrNew "credit exhausted");;
  ready ← mem (Memory_ListReady (cn_Address c) 1);
  match ready with
  | [] => raise (ErrNew "no message available")
  | msg :: _ =>
      now ← clock_Now;
      if Message_Expired msg now then
        deadLetter msg "ttl-expired";;
        raise (ErrNew "message expired")
      else
        id ← next_delivery;
        let '(r, c) := Consumer_Acquire id (m_ID msg) c in
        lift r;;
        let msg := set_State StateAcquired msg in
        let msg := set_DeliveryCount (m_DeliveryCount msg + 1) msg in
        let msg := set_Redelivered (1 <? m_DeliveryCount msg) msg in
        let '(msg, c) :=
          if bool_decide (cn_Semantics c = AtMostOnce)
          then (set_State StateAccepted msg, snd (Consumer_Settle id c))
          else (msg, c) in
        mem (Memory_Update msg);;
        mem (Memory_SaveConsumer c);;
        body ← wrap "read message body" (log (Log_Read (m_LogOffset msg)));
        mret (set_Body body msg, id)
  end.

Definition Service_Settle (consumerID : string) (deliveryID : Z) (state : State) :
    env (broker L) unit :=
  c ← mem (Memory_GetConsumer consumerID);
  match cn_Unsettled c !! deliveryID with
  | None => raise (ErrNew "delivery not found")
  | Some msgID =>
      msg ← mem (Memory_message msgID);
      msg ← match state with
            | StateAccepted => mret (set_State StateAccepted msg)
            | StateReleased => mret (set_Redelivered true (set_State StateReleased msg))
            | StateRejected => deadLetter msg "rejected"
            | _ => raise (ErrNew "unsupported disposition state")
            end;
      let '(r, c) := Consumer_Settle deliveryID c in
      lift r;;
      (if negb (bool_decide (m_State msg = StateDeadLettered))
       then mem (Memory_Update msg) else mret tt);;
      mem (Memory_SaveConsumer c)
  end.

Definition disconnect_one (msgID : string) : env (broker L) unit :=
  r ← try (mem (Memory_message msgID));
  match r with
  | inr msg =>
      try (mem (Memory_Update (set_Redelivered true (set_State StateReleased msg))));; mret tt
  | inl _ => mret tt
  end.

Definition Service_Disconnect (id : string) : env (broker L) unit :=
  c ← mem (Memory_GetConsumer id);
  unsettled ← map_range ((map_to_list (cn_Unsettled c)).*2);
  for_each unsettled disconnect_one;;
  now ← clock_Now;
  mem (Memory_SaveConsumer
    (mkConsumer (cn_ID c) (cn_Address c) (cn_Prefetch c) 0 ∅ (cn_Semantics c) false
       (cn_CreatedAt c) now)).

Definition sweep_one (n : Z) (msg : Message) : env (broker L) Z :=
  if bool_decide (m_State msg = StateAvailable ∨ m_State msg = StateReleased) then
    now ← clock_Now;
    if Message_Expired msg now then
      deadLetter msg "ttl-expired";;
      mret (n + 1)
    else mret n
  else mret n.

Definition SweepExpired : env (broker L) Z :=
  all ← mem Memory_All;
  fold_each all 0 sweep_one.

(** The first loop of [ReplayDead]: at most [limit] candidates when it is
    positive. *)
Definition replayable (msg : Message) : Prop :=
  dead msg ∨ default "" (m_Headers msg !! "x-original-address") ≠ "".

#[global] Instance replayable_dec msg : Decision (replayable msg).
Proof. unfold replayable. apply _. Defined.

Definition replay_candidates (limit : Z) (all : list Message) : list Message :=
  truncate_limit limit (filter replayable all).

Definition replay_one (n : Z) (msg : Message) : env (broker L) Z :=
  let original := default "" (m_Headers msg !! "x-original-address") in
  let target := if bool_decide (original = "") then m_Address msg else original in
  r ← try (mem (Memory_Get target));
  match r with
  | inr a =>
      if a_Paused a then mret n
      else
        mem (Memory_Update (set_Redelivered true (set_ExpiresAt 0
               (set_State StateAvailable (set_Address target msg)))));;
        mret (n + 1)
  | inl _ => mret n
  end.

Definition ReplayDead (limit : Z) : env (broker L) Z :=
  all ← mem Memory_All;
  fold_each (replay_candidates limit all) 0 replay_one.

Definition Service_Depth (address : string) : env (broker L) Z := mem (Memory_Depth address).
End operations.
