(* ===== verification/DeliveryInv.v ===== *)
(** * The invariant of the broker state

    [wf_broker] ties the metadata store to the body log: every stored record
    is well formed and under its own identifier, and every message points to a
    log entry, which holds the message's body.  [keeps] says what a delivery
    call may do to stored messages; [evolves] is the same for calls that roll
    transactions back.  Every delivery operation satisfies both, in every
    environment, and never panics. *)

From S2P Require Import Prelude Bytes Text Duration Matcher Address Message Transaction Env.
From S2P Require Import Memory BodyLog Router Delivery.

(** ** Invariant and evolution *)
Section invariant.
Context {L : Type} `{BodyLogLaws L}.
Implicit Types b : broker L.

(** The metadata of a message against a log view.  The body is kept in the
    metadata too until a restart drops it. *)
Definition wf_message (view : gmap Z bytes) (m : Message) : Prop :=
  m_ID m ≠ "" ∧ 0 ≤ m_Priority m ≤ 9 ∧ 0 ≤ m_DeliveryCount m ∧
  is_Some (view !! m_LogOffset m) ∧
  (m_Body m ≠ [] → view !! m_LogOffset m = Some (m_Body m)).

Record wf_broker b : Prop := {
  wb_log : log_inv (b_log b);
  wb_addresses : map_Forall (λ k a, a_Name a = k ∧ wf_address a) (mm_addresses (b_mem b));
  wb_bindings : map_Forall (λ k x, bd_ID x = k ∧ wf_binding x) (mm_bindings (b_mem b));
  wb_messages : map_Forall (λ k m, m_ID m = k ∧ wf_message (log_view (b_log b)) m)
                  (mm_messages (b_mem b));
  wb_consumers : map_Forall (λ k c, cn_ID c = k ∧ wf_consumer c)
                   (mm_consumers (b_mem b));
  wb_transactions : map_Forall (λ k t, tx_ID t = k) (mm_transactions (b_mem b)) }.

(** What never changes about a message, and how its transaction may change. *)
Definition same_message (m m' : Message) : Prop :=
  m_ID m' = m_ID m ∧ m_Body m' = m_Body m ∧ m_LogOffset m' = m_LogOffset m ∧
  m_RoutingKey m' = m_RoutingKey m ∧ m_Priority m' = m_Priority m ∧
  m_CreatedAt m' = m_CreatedAt m ∧ m_DeliveryCount m ≤ m_DeliveryCount m' ∧
  (m_TransactionID m' = m_TransactionID m ∨ m_TransactionID m' = "").

(** No consumer gains an unsettled delivery. *)
Definition unsettled_kept b b' : Prop :=
  ∀ id c, mm_consumers (b_mem b') !! id = Some c →
    cn_Unsettled c = ∅ ∨
    ∃ c0, mm_consumers (b_mem b) !! id = Some c0 ∧ cn_Unsettled c = cn_Unsettled c0.

Definition keeps b b' : Prop :=
  mm_addresses (b_mem b') = mm_addresses (b_mem b) ∧
  mm_bindings (b_mem b') = mm_bindings (b_mem b) ∧
  mm_transactions (b_mem b') = mm_transactions (b_mem b) ∧
  log_view (b_log b) ⊆ log_view (b_log b') ∧
  unsettled_kept b b' ∧
  ∀ id m, mm_messages (b_mem b) !! id = Some m →
    ∃ m', mm_messages (b_mem b') !! id = Some m' ∧ same_message m m'.

Definition evolves b b' : Prop :=
  log_view (b_log b) ⊆ log_view (b_log b') ∧
  ∀ id m, mm_messages (b_mem b) !! id = Some m →
    (∃ m', mm_messages (b_mem b') !! id = Some m' ∧ same_message m m') ∨
    (mm_messages (b_mem b') !! id = None ∧ m_TransactionID m ≠ "").

#[global] Instance same_message_preorder : PreOrder same_message.
Proof.
  unfold same_message. split; [by intros m; split_and!; auto|].
  intros x y z (? & ? & ? & ? & ? & ? & ? & Hxy) (? & ? & ? & ? & ? & ? & ? & Hyz).
  split_and!; try congruence; [lia|]. destruct Hxy, Hyz; solve [left; congruence | right; congruence].
Qed.

Lemma unsettled_same b b' :
  mm_consumers (b_mem b') = mm_consumers (b_mem b) → unsettled_kept b b'.
Proof. intros E id c. rewrite E. eauto. Qed.

Lemma unsettled_trans x y z : unsettled_kept x y → unsettled_kept y z → unsettled_kept x z.
Proof.
  intros H1 H2 id c [Hc|(c1 & Hc1 & E)]%H2; [by left|].
  rewrite E. by apply H1.
Qed.

#[global] Instance keeps_preorder : PreOrder keeps.
Proof.
  split.
  - intros b. split_and!; try done; [by apply unsettled_same|]. intros id m Hm. by exists m.
  - intros x y z (A1 & B1 & T1 & V1 & U1 & M1) (A2 & B2 & T2 & V2 & U2 & M2).
    split_and!; [congruence..|by etrans|by eapply unsettled_trans|].
    intros id m (m1 & H1 & S1)%M1. destruct (M2 _ _ H1) as (m2 & H2 & S2).
    exists m2. split; [done|by etrans].
Qed.

Lemma keeps_evolves b b' : keeps b b' → evolves b b'.
Proof. intros (_ & _ & _ & HV & _ & HM). split; [done|]. intros id m Hm. left. by apply HM. Qed.

(** A message that is in no transaction is kept by every evolution, however
    long. *)
Definition keeps_settled b b' : Prop :=
  log_view (b_log b) ⊆ log_view (b_log b') ∧
  ∀ id m, mm_messages (b_mem b) !! id = Some m → m_TransactionID m = "" →
    ∃ m', mm_messages (b_mem b') !! id = Some m' ∧ same_message m m'.

#[global] Instance keeps_settled_preorder : PreOrder keeps_settled.
Proof.
  split.
  - intros b. split; [done|]. intros id m Hm _. by exists m.
  - intros x y z (V1 & M1) (V2 & M2). split; [by etrans|]. intros id m Hm Ht.
    destruct (M1 _ _ Hm Ht) as (m1 & H1 & S1).
    destruct (M2 _ _ H1) as (m2 & H2 & S2).
    + destruct S1 as (_ & _ & _ & _ & _ & _ & _ & [E|E]); congruence.
    + exists m2. split; [done|by etrans].
Qed.

Lemma evolves_settled b b' : evolves b b' → keeps_settled b b'.
Proof.
  intros [HV HM]. split; [done|]. intros id m Hm Ht.
  destruct (HM _ _ Hm) as [?|[_ ?]]; done.
Qed.
End invariant.
#[export] Hint Extern 0 (keeps ?b ?b) => reflexivity : broker.

(** ** Preservation by store updates *)
Definition put_msg {L} (m : Message) (b : broker L) : broker L :=
  set_mem (set_messages (insert (m_ID m) m) (b_mem b)) b.

Section preservation.
Context {L : Type} `{BodyLogLaws L}.
Implicit Types b : broker L.

Lemma wf_message_same view m m' : wf_message view m → same_message m m' → wf_message view m'.
Proof.
  intros (W1 & W2 & W3 & W4 & W5) (S1 & S2 & S3 & S4 & S5 & S6 & S7 & _).
  unfold wf_message. rewrite S1, S2, S3, S5. split_and!; try done; lia.
Qed.

Lemma wf_put_msg b m m' :
  wf_broker b → mm_messages (b_mem b) !! m_ID m = Some m → same_message m m' →
  wf_broker (put_msg m' b) ∧ keeps b (put_msg m' b).
Proof.
  intros [] Hm Hs. assert (m_ID m' = m_ID m) as Hid by apply Hs. split.
  - split; try done. cbn. apply map_Forall_insert_2; [|done]. split; [done|].
    eapply wf_message_same; [|done]. by eapply wb_messages0.
  - split_and!; try done; [by apply unsettled_same|]. intros id x Hx. cbn. rewrite Hid.
    destruct (decide (m_ID m = id)) as [<-|].
    + exists m'. rewrite lookup_insert_eq. split; [done|]. by simplify_eq.
    + exists x. by rewrite lookup_insert_ne.
Qed.

Lemma wf_new_msg b m :
  wf_broker b → mm_messages (b_mem b) !! m_ID m = None → wf_message (log_view (b_log b)) m →
  wf_broker (put_msg m b) ∧ keeps b (put_msg m b).
Proof.
  intros [] Hm Hw. split.
  - split; try done. cbn. by apply map_Forall_insert_2.
  - split_and!; try done; [by apply unsettled_same|]. intros id x Hx. cbn. exists x.
    rewrite lookup_insert_ne by congruence. done.
Qed.

Lemma wf_set_log b l :
  wf_broker b → log_inv l → log_view (b_log b) ⊆ log_view l →
  wf_broker (set_log l b) ∧ keeps b (set_log l b).
Proof.
  intros [] Hl Hv. split.
  - split; try done. cbn. eapply map_Forall_impl; [exact wb_messages0|].
    intros k m (? & W1 & W2 & W3 & [o W4] & W5). split; [done|]. split_and!; try (done || lia).
    + exists o. by eapply lookup_weaken.
    + intros Hb. eapply lookup_weaken; [by apply W5|done].
  - split_and!; try done; [by apply unsettled_same|]. intros id x Hx. by exists x.
Qed.

Lemma wf_save_consumer b c :
  wf_broker b → wf_consumer c →
  cn_Unsettled c = ∅ ∨
    (∃ c0, mm_consumers (b_mem b) !! cn_ID c = Some c0 ∧ cn_Unsettled c = cn_Unsettled c0) →
  let b' := set_mem (set_consumers (insert (cn_ID c) c) (b_mem b)) b in
  wf_broker b' ∧ keeps b b'.
Proof.
  intros [] Hc Hu b'. split.
  - split; try done. cbn. by apply map_Forall_insert_2.
  - split_and!; try done; [|by intros id x Hx; exists x].
    intros id x Hx. cbn in Hx. apply lookup_insert_Some in Hx as [[<- <-]|[_ Hx]]; eauto.
Qed.

Lemma wf_set_seq b n :
  wf_broker b → let b' := mkBroker (b_mem b) (b_log b) n in wf_broker b' ∧ keeps b b'.
Proof.
  intros [] b'. split; [by split|]. split_and!; try done; [by apply unsettled_same|].
  intros id x Hx. by exists x.
Qed.

Lemma wb_message_id b id m :
  wf_broker b → mm_messages (b_mem b) !! id = Some m → m_ID m = id.
Proof. intros [] Hm. by apply wb_messages0 in Hm as [? _]. Qed.

(** A message taken from the store is stored under its identifier. *)
Lemma wb_message_self b id m :
  wf_broker b → mm_messages (b_mem b) !! id = Some m → mm_messages (b_mem b) !! m_ID m = Some m.
Proof. intros Hwf Hm. by rewrite (wb_message_id b id m). Qed.

Lemma wb_keyed_messages b : wf_broker b → keyed m_ID (mm_messages (b_mem b)).
Proof. intros [] k m Hm. by apply wb_messages0 in Hm as [? _]. Qed.
End preservation.

(** ** Dead-lettering *)

(** The message [deadLetter] writes: marked dead where it is, or moved to the
    dead-letter address when that exists and is not paused. *)
Definition marked_dead (msg : Message) (reason : string) : Message :=
  set_State StateDeadLettered
    (set_Header "x-original-address" (m_Address msg) (set_Header "x-death-reason" reason msg)).

Definition moved_dead (a : Address) (msg : Message) (reason : string) : Message :=
  set_ExpiresAt 0 (set_State StateAvailable (set_Address (a_DeadLetter a) (marked_dead msg reason))).

Definition open_dead_letter (m : Memory) (a : Address) : bool :=
  negb (bool_decide (a_DeadLetter a = "")) &&
  match mm_addresses m !! a_DeadLetter a with Some dl => negb (a_Paused dl) | None => false end.

Lemma marked_dead_same msg reason : same_message msg (marked_dead msg reason).
Proof. unfold same_message. cbn. split_and!; auto; lia. Qed.

Lemma moved_dead_same a msg reason : same_message msg (moved_dead a msg reason).
Proof. unfold same_message. cbn. split_and!; auto; lia. Qed.

Section rules.
Context `{orc : Oracle, mtch : !Matcher} {L : Type} `{BodyLogLaws L}.
Implicit Types b : broker L.

Lemma wpe_mem {A} (m : env Memory A) (Q : res A → broker L → Prop) b :
  wpe m (λ r x, Q r (set_mem x b)) (b_mem b) → wpe (mem m) Q b.
Proof. apply wpe_on. Qed.

Lemma wpe_log {A} (m : env L A) (Q : res A → broker L → Prop) b :
  wpe m (λ r x, Q r (set_log x b)) (b_log b) → wpe (log m) Q b.
Proof. apply wpe_on. Qed.

Lemma set_mem_self b : set_mem (b_mem b) b = b.
Proof. by destruct b. Qed.

Lemma wpe_deadLetter msg reason m0 (Q : res Message → broker L → Prop) b :
  mm_messages (b_mem b) !! m_ID msg = Some m0 →
  (∀ e, Q (Err e) b) →
  (∀ a, mm_addresses (b_mem b) !! m_Address msg = Some a →
     Q (Ok (marked_dead msg reason)) (put_msg (marked_dead msg reason) b) ∧
     (open_dead_letter (b_mem b) a = true →
      Q (Ok (moved_dead a msg reason)) (put_msg (moved_dead a msg reason) b))) →
  wpe (deadLetter msg reason) Q b.
Proof.
  intros Hm HE HQ. unfold deadLetter. wpe_step.
  apply wpe_mem, wpe_Get; rewrite set_mem_self; [done|]. intros a Ha.
  destruct (HQ a Ha) as [Hmark Hmove].
  assert (∀ msg', m_ID msg' = m_ID msg → Q (Ok msg') (put_msg msg' b) →
    wpe (mem (Memory_Update msg');; mret msg') Q b) as Hupd.
  { intros msg' Hid HQ'. wpe_step. apply wpe_mem, wpe_Update; [by rewrite set_mem_self|].
    intros x _. by wpe_auto. }
  cbv zeta. change (set_State StateDeadLettered _) with (marked_dead msg reason). wpe_step.
  case_bool_decide as Hdl; cbn [negb]; [wpe_step; by apply Hupd|].
  wpe_step. wpe_step. apply wpe_mem, wpe_Get; rewrite set_mem_self; [intros e; wpe_step; by apply Hupd|].
  intros dl Hl. destruct (a_Paused dl) eqn:Ep; cbn [negb]; wpe_step; (apply Hupd; [done|]); [done|].
  apply Hmove. unfold open_dead_letter. by rewrite bool_decide_eq_false_2, Hl, Ep.
Qed.

(** The common postcondition: no panic, the invariant, and nothing lost since
    [b0]. *)
Definition safe_post {A} (b0 : broker L) (r : res A) (b : broker L) : Prop :=
  r ≠ Panic ∧ wf_broker b ∧ keeps b0 b.

Lemma safe_bind {A B} (m : env (broker L) A) (f : A → env (broker L) B) b0 b :
  wpe m (safe_post b0) b →
  (∀ a b', wf_broker b' → keeps b0 b' → wpe (f a) (safe_post b0) b') →
  wpe (m ≫= f) (safe_post b0) b.
Proof.
  intros Hm Hf. apply wpe_bind. eapply wpe_mono; [exact Hm|].
  intros [a|e|] b' (Hp & Hw & Hk); [by apply Hf|by split|done].
Qed.

Lemma safe_err {A} e b0 b : wf_broker b → keeps b0 b → safe_post b0 (Err (A := A) e) b.
Proof. by split. Qed.

Lemma safe_ok {A} (a : A) b0 b : wf_broker b → keeps b0 b → safe_post b0 (Ok a) b.
Proof. by split. Qed.

Lemma safe_put {A} (a : A) b0 b m m' :
  wf_broker b → keeps b0 b → mm_messages (b_mem b) !! m_ID m = Some m → same_message m m' →
  safe_post b0 (Ok a) (put_msg m' b).
Proof.
  intros Hw Hk Hm Hs. destruct (wf_put_msg b m m' Hw Hm Hs). split_and!; [done|done|by etrans].
Qed.
End rules.
#[export] Hint Resolve safe_err safe_ok : broker.

(** Take a store call at the head of a program with its rule. *)
Ltac mem_step :=
  wpe_step;
  repeat lazymatch goal with |- wpe (wrap _ _) _ _ => wpe_step | |- wpe (try _) _ _ => wpe_step end;
  apply wpe_mem;
  lazymatch goal with
  | |- wpe (Memory_Get _) _ _ => apply wpe_Get
  | |- wpe (Memory_message _) _ _ => apply wpe_message
  | |- wpe (Memory_Update _) _ _ => apply wpe_Update
  | |- wpe (Memory_Put _) _ _ => apply wpe_Put
  | |- wpe (Memory_GetConsumer _) _ _ => apply wpe_GetConsumer
  | |- wpe (Memory_SaveConsumer _) _ _ => apply wpe_SaveConsumer
  | |- wpe (Memory_ListReady _ _) _ _ => apply wpe_ListReady
  | |- wpe (Memory_All) _ _ => apply wpe_All
  end; rewrite ?set_mem_self; cbn beta iota.

Section safety.
Context `{orc : Oracle, mtch : !Matcher} {L : Type} `{BodyLogLaws L}.
Implicit Types b : broker L.

Lemma deadLetter_safe msg reason m0 b0 b :
  wf_broker b → keeps b0 b → mm_messages (b_mem b) !! m_ID msg = Some m0 → same_message m0 msg →
  wpe (deadLetter msg reason)
    (λ r b', safe_post b0 r b' ∧
       ∀ id, id ≠ m_ID msg → mm_messages (b_mem b') !! id = mm_messages (b_mem b) !! id) b.
Proof.
  intros Hw Hk Hm Hs. assert (m_ID m0 = m_ID msg) as Hid by (symmetry; apply Hs).
  assert (∀ msg', same_message msg msg' → (safe_post b0 (Ok msg') (put_msg msg' b) ∧
    ∀ id, id ≠ m_ID msg → mm_messages (b_mem (put_msg msg' b)) !! id = mm_messages (b_mem b) !! id)) as Hput.
  { intros msg' Hs'. split.
    - apply (safe_put _ _ _ m0); [done|done|by rewrite Hid|by etrans].
    - intros id Hne. cbn. rewrite lookup_insert_ne; [done|]. destruct Hs' as [-> _]. done. }
  eapply wpe_deadLetter; [exact Hm|by intros; split; [apply safe_err|]|].
  intros a _. split; [|intros _]; apply Hput; [apply marked_dead_same|apply moved_dead_same].
Qed.

(** The messages of a list are in the store, as they are. *)
Definition stored b (ms : list Message) : Prop :=
  NoDup (m_ID <$> ms) ∧ ∀ m, m ∈ ms → mm_messages (b_mem b) !! m_ID m = Some m.

Lemma stored_all b ms : wf_broker b → ms ≡ₚ map_values (mm_messages (b_mem b)) → stored b ms.
Proof.
  intros Hw Hms. pose proof (wb_keyed_messages b Hw) as Hk. split.
  - rewrite Hms. by apply NoDup_keyed_values.
  - intros m. rewrite Hms. by apply elem_of_keyed_values.
Qed.

Lemma stored_perm b ms ms' : ms' ≡ₚ ms → stored b ms → stored b ms'.
Proof. intros E [H1 H2]. split; [by rewrite E|]. intros m. rewrite E. apply H2. Qed.

Lemma stored_sublist b ms ms' : ms' `sublist_of` ms → stored b ms → stored b ms'.
Proof.
  intros Hs [H1 H2]. split.
  - eapply sublist_NoDup; [exact H1|]. by apply fmap_sublist.
  - intros m Hm. apply H2. by eapply elem_of_sublist.
Qed.

Lemma stored_ready b a limit ms :
  wf_broker b → ms ≡ₚ map_values (mm_messages (b_mem b)) →
  stored b (truncate_limit limit (sort_stable ready_less (filter (ready a) ms))).
Proof.
  intros Hw Hms. eapply stored_sublist; [apply truncate_limit_sublist|].
  eapply stored_perm; [apply sort_stable_perm|].
  eapply stored_sublist; [apply sublist_filter|]. by apply stored_all.
Qed.

(** The rest of a list stays stored when only its head's message changes. *)
Lemma stored_tail b b' m ms :
  stored b (m :: ms) →
  (∀ id, id ≠ m_ID m → mm_messages (b_mem b') !! id = mm_messages (b_mem b) !! id) →
  stored b' ms.
Proof.
  intros [H1 H2] Hb. cbn in H1. apply NoDup_cons in H1 as [H1 H1']. split; [done|].
  intros x Hx. rewrite Hb; [apply H2; by right|].
  intros E. apply H1. rewrite <-E. by apply list_elem_of_fmap_2.
Qed.

(** ** Loops *)
Lemma safe_fold_each {A B} (l : list A) (acc : B) (body : B → A → env (broker L) B) b0 b :
  wf_broker b → keeps b0 b →
  (∀ x acc b', wf_broker b' → keeps b0 b' → wpe (body acc x) (safe_post b0) b') →
  wpe (fold_each l acc body) (safe_post b0) b.
Proof.
  intros Hw Hk Hbody.
  apply (wpe_fold_each _ _ _ (λ _ _ b', wf_broker b' ∧ keeps b0 b')); [done| |].
  - intros x l' a b' [Hw' Hk']. eapply wpe_mono; [by apply Hbody|].
    intros [a'|e|] b'' (? & ? & ?); done.
  - intros a b' [??]. by apply safe_ok.
Qed.

Lemma safe_for_each {A} (l : list A) (body : A → env (broker L) unit) b0 b :
  wf_broker b → keeps b0 b →
  (∀ x b', wf_broker b' → keeps b0 b' → wpe (body x) (safe_post b0) b') →
  wpe (for_each l body) (safe_post b0) b.
Proof.
  intros Hw Hk Hbody.
  apply (wpe_for_each _ _ (λ _ b', wf_broker b' ∧ keeps b0 b')); [done| |].
  - intros x l' b' [Hw' Hk']. eapply wpe_mono; [by apply Hbody|].
    intros [a'|e|] b'' (? & ? & ?); done.
  - intros b' [??]. by apply safe_ok.
Qed.

(** A loop over stored messages whose body touches only the message it is
    given. *)
Lemma safe_fold_stored {B} (l : list Message) (acc : B) (body : B → Message → env (broker L) B) b0 b :
  wf_broker b → keeps b0 b → stored b l →
  (∀ x acc b', wf_broker b' → keeps b0 b' → mm_messages (b_mem b') !! m_ID x = Some x →
     wpe (body acc x) (λ r b'', safe_post b0 r b'' ∧ ∀ id, id ≠ m_ID x →
       mm_messages (b_mem b'') !! id = mm_messages (b_mem b') !! id) b') →
  wpe (fold_each l acc body) (safe_post b0) b.
Proof.
  intros Hw Hk Hs Hbody.
  apply (wpe_fold_each _ _ _ (λ l' _ b', wf_broker b' ∧ keeps b0 b' ∧ stored b' l')); [done| |].
  - intros x l' a b' (Hw' & Hk' & Hs'). eapply wpe_mono; [apply Hbody; [done|done|]|].
    { apply Hs'. by left. }
    intros [a'|e|] b'' [(? & ? & ?) Hother]; [|done..].
    split_and!; [done|done|]. by eapply stored_tail.
  - intros a b' (? & ? & _). by apply safe_ok.
Qed.

(** ** Operations *)
Lemma Resolve_readonly source key hdrs m :
  wpe (Router_Resolve source key hdrs) (λ r m', m' = m ∧ r ≠ Panic) m.
Proof.
  unfold Router_Resolve. wpe_step. wpe_step. apply wpe_Get; [done|]. intros a _.
  assert (wpe (resolve_bindings (a_Kind a) source key hdrs) (λ r m', m' = m ∧ r ≠ Panic) m) as Hb.
  { unfold resolve_bindings. wpe_auto. apply wpe_ListBindings; [done|]. intros bs _. wpe_step.
    apply (wpe_fold_each _ _ _ (λ _ _ m', m' = m)); [done| |].
    - intros x l' acc m' ->. rewrite resolve_step_takes. destruct (_ && _); [|by wpe_auto].
      wpe_auto. apply wpe_Get; [by intros; wpe_auto|]. intros. by wpe_auto.
    - intros [seen out] m' ->. by wpe_auto. }
  destruct (a_Kind a); try exact Hb; by wpe_auto.
Qed.

Lemma enforce_loop_safe fuel : ∀ maxLength ms b0 b,
  0 ≤ maxLength → (length ms ≤ fuel)%nat → wf_broker b → keeps b0 b → stored b ms →
  wpe (enforce_loop fuel maxLength ms) (safe_post b0) b.
Proof.
  induction fuel as [|fuel IH]; intros maxLength ms b0 b Hmax Hf Hw Hk Hs; cbn [enforce_loop];
    (destruct (Z.ltb_spec maxLength (Z.of_nat (length ms))); cbn [negb];
      [|wpe_auto; by apply safe_ok]).
  { lia. }
  destruct (last ms) as [v|] eqn:Ev; [|apply last_None in Ev; subst; cbn in *; lia].
  apply last_Some in Ev as [ms' ->]. rewrite length_app in *. cbn [length] in *.
  replace (length ms' + 1 - 1)%nat with (length ms') by lia. rewrite take_app_length.
  assert (stored b (v :: ms')) as Hs'.
  { eapply stored_perm; [|exact Hs]. by rewrite Permutation_app_comm. }
  assert (mm_messages (b_mem b) !! m_ID v = Some v) as Hv by (apply Hs'; by left).
  wpe_step. eapply wpe_mono; [by apply (deadLetter_safe v _ v b0)|].
  intros [a|e|] b' [(Hp & Hw' & Hk') Ho]; [|by apply safe_err|done].
  apply IH; [done|lia|done|done|]. by eapply stored_tail.
Qed.

Lemma enforceMaxLength_safe name b0 b :
  wf_broker b → keeps b0 b → wpe (enforceMaxLength name) (safe_post b0) b.
Proof.
  intros Hw Hk. unfold enforceMaxLength. mem_step; [by intros; apply safe_err|]. intros a Ha.
  destruct (a_MaxLength a =? 0); [wpe_auto; by apply safe_ok|].
  mem_step; [by intros; apply safe_err|]. intros ms Hms.
  apply enforce_loop_safe; try done.
  - apply (wb_addresses b Hw) in Ha as (_ & _ & _ & ? & _). done.
  - by apply stored_ready.
Qed.

Lemma wpe_append id body b0 b (Q : res Z → broker L → Prop) :
  wf_broker b → keeps b0 b → log_id id = true →
  (∀ e b', wf_broker b' → keeps b0 b' → b_mem b' = b_mem b → Q (Err e) b') →
  (∀ off b', wf_broker b' → keeps b0 b' → b_mem b' = b_mem b →
     log_view (b_log b') !! off = Some body → Q (Ok off) b') →
  wpe (log (Log_Append id body)) Q b.
Proof.
  intros Hw Hk Hid HE HQ. apply wpe_log, wpe_Log_Append; [apply Hw|done| |].
  - intros e l Hl Hv. destruct (wf_set_log b l Hw Hl) as [??]; [by rewrite Hv|].
    apply HE; [done|by etrans|done].
  - intros off l Hl Hfree Hv.
    destruct (wf_set_log b l Hw Hl) as [??]; [rewrite Hv; by apply insert_subseteq|].
    apply HQ; [done|by etrans|done|]. cbn. rewrite Hv. apply lookup_insert_eq.
Qed.

(** A freshly built message, logged and stored. *)
Lemma wf_message_new view id p now m off s :
  NewMessage id p now = Ok m → view !! off = Some (m_Body m) →
  wf_message view (set_LogOffset off (set_State s m)).
Proof.
  intros (H1 & H2 & H3 & H4 & H5 & H6 & H7 & H8 & H9 & H10 & H11 & H12)%NewMessage_Ok Hv.
  unfold wf_message. cbn. split_and!; try (done || lia).
Qed.

Lemma set_State_self m : set_State (m_State m) m = m.
Proof. by destruct m. Qed.

Lemma publish_route_safe p created route b0 b :
  wf_broker b → keeps b0 b → wpe (publish_route p created route) (safe_post b0) b.
Proof.
  intros Hw Hk. unfold publish_route, randomID. wpe_auto; [by apply safe_err|].
  destruct (NewMessage _ _ _) as [m|e|] eqn:Em; wpe_auto; [|by apply safe_err|].
  2: { unfold NewMessage in Em. by repeat case_match. }
  pose proof (NewMessage_Ok _ _ _ _ Em) as Hm.
  apply (wpe_append _ _ b0); [done|done| |by intros; apply safe_err|].
  { destruct Hm as (-> & _). by apply log_id_msg. }
  intros off b' Hw' Hk' Emem Hoff. mem_step; [by intros; apply safe_err|]. intros Hnew.
  destruct (wf_new_msg b' (set_LogOffset off m) Hw' Hnew) as [Hw'' Hk''].
  { rewrite <-(set_State_self m). by eapply wf_message_new. }
  assert (keeps b0 (put_msg (set_LogOffset off m) b')) as Hk3 by (by etrans).
  apply safe_bind; [by apply enforceMaxLength_safe|]. intros. wpe_auto. by apply safe_ok.
Qed.

Lemma stage_route_safe p created route b0 b :
  wf_broker b → keeps b0 b → wpe (stage_route p created route) (safe_post b0) b.
Proof.
  intros Hw Hk. unfold stage_route, randomID. wpe_auto; [by apply safe_err|].
  destruct (NewMessage _ _ _) as [m|e|] eqn:Em; wpe_auto; [|by apply safe_err|].
  2: { unfold NewMessage in Em. by repeat case_match. }
  pose proof (NewMessage_Ok _ _ _ _ Em) as Hm.
  apply (wpe_append _ _ b0); [done|done| |by intros; apply safe_err|].
  { cbn. destruct Hm as (-> & _). by apply log_id_msg. }
  intros off b' Hw' Hk' Emem Hoff. mem_step; [by intros; apply safe_err|]. intros Hnew.
  set (msg := set_LogOffset off (set_State StateAcquired m)) in *.
  destruct (wf_new_msg b' msg Hw' Hnew) as [Hw'' Hk'']; [by eapply wf_message_new|].
  assert (keeps b0 (put_msg msg b')) as Hk3 by (by etrans).
  wpe_auto. by apply safe_ok.
Qed.

Lemma Publish_safe p b : wf_broker b → wpe (Service_Publish p) (safe_post b) b.
Proof.
  intros Hw. unfold Service_Publish. mem_step; [by intros; apply safe_err|]. intros a _.
  unfold Accepting. destruct (a_Paused a); wpe_auto; [by apply safe_err|].
  apply wpe_mem. eapply wpe_mono; [apply Resolve_readonly|].
  intros [routes|e|] m [-> Hp]; rewrite set_mem_self; [|by apply safe_err|done].
  wpe_auto; [by apply safe_err|].
  apply safe_fold_each; [done|done|]. intros. by apply publish_route_safe.
Qed.

Lemma Stage_safe p b : wf_broker b → wpe (Stage p) (safe_post b) b.
Proof.
  intros Hw. unfold Stage. wpe_step. wpe_step; [by apply safe_err|].
  mem_step; [by intros; apply safe_err|]. intros a _.
  unfold Accepting. destruct (a_Paused a); wpe_auto; [by apply safe_err|].
  apply wpe_mem. eapply wpe_mono; [apply Resolve_readonly|].
  intros [routes|e|] m [-> Hp]; rewrite set_mem_self; [|by apply safe_err|done].
  wpe_auto; [by apply safe_err|].
  apply safe_fold_each; [done|done|]. intros. by apply stage_route_safe.
Qed.

Lemma CommitStaged_safe id b0 b :
  wf_broker b → keeps b0 b → wpe (CommitStaged id) (safe_post b0) b.
Proof.
  intros Hw Hk. unfold CommitStaged. mem_step; [by intros; apply safe_err|]. intros m Hm.
  wpe_auto; [by apply safe_err|].
  apply wpe_mem, wpe_Update; rewrite ?set_mem_self; [by intros; apply safe_err|]. intros x _.
  destruct (safe_put tt b0 b m (set_TransactionID "" (set_State StateAvailable m)))
    as (_ & Hw' & Hk'); [done|done|by eapply wb_message_self| |by apply enforceMaxLength_safe].
  unfold same_message. cbn. split_and!; auto; lia.
Qed.

Lemma Register_safe id a n sem b : 0 ≤ n < 2 ^ 32 → wf_broker b →
  wpe (Service_Register id a n sem) (safe_post b) b.
Proof.
  intros Hn Hw. unfold Service_Register. mem_step; [by intros; apply safe_err|]. intros x _.
  wpe_auto. destruct (NewConsumer _ _ _ _ _) as [c|e|] eqn:Ec; wpe_auto; [|by apply safe_err|].
  2: { unfold NewConsumer in Ec. by repeat case_match. }
  apply NewConsumer_Ok in Ec as (Hc & _ & _ & Hu & _); [|done].
  apply wpe_mem, wpe_SaveConsumer; rewrite ?set_mem_self; [by intros; apply safe_err|].
  wpe_auto. destruct (wf_save_consumer b c Hw Hc); [by left|]. by apply safe_ok.
Qed.

Lemma Consumer_Acquire_same d id c r c' : Consumer_Acquire d id c = (r, c') → c' = c ∧ r ≠ Panic.
Proof.
  unfold Consumer_Acquire, guard_err, mbind, go_bind, gets, mret, go_ret, raise.
  intros E. repeat case_match; simplify_eq; done.
Qed.

Lemma Consumer_Settle_same d c r c' : Consumer_Settle d c = (r, c') → c' = c ∧ r ≠ Panic.
Proof.
  unfold Consumer_Settle, guard_err, mbind, go_bind, gets, mret, go_ret, raise.
  intros E. repeat case_match; simplify_eq; done.
Qed.

(** Saving a consumer read at the start of the call, with the unsettled
    deliveries it had or none. *)
Lemma save_consumer_safe c c' b0 b :
  wf_broker b → keeps b0 b → mm_consumers (b_mem b0) !! cn_ID c = Some c →
  cn_ID c' = cn_ID c → wf_consumer c' → cn_Unsettled c' = ∅ ∨ cn_Unsettled c' = cn_Unsettled c →
  wpe (mem (Memory_SaveConsumer c')) (safe_post b0) b.
Proof.
  intros Hw Hk Hc Hid Hw' Hu.
  apply wpe_mem, wpe_SaveConsumer; rewrite ?set_mem_self; [by intros; apply safe_err|].
  destruct Hk as (K1 & K2 & K3 & K4 & K5 & K6). split_and!; [done| |split_and!]; try done.
  - destruct Hw. split; try done. cbn. by apply map_Forall_insert_2.
  - intros id x Hx. cbn in Hx. apply lookup_insert_Some in Hx as [[<- <-]|[_ Hx]]; [|by apply K5].
    destruct Hu as [?|Hu]; [by left|]. right. exists c. by rewrite Hid.
Qed.

Lemma Acquire_safe cid b : wf_broker b → wpe (Service_Acquire cid) (safe_post b) b.
Proof.
  intros Hw. unfold Service_Acquire. mem_step; [by intros; apply safe_err|]. intros c Hc.
  pose proof (wb_consumers b Hw _ _ Hc) as [Hid Hcw]. cbn in Hid. subst cid. wpe_auto; [by apply safe_err|].
  apply wpe_mem, wpe_ListReady; rewrite set_mem_self; [by intros; apply safe_err|]. intros ms Hms.
  pose proof (stored_ready b (cn_Address c) 1 ms Hw Hms) as Hs.
  destruct (truncate_limit _ _) as [|m ms']; [wpe_auto; by apply safe_err|].
  assert (mm_messages (b_mem b) !! m_ID m = Some m) as Hm by (apply Hs; by left).
  wpe_auto. destruct (Message_Expired m now).
  { apply safe_bind; [|by intros; wpe_auto; apply safe_err].
    eapply wpe_mono; [by apply (deadLetter_safe m _ m b)|]. by intros r b' [? _]. }
  wpe_step. unfold next_delivery. wpe_auto.
  destruct (wf_set_seq b (u32 (b_seq b + 1)) Hw) as [Hw' Hk'].
  set (b' := mkBroker _ _ _) in *.
  destruct (Consumer_Acquire _ _ c) as [r c'] eqn:Ea.
  apply Consumer_Acquire_same in Ea as [-> Hr]. destruct r as [[]|e|]; wpe_auto; [|by apply safe_err|done].
  set (d := u32 _) in *. set (msg := set_Redelivered _ _).
  assert (∀ msg', same_message m msg' →
    wpe (mem (Memory_Update msg');; mem (Memory_SaveConsumer c);;
      body ← wrap "read message body" (log (Log_Read (m_LogOffset msg')));
      mret (set_Body body msg', d)) (safe_post b) b') as Hrest.
  { intros msg' Hs'. apply safe_bind.
    { apply wpe_mem, wpe_Update; rewrite ?set_mem_self; [by intros; apply safe_err|].
      intros x _. by apply (safe_put _ _ _ m). }
    intros [] b1 Hw1 Hk1. apply safe_bind; [apply (save_consumer_safe c c); by auto|].
    intros [] b2 Hw2 Hk2. wpe_auto. apply wpe_log, wpe_Log_Read; [apply Hw2| |].
    - intros e l Hl Hv. destruct (wf_set_log b2 l Hw2 Hl); [by rewrite Hv|].
      apply safe_err; [done|by etrans].
    - intros body l Hl Hv _. wpe_auto. destruct (wf_set_log b2 l Hw2 Hl); [by rewrite Hv|].
      apply safe_ok; [done|by etrans]. }
  assert (same_message m msg) by (unfold same_message; cbn; split_and!; auto; lia).
  case_bool_decide; [|by apply Hrest].
  destruct (Consumer_Settle d c) as [r c'] eqn:Es. apply Consumer_Settle_same in Es as [-> _].
  cbn [snd]. apply Hrest. etrans; [done|]. unfold same_message. cbn. split_and!; auto; lia.
Qed.

Lemma Settle_safe cid d st b : wf_broker b → wpe (Service_Settle cid d st) (safe_post b) b.
Proof.
  intros Hw. unfold Service_Settle. mem_step; [by intros; apply safe_err|]. intros c Hc.
  pose proof (wb_consumers b Hw _ _ Hc) as [Hid Hcw]. cbn in Hid. subst cid.
  destruct (cn_Unsettled c !! d) as [msgID|]; [|wpe_auto; by apply safe_err].
  mem_step; [by intros; apply safe_err|]. intros m Hm.
  assert (mm_messages (b_mem b) !! m_ID m = Some m) as Hm' by (by eapply wb_message_self).
  assert (∀ msg b1, wf_broker b1 → keeps b b1 →
    (∃ m1, mm_messages (b_mem b1) !! m_ID m1 = Some m1 ∧ same_message m1 msg) →
    wpe (let '(r, c0) := Consumer_Settle d c in
         lift r;;
         (if negb (bool_decide (m_State msg = StateDeadLettered))
          then mem (Memory_Update msg) else mret tt);;
         mem (Memory_SaveConsumer c0)) (safe_post b) b1) as Hrest.
  { intros msg b1 Hw1 Hk1 (m1 & Hm1 & Hs1).
    destruct (Consumer_Settle d c) as [r c'] eqn:Es. apply Consumer_Settle_same in Es as [-> Hr].
    destruct r as [[]|e|]; [|wpe_auto; by apply safe_err|done]. wpe_step. wpe_step.
    apply safe_bind; [|intros; apply (save_consumer_safe c c); by auto].
    case_bool_decide; cbn [negb]; [wpe_auto; by apply safe_ok|].
    apply wpe_mem, wpe_Update; rewrite ?set_mem_self; [by intros; apply safe_err|].
    intros x _. by apply (safe_put _ _ _ m1). }
  destruct st; try (wpe_auto; by apply safe_err).
  - wpe_step. wpe_step. apply Hrest; [done|done|]. exists m. split; [done|].
    unfold same_message. cbn. split_and!; auto; lia.
  - wpe_step. wpe_step. apply Hrest; [done|done|]. exists m. split; [done|].
    unfold same_message. cbn. split_and!; auto; lia.
  - wpe_step. eapply wpe_deadLetter; [exact Hm'|by intros; apply safe_err|].
    assert (∀ msg', same_message m msg' →
      wf_broker (put_msg msg' b) ∧ keeps b (put_msg msg' b) ∧
      ∃ m1, mm_messages (b_mem (put_msg msg' b)) !! m_ID m1 = Some m1 ∧ same_message m1 msg') as Hput.
    { intros msg' Hs'. destruct (wf_put_msg b m msg' Hw Hm' Hs'). split_and!; [done|done|].
      exists msg'. split; [apply lookup_insert_eq|done]. }
    intros a _. split; [|intros _]; apply Hrest; apply Hput;
      (apply marked_dead_same || apply moved_dead_same).
Qed.

Lemma disconnect_one_safe id b0 b :
  wf_broker b → keeps b0 b → wpe (disconnect_one id) (safe_post b0) b.
Proof.
  intros Hw Hk. unfold disconnect_one. mem_step; [intros; wpe_auto; by apply safe_ok|].
  intros m Hm. mem_step; [intros; wpe_auto; by apply safe_ok|]. intros x _. wpe_auto.
  apply (safe_put tt b0 b m); [done|done|by eapply wb_message_self|].
  unfold same_message. cbn. split_and!; auto; lia.
Qed.

Lemma Disconnect_safe cid b : wf_broker b → wpe (Service_Disconnect cid) (safe_post b) b.
Proof.
  intros Hw. unfold Service_Disconnect. mem_step; [by intros; apply safe_err|]. intros c Hc.
  pose proof (wb_consumers b Hw _ _ Hc) as [Hid Hcw]. cbn in Hid. subst cid.
  wpe_step. wpe_step.
  apply safe_bind; [apply safe_for_each; [done|done|intros; by apply disconnect_one_safe]|].
  intros [] b' Hw' Hk'. wpe_step. wpe_step. apply (save_consumer_safe c); try done; [|by left].
  destruct Hcw as (? & ? & ? & ? & ?). unfold wf_consumer. cbn. split_and!; try done; lia.
Qed.

Lemma SweepExpired_safe b : wf_broker b → wpe SweepExpired (safe_post b) b.
Proof.
  intros Hw. unfold SweepExpired. mem_step; [by intros; apply safe_err|]. intros ms Hms.
  apply safe_fold_stored; [done|done|by apply stored_all|].
  intros x acc b' Hw' Hk' Hx. unfold sweep_one.
  case_bool_decide; wpe_auto; [|by split; [apply safe_ok|]].
  destruct (Message_Expired x now); wpe_auto; [|by split; [apply safe_ok|]].
  eapply wpe_mono; [by apply (deadLetter_safe x _ x b)|].
  intros [a|e|] b'' [(Hp & Hw'' & Hk'') Ho]; [wpe_auto; by split; [apply safe_ok|]|
    by split; [apply safe_err|]|done].
Qed.

Lemma ReplayDead_safe limit b : wf_broker b → wpe (ReplayDead limit) (safe_post b) b.
Proof.
  intros Hw. unfold ReplayDead. mem_step; [by intros; apply safe_err|]. intros ms Hms.
  apply safe_fold_stored; [done|done| |].
  { eapply stored_sublist; [apply truncate_limit_sublist|].
    eapply stored_sublist; [apply sublist_filter|]. by apply stored_all. }
  intros x acc b' Hw' Hk' Hx. unfold replay_one.
  mem_step; [intros; wpe_auto; by split; [apply safe_ok|]|]. intros a _.
  destruct (a_Paused a); [wpe_auto; by split; [apply safe_ok|]|].
  mem_step; [intros; by split; [apply safe_err|]|]. intros y _. wpe_auto. split.
  - apply (safe_put _ _ _ x); [done..|]. unfold same_message. cbn. split_and!; auto; lia.
  - intros id Hne. cbn. by rewrite lookup_insert_ne.
Qed.

(** [RollbackStaged] deletes only a message that is in a transaction. *)
Lemma RollbackStaged_evolves id b : wf_broker b →
  wpe (RollbackStaged id) (λ r b', wf_broker b' ∧ evolves b b' ∧ unsettled_kept b b' ∧
    mm_transactions (b_mem b') = mm_transactions (b_mem b) ∧
    (∀ id', mm_messages (b_mem b) !! id' = None → mm_messages (b_mem b') !! id' = None) ∧
    match r with
    | Ok _ => mm_messages (b_mem b') !! id = None
    | Err e => errors_Is e ErrMessageNotFound = true → mm_messages (b_mem b') !! id = None
    | Panic => False
    end) b.
Proof.
  intros Hw. assert (evolves b b) by (apply keeps_evolves; reflexivity).
  assert (unsettled_kept b b) by (by apply unsettled_same).
  unfold RollbackStaged. wpe_step. apply wpe_mem, wpe_message_exact; rewrite ?set_mem_self.
  { by intros text; split_and!. }
  { by intros E; split_and!. }
  intros m Hm. wpe_step. wpe_step; [by split_and!|]. zbool.
  apply wpe_mem, wpe_deleteMessage_exact; rewrite ?set_mem_self.
  { by intros text; split_and!. }
  { intros E. congruence. }
  intros x _. split; [|split; [split; [done|]|split_and!; [by apply unsettled_same|done| |]]].
  - destruct Hw. split; try done. cbn. by apply map_Forall_delete.
  - intros id' m' Hm'. cbn. destruct (decide (id = id')) as [<-|].
    + right. rewrite lookup_delete_eq. split; [done|]. congruence.
    + left. exists m'. by rewrite lookup_delete_ne.
  - intros id' Hid'. cbn. apply lookup_delete_None. by right.
  - cbn. apply lookup_delete_eq.
Qed.
End safety.
