(* ===== verification/DeliveryFacts.v ===== *)
(** * What the delivery service does

    The functional theorems of the delivery service: rejected publishes,
    the queue bound and which messages it evicts, acquisition, dead-lettering,
    and the behaviours that differ from the documentation. *)

From S2P Require Import Prelude Bytes Text Duration Matcher Address Message Transaction Env.
From S2P Require Import Memory BodyLog Router Delivery DeliveryInv.

(** ** The ready messages of an address *)
Definition ready_at {L} (b : broker L) (name : string) : list Message :=
  filter (ready name) (map_values (mm_messages (b_mem b))).

Lemma map_values_insert {A} (m : gmap string A) k x :
  map_values (<[k := x]> m) ≡ₚ x :: map_values (delete k m).
Proof.
  unfold map_values. rewrite <-insert_delete_eq, map_to_list_insert by apply lookup_delete_eq. done.
Qed.

Lemma map_values_delete {A} (m : gmap string A) k x :
  m !! k = Some x → map_values m ≡ₚ x :: map_values (delete k m).
Proof. intros Hx. unfold map_values. by rewrite <-(map_to_list_delete m k x). Qed.

(** Replacing a ready message by one that is not takes it off the list. *)
Lemma ready_at_evict {L} (b : broker L) name m m' rest :
  mm_messages (b_mem b) !! m_ID m = Some m → m_ID m' = m_ID m →
  ready name m → ¬ ready name m' → ready_at b name ≡ₚ m :: rest →
  ready_at (put_msg m' b) name ≡ₚ rest.
Proof.
  intros Hm Hid Hr Hr' Hb. unfold ready_at, put_msg in *. cbn.
  rewrite Hid, map_values_insert, filter_cons_False by done.
  rewrite (map_values_delete _ _ _ Hm), filter_cons_True in Hb by done.
  by apply Permutation_cons_inv in Hb.
Qed.

Section bound.
Context `{orc : Oracle, mtch : !Matcher} {L : Type} `{BodyLogLaws L}.
Implicit Types b : broker L.

Lemma marked_dead_not_ready name msg reason : ¬ ready name (marked_dead msg reason).
Proof. by intros [_ ?]. Qed.

Lemma moved_dead_not_ready a msg reason : a_DeadLetter a ≠ m_Address msg →
  ¬ ready (m_Address msg) (moved_dead a msg reason).
Proof. by intros ? [? _]. Qed.

(** The eviction loop leaves the first [maxLength] messages of the order. *)
Lemma enforce_loop_evicts name fuel : ∀ maxLength ms b,
  0 ≤ maxLength → (length ms ≤ fuel)%nat → wf_broker b → stored b ms → ready_at b name ≡ₚ ms →
  wpe (enforce_loop fuel maxLength ms) (λ r b', match r with
    | Ok _ => wf_broker b' ∧ keeps b b' ∧ ready_at b' name ≡ₚ take (Z.to_nat maxLength) ms
    | Err _ => True
    | Panic => False
    end) b.
Proof.
  induction fuel as [|fuel IH]; intros maxLength ms b Hmax Hf Hw Hs Hr; cbn [enforce_loop];
    (destruct (Z.ltb_spec maxLength (Z.of_nat (length ms))); cbn [negb];
      [|wpe_auto; rewrite take_ge by lia; done]).
  { lia. }
  destruct (last ms) as [v|] eqn:Ev; [|apply last_None in Ev; subst; cbn in *; lia].
  apply last_Some in Ev as [ms' ->]. rewrite length_app in *. cbn [length] in *.
  replace (length ms' + 1 - 1)%nat with (length ms') by lia. rewrite take_app_length.
  rewrite take_app_le by lia.
  assert (v :: ms' ≡ₚ ms' ++ [v]) as Hperm by (by rewrite Permutation_app_comm).
  assert (stored b (v :: ms')) as Hs' by (by eapply stored_perm).
  assert (mm_messages (b_mem b) !! m_ID v = Some v) as Hv by (apply Hs'; by left).
  assert (ready name v) as Hrv.
  { assert (v ∈ ready_at b name) as Hin by (rewrite Hr; set_solver).
    by apply list_elem_of_filter in Hin as [? _]. }
  assert (∀ v', same_message v v' → ¬ ready name v' →
    wpe (enforce_loop fuel maxLength ms') (λ r b', match r with
      | Ok _ => wf_broker b' ∧ keeps b b' ∧ ready_at b' name ≡ₚ take (Z.to_nat maxLength) ms'
      | Err _ => True
      | Panic => False
      end) (put_msg v' b)) as Hnext.
  { intros v' Hs1 Hr1. destruct (wf_put_msg b v v' Hw Hv Hs1) as [Hw1 Hk1].
    assert (m_ID v' = m_ID v) as Hid by apply Hs1.
    eapply wpe_mono; [apply (IH maxLength ms' (put_msg v' b)); [done|lia|done| |]|].
    - eapply stored_tail; [exact Hs'|]. intros id Hne. cbn. rewrite Hid. by apply lookup_insert_ne.
    - apply (ready_at_evict b name v); try done. by rewrite Hr.
    - intros [[]|e|] b' Hb'; [|done..]. destruct Hb' as (? & ? & ?).
      split_and!; [done|by etrans|done]. }
  wpe_step. eapply wpe_deadLetter; [exact Hv|done|]. intros a Ha.
  destruct Hrv as [Hav Hst]. rewrite Hav in Ha.
  apply (wb_addresses b Hw) in Ha as (Ha & Hwa).
  split; [|intros _]; apply Hnext; try (apply marked_dead_same || apply moved_dead_same).
  - apply marked_dead_not_ready.
  - rewrite <-Hav. apply moved_dead_not_ready. destruct Hwa as (_ & _ & _ & _ & Hne). congruence.
Qed.

(** [enforceMaxLength]: on success the ready messages of a bounded address
    are the first [MaxLength] of an order by priority and age. *)
Lemma enforceMaxLength_spec name b :
  wf_broker b →
  wpe (enforceMaxLength name) (λ r b', match r with
    | Ok _ => wf_broker b' ∧ keeps b b' ∧
        ∃ a, mm_addresses (b_mem b) !! name = Some a ∧
          if a_MaxLength a =? 0 then b' = b
          else ∃ order, order ≡ₚ ready_at b name ∧ StronglySorted ready_before order ∧
               ready_at b' name ≡ₚ take (Z.to_nat (a_MaxLength a)) order
    | Err _ => True
    | Panic => False
    end) b.
Proof.
  intros Hw. unfold enforceMaxLength. mem_step; [done|]. intros a Ha.
  destruct (a_MaxLength a =? 0) eqn:E0.
  { wpe_auto. split_and!; [done|done|]. exists a. by rewrite E0. }
  mem_step; [done|]. intros ms Hms. rewrite truncate_limit_0.
  pose proof (stored_ready b name 0 ms Hw Hms) as Hs. rewrite truncate_limit_0 in Hs.
  pose proof (wb_addresses b Hw _ _ Ha) as (_ & _ & _ & Hmax & _).
  set (order := sort_stable _ _) in *.
  assert (order ≡ₚ ready_at b name) as Ho.
  { unfold order, ready_at. by rewrite sort_stable_perm, Hms. }
  eapply wpe_mono; [apply (enforce_loop_evicts name); [done|done|done|done|by rewrite Ho]|].
  intros [[]|e|] b' Hb'; [|done..]. destruct Hb' as (? & ? & Hr'). split_and!; [done|done|].
  exists a. rewrite E0. split; [done|]. exists order. split_and!; [done|apply ready_sorted|done].
Qed.
End bound.

(** ** Publishing *)
Section publish.
Context `{orc : Oracle, mtch : !Matcher} {L : Type} `{BodyLogLaws L}.
Implicit Types b : broker L.

(** The message a publish to [dest] stores, as it was created. *)
Definition published b (p : Publish) (dest : string) (m : Message) : Prop :=
  mm_messages (b_mem b) !! m_ID m = None ∧ m_Address m = dest ∧ m_Body m = p_Body p ∧
  m_Priority m = p_Priority p ∧ m_State m = StateAvailable ∧
  m_TransactionID m = p_TransactionID p ∧ m_DeliveryCount m = 0.

(** The ready messages of [dest] once [m] has arrived. *)
Definition arrived b b' (dest : string) (m : Message) : Prop :=
  ∃ a, mm_addresses (b_mem b) !! dest = Some a ∧
    if a_MaxLength a =? 0 then ready_at b' dest ≡ₚ m :: ready_at b dest
    else ∃ order, order ≡ₚ m :: ready_at b dest ∧ StronglySorted ready_before order ∧
         ready_at b' dest ≡ₚ take (Z.to_nat (a_MaxLength a)) order.

Lemma ready_at_new b m : mm_messages (b_mem b) !! m_ID m = None → m_State m = StateAvailable →
  ready_at (put_msg m b) (m_Address m) ≡ₚ m :: ready_at b (m_Address m).
Proof.
  intros Hm Hs. unfold ready_at, put_msg. cbn.
  rewrite map_values_insert, delete_id, filter_cons_True by done. done.
Qed.

Lemma publish_route_spec p created route b :
  wf_broker b →
  wpe (publish_route p created route) (λ r b', match r with
    | Ok ms => wf_broker b' ∧ keeps b b' ∧ ∃ m, ms = created ++ [m] ∧
        published b p (rt_Destination route) m ∧
        log_view (b_log b') !! m_LogOffset m = Some (p_Body p) ∧
        (∃ m', mm_messages (b_mem b') !! m_ID m = Some m' ∧ same_message m m') ∧
        arrived b b' (rt_Destination route) m
    | Err _ => True
    | Panic => False
    end) b.
Proof.
  intros Hw. unfold publish_route, randomID. wpe_auto; [done|].
  destruct (NewMessage _ _ _) as [m|e|] eqn:Em; wpe_auto; [|done|].
  2: { unfold NewMessage in Em. by repeat case_match. }
  pose proof (NewMessage_Ok _ _ _ _ Em) as (Hid & Ha & Hb & _ & _ & Hst & Htx & _ & _ & _ & Hdc & Hpr).
  apply (wpe_append _ _ b); [done|done|rewrite Hid; by apply log_id_msg|done|].
  intros off b1 Hw1 Hk1 Emem Hoff. mem_step; [done|]. cbn [m_ID set_LogOffset]. intros Hnew.
  set (msg := set_LogOffset off m) in *. change (set_mem _ _) with (put_msg msg b1).
  destruct (wf_new_msg b1 msg Hw1 Hnew) as [Hw2 Hk2].
  { unfold msg. rewrite <-(set_State_self m). by eapply wf_message_new. }
  wpe_step. eapply wpe_mono; [by apply enforceMaxLength_spec|].
  intros [[]|e|] b3 Hb3; [|done..]. destruct Hb3 as (Hw3 & Hk3 & a & Haddr & Hready).
  wpe_auto. assert (keeps b b3) as Hk by (etrans; [done|]; by etrans).
  split_and!; [done|done|]. exists msg. split_and!; try done.
  - by rewrite Emem in Hnew.
  - destruct Hk3 as (_ & _ & _ & HV & _). cbn in HV |- *.
    change (p_Body p) with (p_Body (with_Address (rt_Destination route) p)).
    rewrite <-Hb. by eapply lookup_weaken.
  - apply Hk3. apply lookup_insert_eq.
  - exists a. rewrite <-Emem in *. split; [done|].
    assert (ready_at b1 (m_Address msg) = ready_at b (m_Address msg)) as Eb
      by (unfold ready_at; by rewrite Emem).
    pose proof (ready_at_new b1 msg Hnew Hst) as Hrn. rewrite Eb in Hrn.
    change (m_Address msg) with (m_Address m) in Hrn. rewrite Ha in Hrn. cbn [with_Address p_Address] in Hrn.
    destruct (a_MaxLength a =? 0); [by subst b3|].
    destruct Hready as (order & Ho & Hsort & Hr). exists order. split_and!; [by rewrite Ho|done|done].
Qed.

(** The outcome of a publish to a queue. *)
Definition queue_publish b b' (p : Publish) (src : Address) (ms : list Message) : Prop :=
  wf_broker b' ∧ keeps b b' ∧ a_Paused src = false ∧
  ∃ m, ms = [m] ∧ published b p (p_Address p) m ∧
    log_view (b_log b') !! m_LogOffset m = Some (p_Body p) ∧
    (∃ m', mm_messages (b_mem b') !! m_ID m = Some m' ∧ same_message m m') ∧
    arrived b b' (p_Address p) m ∧
    (a_MaxLength src ≠ 0 → Z.of_nat (length (ready_at b' (p_Address p))) ≤ a_MaxLength src).
End publish.

(** C4. A publish to a queue stores the message and keeps the queue's bound,
    in every environment: when it succeeds the broker state stays well formed,
    exactly one message was created, under a fresh identifier, with the body
    of the request, which the body log holds at the message's offset; nothing
    stored before is lost; and with a maximum length the available messages of
    the queue are the first [MaxLength] of the old ones and the new one, by
    priority and age, so their number does not exceed it. *)
Theorem Publish_queue_bounded (orc : Oracle) (M : Matcher) (L : Type) (HL : BodyLog L)
    (HLaws : BodyLogLaws L) (p : Publish) (b b' : broker L) (n n' : nat) (src : Address)
    (ms : list Message) :
  wf_broker b → mm_addresses (b_mem b) !! p_Address p = Some src →
  a_Kind src = KindQueue ∨ a_Kind src = KindTemporary →
  Service_Publish p (b, n) = (Ok ms, (b', n')) →
  queue_publish b b' p src ms.
Proof.
  intros Hw Hsrc Hkind E.
  refine (wpe_elim _ (λ r b', match r with Ok ms => queue_publish b b' p src ms | _ => True end)
    b n _ b' n' _ E).
  unfold Service_Publish. mem_step; [done|]. intros a Ha. rewrite Hsrc in Ha. injection Ha as <-.
  unfold Accepting. destruct (a_Paused src) eqn:Ep; wpe_auto; [done|].
  set (p' := if p_TTL p =? 0 then with_TTL (a_DefaultTTL src) p else p).
  assert (p_Address p' = p_Address p) as Ea by (unfold p'; by destruct (_ =? _)).
  apply wpe_mem. unfold Router_Resolve. wpe_step. wpe_step. apply wpe_Get; [done|].
  intros a Ha. rewrite Ea, Hsrc in Ha. injection Ha as <-.
  assert (match a_Kind src with KindQueue | KindTemporary => True | _ => False end) as Hk
    by (by destruct Hkind as [->| ->]).
  assert (wpe (fold_each [mkRoute (p_Address p') 0] [] (publish_route p'))
    (λ r b', match r with Ok ms => queue_publish b b' p src ms | _ => True end) b) as Hfold.
  { cbn [fold_each]. wpe_step. eapply wpe_mono; [by apply publish_route_spec|].
    intros [ms'|e|] b1 Hb1; [|done..]. destruct Hb1 as (Hw1 & Hk1 & m & -> & Hm).
    wpe_auto. split_and!; [done|done|done|]. exists m. split; [done|]. cbn [rt_Destination] in Hm.
    rewrite Ea in Hm. destruct Hm as (Hm & Hv & Hm' & Harr).
    assert (p_Body p' = p_Body p) as Eb by (unfold p'; by destruct (_ =? _)).
    rewrite Eb in Hv. split_and!; [|done|done|done|].
    - unfold published in *. unfold p' in Hm. by destruct (_ =? _).
    - intros Hne. destruct Harr as (a & Ha & Hr). rewrite Hsrc in Ha. injection Ha as <-.
      destruct (Z.eqb_spec (a_MaxLength src) 0); [done|]. destruct Hr as (order & _ & _ & Hr).
      pose proof (wb_addresses b Hw _ _ Hsrc) as (_ & _ & _ & Hmax & _).
      rewrite Hr, length_take. lia. }
  destruct (a_Kind src); try done; wpe_auto; rewrite ?set_mem_self; wpe_auto; exact Hfold || done.
Qed.

(** A publish to a paused or unknown address is rejected: the call
    returns an error and changes neither the store nor the log, and staging
    for a transaction is rejected in the same way. *)
Theorem Publish_rejected (orc : Oracle) (M : Matcher) (L : Type) (HL : BodyLog L)
    (p : Publish) (b : broker L) (n : nat) :
  (∀ a, mm_addresses (b_mem b) !! p_Address p = Some a → a_Paused a = true) →
  (∃ e n', Service_Publish p (b, n) = (Err e, (b, n'))) ∧
  (∃ e n', Stage p (b, n) = (Err e, (b, n'))).
Proof.
  intros Hp.
  assert (∀ A (m : env (broker L) A), wpe m (λ r b', b' = b ∧ ∃ e, r = Err e) b →
    ∃ e n', m (b, n) = (Err e, (b, n'))) as Helim.
  { intros A m Hm. specialize (Hm n). destruct (m (b, n)) as [r [b' n']]. cbn in Hm.
    destruct Hm as (-> & e & ->). eauto. }
  split; apply Helim.
  - unfold Service_Publish. mem_step; [by eauto|]. intros a Ha.
    unfold Accepting. rewrite (Hp a Ha). wpe_auto. by eauto.
  - unfold Stage. wpe_step. wpe_step; [by eauto|]. mem_step; [by eauto|]. intros a Ha.
    unfold Accepting. rewrite (Hp a Ha). wpe_auto. by eauto.
Qed.

(** ** Acquisition *)
Lemma Consumer_Acquire_Ok d id c c' :
  Consumer_Acquire d id c = (Ok tt, c') → c' = c ∧ cn_Connected c = true ∧ cn_Credit c ≠ 0.
Proof.
  unfold Consumer_Acquire, guard_err, mbind, go_bind, gets, mret, go_ret, raise.
  intros E. repeat case_match; simplify_eq; zbool; done.
Qed.

(** The message as an acquisition stores it. *)
Definition acquire_update (c : Consumer) (m : Message) : Message :=
  set_State (if bool_decide (cn_Semantics c = AtMostOnce) then StateAccepted else StateAcquired)
    (set_Redelivered (1 <? m_DeliveryCount m + 1) (set_DeliveryCount (m_DeliveryCount m + 1) m)).

Section acquire.
Context {L : Type} `{BodyLogLaws L}.
Implicit Types b : broker L.

Definition acquired b b' (cid : string) (msg : Message) (d : Z) : Prop :=
  ∃ c m0,
    mm_consumers (b_mem b) !! cid = Some c ∧ cn_Credit c ≠ 0 ∧ cn_Connected c = true ∧
    m0 ∈ ready_at b (cn_Address c) ∧
    (∀ m, m ∈ ready_at b (cn_Address c) → ready_before m0 m) ∧
    d = u32 (b_seq b + 1) ∧ b_seq b' = d ∧
    mm_messages (b_mem b') = <[m_ID m0 := acquire_update c m0]> (mm_messages (b_mem b)) ∧
    msg = set_Body (m_Body msg) (acquire_update c m0) ∧
    log_view (b_log b) !! m_LogOffset m0 = Some (m_Body msg) ∧
    (m_Body m0 ≠ [] → m_Body msg = m_Body m0).

Lemma first_ready b a ms m rest :
  ms ≡ₚ map_values (mm_messages (b_mem b)) →
  truncate_limit 1 (sort_stable ready_less (filter (ready a) ms)) = m :: rest →
  m ∈ ready_at b a ∧ ∀ m', m' ∈ ready_at b a → ready_before m m'.
Proof.
  intros Hms E. rewrite truncate_limit_1 in E.
  assert (sort_stable ready_less (filter (ready a) ms) ≡ₚ ready_at b a) as Hp.
  { unfold ready_at. by rewrite sort_stable_perm, Hms. }
  pose proof (ready_sorted (filter (ready a) ms)) as Hsort.
  destruct (sort_stable ready_less (filter (ready a) ms)) as [|m1 l]; [done|].
  cbn in E. injection E as -> _. apply StronglySorted_inv in Hsort as [_ Hall].
  rewrite Forall_forall in Hall. split; [rewrite <-Hp; by left|].
  intros m'. rewrite <-Hp. intros [->|Hm']%elem_of_cons; [|by apply Hall].
  right. split; [done|lia].
Qed.
End acquire.

(** C3. A successful acquisition delivers the right message with the right
    body, in every environment: the consumer exists, is connected and has
    credit; the message is the best available one of the consumer's address
    (highest priority, then oldest); the returned body is what the body log
    holds for it, that is the body it was published with; its delivery count
    goes up by one, it is flagged redelivered from the second delivery on, it
    becomes acquired (accepted for an at-most-once consumer), no other message
    changes; and the delivery identifier is the next of the 32-bit sequence. *)
Theorem Acquire_exact (orc : Oracle) (M : Matcher) (L : Type) (HL : BodyLog L)
    (HLaws : BodyLogLaws L) (cid : string) (b b' : broker L) (n n' : nat) (msg : Message) (d : Z) :
  wf_broker b → Service_Acquire cid (b, n) = (Ok (msg, d), (b', n')) → acquired b b' cid msg d.
Proof.
  intros Hw E.
  refine (wpe_elim _ (λ r b', match r with Ok (msg, d) => acquired b b' cid msg d | _ => True end)
    b n _ b' n' _ E).
  unfold Service_Acquire. mem_step; [done|]. intros c Hc. wpe_auto; [done|].
  apply wpe_mem, wpe_ListReady; rewrite ?set_mem_self; [done|]. intros ms Hms.
  destruct (truncate_limit _ _) as [|m ms'] eqn:Et; [by wpe_auto|].
  destruct (first_ready b (cn_Address c) ms m ms' Hms Et) as [Hm Hbest].
  assert (mm_messages (b_mem b) !! m_ID m = Some m) as Hlook.
  { apply list_elem_of_filter in Hm as [_ Hm].
    by apply (elem_of_keyed_values m_ID _ _ (wb_keyed_messages b Hw)) in Hm. }
  pose proof (wb_messages b Hw _ _ Hlook) as (_ & _ & _ & _ & _ & Hbody).
  wpe_auto. destruct (Message_Expired m now) eqn:Ex.
  { wpe_step. eapply wpe_deadLetter; [exact Hlook|done|]. intros a _. split; intros; by wpe_auto. }
  wpe_step. unfold next_delivery. wpe_auto. set (d0 := u32 _). set (b1 := mkBroker _ _ _).
  destruct (Consumer_Acquire d0 (m_ID m) c) as [r c'] eqn:Ea.
  destruct r as [[]|e|]; [|by wpe_auto|by apply Consumer_Acquire_same in Ea as [_ ?]].
  apply Consumer_Acquire_Ok in Ea as (-> & Hconn & Hcred). wpe_step. wpe_step. cbv zeta.
  assert (∀ c1 msg1, msg1 = acquire_update c m → wpe (
      mem (Memory_Update msg1);; mem (Memory_SaveConsumer c1);;
      body ← wrap "read message body" (log (Log_Read (m_LogOffset msg1)));
      mret (set_Body body msg1, d0))
    (λ r b', match r with Ok (msg, d) => acquired b b' cid msg d | _ => True end) b1) as Hrest.
  { intros c1 msg1 ->. wpe_step. apply wpe_mem, wpe_Update; rewrite ?set_mem_self; [done|].
    intros x _. wpe_step. apply wpe_mem, wpe_SaveConsumer; rewrite ?set_mem_self; [done|].
    wpe_step. wpe_step. apply wpe_log, wpe_Log_Read; [apply Hw|done|].
    intros body l _ Hv Hb. wpe_auto. exists c, m. cbn in Hb.
    split_and!; try done. intros Hne. cbn. rewrite (Hbody Hne) in Hb. by simplify_eq. }
  unfold acquire_update in Hrest. cbn [m_DeliveryCount set_State set_DeliveryCount set_Redelivered] in *.
  case_bool_decide; by apply Hrest.
Qed.

(** ** Concrete stores *)
Definition demo_address (name dl : string) (max : Z) : Address :=
  mkAddress name KindQueue true max 0 dl false 0 1.

(** A queue of at most one message that dead-letters to [dead]. *)
Definition demo_broker : broker MemoryLog :=
  mkBroker (mkMemory (<["jobs" := demo_address "jobs" "dead" 1]>
                       {["dead" := demo_address "dead" "" 0]}) ∅ ∅ ∅ ∅)
    NewMemoryLog 0.

Definition demo_publish (body : string) (prio ttl : Z) : Publish :=
  mkPublish "jobs" "" None (string_bytes body) prio ttl false "".

Lemma demo_wf : wf_broker demo_broker.
Proof.
  split; cbn; try apply map_Forall_empty.
  - apply map_Forall_insert_2; [|apply map_Forall_singleton];
      split; try done; repeat split; vm_compute; done || congruence.
Qed.

Lemma Publish_queue_bounded_witness :
  ∃ ms b' n', Service_Publish (orc := test_oracle) (demo_publish "hello" 4 0) (demo_broker, O) =
      (Ok ms, (b', n')) ∧
    Z.of_nat (length (ready_at b' "jobs")) ≤ 1.
Proof.
  destruct (Service_Publish (orc := test_oracle) (demo_publish "hello" 4 0) (demo_broker, O))
    as [r [b' n']] eqn:E.
  destruct r as [ms|e|]; [|exfalso; revert E; vm_compute; discriminate..].
  exists ms, b', n'. split; [reflexivity|].
  destruct (Publish_queue_bounded test_oracle StandardMatcher MemoryLog _ _
    (demo_publish "hello" 4 0) demo_broker b' O n' (demo_address "jobs" "dead" 1) ms)
    as (_ & _ & _ & m & _ & _ & _ & _ & _ & H).
  - exact demo_wf.
  - reflexivity.
  - left. reflexivity.
  - exact E.
  - apply H. discriminate.
Defined.

Lemma Publish_rejected_witness :
  ∃ e n', Service_Publish (orc := test_oracle)
    (mkPublish "nowhere" "" None (string_bytes "x") 0 0 false "") (demo_broker, O) =
    (Err e, (demo_broker, n')).
Proof.
  apply (Publish_rejected test_oracle StandardMatcher MemoryLog _
    (mkPublish "nowhere" "" None (string_bytes "x") 0 0 false "") demo_broker O).
  intros a Ha. vm_compute in Ha. discriminate Ha.
Defined.

(** The queue after a publish with an hour to live, and with a consumer. *)
Definition demo_after {A} (m : env (broker MemoryLog) A) (s : broker MemoryLog * nat) :
  broker MemoryLog * nat := (m s).2.

Definition demo_ready : broker MemoryLog * nat :=
  demo_after (Service_Register (orc := test_oracle) "c1" "jobs" 5 AtLeastOnce)
    (demo_after (Service_Publish (orc := test_oracle) (demo_publish "hello" 4 Hour)) (demo_broker, O)).

Lemma demo_ready_wf : wf_broker demo_ready.1.
Proof.
  unfold demo_ready, demo_after.
  destruct (Service_Publish _ (demo_broker, O)) as [r1 [b1 n1]] eqn:E1. cbn [snd].
  assert (wf_broker b1) as Hw1
    by apply (wpe_elim _ _ _ _ _ _ _ (Publish_safe _ _ demo_wf) E1).
  destruct (Service_Register _ _ _ _ (b1, n1)) as [r2 [b2 n2]] eqn:E2. cbn [fst snd].
  apply (wpe_elim _ _ _ _ _ _ _ (Register_safe "c1" "jobs" 5 AtLeastOnce b1 ltac:(lia) Hw1) E2).
Qed.

Lemma Acquire_exact_witness :
  ∃ msg d b' n', Service_Acquire (orc := test_oracle) "c1" demo_ready = (Ok (msg, d), (b', n')) ∧
    acquired (demo_ready.1) b' "c1" msg d ∧ m_Body msg = string_bytes "hello" ∧ d = 1.
Proof.
  assert (match fst (Service_Acquire (orc := test_oracle) "c1" demo_ready) with
    | Ok (msg, d) => m_Body msg = string_bytes "hello" ∧ d = 1 | _ => False end) as Hrun
    by (vm_compute; split; reflexivity).
  destruct (Service_Acquire (orc := test_oracle) "c1" demo_ready) as [r [b' n']] eqn:E.
  destruct r as [[msg d]|e|]; [|destruct Hrun..].
  exists msg, d, b', n'. split; [reflexivity|]. split; [|exact Hrun].
  apply (Acquire_exact test_oracle StandardMatcher MemoryLog _ _ "c1" (demo_ready.1) b'
    (demo_ready.2) n' msg d).
  - exact demo_ready_wf.
  - rewrite <-E. by destruct demo_ready.
Defined.

(** ** Dead-lettering, exactly *)

(** C22. Dead-lettering in a live context, on every branch: a message whose
    address is unknown is left alone and the error is reported; otherwise the
    stored message carries the reason and its original address, and is moved,
    available and without expiry, to the dead-letter address when that exists
    and is not paused, and is marked dead-lettered in place otherwise.  Nothing
    else changes. *)
Theorem deadLetter_exact (orc : Oracle) (HO : Quiet orc) (M : Matcher) (L : Type) (HL : BodyLog L)
    (msg m0 : Message) (reason : string) (b : broker L) (n : nat) :
  mm_messages (b_mem b) !! m_ID msg = Some m0 →
  ∃ n', deadLetter msg reason (b, n) =
    match mm_addresses (b_mem b) !! m_Address msg with
    | None => (Err ErrAddressNotFound, (b, n'))
    | Some a =>
        let msg' := if open_dead_letter (b_mem b) a then moved_dead a msg reason
                    else marked_dead msg reason in
        (Ok msg', (put_msg msg' b, n'))
    end.
Proof.
  intros Hm.
  assert (wpe (deadLetter msg reason) (λ r b', match mm_addresses (b_mem b) !! m_Address msg with
    | None => r = Err ErrAddressNotFound ∧ b' = b
    | Some a =>
        let msg' := if open_dead_letter (b_mem b) a then moved_dead a msg reason
                    else marked_dead msg reason in
        r = Ok msg' ∧ b' = put_msg msg' b
    end) b) as H.
  { unfold deadLetter. wpe_step. apply wpe_mem, quiet_Get; rewrite set_mem_self;
      [by intros ->|]. intros a Ha. rewrite Ha. cbv zeta. unfold open_dead_letter.
    change (set_State StateDeadLettered _) with (marked_dead msg reason).
    assert (∀ msg', m_ID msg' = m_ID msg → wpe (mem (Memory_Update msg');; mret msg')
      (λ r b', r = Ok msg' ∧ b' = put_msg msg' b) b) as Hupd.
    { intros msg' Hid. wpe_step. eapply wpe_mem, quiet_Update; [by rewrite Hid|]. by wpe_auto. }
    wpe_step. case_bool_decide as Hdl; cbn [negb andb]; [wpe_step; by apply Hupd|].
    wpe_step. wpe_step. apply wpe_mem, quiet_Get; rewrite set_mem_self.
    - intros ->. wpe_step. by apply Hupd.
    - intros dl ->. destruct (a_Paused dl); cbn [negb]; wpe_step; by apply Hupd. }
  specialize (H n). destruct (deadLetter msg reason (b, n)) as [r [b' n']]. cbn [fst snd] in H.
  exists n'. destruct (mm_addresses (b_mem b) !! m_Address msg); destruct H as [-> ->]; done.
Qed.

(** A message in the demonstration queue. *)
Definition demo_message : Message :=
  mkMessage "m1" "jobs" "" ∅ (string_bytes "hi") 4 1 0 StateAvailable 0 false "" 0.

Lemma deadLetter_exact_witness :
  ∃ n', deadLetter (orc := test_oracle) demo_message "rejected" (put_msg demo_message demo_broker, O) =
    (Ok (moved_dead (demo_address "jobs" "dead" 1) demo_message "rejected"),
     (put_msg (moved_dead (demo_address "jobs" "dead" 1) demo_message "rejected")
        (put_msg demo_message demo_broker), n')).
Proof.
  exact (deadLetter_exact test_oracle test_oracle_quiet StandardMatcher MemoryLog _
    demo_message demo_message "rejected" (put_msg demo_message demo_broker) O eq_refl).
Defined.

(** ** Behaviours that differ from the documentation *)

(** A message published without a time to live to a queue without a default
    one, then an acquisition by a registered consumer. *)
Definition no_ttl_run : res (Message * Z) * list (string * string) :=
  let s0 := demo_after (Service_Publish (orc := test_oracle) (demo_publish "hello" 4 0)) (demo_broker, O) in
  let s1 := demo_after (Service_Register (orc := test_oracle) "c1" "jobs" 5 AtLeastOnce) s0 in
  let '(r, (b, _)) := Service_Acquire (orc := test_oracle) "c1" s1 in
  (r, (λ m, (m_Address m, default "" (m_Headers m !! "x-death-reason"))) <$>
        map_values (mm_messages (b_mem b))).

(** A message without a time to live counts as expired: the consumer gets
    an error instead of the message, which is dead-lettered with the reason
    [ttl-expired]. *)
Theorem no_ttl_is_dead_lettered :
  no_ttl_run = (Err (ErrNew "message expired"), [("dead", "ttl-expired")]).
Proof. vm_compute. reflexivity. Qed.

(** A consumer that acquired a message (recorded as unsettled) disconnects,
    and another consumer tries to acquire. *)
Definition released_broker : broker MemoryLog :=
  let held := set_State StateAcquired (set_ExpiresAt (1000 * Hour) demo_message) in
  let c id u := mkConsumer id "jobs" 5 5 u AtLeastOnce true 0 0 in
  mkBroker (mkMemory (mm_addresses (b_mem demo_broker)) ∅ {["m1" := held]}
    (<["c1" := c "c1" {[1 := "m1"]}]> {["c2" := c "c2" ∅]}) ∅)
    (mkMemoryLog {[0 := string_bytes "hi"]} 1) 0.

Definition released_run : res unit * list State * res (Message * Z) :=
  let '(r1, s1) := Service_Disconnect (orc := test_oracle) "c1" (released_broker, O) in
  let '(r2, s2) := Service_Acquire (orc := test_oracle) "c2" s1 in
  (r1, m_State <$> map_values (mm_messages (b_mem s1.1)), r2).

(** A released message is never redelivered by the in-memory store: after
    its consumer disconnects the message is in state released, which the list
    of ready messages leaves out, so the next consumer finds nothing. *)
Theorem released_is_not_redelivered :
  released_run = (Ok tt, [StateReleased], Err (ErrNew "no message available")).
Proof. vm_compute. reflexivity. Qed.

(** A message that went through the dead-letter queue and was accepted there,
    then a replay. *)
Definition replay_broker : broker MemoryLog :=
  put_msg (set_Header "x-original-address" "jobs"
    (set_Address "dead" (set_State StateAccepted demo_message))) demo_broker.

Definition replay_run : res Z * list (string * State) :=
  let '(r, (b, _)) := ReplayDead (orc := test_oracle) 0 (replay_broker, O) in
  (r, (λ m, (m_Address m, m_State m)) <$> map_values (mm_messages (b_mem b))).

(** A replay of dead letters also resurrects a message that a consumer of
    the dead-letter queue has already accepted: it becomes available again at
    its original address. *)
Theorem replay_resurrects_accepted : replay_run = (Ok 1, [("jobs", StateAvailable)]).
Proof. vm_compute. reflexivity. Qed.
