(* ===== verification/TxService.v ===== *)
(** * The transaction service

    Models [internal/transaction/application/service.go] over the delivery
    service: declaring a transaction, staging publishes in it, committing,
    rolling back, and sweeping the expired ones.  As in the delivery service,
    the value returned beside an error is dropped. *)

From S2P Require Import Prelude Bytes Text Duration Matcher Address Message Transaction Env.
From S2P Require Import Memory BodyLog Router Delivery.

(** ** Operations *)

(** [NewService]: the configured time to live, 30 seconds by default. *)
Definition NewService_ttl (ttl : duration) : duration := if ttl <=? 0 then 30 * Second else ttl.

Section operations.
Context `{orc : Oracle, mtch : !Matcher} {L : Type} `{BodyLog L}.

Definition txID : env (broker L) string :=
  b ← rand_Read 16;
  mret (id_of "txn" b).

Definition Declare_tx (ttl : duration) (connection : string) : env (broker L) Transaction :=
  id ← txID;
  now ← clock_Now;
  tx ← lift (transaction_New id connection now ttl);
  wrap "save transaction" (mem (TransactionMemory_Create tx));;
  mret tx.

(** [tx.Add] for every staged message, on the local copy of the transaction. *)
Fixpoint add_all (tx : Transaction) (msgs : list Message) : res Transaction :=
  match msgs with
  | [] => Ok tx
  | msg :: msgs' =>
      match Transaction_Add (mkOperation OpPublish (m_ID msg) (m_Address msg) 0) tx with
      | (Ok _, tx') => add_all tx' msgs'
      | (Err e, _) => Err e
      | (Panic, _) => Panic
      end
  end.

Definition StagePublish (id : string) (p : Publish) : env (broker L) (list Message) :=
  tx ← mem (TransactionMemory_Get id);
  now ← clock_Now;
  guard_err (Transaction_Expired tx now) (ErrNew "transaction expired");;
  msgs ← Stage (with_TransactionID id p);
  tx ← lift (add_all tx msgs);
  wrap "update transaction" (mem (TransactionMemory_Update tx));;
  mret msgs.

Definition rollback_op (op : Operation) : env (broker L) unit :=
  if bool_decide (op_Kind op = OpPublish) then
    r ← try (RollbackStaged (op_MessageID op));
    match r with
    | inl e => if errors_Is e ErrMessageNotFound then mret tt else raise e
    | inr _ => mret tt
    end
  else mret tt.

Definition complete_tx (tx : Transaction) (state : TxState) : env (broker L) Transaction :=
  now ← clock_Now;
  let '(r, tx) := Transaction_Complete state now tx in
  lift r;;
  mem (TransactionMemory_Update tx);;
  mret tx.

Definition tx_rollback (tx : Transaction) (state : TxState) : env (broker L) Transaction :=
  for_each (tx_Operations tx) rollback_op;;
  complete_tx tx state.

Definition commit_op (op : Operation) : env (broker L) unit :=
  match op_Kind op with
  | OpPublish => wrap ("commit message " +:+ op_MessageID op) (CommitStaged (op_MessageID op))
  | _ => mret tt
  end.

Definition Tx_Commit (id : string) : env (broker L) Transaction :=
  tx ← mem (TransactionMemory_Get id);
  now ← clock_Now;
  if Transaction_Expired tx now then
    try (tx_rollback tx StateTimedOut);;
    raise (ErrNew "transaction expired")
  else
    for_each (tx_Operations tx) commit_op;;
    complete_tx tx StateCommitted.

Definition Tx_Rollback (id : string) : env (broker L) Transaction :=
  tx ← mem (TransactionMemory_Get id);
  tx_rollback tx StateRolledBack.

Definition Tx_Get (id : string) : env (broker L) Transaction := mem (TransactionMemory_Get id).

Definition sweep_tx (n : Z) (tx : Transaction) : env (broker L) Z :=
  now ← clock_Now;
  if Transaction_Expired tx now then
    tx_rollback tx StateTimedOut;;
    mret (n + 1)
  else mret n.

Definition Tx_Sweep : env (broker L) Z :=
  active ← mem TransactionMemory_ListActive;
  fold_each active 0 sweep_tx.
End operations.
