(* ===== verification/TxFacts.v ===== *)
(** * What the transaction service guarantees

    Transactions only move forward: a completed transaction never changes
    again, an active one keeps its operations and its version grows.  Every
    operation keeps the broker invariant; rollback and commit act on every
    staged message. *)

From S2P Require Import Prelude Bytes Text Duration Matcher Address Message Transaction Env.
From S2P Require Import Memory BodyLog Router Delivery DeliveryInv DeliveryFacts TxService.

(** ** How transactions evolve *)
Definition tx_grows (t t' : Transaction) : Prop :=
  t' = t ∨
  (tx_State t = StateActive ∧ tx_Version t < tx_Version t' ∧ tx_ID t' = tx_ID t ∧
   tx_Operations t `prefix_of` tx_Operations t' ∧
   (tx_State t' = StateActive ∨ terminal (tx_State t'))).

#[global] Instance tx_grows_preorder : PreOrder tx_grows.
Proof.
  split; [by left|].
  intros x y z [->|(A1 & V1 & I1 & P1 & S1)] [->|(A2 & V2 & I2 & P2 & S2)]; try by left.
  - right. by split_and!.
  - right. by split_and!.
  - right. split_and!; [done|lia|congruence|by etrans|done].
Qed.

Section relations.
Context {L : Type} `{BodyLogLaws L}.
Implicit Types b : broker L.

Definition tx_kept b b' : Prop :=
  ∀ id t, mm_transactions (b_mem b) !! id = Some t →
    ∃ t', mm_transactions (b_mem b') !! id = Some t' ∧ tx_grows t t'.

(** What every call of the broker guarantees about what was stored before. *)
Definition advances b b' : Prop :=
  keeps_settled b b' ∧ unsettled_kept b b' ∧ tx_kept b b'.

#[global] Instance advances_preorder : PreOrder advances.
Proof.
  split.
  - intros b. split_and!; [done|by apply unsettled_same|]. intros id t Ht. by exists t.
  - intros x y z (K1 & U1 & T1) (K2 & U2 & T2).
    split_and!; [by etrans|by eapply unsettled_trans|].
    intros id t (t1 & H1 & G1)%T1. destruct (T2 _ _ H1) as (t2 & H2 & G2).
    exists t2. split; [done|by etrans].
Qed.

Lemma tx_same b b' :
  mm_transactions (b_mem b') = mm_transactions (b_mem b) → tx_kept b b'.
Proof. intros E id t. rewrite E. intros Ht. by exists t. Qed.

Lemma keeps_advances b b' : keeps b b' → advances b b'.
Proof.
  intros Hk. split_and!; [by apply evolves_settled, keeps_evolves|apply Hk|].
  apply tx_same. apply Hk.
Qed.

Definition step_post {A} b0 (r : res A) b : Prop := r ≠ Panic ∧ wf_broker b ∧ advances b0 b.

Lemma step_err {A} e b0 b : wf_broker b → advances b0 b → step_post b0 (Err (A := A) e) b.
Proof. by split. Qed.

Lemma step_ok {A} (a : A) b0 b : wf_broker b → advances b0 b → step_post b0 (Ok a) b.
Proof. by split. Qed.

Lemma safe_step {A} b0 b (r : res A) b' :
  advances b0 b → safe_post b r b' → step_post b0 r b'.
Proof.
  intros Ha (Hp & Hw & Hk). split_and!; [done|done|]. etrans; [exact Ha|]. by apply keeps_advances.
Qed.

(** Storing a grown transaction. *)
Lemma wf_put_tx b t t' :
  wf_broker b → mm_transactions (b_mem b) !! tx_ID t' = Some t → tx_grows t t' →
  let b' := set_mem (set_transactions (insert (tx_ID t') t') (b_mem b)) b in
  wf_broker b' ∧ advances b b'.
Proof.
  intros Hw Ht Hg b'. split.
  - destruct Hw. split; try done. cbn. by apply map_Forall_insert_2.
  - split_and!; [split; [done|]|by apply unsettled_same|].
    + intros id m Hm _. by exists m.
    + intros id x Hx. cbn. destruct (decide (tx_ID t' = id)) as [<-|].
      * exists t'. rewrite lookup_insert_eq. split; [done|]. congruence.
      * exists x. by rewrite lookup_insert_ne.
Qed.

Lemma wf_new_tx b t :
  wf_broker b → mm_transactions (b_mem b) !! tx_ID t = None →
  let b' := set_mem (set_transactions (insert (tx_ID t) t) (b_mem b)) b in
  wf_broker b' ∧ advances b b'.
Proof.
  intros Hw Ht b'. split.
  - destruct Hw. split; try done. cbn. by apply map_Forall_insert_2.
  - split_and!; [split; [done|]|by apply unsettled_same|].
    + intros id m Hm _. by exists m.
    + intros id x Hx. cbn. exists x. by rewrite lookup_insert_ne by congruence.
Qed.

Lemma wb_tx_id b id t : wf_broker b → mm_transactions (b_mem b) !! id = Some t → tx_ID t = id.
Proof. intros Hw Ht. by apply (wb_transactions b Hw) in Ht. Qed.
End relations.

(** ** Completing a transaction *)
Section operations.
Context `{orc : Oracle, mtch : !Matcher} {L : Type} `{BodyLogLaws L}.
Implicit Types b : broker L.

(** [complete_tx] stores the terminal transaction and touches no message. *)
Lemma complete_tx_spec tx s b0 b :
  wf_broker b → advances b0 b → mm_transactions (b_mem b) !! tx_ID tx = Some tx →
  wpe (complete_tx tx s) (λ r b', step_post b0 r b' ∧
    mm_messages (b_mem b') = mm_messages (b_mem b) ∧
    (∀ id, id ≠ tx_ID tx → mm_transactions (b_mem b') !! id = mm_transactions (b_mem b) !! id) ∧
    match r with
    | Ok t => mm_transactions (b_mem b') !! tx_ID tx = Some t ∧ tx_State t = s ∧ terminal s ∧
              tx_State tx = StateActive ∧ tx_Operations t = tx_Operations tx
    | _ => True
    end) b.
Proof.
  intros Hw Ha Htx. assert (∀ e, step_post b0 (Err (A := Transaction) e) b) as He
    by (intros; by apply step_err).
  unfold complete_tx. wpe_step. wpe_step.
  destruct (Transaction_Complete_cases s now tx) as [(Hact & Hterm & ->)|[e ->]];
    [|wpe_auto; by split_and!].
  set (t := mkTransaction _ _ _ _ _ _ _ _). wpe_step. wpe_step. wpe_step.
  apply wpe_mem, wpe_TxUpdate; rewrite ?set_mem_self; [intros; by split_and!|].
  intros old Hold Hver. cbn in Hold. rewrite Htx in Hold. injection Hold as <-. wpe_auto.
  destruct (wf_put_tx b tx t Hw Htx) as [Hw' Ha'].
  { right. split_and!; try done. by right. }
  split; [apply step_ok; [done|by etrans]|]. split_and!; try done.
  - intros id Hne. cbn. by rewrite lookup_insert_ne.
  - cbn. apply lookup_insert_eq.
Qed.

(** The loop of [rollback]: every staged message of the operations is gone. *)
Lemma complete_tx_addresses tx s b :
  wpe (complete_tx tx s) (λ _ b', mm_addresses (b_mem b') = mm_addresses (b_mem b)) b.
Proof.
  unfold complete_tx. wpe_step. wpe_step.
  destruct (Transaction_Complete_cases s now tx) as [(_ & _ & ->)|[e ->]]; [|by wpe_auto].
  wpe_step. wpe_step. wpe_step. apply wpe_mem, wpe_TxUpdate; rewrite ?set_mem_self; [done|]. intros old _ _. by wpe_auto.
Qed.

Lemma rollback_loop_spec ops : ∀ b0 b,
  wf_broker b → advances b0 b →
  wpe (for_each ops rollback_op) (λ r b', step_post b0 r b' ∧
    mm_transactions (b_mem b') = mm_transactions (b_mem b) ∧
    (∀ id, mm_messages (b_mem b) !! id = None → mm_messages (b_mem b') !! id = None) ∧
    (r = Ok tt → ∀ op, op ∈ ops → op_Kind op = OpPublish →
       mm_messages (b_mem b') !! op_MessageID op = None)) b.
Proof.
  induction ops as [|op ops IH]; intros b0 b Hw Ha; cbn [for_each].
  { wpe_auto. split; [by apply step_ok|]. split_and!; try done.
    intros _ op Hop. by apply not_elem_of_nil in Hop. }
  assert (∀ b1, wf_broker b1 → advances b0 b1 →
    mm_transactions (b_mem b1) = mm_transactions (b_mem b) →
    (∀ id, mm_messages (b_mem b) !! id = None → mm_messages (b_mem b1) !! id = None) →
    (op_Kind op = OpPublish → mm_messages (b_mem b1) !! op_MessageID op = None) →
    wpe (for_each ops rollback_op) (λ r b', step_post b0 r b' ∧
      mm_transactions (b_mem b') = mm_transactions (b_mem b) ∧
      (∀ id, mm_messages (b_mem b) !! id = None → mm_messages (b_mem b') !! id = None) ∧
      (r = Ok tt → ∀ op', op' ∈ op :: ops → op_Kind op' = OpPublish →
         mm_messages (b_mem b') !! op_MessageID op' = None)) b1) as Hrest.
  { intros b1 Hw1 Ha1 Ht1 Hn1 Hop. eapply wpe_mono; [by apply (IH b0)|].
    intros r b' (Hs & Ht & Hn & Hops). split_and!; [done|congruence|by auto|].
    intros Hr op' [->|Hin]%elem_of_cons Hk; [by apply Hn, Hop|by apply Hops]. }
  wpe_step. unfold rollback_op at 1. case_bool_decide as Hk; [|wpe_auto; by apply Hrest].
  wpe_step. wpe_step. eapply wpe_mono; [by apply RollbackStaged_evolves|].
  intros r b1 (Hw1 & He1 & Hu1 & Ht1 & Hn1 & Hr).
  assert (advances b0 b1) as Ha1.
  { etrans; [exact Ha|]. split_and!; [by apply evolves_settled|done|by apply tx_same]. }
  destruct r as [[]|e|]; [wpe_auto; by apply Hrest| |done].
  destruct (errors_Is e ErrMessageNotFound) eqn:Ee; wpe_auto.
  - apply Hrest; try done. intros _. by apply Hr.
  - split; [by apply step_err|]. by split_and!.
Qed.

Lemma tx_rollback_spec tx s b0 b :
  wf_broker b → advances b0 b → mm_transactions (b_mem b) !! tx_ID tx = Some tx →
  wpe (tx_rollback tx s) (λ r b', step_post b0 r b' ∧
    (∀ id, id ≠ tx_ID tx → mm_transactions (b_mem b') !! id = mm_transactions (b_mem b) !! id) ∧
    match r with
    | Ok t => mm_transactions (b_mem b') !! tx_ID tx = Some t ∧ tx_State t = s ∧
              tx_State tx = StateActive ∧ tx_Operations t = tx_Operations tx ∧
              ∀ op, op ∈ tx_Operations tx → op_Kind op = OpPublish →
                mm_messages (b_mem b') !! op_MessageID op = None
    | _ => True
    end) b.
Proof.
  intros Hw Ha Htx. unfold tx_rollback. wpe_step.
  eapply wpe_mono; [by apply (rollback_loop_spec _ b0)|].
  intros r b1 ((Hp & Hw1 & Ha1) & Ht1 & _ & Hops).
  destruct r as [[]|e|]; [|split; [by apply step_err|]; split; [by intros; rewrite Ht1|done]|done].
  eapply wpe_mono; [apply (complete_tx_spec tx s b0); [done|done|by rewrite Ht1]|].
  intros r b2 (Hs2 & Hm2 & Ho2 & Hr2). split; [done|]. split; [by intros; rewrite Ho2, Ht1|].
  destruct r as [t| |]; [|done..]. destruct Hr2 as (? & ? & _ & ? & ?). split_and!; try done.
  intros op Hop Hk. rewrite Hm2. by apply Hops.
Qed.

Lemma TxGet_spec {A} id (f : Transaction → env (broker L) A) (Q : res A → broker L → Prop) b :
  wf_broker b → (∀ e, Q (Err e) b) →
  (∀ tx, mm_transactions (b_mem b) !! tx_ID tx = Some tx → tx_ID tx = id → wpe (f tx) Q b) →
  wpe (mem (TransactionMemory_Get id) ≫= f) Q b.
Proof.
  intros Hw He HQ. wpe_step. apply wpe_mem, wpe_TxGet; rewrite ?set_mem_self; [done|].
  intros tx Htx. pose proof (wb_tx_id b id tx Hw Htx) as Hid. apply HQ; [by rewrite Hid|done].
Qed.

(** The commit loop keeps the transactions and, operation by operation, the
    messages. *)
Lemma commit_op_safe op b0 b :
  wf_broker b → keeps b0 b → wpe (commit_op op) (safe_post b0) b.
Proof.
  intros Hw Hk. unfold commit_op. destruct (op_Kind op); try (wpe_auto; by apply safe_ok).
  wpe_step. eapply wpe_mono; [by apply (CommitStaged_safe _ b0)|].
  intros [[]|e|] b' (? & ? & ?); [by apply safe_ok|by apply safe_err|done].
Qed.

Lemma Tx_Commit_step id b0 b :
  wf_broker b → advances b0 b → wpe (Tx_Commit id) (step_post b0) b.
Proof.
  intros Hw Ha. unfold Tx_Commit. apply TxGet_spec; [done|intros; by apply step_err|].
  intros tx Htx _. wpe_step. wpe_step. destruct (Transaction_Expired tx now).
  - wpe_step. wpe_step. eapply wpe_mono; [by apply (tx_rollback_spec tx _ b0)|].
    intros [t|e|] b' ((? & ? & ?) & _); [wpe_auto; by apply step_err..|done].
  - wpe_step. eapply wpe_mono.
    { apply (safe_for_each (tx_Operations tx) commit_op b b); [done|done|].
      intros. by apply commit_op_safe. }
    intros [[]|e|] b1 (Hp & Hw1 & Hk1); [| |done].
    + assert (advances b0 b1) by (etrans; [exact Ha|by apply keeps_advances]).
      eapply wpe_mono; [apply (complete_tx_spec tx StateCommitted b0); [done|done|]|].
      { destruct Hk1 as (_ & _ & -> & _). done. }
      by intros r b2 (? & _).
    + apply step_err; [done|]. etrans; [exact Ha|by apply keeps_advances].
Qed.

Lemma Tx_Rollback_step id b0 b :
  wf_broker b → advances b0 b → wpe (Tx_Rollback id) (step_post b0) b.
Proof.
  intros Hw Ha. unfold Tx_Rollback. apply TxGet_spec; [done|intros; by apply step_err|].
  intros tx Htx _. eapply wpe_mono; [by apply (tx_rollback_spec tx _ b0)|]. by intros r b' (? & _).
Qed.

Lemma Declare_step ttl c b0 b :
  wf_broker b → advances b0 b → wpe (Declare_tx ttl c) (step_post b0) b.
Proof.
  intros Hw Ha. unfold Declare_tx, txID. wpe_auto; [by apply step_err|].
  unfold transaction_New. destruct (_ || _); wpe_auto; [by apply step_err|].
  apply wpe_mem, wpe_TxCreate; rewrite ?set_mem_self; [intros; by apply step_err|].
  intros Hnew. wpe_auto. edestruct (wf_new_tx b) as [Hw' Ha']; [done|exact Hnew|].
  apply step_ok; [exact Hw'|]. by etrans.
Qed.

Lemma add_all_spec msgs : ∀ tx tx', add_all tx msgs = Ok tx' →
  tx_ID tx' = tx_ID tx ∧ tx_State tx' = tx_State tx ∧
  tx_Operations tx' = tx_Operations tx ++
    ((λ m, mkOperation OpPublish (m_ID m) (m_Address m) 0) <$> msgs) ∧
  (tx' = tx ∨ tx_State tx = StateActive).
Proof.
  induction msgs as [|m msgs IH]; intros tx tx' E; cbn in E.
  { simplify_res. cbn. rewrite app_nil_r. auto. }
  destruct (Transaction_Add_cases (mkOperation OpPublish (m_ID m) (m_Address m) 0) tx)
    as [(Hact & _ & E1)|[e E1]]; rewrite E1 in E; [|done].
  destruct (IH _ _ E) as (H1 & H2 & H3 & _); cbn in *. split_and!; try done; [|by right].
  rewrite H3. by rewrite <-app_assoc.
Qed.

Lemma StagePublish_step id p b0 b :
  wf_broker b → advances b0 b → wpe (StagePublish id p) (step_post b0) b.
Proof.
  intros Hw Ha. unfold StagePublish. apply TxGet_spec; [done|intros; by apply step_err|].
  intros tx Htx _. wpe_step. wpe_step. wpe_step. wpe_step; [by apply step_err|].
  wpe_step. eapply wpe_mono; [by apply Stage_safe|].
  intros [msgs|e|] b1 (Hp & Hw1 & Hk1); [| |done];
    (assert (advances b0 b1) as Ha1 by (etrans; [exact Ha|by apply keeps_advances]));
    [|by apply step_err].
  destruct (add_all tx msgs) as [tx'|e|] eqn:Ea; wpe_auto; [|by apply step_err|].
  2: { exfalso. clear -Ea. revert tx Ea. induction msgs as [|m msgs IH]; intros tx Ea; [done|].
       cbn in Ea. destruct (Transaction_Add_cases (mkOperation OpPublish (m_ID m) (m_Address m) 0) tx)
         as [(_ & _ & E1)|[e E1]]; rewrite E1 in Ea; [|done]. by eapply IH. }
  destruct (add_all_spec _ _ _ Ea) as (I1 & S1 & O1 & C1).
  apply wpe_mem, wpe_TxUpdate; rewrite ?set_mem_self; [intros; by apply step_err|].
  intros old Hold Hver. wpe_auto.
  assert (old = tx) as ->.
  { destruct Hk1 as (_ & _ & Et & _). rewrite Et, I1, Htx in Hold. by injection Hold. }
  destruct (wf_put_tx b1 tx tx' Hw1 Hold) as [Hw2 Ha2].
  { destruct C1 as [->|Hact]; [by left|]. right. rewrite S1.
    split_and!; try done; [by eexists|by left]. }
  apply step_ok; [done|]. by etrans.
Qed.

(** The sweep works through transactions that are all still stored. *)
Definition tx_stored b (txs : list Transaction) : Prop :=
  NoDup (tx_ID <$> txs) ∧ ∀ t, t ∈ txs → mm_transactions (b_mem b) !! tx_ID t = Some t.

Lemma Tx_Sweep_step b0 b : wf_broker b → advances b0 b → wpe Tx_Sweep (step_post b0) b.
Proof.
  intros Hw Ha. unfold Tx_Sweep. wpe_step.
  apply wpe_mem, wpe_ListActive; rewrite ?set_mem_self; [intros; by apply step_err|]. intros txs Htxs.
  assert (keyed tx_ID (mm_transactions (b_mem b))) as Hkey by (intros k t Ht; by eapply wb_tx_id).
  apply (wpe_fold_each _ _ _ (λ l _ b', wf_broker b' ∧ advances b0 b' ∧ tx_stored b' l)).
  - split_and!; [done|done|]. split.
    + rewrite sort_stable_perm.
      eapply sublist_NoDup; [|apply fmap_sublist, sublist_filter].
      rewrite Htxs. by apply (NoDup_keyed_values tx_ID).
    + intros t. rewrite sort_stable_perm, list_elem_of_filter, Htxs.
      rewrite (elem_of_keyed_values tx_ID) by done. tauto.
  - intros tx l acc b' (Hw' & Ha' & Hnd & Hst). cbn in Hnd. apply NoDup_cons in Hnd as [Hn1 Hn2].
    assert (mm_transactions (b_mem b') !! tx_ID tx = Some tx) as Htx by (apply Hst; by left).
    assert (tx_stored b' l) as Hl by (split; [done|]; intros t Ht; apply Hst; by right).
    unfold sweep_tx. wpe_step. wpe_step.
    destruct (Transaction_Expired tx now); [|wpe_auto; by split_and!].
    wpe_step. eapply wpe_mono; [by apply (tx_rollback_spec tx _ b0)|].
    intros [t|e|] b'' ((? & ? & ?) & Hother & _); [wpe_auto|by apply step_err|done].
    split_and!; [done|done|]. split; [done|]. intros t' Ht'. rewrite Hother; [by apply Hl|].
    intros E. apply Hn1. rewrite <-E. by apply list_elem_of_fmap_2.
  - intros acc b' (? & ? & _). by apply step_ok.
Qed.
End operations.

(** C7. Rollback removes everything the transaction staged: when [Rollback]
    succeeds, in any environment, the transaction was active and is stored as
    rolled back with its operations, and none of the messages those
    operations staged is left in the store. *)
Theorem Rollback_removes_staged (orc : Oracle) (M : Matcher) (L : Type) (HL : BodyLog L)
    (HLaws : BodyLogLaws L) (id : string) (b b' : broker L) (n n' : nat) (t : Transaction) :
  wf_broker b → Tx_Rollback id (b, n) = (Ok t, (b', n')) →
  mm_transactions (b_mem b') !! id = Some t ∧ tx_State t = StateRolledBack ∧
  ∃ t0, mm_transactions (b_mem b) !! id = Some t0 ∧ tx_State t0 = StateActive ∧
    tx_Operations t = tx_Operations t0 ∧
    ∀ op, op ∈ tx_Operations t0 → op_Kind op = OpPublish →
      mm_messages (b_mem b') !! op_MessageID op = None.
Proof.
  intros Hw E.
  refine (wpe_elim _ (λ r b', match r with Ok t => mm_transactions (b_mem b') !! id = Some t ∧
      tx_State t = StateRolledBack ∧
      ∃ t0, mm_transactions (b_mem b) !! id = Some t0 ∧ tx_State t0 = StateActive ∧
        tx_Operations t = tx_Operations t0 ∧
        ∀ op, op ∈ tx_Operations t0 → op_Kind op = OpPublish →
          mm_messages (b_mem b') !! op_MessageID op = None
    | _ => True end) b n _ b' n' _ E).
  unfold Tx_Rollback. apply TxGet_spec; [done|done|]. intros tx Htx <-.
  eapply wpe_mono; [by apply (tx_rollback_spec tx _ b b)|].
  intros [t'|e|] b1 (_ & _ & Hr); [|done..]. destruct Hr as (? & ? & ? & ? & ?).
  split_and!; [done|done|]. exists tx. by split_and!.
Qed.

(** ** Commit *)
Section commit.
Context `{orc : Oracle, mtch : !Matcher} {L : Type} `{BodyLogLaws L}.
Implicit Types b : broker L.

(** A staged message that is published: available, out of its transaction. *)
Definition unstaged (m : Message) : Message := set_TransactionID "" (set_State StateAvailable m).

(** The address has a maximum length and at least so many available messages. *)
Definition full b (name : string) : Prop :=
  ∃ a, mm_addresses (b_mem b) !! name = Some a ∧ a_MaxLength a ≠ 0 ∧
    a_MaxLength a ≤ Z.of_nat (length (ready_at b name)).

(** An available message of a full queue was dead-lettered for its length: in
    place, or to the dead-letter address, where it is available. *)
Definition evicted b (m m' : Message) : Prop :=
  m_State m = StateAvailable ∧ full b (m_Address m) ∧
  ∃ a, mm_addresses (b_mem b) !! m_Address m = Some a ∧
    (m' = marked_dead m "max-length" ∨ m' = moved_dead a m "max-length").

(** The staged message [m0] is published as it is, or was then evicted, maybe
    also from the dead-letter queues it came to. *)
Definition committed b (m0 : Message) : Prop :=
  ∃ m, mm_messages (b_mem b) !! m_ID m0 = Some m ∧ rtc (evicted b) (unstaged m0) m.

(** What the steps of a commit keep. *)
Definition commits b b' : Prop :=
  mm_addresses (b_mem b') = mm_addresses (b_mem b) ∧
  (∀ name, full b name → full b' name) ∧
  (∀ id m, mm_messages (b_mem b') !! id = Some m → m_State m = StateAcquired →
     mm_messages (b_mem b) !! id = Some m) ∧
  (∀ m0, committed b m0 → committed b' m0).

#[local] Instance commits_preorder : PreOrder commits.
Proof.
  split; [intros b; by split_and!|]. intros x y z (A1 & F1 & M1 & C1) (A2 & F2 & M2 & C2).
  split_and!; [congruence|auto..].
Qed.

Lemma evicted_mono b b' m m' :
  mm_addresses (b_mem b') = mm_addresses (b_mem b) → (∀ name, full b name → full b' name) →
  rtc (evicted b) m m' → rtc (evicted b') m m'.
Proof.
  intros Ha Hf. apply rtc_subrel. intros x y (Hs & Hx & Hd). unfold evicted. rewrite Ha. auto.
Qed.

Lemma committed_same b b' m0 :
  mm_messages (b_mem b') = mm_messages (b_mem b) → mm_addresses (b_mem b') = mm_addresses (b_mem b) →
  committed b m0 → committed b' m0.
Proof.
  intros Hm Ha (m & Hl & Hc). exists m. rewrite Hm. split; [done|]. eapply evicted_mono; [exact Ha| |exact Hc].
  intros name (a & Hx). exists a. unfold ready_at. by rewrite Hm, Ha.
Qed.

(** A message that was not available at [name] takes nothing from its list. *)
Lemma ready_at_put b m m' name :
  mm_messages (b_mem b) !! m_ID m = Some m → m_ID m' = m_ID m → ¬ ready name m →
  (length (ready_at b name) ≤ length (ready_at (put_msg m' b) name))%nat.
Proof.
  intros Hm Hid Hr. unfold ready_at, put_msg. cbn. rewrite Hid, map_values_insert.
  rewrite (Permutation_length (filter_Permutation _ _ _ (map_values_delete _ _ _ Hm))).
  rewrite filter_cons_False by done. rewrite filter_cons. case_decide; cbn [length]; lia.
Qed.

(** A message changes its state to one that is not acquired. *)
Lemma commits_put b m m' :
  mm_messages (b_mem b) !! m_ID m = Some m → m_ID m' = m_ID m → m_State m' ≠ StateAcquired →
  (∀ name, full b name → full (put_msg m' b) name) →
  (m' = unstaged m ∧ m_State m = StateAcquired ∨ evicted (put_msg m' b) m m') →
  commits b (put_msg m' b).
Proof.
  intros Hm Hid Hst Hf Hm'. split_and!; [done|done|..].
  - intros id x. cbn. rewrite Hid. destruct (decide (m_ID m = id)) as [<-|Hne].
    + rewrite lookup_insert_eq. by intros [= <-].
    + by rewrite lookup_insert_ne.
  - intros m0 (x & Hx & Hc). assert (rtc (evicted (put_msg m' b)) (unstaged m0) x) as Hc'.
    { by apply (evicted_mono b). }
    unfold committed. cbn. rewrite Hid. destruct (decide (m_ID m = m_ID m0)) as [He|Hne].
    + rewrite He, lookup_insert_eq. exists m'. split; [done|]. rewrite <-He, Hm in Hx. injection Hx as <-.
      destruct Hm' as [[_ Hacq]|Hev]; [|by eapply rtc_r]. exfalso.
      apply rtc_inv_r in Hc as [<-|(y & _ & (_ & _ & a & _ & [-> | ->]))]; by cbn in Hacq.
    + rewrite lookup_insert_ne by done. by exists x.
Qed.

Lemma enforce_loop_commits name a fuel : ∀ ms b,
  wf_broker b → stored b ms → ready_at b name ≡ₚ ms →
  mm_addresses (b_mem b) !! name = Some a → a_MaxLength a ≠ 0 →
  wpe (enforce_loop fuel (a_MaxLength a) ms) (λ _ b', commits b b') b.
Proof.
  induction fuel as [|fuel IH]; intros ms b Hw Hs Hr Ha Hmax; cbn [enforce_loop];
    (destruct (Z.ltb_spec (a_MaxLength a) (Z.of_nat (length ms))); cbn [negb]; [|by wpe_auto]); [by wpe_auto|].
  destruct (last ms) as [v|] eqn:Ev; [|by wpe_auto].
  apply last_Some in Ev as [ms' ->]. rewrite length_app in *. cbn [length] in *.
  replace (length ms' + 1 - 1)%nat with (length ms') by lia. rewrite take_app_length.
  assert (stored b (v :: ms')) as Hs'.
  { eapply stored_perm; [|exact Hs]. by rewrite Permutation_app_comm. }
  assert (mm_messages (b_mem b) !! m_ID v = Some v) as Hv by (apply Hs'; by left).
  assert (ready name v) as [Hav Hst].
  { assert (v ∈ ready_at b name) as Hin by (rewrite Hr; set_solver).
    by apply list_elem_of_filter in Hin as [? _]. }
  wpe_step. eapply wpe_deadLetter; [exact Hv|done|]. rewrite Hav. intros a' Ha'.
  rewrite Ha in Ha'. injection Ha' as <-.
  assert (∀ v', same_message v v' → m_State v' ≠ StateAcquired → ¬ ready name v' →
    v' = marked_dead v "max-length" ∨ v' = moved_dead a v "max-length" →
    wpe (enforce_loop fuel (a_MaxLength a) ms') (λ _ b', commits b b') (put_msg v' b)) as Hn.
  { intros v' Hsame Hst' Hnr Hv'. assert (m_ID v' = m_ID v) as Hid by apply Hsame.
    assert (ready_at (put_msg v' b) name ≡ₚ ms') as Hr'.
    { apply (ready_at_evict b name v); try done. by rewrite Hr, Permutation_app_comm. }
    assert (full (put_msg v' b) name) as Hfull by (exists a; split_and!; [done|done|rewrite Hr'; lia]).
    assert (commits b (put_msg v' b)) as Hc.
    { apply (commits_put b v); try done; [|right; by unfold evicted; rewrite Hav; eauto].
      intros x (ax & Hax & Hmx & Hx). destruct (decide (x = name)) as [->|Hne]; [done|].
      exists ax. split_and!; [done|done|].
      assert (¬ ready x v) as Hnx by (intros [? _]; congruence).
      pose proof (ready_at_put b v v' x Hv Hid Hnx). lia. }
    eapply wpe_mono; [apply (IH ms' (put_msg v' b)); try done|].
    - by eapply wf_put_msg.
    - eapply stored_tail; [exact Hs'|]. intros id Hne. cbn. rewrite Hid. by apply lookup_insert_ne.
    - intros r b' Hb'. by etrans. }
  pose proof (wb_addresses b Hw _ _ Ha) as (Hna & _ & _ & _ & _ & Hdl).
  split; [|intros _]; apply Hn; auto; try (apply marked_dead_same || apply moved_dead_same); try done.
  - apply marked_dead_not_ready.
  - rewrite <-Hav. apply moved_dead_not_ready. congruence.
Qed.

Lemma enforceMaxLength_commits name b : wf_broker b →
  wpe (enforceMaxLength name) (λ _ b', commits b b') b.
Proof.
  intros Hw. unfold enforceMaxLength. mem_step; [done|]. intros a Ha.
  destruct (Z.eqb_spec (a_MaxLength a) 0); [by wpe_auto|]. mem_step; [done|]. intros ms Hms.
  pose proof (stored_ready b name 0 ms Hw Hms) as Hs. rewrite truncate_limit_0 in *.
  apply enforce_loop_commits with (name := name); try done. unfold ready_at. by rewrite sort_stable_perm, Hms.
Qed.

(** A message the transaction had staged, and that is now published. *)
Definition staged_committed b b' (id : string) : Prop :=
  ∃ m0, mm_messages (b_mem b) !! id = Some m0 ∧ m_State m0 = StateAcquired ∧ m_TransactionID m0 ≠ "" ∧
    committed b' m0.

Lemma CommitStaged_commits id b : wf_broker b →
  wpe (CommitStaged id) (λ r b', commits b b' ∧ (r = Ok tt → staged_committed b b' id)) b.
Proof.
  intros Hw. unfold CommitStaged. mem_step; [done|]. intros m Hm.
  assert (mm_messages (b_mem b) !! m_ID m = Some m) as Hm' by (by eapply wb_message_self).
  assert (m_ID m = id) as <- by (by eapply wb_message_id).
  wpe_step. apply wpe_guard; intros Hg; [done|]. apply orb_false_iff in Hg as [Hacq Htx].
  apply negb_false_iff, bool_decide_eq_true in Hacq. apply bool_decide_eq_false in Htx.
  cbv zeta. mem_step; [done|]. intros x _. fold (unstaged m). change (set_mem _ _) with (put_msg (unstaged m) b).
  assert (commits b (put_msg (unstaged m) b)) as Hc.
  { apply (commits_put b m); try done; [|by left]. intros name (a & Ha & Hmax & Hl). exists a.
    split_and!; [done|done|]. assert (¬ ready name m) as Hnr by (intros [_ ?]; congruence).
    pose proof (ready_at_put b m (unstaged m) name Hm' eq_refl Hnr). lia. }
  eapply wpe_mono; [apply enforceMaxLength_commits|].
  - eapply wf_put_msg; [done|exact Hm'|]. unfold same_message. cbn. split_and!; auto; lia.
  - intros r b' Hb'. split; [by etrans|]. intros _. exists m. split_and!; try done. apply Hb'.
    exists (unstaged m). split; [apply lookup_insert_eq|done].
Qed.

Lemma commit_loop_commits ops : ∀ b, wf_broker b →
  wpe (for_each ops commit_op) (λ r b', commits b b' ∧ (r = Ok tt →
    ∀ op, op ∈ ops → op_Kind op = OpPublish → staged_committed b b' (op_MessageID op))) b.
Proof.
  induction ops as [|op ops IH]; intros b Hw; cbn [for_each].
  { wpe_auto. split; [done|]. intros _ op Hop. by apply not_elem_of_nil in Hop. }
  wpe_step. destruct (decide (op_Kind op = OpPublish)) as [Hk|Hk].
  - unfold commit_op at 1. rewrite Hk. wpe_step.
    eapply wpe_mono; [apply wpe_and; [by apply CommitStaged_commits|by apply (CommitStaged_safe _ b)]|].
    intros [[]|e|] b1 ((Hc & Hst) & Hp & Hw1 & _); [|by split..].
    eapply wpe_mono; [by apply IH|]. intros r b2 [Hc2 H2]. split; [by etrans|]. intros Hr op' Hin Hk'.
    apply elem_of_cons in Hin as [->|Hin].
    + destruct (Hst eq_refl) as (m0 & H3 & H4 & H5 & H6). exists m0. split_and!; try done. by apply Hc2.
    + destruct (H2 Hr op' Hin Hk') as (m0 & H3 & H4 & H5 & H6). exists m0. split_and!; try done.
      by apply Hc.
  - assert (commit_op op = mret tt) as -> by (unfold commit_op; by destruct (op_Kind op)).
    wpe_step. eapply wpe_mono; [by apply IH|]. intros r b2 [Hc H2]. split; [done|]. intros Hr op' Hin Hk'.
    apply elem_of_cons in Hin as [->|Hin]; [done|by apply H2].
Qed.
End commit.

(** C6. Commit publishes everything the transaction staged: when [Commit]
    succeeds, in any environment, the transaction is stored as committed, and
    every message it lists was staged before and is now available at its
    address, out of the transaction and otherwise unchanged; or it was evicted
    since then from a queue with a maximum length that has at least so many
    available messages, to the dead-letter address or in place, with the
    reason recorded. *)
Theorem Commit_publishes_staged (orc : Oracle) (M : Matcher) (L : Type) (HL : BodyLog L)
    (HLaws : BodyLogLaws L) (id : string) (b b' : broker L) (n n' : nat) (t : Transaction) :
  wf_broker b → Tx_Commit id (b, n) = (Ok t, (b', n')) →
  mm_transactions (b_mem b') !! id = Some t ∧ tx_State t = StateCommitted ∧
  (∃ t0, mm_transactions (b_mem b) !! id = Some t0 ∧ tx_Operations t = tx_Operations t0) ∧
  ∀ op, op ∈ tx_Operations t → op_Kind op = OpPublish → staged_committed b b' (op_MessageID op).
Proof.
  intros Hw E.
  refine (wpe_elim _ (λ r b', match r with Ok t => mm_transactions (b_mem b') !! id = Some t ∧
      tx_State t = StateCommitted ∧
      (∃ t0, mm_transactions (b_mem b) !! id = Some t0 ∧ tx_Operations t = tx_Operations t0) ∧
      ∀ op, op ∈ tx_Operations t → op_Kind op = OpPublish → staged_committed b b' (op_MessageID op)
    | _ => True end) b n _ b' n' _ E).
  unfold Tx_Commit. apply TxGet_spec; [done|done|]. intros tx Htx <-. wpe_step. wpe_step.
  destruct (Transaction_Expired tx now).
  { wpe_step. wpe_step. eapply wpe_mono; [by apply (tx_rollback_spec tx _ b b)|].
    intros [?|?|] b1 ((? & ?) & _); [by wpe_auto..|done]. }
  wpe_step. eapply wpe_mono.
  { apply wpe_and; [apply (commit_loop_commits (tx_Operations tx) b Hw)|
      apply (safe_for_each (tx_Operations tx) commit_op b b); [done|done|]].
    intros. by apply commit_op_safe. }
  intros [[]|e|] b1 ((_ & Hc) & Hp & Hw1 & Hk1); [|done..].
  eapply wpe_mono; [apply wpe_and; [apply complete_tx_addresses|
    apply (complete_tx_spec tx StateCommitted b b1); [done|by apply keeps_advances|]]|].
  { destruct Hk1 as (_ & _ & -> & _). done. }
  intros [t'|e|] b2 (Ha2 & _ & Hm2 & _ & Hr); [|done..]. destruct Hr as (Ht' & Hs' & _ & _ & Ho').
  split_and!; [done|done|by exists tx|]. rewrite Ho'. intros op Hop Hk.
  destruct (Hc eq_refl op Hop Hk) as (m0 & H1 & H2 & H3 & H4). exists m0. split_and!; try done.
  by apply (committed_same b1).
Qed.

(** ** Staged messages are invisible *)
Section invisible.
Context `{orc : Oracle, mtch : !Matcher} {L : Type} `{BodyLogLaws L}.
Implicit Types b : broker L.

Lemma ready_at_staged b m a : mm_messages (b_mem b) !! m_ID m = None → m_State m = StateAcquired →
  ready_at (put_msg m b) a ≡ₚ ready_at b a.
Proof.
  intros Hm Hs. unfold ready_at, put_msg. cbn.
  rewrite map_values_insert, delete_id, filter_cons_False; [done| |done].
  intros [_ ?]. congruence.
Qed.

Lemma stage_route_invisible p out route b0 b :
  wf_broker b → (∀ a, ready_at b a ≡ₚ ready_at b0 a) →
  wpe (stage_route p out route) (λ r b', (r = Panic → False) ∧ wf_broker b' ∧
    ∀ a, ready_at b' a ≡ₚ ready_at b0 a) b.
Proof.
  intros Hw Hr. unfold stage_route, randomID. wpe_auto; [done|].
  destruct (NewMessage _ _ _) as [m|e|] eqn:Em; wpe_auto; [|done|].
  2: { unfold NewMessage in Em. by repeat case_match. }
  pose proof (NewMessage_Ok _ _ _ _ Em) as (Hid & _).
  assert (∀ b', b_mem b' = b_mem b → ∀ a, ready_at b' a ≡ₚ ready_at b0 a) as Hmem.
  { intros b' E a. rewrite <-Hr. unfold ready_at. by rewrite E. }
  apply (wpe_append _ _ b); [done|done|cbn; rewrite Hid; by apply log_id_msg| |].
  { intros e bk Hw1 _ E. split_and!; [done|done|by apply Hmem]. }
  intros off bk Hw1 _ E Hoff. mem_step; [intros e; split_and!; [done|done|by apply Hmem]|].
  intros Hnew. set (msg := set_LogOffset off (set_State StateAcquired m)) in *. wpe_auto.
  change (set_mem _ _) with (put_msg msg bk).
  destruct (wf_new_msg bk msg Hw1 Hnew) as [Hw2 _]; [by eapply wf_message_new|].
  split_and!; [done|done|]. intros a. rewrite ready_at_staged by done. by apply Hmem.
Qed.

Lemma Stage_invisible_wp p b : wf_broker b →
  wpe (Stage p) (λ _ b', ∀ a, ready_at b' a ≡ₚ ready_at b a) b.
Proof.
  intros Hw. unfold Stage. wpe_step. wpe_step; [done|]. mem_step; [done|]. intros a _.
  unfold Accepting. destruct (a_Paused a); wpe_auto; [done|].
  apply wpe_mem. eapply wpe_mono; [apply Resolve_readonly|].
  intros [routes|e|] m [-> Hp]; rewrite ?set_mem_self; [|done..]. wpe_auto; [done|].
  apply (wpe_fold_each _ _ _ (λ _ _ b', wf_broker b' ∧ ∀ a, ready_at b' a ≡ₚ ready_at b a)); [done| |].
  - intros x l' acc b' [Hw' Hr']. eapply wpe_mono; [by apply (stage_route_invisible _ _ _ b)|].
    by intros [?|?|] b'' (? & ? & ?).
  - by intros acc b' [_ ?].
Qed.
End invisible.

(** C20. Staged messages are invisible until the commit: staging a publish in
    a transaction, whether it succeeds or fails half way, leaves the available
    messages of every address exactly as they were. *)
Theorem StagePublish_invisible (orc : Oracle) (M : Matcher) (L : Type) (HL : BodyLog L)
    (HLaws : BodyLogLaws L) (id : string) (p : Publish) (b b' : broker L) (n n' : nat)
    (r : res (list Message)) :
  wf_broker b → StagePublish id p (b, n) = (r, (b', n')) →
  ∀ a, ready_at b' a ≡ₚ ready_at b a.
Proof.
  intros Hw E. refine (wpe_elim _ (λ _ b', ∀ a, ready_at b' a ≡ₚ ready_at b a) b n r b' n' _ E).
  unfold StagePublish. apply TxGet_spec; [done|done|]. intros tx Htx _.
  wpe_step. wpe_step. wpe_step. wpe_step; [done|]. wpe_step.
  eapply wpe_mono; [by apply Stage_invisible_wp|]. intros [msgs|e|] b1 Hb1; [|done..].
  destruct (add_all tx msgs); wpe_auto; try done.
  apply wpe_mem, wpe_TxUpdate; rewrite ?set_mem_self; [done|]. intros old _ _. by wpe_auto.
Qed.

(** ** Concrete runs *)
Definition demo_declared : broker MemoryLog * nat :=
  demo_after (Declare_tx (orc := test_oracle) Hour "conn-1") (demo_broker, O).

Definition demo_tx : string :=
  match (Declare_tx (orc := test_oracle) Hour "conn-1" (demo_broker, O)).1 with
  | Ok t => tx_ID t
  | _ => ""
  end.

Definition demo_staged : broker MemoryLog * nat :=
  demo_after (StagePublish (orc := test_oracle) demo_tx (demo_publish "hello" 4 Hour)) demo_declared.

Lemma demo_declared_wf : wf_broker demo_declared.1.
Proof.
  unfold demo_declared, demo_after.
  destruct (Declare_tx Hour "conn-1" (demo_broker, O)) as [r [b n]] eqn:E. cbn [fst snd].
  apply (wpe_elim _ _ _ _ _ _ _ (Declare_step (orc := test_oracle) Hour "conn-1" demo_broker demo_broker demo_wf ltac:(reflexivity)) E).
Qed.

Lemma demo_staged_wf : wf_broker demo_staged.1.
Proof.
  unfold demo_staged, demo_after. pose proof demo_declared_wf as Hw.
  destruct demo_declared as [b0 n0]. cbn [fst] in Hw.
  destruct (StagePublish demo_tx _ (b0, n0)) as [r [b n]] eqn:E. cbn [fst snd].
  apply (wpe_elim _ _ _ _ _ _ _
    (StagePublish_step (orc := test_oracle) demo_tx (demo_publish "hello" 4 Hour) b0 b0 Hw ltac:(reflexivity)) E).
Qed.

Lemma Rollback_removes_staged_witness :
  ∃ t b' n', Tx_Rollback (orc := test_oracle) demo_tx demo_staged = (Ok t, (b', n')) ∧
    tx_State t = StateRolledBack ∧ length (tx_Operations t) = 1%nat.
Proof.
  assert (match (Tx_Rollback (orc := test_oracle) demo_tx demo_staged).1 with
    | Ok t => length (tx_Operations t) = 1%nat | _ => False end) as Hrun by (vm_compute; reflexivity).
  destruct (Tx_Rollback (orc := test_oracle) demo_tx demo_staged) as [r [b' n']] eqn:E.
  destruct r as [t|e|]; [|destruct Hrun..]. exists t, b', n'. split; [reflexivity|].
  split; [|exact Hrun].
  apply (Rollback_removes_staged test_oracle StandardMatcher MemoryLog _ _ demo_tx
    demo_staged.1 b' demo_staged.2 n' t demo_staged_wf).
  rewrite <-E. by destruct demo_staged.
Defined.

Lemma Commit_publishes_staged_witness :
  ∃ t b' n', Tx_Commit (orc := test_oracle) demo_tx demo_staged = (Ok t, (b', n')) ∧
    tx_State t = StateCommitted ∧ length (tx_Operations t) = 1%nat.
Proof.
  assert (match (Tx_Commit (orc := test_oracle) demo_tx demo_staged).1 with
    | Ok t => length (tx_Operations t) = 1%nat | _ => False end) as Hrun by (vm_compute; reflexivity).
  destruct (Tx_Commit (orc := test_oracle) demo_tx demo_staged) as [r [b' n']] eqn:E.
  destruct r as [t|e|]; [|destruct Hrun..]. exists t, b', n'. split; [reflexivity|].
  split; [|exact Hrun].
  apply (Commit_publishes_staged test_oracle StandardMatcher MemoryLog _ _ demo_tx
    demo_staged.1 b' demo_staged.2 n' t demo_staged_wf).
  rewrite <-E. by destruct demo_staged.
Defined.

Lemma StagePublish_invisible_witness :
  length (map_values (mm_messages (b_mem demo_staged.1))) = 1%nat ∧
  ready_at demo_staged.1 "jobs" ≡ₚ ready_at demo_declared.1 "jobs".
Proof.
  split; [vm_compute; reflexivity|].
  apply (StagePublish_invisible test_oracle StandardMatcher MemoryLog _ _ demo_tx
    (demo_publish "hello" 4 Hour) demo_declared.1 demo_staged.1 demo_declared.2 demo_staged.2
    (StagePublish (orc := test_oracle) demo_tx (demo_publish "hello" 4 Hour) demo_declared).1).
  - exact demo_declared_wf.
  - unfold demo_staged, demo_after. destruct demo_declared as [b0 n0]. cbn [fst snd].
    by destruct (StagePublish demo_tx _ (b0, n0)) as [r [b n]].
Defined.

(** A publish staged in a transaction that was already committed. *)
Definition orphan_run : res (list Message) * list (State * bool) :=
  let s := demo_after (Tx_Commit (orc := test_oracle) demo_tx) demo_declared in
  let '(r, (b, _)) := StagePublish (orc := test_oracle) demo_tx (demo_publish "late" 4 Hour) s in
  (r, (λ m, (m_State m, bool_decide (m_TransactionID m = demo_tx))) <$>
        map_values (mm_messages (b_mem b))).

(** Staging into a completed transaction fails but leaves the message
    behind: it stays staged under a transaction that can no longer be
    committed or rolled back. *)
Theorem StagePublish_orphans :
  orphan_run = (Err (ErrNew "transaction is not active"), [(StateAcquired, true)]).
Proof. vm_compute. reflexivity. Qed.
