(* ===== verification/Broker.v ===== *)
(** * The broker as a transition system

    The calls the HTTP, gRPC and AMQP front ends and the workers make on the
    address, delivery and transaction services, as one step relation on the
    broker state; the invariant and the conservation properties of every
    reachable state, by induction on the steps. *)

From S2P Require Import Prelude Bytes Text Duration Matcher Address Message Transaction Env.
From S2P Require Import Memory BodyLog Router Delivery DeliveryInv DeliveryFacts TxService.
From S2P Require Import TxFacts.

(** ** Calls and steps *)
Inductive call :=
  | CallCreate (c : Create)
  | CallBind (b : Bind)
  | CallPause (name : string) (pause : bool)
  | CallPublish (p : Publish)
  | CallRegister (id address : string) (prefetch : Z) (sem : Semantics)
  | CallAcquire (consumer : string)
  | CallSettle (consumer : string) (delivery : Z) (state : State)
  | CallDisconnect (consumer : string)
  | CallSweepExpired
  | CallReplayDead (limit : Z)
  | CallDeclare (ttl : duration) (connection : string)
  | CallStagePublish (tx : string) (p : Publish)
  | CallCommit (tx : string)
  | CallRollback (tx : string)
  | CallSweepTx.

(** A [uint32] argument is in range. *)
Definition call_in_range (c : call) : Prop :=
  match c with CallRegister _ _ n _ => 0 ≤ n < 2 ^ 32 | _ => True end.

Definition ignore {S A} (m : go S A) : go S unit := m;; mret tt.

Section steps.
Context {L : Type} `{BodyLog L}.

Definition exec `{orc : Oracle, mtch : !Matcher} (c : call) : env (broker L) unit :=
  match c with
  | CallCreate c => ignore (mem (address_Create c))
  | CallBind b => ignore (mem (address_Bind b))
  | CallPause name pause => ignore (mem (address_Pause name pause))
  | CallPublish p => ignore (Service_Publish p)
  | CallRegister id a n sem => ignore (Service_Register id a n sem)
  | CallAcquire id => ignore (Service_Acquire id)
  | CallSettle id d st => Service_Settle id d st
  | CallDisconnect id => Service_Disconnect id
  | CallSweepExpired => ignore SweepExpired
  | CallReplayDead n => ignore (ReplayDead n)
  | CallDeclare ttl c => ignore (Declare_tx ttl c)
  | CallStagePublish tx p => ignore (StagePublish tx p)
  | CallCommit tx => ignore (Tx_Commit tx)
  | CallRollback tx => ignore (Tx_Rollback tx)
  | CallSweepTx => ignore Tx_Sweep
  end.

(** A call in some environment, with any outcome. *)
Inductive step (b b' : broker L) : Prop :=
  | step_call (orc : Oracle) (mtch : Matcher) (c : call) (r : res unit) (n n' : nat) :
      call_in_range c → exec c (b, n) = (r, (b', n')) → step b b'.
End steps.

(** ** Every call keeps the invariant *)
Section preservation.
Context `{orc : Oracle, mtch : !Matcher} {L : Type} `{BodyLogLaws L}.
Implicit Types b : broker L.

Lemma step_ignore {A} (m : env (broker L) A) b0 b :
  wpe m (step_post b0) b → wpe (ignore m) (step_post b0) b.
Proof.
  intros Hm. unfold ignore. wpe_step. eapply wpe_mono; [exact Hm|].
  intros [a|e|] b' (? & ? & ?); [wpe_auto; by apply step_ok|by apply step_err|done].
Qed.

(** Calls of the address service leave messages, consumers and transactions
    alone. *)
Lemma step_mem b m :
  wf_broker (set_mem m b) → mm_messages m = mm_messages (b_mem b) →
  mm_consumers m = mm_consumers (b_mem b) → mm_transactions m = mm_transactions (b_mem b) →
  advances b (set_mem m b).
Proof.
  intros Hw Em Ec Et. split_and!; [split; [done|]|by apply unsettled_same|by apply tx_same].
  intros id x Hx _. exists x. cbn. by rewrite Em.
Qed.

Lemma address_Create_step c b : wf_broker b → wpe (mem (address_Create c)) (step_post b) b.
Proof.
  intros Hw. apply wpe_mem. assert (∀ e, step_post b (Err (A := Address) e) (set_mem (b_mem b) b)) as He
    by (intros; rewrite set_mem_self; by apply step_err).
  unfold address_Create. wpe_step. wpe_step. destruct (address_New c now) as [a|e|] eqn:Ea; wpe_auto;
    [|done|unfold address_New in Ea; by repeat case_match].
  assert (wpe (wrap "create address" (Memory_Create a);; mret a)
    (λ r x, step_post b r (set_mem x b)) (b_mem b)) as Hrest.
  { wpe_auto. apply wpe_Create; [done|]. intros Hnew. wpe_auto.
    apply address_New_wf in Ea as (Hwf & _).
    assert (wf_broker (set_mem (set_addresses (insert (a_Name a) a) (b_mem b)) b)) as Hw'.
    { destruct Hw. split; try done. cbn. by apply map_Forall_insert_2. }
    apply step_ok; [done|]. by apply step_mem. }
  destruct (negb _); [|wpe_step; exact Hrest].
  wpe_step. wpe_step. apply wpe_Get; [done|]. intros dl _. wpe_step. exact Hrest.
Qed.

Lemma address_Bind_step x b : wf_broker b → wpe (mem (address_Bind x)) (step_post b) b.
Proof.
  intros Hw. apply wpe_mem. assert (∀ e, step_post b (Err (A := Binding) e) (set_mem (b_mem b) b)) as He
    by (intros; rewrite set_mem_self; by apply step_err).
  unfold address_Bind, newID. wpe_step. wpe_step. apply wpe_Get; [done|]. intros a1 _.
  wpe_step. wpe_step. apply wpe_Get; [done|]. intros a2 _. wpe_auto; [done|].
  destruct (NewBinding _ _ _) as [r|e|] eqn:Eb; wpe_auto; [|done|].
  2: { unfold NewBinding in Eb. by repeat case_match. }
  apply NewBinding_wf in Eb as (Hwf & _). apply wpe_CreateBinding; [done|]. intros Hnew. wpe_auto.
  assert (wf_broker (set_mem (set_bindings (insert (bd_ID r) r) (b_mem b)) b)) as Hw'.
  { destruct Hw. split; try done. cbn. by apply map_Forall_insert_2. }
  apply step_ok; [done|]. by apply step_mem.
Qed.

Lemma address_Pause_step name p b : wf_broker b → wpe (mem (address_Pause name p)) (step_post b) b.
Proof.
  intros Hw. apply wpe_mem. unfold address_Pause. wpe_step.
  apply wpe_SetPaused; [intros; rewrite set_mem_self; by apply step_err|].
  intros a a' Ha ->. pose proof (wb_addresses b Hw _ _ Ha) as [<- Hwa].
  set (a' := mkAddress _ _ _ _ _ _ _ _ _).
  assert (wf_broker (set_mem (set_addresses (insert (a_Name a) a') (b_mem b)) b)) as Hw'.
  { destruct Hw. split; try done. cbn. by apply map_Forall_insert_2. }
  apply step_ok; [done|]. by apply step_mem.
Qed.

Lemma safe_to_step {A} (m : env (broker L) A) b : wpe m (safe_post b) b → wpe m (step_post b) b.
Proof. intros Hm. eapply wpe_mono; [exact Hm|]. intros r b'. by apply safe_step. Qed.

Lemma exec_step c b : call_in_range c → wf_broker b → wpe (exec c) (step_post b) b.
Proof.
  intros Hc Hw. assert (advances b b) by reflexivity.
  destruct c; cbn [exec]; try apply step_ignore.
  - by apply address_Create_step.
  - by apply address_Bind_step.
  - by apply address_Pause_step.
  - by apply safe_to_step, Publish_safe.
  - by apply safe_to_step, Register_safe.
  - by apply safe_to_step, Acquire_safe.
  - by apply safe_to_step, Settle_safe.
  - by apply safe_to_step, Disconnect_safe.
  - by apply safe_to_step, SweepExpired_safe.
  - by apply safe_to_step, ReplayDead_safe.
  - by apply Declare_step.
  - by apply StagePublish_step.
  - by apply Tx_Commit_step.
  - by apply Tx_Rollback_step.
  - by apply Tx_Sweep_step.
Qed.
End preservation.

Section reachable.
Context {L : Type} `{BodyLogLaws L}.
Implicit Types b : broker L.

Lemma step_advances b b' : wf_broker b → step b b' → wf_broker b' ∧ advances b b'.
Proof.
  intros Hw [orc mtch c r n n' Hc E].
  by destruct (wpe_elim _ _ _ _ _ _ _ (exec_step c b Hc Hw) E) as (_ & ? & ?).
Qed.

Lemma steps_advance b b' : wf_broker b → rtc step b b' → wf_broker b' ∧ advances b b'.
Proof.
  intros Hw Hs. induction Hs as [b|b b1 b' Hs _ IH]; [by split|].
  destruct (step_advances b b1 Hw Hs) as [Hw1 Ha1]. destruct (IH Hw1) as [Hw' Ha'].
  split; [done|by etrans].
Qed.

(** A broker that has just started on an empty store. *)
Definition started b : Prop := b_mem b = NewMemory ∧ log_inv (b_log b).

Lemma started_wf b : started b → wf_broker b.
Proof. intros [Em Hl]. split; rewrite ?Em; try apply map_Forall_empty. done. Qed.
End reachable.

(** ** Properties *)

(** C1. The invariant of the broker holds in every state reachable from an
    empty store by any calls of the address, delivery and transaction
    services, in any environment and with any outcomes: every stored record is
    well formed and filed under its own identifier, and every message's log
    offset holds its body.  No call panics. *)
Theorem broker_invariant (L : Type) (HL : BodyLog L) (HLaws : BodyLogLaws L) (b0 b : broker L) :
  started b0 → rtc step b0 b →
  wf_broker b ∧
  ∀ (orc : Oracle) (mtch : Matcher) (c : call) (n : nat),
    call_in_range c → is_panic (exec c (b, n)).1 = false.
Proof.
  intros Hs Hr. destruct (steps_advance b0 b (started_wf b0 Hs) Hr) as [Hw _].
  split; [done|]. intros orc mtch c n Hc.
  destruct (exec_step c b Hc Hw n) as (Hp & _). by destruct (exec c (b, n)).1.
Qed.

(** C5. No message is lost: once a message that is in no transaction is
    stored, every later state, after any calls whatever their outcomes, still
    has it, with the same body, priority, routing key and log offset, and the
    log still holds the bytes at every offset it held before. *)
Theorem message_conserved (L : Type) (HL : BodyLog L) (HLaws : BodyLogLaws L) (b b' : broker L)
    (id : string) (m : Message) :
  wf_broker b → rtc step b b' →
  mm_messages (b_mem b) !! id = Some m → m_TransactionID m = "" →
  (∃ m', mm_messages (b_mem b') !! id = Some m' ∧ same_message m m') ∧
  log_view (b_log b) ⊆ log_view (b_log b').
Proof.
  intros Hw Hs Hm Ht. destruct (steps_advance b b' Hw Hs) as [_ ([HV HM] & _)].
  split; [by apply HM|done].
Qed.

(** C21. A completed transaction is final: through any calls its record does
    not change; an active transaction keeps its recorded operations, and any
    change raises its version. *)
Theorem transaction_final (L : Type) (HL : BodyLog L) (HLaws : BodyLogLaws L) (b b' : broker L)
    (id : string) (t : Transaction) :
  wf_broker b → rtc step b b' → mm_transactions (b_mem b) !! id = Some t →
  ∃ t', mm_transactions (b_mem b') !! id = Some t' ∧ tx_grows t t' ∧
    (terminal (tx_State t) → t' = t).
Proof.
  intros Hw Hs Ht. destruct (steps_advance b b' Hw Hs) as [_ (_ & _ & HT)].
  destruct (HT id t Ht) as (t' & Ht' & Hg). exists t'. split_and!; [done|done|].
  intros Hterm. destruct Hg as [->|(Hact & _)]; [done|].
  rewrite Hact in Hterm. by destruct Hterm as [?|[?|?]].
Qed.

(** Settlement never succeeds: no call ever records an unsettled delivery
    for a consumer, so in every reachable state [Settle] returns an error and
    changes nothing, whatever the consumer, the delivery and the outcome. *)
Theorem Settle_never_succeeds (L : Type) (HL : BodyLog L) (HLaws : BodyLogLaws L) (b0 b : broker L)
    (orc : Oracle) (mtch : Matcher) (consumer : string) (d : Z) (st : State) (n : nat) :
  started b0 → rtc step b0 b →
  ∃ e n', Service_Settle consumer d st (b, n) = (Err e, (b, n')).
Proof.
  intros Hs Hr. destruct (steps_advance b0 b (started_wf b0 Hs) Hr) as [Hw (_ & HU & _)].
  assert (wpe (Service_Settle consumer d st) (λ r b', b' = b ∧ ∃ e, r = Err e) b) as Hwp.
  { unfold Service_Settle. mem_step; [by eauto|]. intros c Hc.
    destruct (HU _ _ Hc) as [->|(c0 & Hc0 & _)]; [rewrite lookup_empty; wpe_auto; by eauto|].
    destruct Hs as [Em _]. rewrite Em in Hc0. cbn in Hc0. by rewrite lookup_empty in Hc0. }
  specialize (Hwp n). destruct (Service_Settle consumer d st (b, n)) as [r [b' n']]. cbn in Hwp.
  destruct Hwp as (-> & e & ->). eauto.
Qed.

(** ** A concrete run *)
Definition exec_all {L} `{BodyLog L} (cs : list call) (s : broker L * nat) : broker L * nat :=
  foldl (λ s c, (exec (orc := test_oracle) (mtch := StandardMatcher) c s).2) s cs.

Lemma exec_all_steps {L} `{BodyLog L} cs (b : broker L) n :
  Forall call_in_range cs → rtc step b (exec_all cs (b, n)).1.
Proof.
  revert b n. induction cs as [|c cs IH]; intros b n Hcs; [done|].
  inversion Hcs as [|?? Hc Hcs']; subst. cbn.
  destruct (exec (orc := test_oracle) c (b, n)) as [r [b1 n1]] eqn:E. cbn [snd].
  eapply rtc_l; [by eapply (step_call _ _ test_oracle StandardMatcher c r n n1)|].
  apply (IH b1 n1 Hcs').
Qed.

Definition new_broker : broker MemoryLog := mkBroker NewMemory NewMemoryLog 0.

Lemma new_broker_started : started new_broker.
Proof. split; [done|]. intros off x Hx. cbn in Hx. by rewrite lookup_empty in Hx. Qed.

Definition demo_calls : list call :=
  [CallCreate (mkCreate "jobs" KindQueue true 3 "" ""); CallRegister "c1" "jobs" 5 AtLeastOnce;
   CallPublish (mkPublish "jobs" "" None (string_bytes "one") 1 Hour false "");
   CallAcquire "c1"; CallDeclare Hour "conn"].

Definition demo_final : broker MemoryLog := (exec_all demo_calls (new_broker, O)).1.

Lemma demo_reachable : rtc step new_broker demo_final.
Proof. unfold demo_final. apply exec_all_steps. repeat constructor; cbn; lia. Qed.

Lemma demo_final_wf : wf_broker demo_final.
Proof. apply (steps_advance new_broker); [apply started_wf, new_broker_started|apply demo_reachable]. Qed.

Lemma broker_invariant_witness :
  length (map_values (mm_messages (b_mem demo_final))) = 1%nat ∧ wf_broker demo_final.
Proof.
  split; [vm_compute; reflexivity|].
  apply (broker_invariant MemoryLog _ _ new_broker demo_final new_broker_started demo_reachable).
Defined.

(** The message and the transaction of the run. *)
Definition demo_stored : Message :=
  match map_values (mm_messages (b_mem demo_final)) with m :: _ => m | [] => demo_message end.
Definition demo_declared_tx : Transaction :=
  match map_values (mm_transactions (b_mem demo_final)) with
  | t :: _ => t | [] => mkTransaction "" "" StateActive 0 0 0 [] 0 end.

(** Later calls on the final state. *)
Definition demo_later : broker MemoryLog :=
  (exec_all [CallDisconnect "c1"; CallRollback (tx_ID demo_declared_tx)] (demo_final, O)).1.

Lemma demo_later_steps : rtc step demo_final demo_later.
Proof. unfold demo_later. apply exec_all_steps. repeat constructor. Qed.

Lemma message_conserved_witness :
  ∃ m', mm_messages (b_mem demo_later) !! m_ID demo_stored = Some m' ∧ same_message demo_stored m'.
Proof.
  apply (message_conserved MemoryLog _ _ demo_final demo_later (m_ID demo_stored) demo_stored).
  - exact demo_final_wf.
  - exact demo_later_steps.
  - vm_compute. reflexivity.
  - vm_compute. reflexivity.
Defined.

Lemma transaction_final_witness :
  ∃ t', mm_transactions (b_mem demo_later) !! tx_ID demo_declared_tx = Some t' ∧
    tx_grows demo_declared_tx t'.
Proof.
  destruct (transaction_final MemoryLog _ _ demo_final demo_later (tx_ID demo_declared_tx)
    demo_declared_tx) as (t' & H1 & H2 & _).
  - exact demo_final_wf.
  - exact demo_later_steps.
  - vm_compute. reflexivity.
  - exists t'. split; [exact H1|exact H2].
Defined.

Lemma Settle_never_succeeds_witness :
  ∃ e n', Service_Settle (orc := test_oracle) "c1" 1 StateAccepted (demo_final, O) =
    (Err e, (demo_final, n')).
Proof.
  exact (Settle_never_succeeds MemoryLog _ _ new_broker demo_final test_oracle StandardMatcher "c1" 1
    StateAccepted O new_broker_started demo_reachable).
Defined.
