(* ===== verification/Concurrent.v ===== *)
(** * Interleaved service calls

    The services run concurrently: HTTP requests, connection handlers and the
    sweep call them from goroutines of their own, and only [Acquire], [Settle]
    and [Disconnect] hold the mutex of the delivery service.  Everything else
    interleaves at the calls of the repositories and of the body log, which
    lock by themselves.  Here a call is a [thread]: a tree of such atomic
    actions with the locking of the mutex.  [thread_alone] shows that a thread
    that runs alone is the call of the other files; ConcurrentInv.v shows what
    the actions keep, Pool.v runs threads in any order. *)

From S2P Require Import Prelude Bytes Text Duration Matcher Address Message Transaction Env.
From S2P Require Import Memory BodyLog Router Delivery DeliveryInv DeliveryFacts TxService TxFacts Broker.

(** ** Threads *)
Inductive thread (L A : Type) : Type :=
  | Ret (r : res A)
  | Act (X : Type) (op : env (broker L) X) (k : res X → thread L A)
  | Lock (k : thread L A)
  | Unlock (k : thread L A).
Arguments Ret {L A}.
Arguments Act {L A}.
Arguments Lock {L A}.
Arguments Unlock {L A}.

Section control.
Context {L : Type}.

Definition act {A} (op : env (broker L) A) : thread L A := Act A op Ret.

Fixpoint thread_bind_ {A B} (f : A → thread L B) (t : thread L A) : thread L B :=
  match t with
  | Ret (Ok a) => f a
  | Ret (Err e) => Ret (Err e)
  | Ret Panic => Ret Panic
  | Act X op k => Act X op (λ r, thread_bind_ f (k r))
  | Lock k => Lock (thread_bind_ f k)
  | Unlock k => Unlock (thread_bind_ f k)
  end.

#[global] Instance thread_ret : MRet (thread L) := λ A a, Ret (Ok a).
#[global] Instance thread_bind : MBind (thread L) := @thread_bind_.

(** The thread with its result changed. *)
Fixpoint finish {A B} (g : res A → thread L B) (t : thread L A) : thread L B :=
  match t with
  | Ret r => g r
  | Act X op k => Act X op (λ r, finish g (k r))
  | Lock k => Lock (finish g k)
  | Unlock k => Unlock (finish g k)
  end.

Definition t_raise {A} (e : error) : thread L A := Ret (Err e).
Definition t_panic {A} : thread L A := Ret Panic.
Definition t_lift {A} (r : res A) : thread L A := Ret r.
Definition t_guard (b : bool) (e : error) : thread L unit := if b then t_raise e else mret tt.
Definition t_try {A} : thread L A → thread L (error + A) :=
  finish (λ r, match r with Ok a => Ret (Ok (inr a)) | Err e => Ret (Ok (inl e)) | Panic => Ret Panic end).
Definition t_wrap {A} (text : string) : thread L A → thread L A :=
  finish (λ r, match r with Err e => Ret (Err (ErrWrap text e)) | _ => Ret r end).
Definition t_ignore {A} (t : thread L A) : thread L unit := t;; mret tt.

(** [s.mu.Lock(); defer s.mu.Unlock()]. *)
Definition locked {A} (t : thread L A) : thread L A := Lock (finish (λ r, Unlock (Ret r)) t).

Fixpoint t_for_each {A} (l : list A) (body : A → thread L unit) : thread L unit :=
  match l with
  | [] => mret tt
  | x :: l' => body x;; t_for_each l' body
  end.

Fixpoint t_fold_each {A B} (l : list A) (acc : B) (body : B → A → thread L B) : thread L B :=
  match l with
  | [] => mret acc
  | x :: l' => acc' ← body acc x; t_fold_each l' acc' body
  end.

(** A thread that runs alone. *)
Fixpoint alone {A} (t : thread L A) : env (broker L) A :=
  match t with
  | Ret r => lift r
  | Act X op k => λ s, let '(r, s') := op s in alone (k r) s'
  | Lock k | Unlock k => alone k
  end.
End control.

(** ** The calls as threads *)
Section calls.
Context `{orc : Oracle, mtch : !Matcher} {L : Type} `{BodyLog L}.

Definition t_mem {A} (m : env Memory A) : thread L A := act (mem m).
Definition t_log {A} (m : env L A) : thread L A := act (log m).
Definition t_now : thread L time := act clock_Now.
Definition t_randomID (prefix : string) : thread L string := act (randomID prefix).

(** *** Routing and addresses *)
Definition t_resolve_step (kind : Kind) (key : string) (hdrs : headers)
    (acc : gset string * list Route) (b : Binding) : thread L (gset string * list Route) :=
  let '(seen, out) := acc in
  let pattern := if bool_decide (kind = KindFanout) then "#" else bd_RoutingKey b in
  if bool_decide (kind = KindDirect ∧ pattern ≠ key) then mret acc
  else if negb (Match key hdrs pattern (bd_Filter b)) then mret acc
  else if bool_decide (bd_Destination b ∈ seen) then mret acc
  else
    r ← t_try (t_mem (Memory_Get (bd_Destination b)));
    match r with
    | inl _ => mret acc
    | inr _ => mret ({[bd_Destination b]} ∪ seen,
                     out ++ [mkRoute (bd_Destination b) (bd_Priority b)])
    end.

Definition t_resolve_bindings (kind : Kind) (source key : string) (hdrs : headers) : thread L (list Route) :=
  bindings ← t_wrap "list bindings" (t_mem (Memory_ListBindings source));
  '(_, out) ← t_fold_each bindings (∅, []) (t_resolve_step kind key hdrs);
  mret (sort_stable route_less out).

Definition t_Resolve (source key : string) (hdrs : headers) : thread L (list Route) :=
  src ← t_wrap "load source address" (t_mem (Memory_Get source));
  match a_Kind src with
  | KindQueue | KindTemporary => mret [mkRoute source 0]
  | KindFanout | KindTopic | KindDirect => t_resolve_bindings (a_Kind src) source key hdrs
  | KindOther k => t_raise (ErrFmtS "unsupported source kind %s" k)
  end.

Definition t_Create (c : Create) : thread L Address :=
  now ← t_now;
  a ← t_lift (address_New c now);
  (if negb (bool_decide (a_DeadLetter a = "")) then
     t_wrap "dead-letter address" (t_mem (Memory_Get (a_DeadLetter a)));; mret tt
   else mret tt);;
  t_wrap "create address" (t_mem (Memory_Create a));;
  mret a.

Definition t_Bind (b : Bind) : thread L Binding :=
  t_wrap "source" (t_mem (Memory_Get (bi_Source b)));;
  t_wrap "destination" (t_mem (Memory_Get (bi_Destination b)));;
  id ← t_mem (newID "bnd");
  now ← t_now;
  r ← t_lift (NewBinding id b now);
  t_wrap "save binding" (t_mem (Memory_CreateBinding r));;
  mret r.

Definition t_Pause (name : string) (pause : bool) : thread L Address :=
  t_wrap "pause address" (t_mem (Memory_SetPaused name pause)).

(** *** The delivery service *)
Definition t_deadLetter (msg : Message) (reason : string) : thread L Message :=
  a ← t_mem (Memory_Get (m_Address msg));
  let msg := set_Header "x-death-reason" reason msg in
  let msg := set_Header "x-original-address" (m_Address msg) msg in
  let msg := set_State StateDeadLettered msg in
  msg ← (if negb (bool_decide (a_DeadLetter a = "")) then
           r ← t_try (t_mem (Memory_Get (a_DeadLetter a)));
           match r with
           | inr dl =>
               if negb (a_Paused dl) then
                 mret (set_ExpiresAt 0 (set_State StateAvailable (set_Address (a_DeadLetter a) msg)))
               else mret msg
           | inl _ => mret msg
           end
         else mret msg);
  t_mem (Memory_Update msg);;
  mret msg.

Fixpoint t_enforce_loop (fuel : nat) (maxLength : Z) (ready : list Message) : thread L unit :=
  if negb (maxLength <? Z.of_nat (length ready)) then mret tt
  else
    match fuel, last ready with
    | S fuel', Some victim =>
        t_deadLetter victim "max-length";;
        t_enforce_loop fuel' maxLength (take (length ready - 1) ready)
    | _, _ => t_panic
    end.

Definition t_enforceMaxLength (name : string) : thread L unit :=
  a ← t_mem (Memory_Get name);
  if a_MaxLength a =? 0 then mret tt
  else
    ready ← t_mem (Memory_ListReady name 0);
    t_enforce_loop (length ready) (a_MaxLength a) ready.

Definition t_publish_route (p : Publish) (created : list Message) (route : Route) : thread L (list Message) :=
  id ← t_randomID "msg";
  now ← t_now;
  msg ← t_lift (NewMessage id (with_Address (rt_Destination route) p) now);
  offset ← t_wrap "append body log" (t_log (Log_Append (m_ID msg) (m_Body msg)));
  let msg := set_LogOffset offset msg in
  t_wrap "save message metadata" (t_mem (Memory_Put msg));;
  t_enforceMaxLength (rt_Destination route);;
  mret (created ++ [msg]).

Definition t_Publish (p : Publish) : thread L (list Message) :=
  a ← t_wrap "load address" (t_mem (Memory_Get (p_Address p)));
  t_lift (Accepting a);;
  let p := if p_TTL p =? 0 then with_TTL (a_DefaultTTL a) p else p in
  routes ← t_wrap "resolve routes"
             (t_Resolve (p_Address p) (p_RoutingKey p) (default ∅ (p_Headers p)));
  t_guard (bool_decide (routes = [])) (ErrNew "message was unroutable");;
  t_fold_each routes [] (t_publish_route p).

Definition t_stage_route (p : Publish) (out : list Message) (route : Route) : thread L (list Message) :=
  id ← t_randomID "msg";
  now ← t_now;
  msg ← t_lift (NewMessage id (with_Address (rt_Destination route) p) now);
  let msg := set_State StateAcquired msg in
  off ← t_log (Log_Append (m_ID msg) (m_Body msg));
  let msg := set_LogOffset off msg in
  t_mem (Memory_Put msg);;
  mret (out ++ [msg]).

Definition t_Stage (p : Publish) : thread L (list Message) :=
  t_guard (bool_decide (p_TransactionID p = "")) (ErrNew "transaction id required");;
  a ← t_wrap "load address" (t_mem (Memory_Get (p_Address p)));
  t_lift (Accepting a);;
  let p := if p_TTL p =? 0 then with_TTL (a_DefaultTTL a) p else p in
  routes ← t_Resolve (p_Address p) (p_RoutingKey p) (default ∅ (p_Headers p));
  t_guard (bool_decide (routes = [])) (ErrNew "message was unroutable");;
  t_fold_each routes [] (t_stage_route p).

Definition t_CommitStaged (messageID : string) : thread L unit :=
  msg ← t_mem (Memory_message messageID);
  t_guard (negb (bool_decide (m_State msg = StateAcquired)) || bool_decide (m_TransactionID msg = ""))
    (ErrNew "message is not transaction-staged");;
  let msg := set_TransactionID "" (set_State StateAvailable msg) in
  t_mem (Memory_Update msg);;
  t_enforceMaxLength (m_Address msg).

Definition t_RollbackStaged (messageID : string) : thread L unit :=
  msg ← t_mem (Memory_message messageID);
  t_guard (bool_decide (m_TransactionID msg = "")) (ErrNew "message is not transaction-staged");;
  t_mem (Memory_deleteMessage messageID).

Definition t_Register (id addressName : string) (prefetch : Z) (sem : Semantics) : thread L Consumer :=
  t_mem (Memory_Get addressName);;
  now ← t_now;
  c ← t_lift (NewConsumer id addressName prefetch sem now);
  t_wrap "save consumer" (t_mem (Memory_SaveConsumer c));;
  mret c.

Definition t_Acquire (consumerID : string) : thread L (Message * Z) :=
  locked (
    c ← t_mem (Memory_GetConsumer consumerID);
    t_guard (cn_Credit c =? 0) (ErrNew "credit exhausted");;
    ready ← t_mem (Memory_ListReady (cn_Address c) 1);
    match ready with
    | [] => t_raise (ErrNew "no message available")
    | msg :: _ =>
        now ← t_now;
        if Message_Expired msg now then
          t_deadLetter msg "ttl-expired";;
          t_raise (ErrNew "message expired")
        else
          id ← act next_delivery;
          let '(r, c) := Consumer_Acquire id (m_ID msg) c in
          t_lift r;;
          let msg := set_State StateAcquired msg in
          let msg := set_DeliveryCount (m_DeliveryCount msg + 1) msg in
          let msg := set_Redelivered (1 <? m_DeliveryCount msg) msg in
          let '(msg, c) :=
            if bool_decide (cn_Semantics c = AtMostOnce)
            then (set_State StateAccepted msg, snd (Consumer_Settle id c))
            else (msg, c) in
          t_mem (Memory_Update msg);;
          t_mem (Memory_SaveConsumer c);;
          body ← t_wrap "read message body" (t_log (Log_Read (m_LogOffset msg)));
          mret (set_Body body msg, id)
    end).

Definition t_Settle (consumerID : string) (deliveryID : Z) (state : State) : thread L unit :=
  locked (
    c ← t_mem (Memory_GetConsumer consumerID);
    match cn_Unsettled c !! deliveryID with
    | None => t_raise (ErrNew "delivery not found")
    | Some msgID =>
        msg ← t_mem (Memory_message msgID);
        msg ← match state with
              | StateAccepted => mret (set_State StateAccepted msg)
              | StateReleased => mret (set_Redelivered true (set_State StateReleased msg))
              | StateRejected => t_deadLetter msg "rejected"
              | _ => t_raise (ErrNew "unsupported disposition state")
              end;
        let '(r, c) := Consumer_Settle deliveryID c in
        t_lift r;;
        (if negb (bool_decide (m_State msg = StateDeadLettered))
         then t_mem (Memory_Update msg) else mret tt);;
        t_mem (Memory_SaveConsumer c)
    end).

Definition t_disconnect_one (msgID : string) : thread L unit :=
  r ← t_try (t_mem (Memory_message msgID));
  match r with
  | inr msg =>
      t_try (t_mem (Memory_Update (set_Redelivered true (set_State StateReleased msg))));; mret tt
  | inl _ => mret tt
  end.

Definition t_Disconnect (id : string) : thread L unit :=
  locked (
    c ← t_mem (Memory_GetConsumer id);
    unsettled ← act (map_range ((map_to_list (cn_Unsettled c)).*2));
    t_for_each unsettled t_disconnect_one;;
    now ← t_now;
    t_mem (Memory_SaveConsumer
      (mkConsumer (cn_ID c) (cn_Address c) (cn_Prefetch c) 0 ∅ (cn_Semantics c) false
         (cn_CreatedAt c) now))).

Definition t_sweep_one (n : Z) (msg : Message) : thread L Z :=
  if bool_decide (m_State msg = StateAvailable ∨ m_State msg = StateReleased) then
    now ← t_now;
    if Message_Expired msg now then
      t_deadLetter msg "ttl-expired";;
      mret (n + 1)
    else mret n
  else mret n.

Definition t_SweepExpired : thread L Z :=
  all ← t_mem Memory_All;
  t_fold_each all 0 t_sweep_one.

Definition t_replay_one (n : Z) (msg : Message) : thread L Z :=
  let original := default "" (m_Headers msg !! "x-original-address") in
  let target := if bool_decide (original = "") then m_Address msg else original in
  r ← t_try (t_mem (Memory_Get target));
  match r with
  | inr a =>
      if a_Paused a then mret n
      else
        t_mem (Memory_Update (set_Redelivered true (set_ExpiresAt 0
                 (set_State StateAvailable (set_Address target msg)))));;
        mret (n + 1)
  | inl _ => mret n
  end.

Definition t_ReplayDead (limit : Z) : thread L Z :=
  all ← t_mem Memory_All;
  t_fold_each (replay_candidates limit all) 0 t_replay_one.

(** *** The transaction service *)
Definition t_Declare (ttl : duration) (connection : string) : thread L Transaction :=
  id ← act txID;
  now ← t_now;
  tx ← t_lift (transaction_New id connection now ttl);
  t_wrap "save transaction" (t_mem (TransactionMemory_Create tx));;
  mret tx.

Definition t_StagePublish (id : string) (p : Publish) : thread L (list Message) :=
  tx ← t_mem (TransactionMemory_Get id);
  now ← t_now;
  t_guard (Transaction_Expired tx now) (ErrNew "transaction expired");;
  msgs ← t_Stage (with_TransactionID id p);
  tx ← t_lift (add_all tx msgs);
  t_wrap "update transaction" (t_mem (TransactionMemory_Update tx));;
  mret msgs.

Definition t_rollback_op (op : Operation) : thread L unit :=
  if bool_decide (op_Kind op = OpPublish) then
    r ← t_try (t_RollbackStaged (op_MessageID op));
    match r with
    | inl e => if errors_Is e ErrMessageNotFound then mret tt else t_raise e
    | inr _ => mret tt
    end
  else mret tt.

Definition t_complete (tx : Transaction) (state : TxState) : thread L Transaction :=
  now ← t_now;
  let '(r, tx) := Transaction_Complete state now tx in
  t_lift r;;
  t_mem (TransactionMemory_Update tx);;
  mret tx.

Definition t_rollback (tx : Transaction) (state : TxState) : thread L Transaction :=
  t_for_each (tx_Operations tx) t_rollback_op;;
  t_complete tx state.

Definition t_commit_op (op : Operation) : thread L unit :=
  match op_Kind op with
  | OpPublish => t_wrap ("commit message " +:+ op_MessageID op) (t_CommitStaged (op_MessageID op))
  | _ => mret tt
  end.

Definition t_Commit (id : string) : thread L Transaction :=
  tx ← t_mem (TransactionMemory_Get id);
  now ← t_now;
  if Transaction_Expired tx now then
    t_try (t_rollback tx StateTimedOut);;
    t_raise (ErrNew "transaction expired")
  else
    t_for_each (tx_Operations tx) t_commit_op;;
    t_complete tx StateCommitted.

Definition t_Rollback (id : string) : thread L Transaction :=
  tx ← t_mem (TransactionMemory_Get id);
  t_rollback tx StateRolledBack.

Definition t_sweep_tx (n : Z) (tx : Transaction) : thread L Z :=
  now ← t_now;
  if Transaction_Expired tx now then
    t_rollback tx StateTimedOut;;
    mret (n + 1)
  else mret n.

Definition t_Sweep : thread L Z :=
  active ← t_mem TransactionMemory_ListActive;
  t_fold_each active 0 t_sweep_tx.

Definition thread_of (c : call) : thread L unit :=
  match c with
  | CallCreate c => t_ignore (t_Create c)
  | CallBind b => t_ignore (t_Bind b)
  | CallPause name pause => t_ignore (t_Pause name pause)
  | CallPublish p => t_ignore (t_Publish p)
  | CallRegister id a n sem => t_ignore (t_Register id a n sem)
  | CallAcquire id => t_ignore (t_Acquire id)
  | CallSettle id d st => t_Settle id d st
  | CallDisconnect id => t_Disconnect id
  | CallSweepExpired => t_ignore t_SweepExpired
  | CallReplayDead n => t_ignore (t_ReplayDead n)
  | CallDeclare ttl c => t_ignore (t_Declare ttl c)
  | CallStagePublish tx p => t_ignore (t_StagePublish tx p)
  | CallCommit tx => t_ignore (t_Commit tx)
  | CallRollback tx => t_ignore (t_Rollback tx)
  | CallSweepTx => t_ignore t_Sweep
  end.
End calls.

(** ** A thread alone is the call *)
Create HintDb refines.

Section refines.
Context {L : Type}.

Definition refines {A} (t : thread L A) (m : env (broker L) A) : Prop := ∀ s, alone t s = m s.

Lemma alone_finish {A B} (g : res A → thread L B) (t : thread L A) s :
  alone (finish g t) s = let '(r, s') := alone t s in alone (g r) s'.
Proof.
  revert s. induction t as [r|X op k IH|k IH|k IH]; intros s; cbn; [done| |done..].
  destruct (op s) as [r s']. apply IH.
Qed.

Lemma alone_bind {A B} (t : thread L A) (f : A → thread L B) s :
  alone (t ≫= f) s = (alone t ≫= λ a, alone (f a)) s.
Proof.
  unfold mbind, thread_bind. revert s. induction t as [[a|e|]|X op k IH|k IH|k IH]; intros s; cbn; try done.
  unfold go_bind. destruct (op s) as [r s']. apply IH.
Qed.

Lemma refines_bind {A B} (t : thread L A) m (f : A → thread L B) g :
  refines t m → (∀ a, refines (f a) (g a)) → refines (t ≫= f) (m ≫= g).
Proof.
  intros Ht Hf s. rewrite alone_bind. unfold mbind, go_bind. rewrite Ht.
  destruct (m s) as [[a|e|] s']; [apply Hf|done..].
Qed.

Lemma refines_ret {A} (a : A) : refines (mret a) (mret a).
Proof. done. Qed.
Lemma refines_raise {A} e : refines (t_raise (A := A) e) (raise e).
Proof. done. Qed.
Lemma refines_panic {A} : refines (t_panic (A := A)) panic.
Proof. done. Qed.
Lemma refines_lift {A} (r : res A) : refines (t_lift r) (lift r).
Proof. done. Qed.
Lemma refines_guard b e : refines (t_guard b e) (guard_err b e).
Proof. by destruct b. Qed.
Lemma refines_act {A} (op : env (broker L) A) : refines (act op) op.
Proof. intros s. cbn. by destruct (op s). Qed.

Lemma refines_try {A} (t : thread L A) m : refines t m → refines (t_try t) (try m).
Proof.
  intros Ht s. unfold t_try. rewrite alone_finish, Ht. unfold try. by destruct (m s) as [[a|e|] s'].
Qed.

Lemma refines_wrap {A} text (t : thread L A) m : refines t m → refines (t_wrap text t) (wrap text m).
Proof.
  intros Ht s. unfold t_wrap. rewrite alone_finish, Ht. unfold wrap. by destruct (m s) as [[a|e|] s'].
Qed.

Lemma refines_locked {A} (t : thread L A) m : refines t m → refines (locked t) m.
Proof. intros Ht s. unfold locked. cbn. rewrite alone_finish, Ht. by destruct (m s). Qed.

Lemma refines_ignore {A} (t : thread L A) m : refines t m → refines (t_ignore t) (ignore m).
Proof. intros Ht. by apply refines_bind. Qed.

Lemma refines_for_each {A} (l : list A) t m :
  (∀ x, refines (t x) (m x)) → refines (t_for_each l t) (for_each l m).
Proof. intros Hb. induction l as [|x l IH]; cbn; [done|]. by apply refines_bind. Qed.

Lemma refines_fold_each {A B} (l : list A) (acc : B) t m :
  (∀ b x, refines (t b x) (m b x)) → refines (t_fold_each l acc t) (fold_each l acc m).
Proof. intros Hb. revert acc. induction l as [|x l IH]; intros acc; cbn; [done|]. by apply refines_bind. Qed.
End refines.

#[local] Hint Resolve refines_ret refines_raise refines_panic refines_lift refines_guard refines_act : refines.

Ltac refines_step :=
  lazymatch goal with
  | |- refines (mbind _ _) _ => apply refines_bind; [|intros ?]
  | |- refines (t_try _) _ => apply refines_try
  | |- refines (t_wrap _ _) _ => apply refines_wrap
  | |- refines (locked _) _ => apply refines_locked
  | |- refines (t_ignore _) _ => apply refines_ignore
  | |- refines (t_for_each _ _) _ => apply refines_for_each; intros ?
  | |- refines (t_fold_each _ _ _) _ => apply refines_fold_each; intros ??
  | |- refines (let '(_, _) := ?x in _) _ => destruct x as [??] eqn:?
  | |- refines (match ?x with _ => _ end) _ => destruct x eqn:?
  | |- refines (if ?b then _ else _) _ => destruct b eqn:?
  | |- _ => by eauto with refines
  end.
Ltac refines_auto := repeat refines_step.

(** A call over the memory, one repository call after the other. *)
Section in_memory.
Context {L : Type}.

Lemma mem_bind {A B} (m : env Memory A) (f : A → env Memory B) (s : broker L * nat) :
  mem (m ≫= f) s = (mem m ≫= λ a, mem (f a)) s.
Proof.
  destruct s as [[m0 l q] n]. unfold mem, on, mbind, go_bind. cbn. by destruct (m (m0, n)) as [[a|e|] [m1 n1]].
Qed.

Lemma refines_mem_bind {A B} (t : thread L A) m (f : A → thread L B) g :
  refines t (mem m) → (∀ a, refines (f a) (mem (g a))) → refines (t ≫= f) (mem (m ≫= g)).
Proof. intros Ht Hf s. rewrite mem_bind. by apply refines_bind. Qed.

Lemma refines_mem_try {A} (t : thread L A) m : refines t (mem m) → refines (t_try t) (mem (try m)).
Proof.
  intros Ht s. rewrite (refines_try _ _ Ht). destruct s as [[m0 l q] n]. unfold mem, on, try. cbn.
  by destruct (m (m0, n)) as [[a|e|] [m1 n1]].
Qed.

Lemma refines_mem_wrap {A} text (t : thread L A) m :
  refines t (mem m) → refines (t_wrap text t) (mem (wrap text m)).
Proof.
  intros Ht s. rewrite (refines_wrap _ _ _ Ht). destruct s as [[m0 l q] n]. unfold mem, on, wrap. cbn.
  by destruct (m (m0, n)) as [[a|e|] [m1 n1]].
Qed.

Lemma refines_mem_fold_each {A B} (l : list A) (acc : B) (t : B → A → thread L B) m :
  (∀ b x, refines (t b x) (mem (m b x))) → refines (t_fold_each l acc t) (mem (fold_each l acc m)).
Proof.
  intros Hb. revert acc. induction l as [|x l IH]; intros acc; cbn.
  - intros [[] ?]. done.
  - by apply refines_mem_bind.
Qed.

Lemma refines_mem_lift {A} (r : res A) : refines (L := L) (t_lift r) (mem (lift r)).
Proof. by intros [[] ?]. Qed.
Lemma refines_mem_ret {A} (a : A) : refines (L := L) (mret a) (mem (mret a)).
Proof. by intros [[] ?]. Qed.
Lemma refines_mem_raise {A} e : refines (L := L) (t_raise (A := A) e) (mem (raise e)).
Proof. by intros [[] ?]. Qed.
Lemma refines_mem_now {orc : Oracle} : refines (L := L) t_now (mem clock_Now).
Proof. by intros [[] ?]. Qed.
End in_memory.

#[local] Hint Resolve refines_mem_lift refines_mem_ret refines_mem_raise refines_mem_now : refines.

Ltac refines_mem_step :=
  lazymatch goal with
  | |- refines (mbind _ _) (mem (mbind _ _)) => apply refines_mem_bind; [|intros ?]
  | |- refines (t_try _) (mem _) => apply refines_mem_try
  | |- refines (t_wrap _ _) (mem _) => apply refines_mem_wrap
  | |- refines (t_fold_each _ _ _) (mem _) => apply refines_mem_fold_each; intros ??
  | |- refines (t_mem _) (mem _) => apply refines_act
  | |- refines (let '(_, _) := ?x in _) _ => destruct x as [??] eqn:?
  | |- refines (match ?x with _ => _ end) _ => destruct x eqn:?
  | |- refines (if ?b then _ else _) _ => destruct b eqn:?
  | |- _ => by eauto with refines
  end.

Section calls_alone.
Context `{orc : Oracle, mtch : !Matcher} {L : Type} `{BodyLog L}.

Lemma Resolve_alone source key hdrs : refines (L := L) (t_Resolve source key hdrs) (mem (Router_Resolve source key hdrs)).
Proof.
  unfold t_Resolve, Router_Resolve, t_resolve_bindings, resolve_bindings, t_resolve_step, resolve_step.
  repeat refines_mem_step.
Qed.
#[local] Hint Resolve Resolve_alone : refines.

Lemma mem_alone {A} (m : env Memory A) : refines (L := L) (t_mem m) (mem m).
Proof. apply refines_act. Qed.
Lemma log_alone {A} (m : env L A) : refines (t_log m) (log m).
Proof. apply refines_act. Qed.
Lemma now_alone : refines (L := L) t_now clock_Now.
Proof. apply refines_act. Qed.
Lemma id_alone prefix : refines (L := L) (t_randomID prefix) (randomID prefix).
Proof. apply refines_act. Qed.
#[local] Hint Resolve mem_alone log_alone now_alone id_alone : refines.

Lemma deadLetter_alone msg reason : refines (L := L) (t_deadLetter msg reason) (deadLetter msg reason).
Proof. unfold t_deadLetter, deadLetter. refines_auto. Qed.
#[local] Hint Resolve deadLetter_alone : refines.

Lemma enforce_alone name : refines (L := L) (t_enforceMaxLength name) (enforceMaxLength name).
Proof.
  unfold t_enforceMaxLength, enforceMaxLength. refines_auto. generalize (a_MaxLength a). generalize (length a0) as fuel.
  intros fuel k. revert a0. induction fuel as [|fuel IH]; intros ready;
    cbn [t_enforce_loop enforce_loop]; refines_auto.
Qed.
#[local] Hint Resolve enforce_alone : refines.

Lemma Stage_alone p : refines (L := L) (t_Stage p) (Stage p).
Proof. unfold t_Stage, Stage, t_stage_route, stage_route. refines_auto. Qed.
Lemma CommitStaged_alone id : refines (L := L) (t_CommitStaged id) (CommitStaged id).
Proof. unfold t_CommitStaged, CommitStaged. refines_auto. Qed.
Lemma RollbackStaged_alone id : refines (L := L) (t_RollbackStaged id) (RollbackStaged id).
Proof. unfold t_RollbackStaged, RollbackStaged. refines_auto. Qed.
Lemma complete_alone tx s : refines (L := L) (t_complete tx s) (complete_tx tx s).
Proof. unfold t_complete, complete_tx. refines_auto. Qed.
#[local] Hint Resolve Stage_alone CommitStaged_alone RollbackStaged_alone complete_alone : refines.

Lemma rollback_alone tx s : refines (L := L) (t_rollback tx s) (tx_rollback tx s).
Proof. unfold t_rollback, tx_rollback, t_rollback_op, rollback_op. refines_auto. Qed.
#[local] Hint Resolve rollback_alone : refines.

Lemma thread_alone c : refines (L := L) (thread_of c) (exec c).
Proof.
  destruct c; cbn [thread_of exec].
  - apply refines_ignore. unfold t_Create, address_Create. repeat refines_mem_step.
  - apply refines_ignore. unfold t_Bind, address_Bind. repeat refines_mem_step.
  - apply refines_ignore. unfold t_Pause, address_Pause. repeat refines_mem_step.
  - unfold t_Publish, Service_Publish, t_publish_route, publish_route. refines_auto.
  - unfold t_Register, Service_Register. refines_auto.
  - unfold t_Acquire, Service_Acquire. refines_auto.
  - unfold t_Settle, Service_Settle. refines_auto.
  - unfold t_Disconnect, Service_Disconnect, t_disconnect_one, disconnect_one. refines_auto.
  - unfold t_SweepExpired, SweepExpired, t_sweep_one, sweep_one. refines_auto.
  - unfold t_ReplayDead, ReplayDead, t_replay_one, replay_one. refines_auto.
  - unfold t_Declare, Declare_tx. refines_auto.
  - unfold t_StagePublish, StagePublish. refines_auto.
  - unfold t_Commit, Tx_Commit, t_commit_op, commit_op. refines_auto.
  - unfold t_Rollback, Tx_Rollback. refines_auto.
  - unfold t_Sweep, Tx_Sweep, t_sweep_tx, sweep_tx. refines_auto.
Qed.
End calls_alone.
