(* ===== verification/ConcurrentInv.v ===== *)
(** * The invariant under interleaving

    The services are called from goroutines of their own.  [sound] says of a
    thread of Concurrent.v that each of its actions keeps the invariant of the
    broker ([wf_broker]) in every state the other threads may have left, and
    that it does not panic; [thread_sound] shows it of every service call. *)

From S2P Require Import Prelude Bytes Text Duration Matcher Address Message Transaction Env.
From S2P Require Import Memory BodyLog Router Delivery DeliveryInv DeliveryFacts TxService TxFacts Broker Concurrent.

(** ** Soundness

    [sound v t Q]: in every state that satisfies the invariant and whose log
    holds at least [v], each action of [t] keeps the invariant and the log's
    entries, whatever happened since its last one; [Q] holds of the result. *)
Section sound.
Context {L : Type} `{BodyLogLaws L}.
Implicit Types b : broker L.

Abbreviation view b := (log_view (b_log b)).

Definition post (A : Type) : Type := res A → gmap Z bytes → Prop.

Fixpoint sound {A} (Q : post A) (v : gmap Z bytes) (t : thread L A) : Prop :=
  match t with
  | Ret r => Q r v
  | Act X op k => ∀ b, wf_broker b → v ⊆ view b →
      wpe op (λ r b', wf_broker b' ∧ view b ⊆ view b' ∧ sound Q (view b') (k r)) b
  | Lock k | Unlock k => sound Q v k
  end.

(** A value with [P], or an error. *)
Definition gives {A} (P : A → gmap Z bytes → Prop) : post A := λ r v,
  match r with Ok a => P a v | Err _ => True | Panic => False end.

Lemma sound_mono {A} (Q R : post A) v (t : thread L A) :
  sound Q v t → (∀ r v', Q r v' → R r v') → sound R v t.
Proof.
  intros Ht HQ. revert v Ht. induction t as [r|X op k IH|k IH|k IH]; intros v; cbn; auto.
  intros Ht b Hw Hv. eapply wpe_mono; [by apply Ht|]. cbn. naive_solver.
Qed.

Lemma sound_finish {A B} (g : res A → thread L B) (Q : post B) v (t : thread L A) :
  sound (λ r v', sound Q v' (g r)) v t → sound Q v (finish g t).
Proof.
  revert v. induction t as [r|X op k IH|k IH|k IH]; intros v; cbn; auto.
  intros Ht b Hw Hv. eapply wpe_mono; [by apply Ht|]. cbn. naive_solver.
Qed.

(** The log only grows. *)
Lemma sound_grows {A} (Q : post A) v (t : thread L A) : sound Q v t → sound (λ r v', v ⊆ v' ∧ Q r v') v t.
Proof.
  assert (∀ v0, v0 ⊆ v → sound Q v t → sound (λ r v', v0 ⊆ v' ∧ Q r v') v t) as Hg; [|by apply Hg].
  intros v0 Hv0. revert v Hv0. induction t as [r|X op k IH|k IH|k IH]; intros v Hv0; cbn; auto.
  intros Ht b Hw Hv. eapply wpe_mono; [by apply Ht|]. cbn. intros r b' (H1 & H2 & H3). split_and!; try done.
  apply IH; [|done]. etrans; [exact Hv0|]. by etrans.
Qed.

Lemma sound_bind {A B} (t : thread L A) (f : A → thread L B) (P : A → gmap Z bytes → Prop) v
    (R : B → gmap Z bytes → Prop) :
  sound (gives P) v t → (∀ a v', v ⊆ v' → P a v' → sound (gives R) v' (f a)) →
  sound (gives R) v (t ≫= f).
Proof.
  intros Ht%sound_grows Hf.
  assert (∀ v0 v1, sound (λ r v', v0 ⊆ v' ∧ gives P r v') v1 t →
    (∀ a v', v0 ⊆ v' → P a v' → sound (gives R) v' (f a)) → sound (gives R) v1 (t ≫= f)) as Hg; [|by eapply Hg].
  clear v Ht Hf. unfold mbind, thread_bind. intros v0.
  induction t as [[a|e|]|X op k IH|k IH|k IH]; intros v Ht Hf; cbn in *; auto.
  - destruct Ht. by apply Hf.
  - by destruct Ht.
  - intros b Hw Hv. eapply wpe_mono; [by apply Ht|]. cbn. intros r b' (H1 & H2 & H3). split_and!; try done. by apply IH.
Qed.

Lemma sound_wrap {A} text (t : thread L A) P v : sound (gives P) v t → sound (gives P) v (t_wrap text t).
Proof. intros Ht. apply sound_finish. eapply sound_mono; [done|]. by intros [a|e|] v'. Qed.

Lemma sound_try {A} (t : thread L A) P v :
  sound (gives P) v t →
  sound (gives (λ x v', match x with inr a => P a v' | inl _ => True end)) v (t_try t).
Proof. intros Ht. apply sound_finish. eapply sound_mono; [done|]. by intros [a|e|] v'. Qed.

Lemma sound_locked {A} (t : thread L A) (Q : post A) v : sound Q v t → sound Q v (locked t).
Proof. intros Ht. cbn. by apply sound_finish. Qed.

Lemma sound_act {A} (op : env (broker L) A) (P : A → gmap Z bytes → Prop) v :
  (∀ b, wf_broker b → v ⊆ view b →
     wpe op (λ r b', wf_broker b' ∧ view b ⊆ view b' ∧ gives P r (view b')) b) →
  sound (gives P) v (act op).
Proof. intros Ho b Hw Hv. by apply Ho. Qed.

(** A thread that does not panic. *)
Abbreviation fine v t := (sound (gives (λ _ _, True)) v t).

Lemma sound_fine {A} P v (t : thread L A) : sound (gives P) v t → fine v t.
Proof. intros Ht. eapply sound_mono; [exact Ht|]. by intros [a|e|] v'. Qed.

Lemma fine_ret {A} v (a : A) : fine v (mret (M := thread L) a).
Proof. done. Qed.

Lemma sound_guard v c e : sound (gives (λ _ _, c = false)) v (t_guard (L := L) c e).
Proof. by destruct c. Qed.

Lemma fine_for_each {A} (l : list A) (t : A → thread L unit) v :
  (∀ x v', v ⊆ v' → fine v' (t x)) → fine v (t_for_each l t).
Proof.
  revert v. induction l as [|x l IH]; intros v Hb; cbn; [done|].
  eapply sound_bind; [by apply Hb|]. intros [] v' Hv _. apply IH. intros y v'' Hv'. apply Hb. by etrans.
Qed.

Lemma fine_fold_each {A B} (l : list A) (acc : B) (t : B → A → thread L B) v :
  (∀ (y : B) x v', x ∈ l → v ⊆ v' → fine v' (t y x)) → fine v (t_fold_each l acc t).
Proof.
  revert v acc. induction l as [|x l IH]; intros v acc Hb; cbn; [done|].
  eapply sound_bind; [apply Hb; [by left|done]|]. intros b v' Hv _. apply IH.
  intros b' y v'' Hy Hv'. apply Hb; [by right|by etrans].
Qed.
End sound.

#[global] Arguments sound : simpl never.

(** ** The actions *)
Lemma wf_message_mono v v' m : v ⊆ v' → wf_message v m → wf_message v' m.
Proof.
  intros Hv (W1 & W2 & W3 & [x W4] & W5). split_and!; try (done || lia).
  - exists x. by eapply lookup_weaken.
  - intros Hb. eapply lookup_weaken; [by apply W5|done].
Qed.

Abbreviation fine v t := (sound (gives (λ _ _, True)) v t).

Section actions.
Context `{orc : Oracle, mtch : !Matcher} {L : Type} `{BodyLogLaws L}.
Implicit Types b : broker L.
Abbreviation view b := (log_view (b_log b)).

(** An action on the memory. *)
Lemma sound_mem {A} (m : env Memory A) (P : A → gmap Z bytes → Prop) v :
  (∀ b, wf_broker b → v ⊆ view b →
     wpe m (λ r x, wf_broker (set_mem x b) ∧ gives P r (view b)) (b_mem b)) →
  sound (L := L) (gives P) v (t_mem m).
Proof.
  intros Hm. apply sound_act. intros b Hw Hv. apply wpe_mem. eapply wpe_mono; [by apply Hm|].
  intros r x [H1 H2]. by split_and!.
Qed.

Ltac reads b := intros b Hw Hv; assert (wf_broker (set_mem (b_mem b) b)) by by rewrite set_mem_self.

Lemma sound_Get v name : sound (L := L) (gives (λ a _, wf_address a)) v (t_mem (Memory_Get name)).
Proof.
  apply sound_mem. reads b. apply wpe_Get; [done|]. intros a Ha. split; [done|]. by apply (wb_addresses b Hw) in Ha as [_ ?].
Qed.

Lemma sound_message v id : sound (L := L) (gives (λ m v', wf_message v' m)) v (t_mem (Memory_message id)).
Proof.
  apply sound_mem. reads b. apply wpe_message; [done|]. intros m Hm. split; [done|]. by apply (wb_messages b Hw) in Hm as [_ ?].
Qed.

Lemma wf_values b ms : wf_broker b → ms ≡ₚ map_values (mm_messages (b_mem b)) → Forall (wf_message (view b)) ms.
Proof.
  intros Hw Hms. apply Forall_forall. intros m. rewrite Hms, elem_of_map_values. intros [k Hk].
  by apply (wb_messages b Hw) in Hk as [_ ?].
Qed.

Lemma sound_All v : sound (L := L) (gives (λ ms v', Forall (wf_message v') ms)) v (t_mem Memory_All).
Proof. apply sound_mem. reads b. apply wpe_All; [done|]. intros ms Hms. split; [done|]. by apply wf_values. Qed.

Lemma sound_ListReady v a limit :
  sound (L := L) (gives (λ ms v', Forall (wf_message v') ms)) v (t_mem (Memory_ListReady a limit)).
Proof.
  apply sound_mem. reads b. apply wpe_ListReady; [done|]. intros ms Hms. split; [done|].
  pose proof (wf_values b ms Hw Hms) as Hall. cbn. rewrite Forall_forall in *. intros m Hm. apply Hall.
  apply (sublist_subseteq _ _ (truncate_limit_sublist limit _)) in Hm.
  rewrite sort_stable_perm in Hm. by apply list_elem_of_filter in Hm as [_ ?].
Qed.

Lemma sound_ListBindings v source : fine v (t_mem (Memory_ListBindings source)).
Proof. apply sound_mem. reads b. by apply wpe_ListBindings. Qed.

Lemma sound_GetConsumer v id : sound (L := L) (gives (λ c _, wf_consumer c)) v (t_mem (Memory_GetConsumer id)).
Proof.
  apply sound_mem. reads b. apply wpe_GetConsumer; [done|]. intros c Hc. split; [done|].
  by apply (wb_consumers b Hw) in Hc as [_ ?].
Qed.

Lemma sound_TxGet v id : fine v (t_mem (TransactionMemory_Get id)).
Proof. apply sound_mem. reads b. by apply wpe_TxGet. Qed.

Lemma sound_ListActive v : fine v (t_mem TransactionMemory_ListActive).
Proof. apply sound_mem. reads b. by apply wpe_ListActive. Qed.

Lemma sound_newID v prefix : fine v (t_mem (newID prefix)).
Proof. apply sound_mem. reads b. unfold newID. by wpe_auto. Qed.

(** Storing a message that the log backs, whatever is stored now. *)
Lemma wf_store b m : wf_broker b → wf_message (view b) m →
  wf_broker (set_mem (set_messages (insert (m_ID m) m) (b_mem b)) b).
Proof. intros [] Hm. split; try done. cbn. by apply map_Forall_insert_2. Qed.

Lemma sound_Update v m : wf_message v m → fine v (t_mem (Memory_Update m)).
Proof.
  intros Hm. apply sound_mem. reads b. apply wpe_Update; [done|]. intros x _. split; [|done].
  apply wf_store; [done|]. by eapply wf_message_mono.
Qed.

Lemma sound_Put v m : wf_message v m → fine v (t_mem (Memory_Put m)).
Proof.
  intros Hm. apply sound_mem. reads b. apply wpe_Put; [done|]. intros _. split; [|done].
  apply wf_store; [done|]. by eapply wf_message_mono.
Qed.

Lemma sound_deleteMessage v id : fine v (t_mem (Memory_deleteMessage id)).
Proof.
  apply sound_mem. reads b. apply wpe_deleteMessage; [done|]. intros x _. split; [|done].
  destruct Hw. split; try done. cbn. by apply map_Forall_delete.
Qed.

Lemma sound_SaveConsumer v c : wf_consumer c → fine v (t_mem (Memory_SaveConsumer c)).
Proof.
  intros Hc. apply sound_mem. reads b. apply wpe_SaveConsumer; [done|]. split; [|done].
  destruct Hw. split; try done. cbn. by apply map_Forall_insert_2.
Qed.

Lemma sound_TxCreate v tx : fine v (t_mem (TransactionMemory_Create tx)).
Proof.
  apply sound_mem. reads b. apply wpe_TxCreate; [done|]. intros _. split; [|done].
  destruct Hw. split; try done. cbn. by apply map_Forall_insert_2.
Qed.

Lemma sound_TxUpdate v tx : fine v (t_mem (TransactionMemory_Update tx)).
Proof.
  apply sound_mem. reads b. apply wpe_TxUpdate; [done|]. intros old _ _. split; [|done].
  destruct Hw. split; try done. cbn. by apply map_Forall_insert_2.
Qed.

Lemma sound_Create v a : wf_address a → fine v (t_mem (Memory_Create a)).
Proof.
  intros Ha. apply sound_mem. reads b. apply wpe_Create; [done|]. intros _. split; [|done].
  destruct Hw. split; try done. cbn. by apply map_Forall_insert_2.
Qed.

Lemma sound_SetPaused v name p : fine v (t_mem (Memory_SetPaused name p)).
Proof.
  apply sound_mem. reads b. apply wpe_SetPaused; [done|]. intros a a' Ha ->. split; [|done].
  pose proof (wb_addresses b Hw _ _ Ha) as [<- Hwa].
  destruct Hw. split; try done. cbn. by apply map_Forall_insert_2.
Qed.

Lemma sound_CreateBinding v x : wf_binding x → fine v (t_mem (Memory_CreateBinding x)).
Proof.
  intros Hx. apply sound_mem. reads b. apply wpe_CreateBinding; [done|]. intros _. split; [|done].
  destruct Hw. split; try done. cbn. by apply map_Forall_insert_2.
Qed.

(** Actions that ask the environment. *)
Lemma sound_ask {A} v (f : nat → A) (P : A → gmap Z bytes → Prop) :
  (∀ n v', P (f n) v') → sound (L := L) (gives P) v (act (ask f)).
Proof. intros HP. apply sound_act. intros b Hw Hv n. cbn. split_and!; [done|done|]. apply HP. Qed.

Lemma sound_now v : fine v t_now.
Proof. by apply sound_ask. Qed.

Lemma sound_randomID v : sound (L := L) (gives (λ id _, log_id id = true)) v (t_randomID "msg").
Proof.
  apply sound_act. intros b Hw Hv. unfold randomID. wpe_auto; split_and!; try done. by apply log_id_msg.
Qed.

Lemma sound_txID v : fine v (act txID).
Proof. apply sound_act. intros b Hw Hv. unfold txID. by wpe_auto. Qed.

Lemma sound_next v : fine v (act next_delivery).
Proof.
  apply sound_act. intros b Hw Hv. unfold next_delivery. wpe_auto.
  destruct (wf_set_seq b (u32 (b_seq b + 1)) Hw). by split_and!.
Qed.

(** The body log. *)
Lemma sound_Append v id body : log_id id = true →
  sound (L := L) (gives (λ off v', v' !! off = Some body)) v (t_log (Log_Append id body)).
Proof.
  intros Hid. apply sound_act. intros b Hw Hv. apply wpe_log, wpe_Log_Append; [apply Hw|done|..].
  - intros e l Hl El. destruct (wf_set_log b l Hw Hl); [by rewrite El|]. split_and!; [done|cbn; by rewrite El|done].
  - intros off l Hl Hfree El. assert (view b ⊆ log_view l) as Hg by (rewrite El; by apply insert_subseteq).
    destruct (wf_set_log b l Hw Hl Hg). split_and!; [done|done|]. cbn. rewrite El. apply lookup_insert_eq.
Qed.

Lemma sound_Read v off : fine v (t_log (Log_Read off)).
Proof.
  apply sound_act. intros b Hw Hv. apply wpe_log, wpe_Log_Read; [apply Hw|..].
  - intros e l Hl El. destruct (wf_set_log b l Hw Hl); [by rewrite El|]. split_and!; [done|cbn; by rewrite El|done].
  - intros body l Hl El _. destruct (wf_set_log b l Hw Hl); [by rewrite El|]. split_and!; [done|cbn; by rewrite El|done].
Qed.
End actions.

Create HintDb sound.
#[local] Hint Constants Opaque : sound.
#[local] Hint Resolve sound_Get sound_message sound_All sound_ListReady sound_ListBindings sound_GetConsumer sound_TxGet
  sound_ListActive sound_newID sound_deleteMessage sound_TxCreate sound_TxUpdate sound_SetPaused sound_now sound_randomID
  sound_txID sound_next sound_Read sound_Append sound_Create sound_CreateBinding : sound.

Ltac sound_step :=
  lazymatch goal with
  | |- sound _ _ (mbind _ _) => eapply sound_bind; [|cbv beta; intros ???]
  | |- sound _ _ (t_wrap _ _) => apply sound_wrap
  | |- sound _ _ (t_try _) => apply sound_try
  | |- sound _ _ (locked _) => apply sound_locked
  | |- sound _ _ (t_ignore _) => eapply sound_bind; [|cbv beta; intros ???]
  | |- sound _ _ (t_guard _ _) => apply sound_guard
  | |- sound _ _ (t_raise _) => exact I
  | |- sound _ _ (t_lift _) => fail
  | |- sound _ _ (t_fold_each _ _ _) => apply fine_fold_each; intros ?????
  | |- sound _ _ (t_for_each _ _) => apply fine_for_each; intros ???
  | |- sound _ _ (mret _) => apply fine_ret
  | |- sound _ _ (let '(_, _) := ?x in _) => destruct x as [??] eqn:?
  | |- sound _ _ (match ?x with _ => _ end) => destruct x eqn:?
  | |- sound _ _ (if ?b then _ else _) => destruct b eqn:?
  | |- _ → _ => intros ?
  | |- _ => solve [eauto with sound]
  end.
Ltac sound_auto := repeat sound_step.

(** A changed copy of a message the log backs. *)
Lemma wf_copy v v' m m' : wf_message v m → v ⊆ v' → same_message m m' → wf_message v' m'.
Proof. intros Hm Hv Hs. eapply wf_message_same; [by eapply wf_message_mono|done]. Qed.

Ltac same := unfold same_message; cbn; split_and!; auto; lia.

Section calls_sound.
Context `{orc : Oracle, mtch : !Matcher} {L : Type} `{BodyLogLaws L}.

Lemma sound_Resolve v source key hdrs : fine v (t_Resolve (L := L) source key hdrs).
Proof.
  unfold t_Resolve, t_resolve_bindings, t_resolve_step. sound_auto.
Qed.
#[local] Hint Resolve sound_Resolve : sound.

(** A copy that is only passed on. *)
Lemma sound_ret_message v v' m m' : wf_message v m → v ⊆ v' → same_message m m' →
  sound (L := L) (gives (λ m' v', wf_message v' m')) v' (mret m').
Proof. intros Hm Hv Hs. by eapply wf_copy. Qed.

Lemma sound_deadLetter v m reason : wf_message v m →
  sound (gives (λ m' v', wf_message v' m')) v (t_deadLetter (L := L) m reason).
Proof.
  intros Hm. unfold t_deadLetter. eapply sound_bind; [apply sound_Get|]. cbv beta. intros a v1 H1 _.
  change (set_State StateDeadLettered _) with (marked_dead m reason).
  pose proof (marked_dead_same m reason) as Hmark.
  apply (sound_bind _ _ (λ m' v', wf_message v' m')).
  - destruct (negb _); [|by eapply sound_ret_message].
    eapply sound_bind; [apply sound_try, sound_Get|]. cbv beta. intros r v2 H2 _.
    assert (v ⊆ v2) by by etrans. destruct r as [e|dl]; [by eapply sound_ret_message|].
    destruct (negb _); [|by eapply sound_ret_message]. eapply sound_ret_message; [done|done|].
    etrans; [exact Hmark|]. same.
  - intros m' v2 H2 Hm'. eapply sound_bind; [by apply sound_Update|]. intros [] v3 H3 _.
    by eapply sound_ret_message.
Qed.

Lemma fine_deadLetter v m reason : wf_message v m → fine v (t_deadLetter (L := L) m reason).
Proof. intros Hm. by eapply sound_fine, sound_deadLetter. Qed.

Lemma sound_enforce v name : fine v (t_enforceMaxLength (L := L) name).
Proof.
  unfold t_enforceMaxLength. eapply sound_bind; [apply sound_Get|]. cbv beta. intros a v1 _ Ha.
  destruct (a_MaxLength a =? 0); [done|]. eapply sound_bind; [apply sound_ListReady|]. cbv beta. intros ready v2 _ Hr.
  assert (0 ≤ a_MaxLength a) as Hmax by apply Ha. clear Ha.
  assert (length ready ≤ length ready)%nat as Hl by done. revert Hl. generalize (length ready) at 2 3 as fuel.
  intros fuel. revert v2 ready Hr. induction fuel as [|fuel IH]; intros v2 ready Hr Hl; cbn [t_enforce_loop].
  { destruct ready; [|cbn in Hl; lia]. cbn [length]. destruct (Z.ltb_spec (a_MaxLength a) (Z.of_nat 0)); [lia|done]. }
  destruct (negb _) eqn:E; [done|]. destruct (last ready) as [victim|] eqn:El.
  2: { apply last_None in El. subst ready. apply negb_false_iff, Z.ltb_lt in E. cbn in E. lia. }
  assert (wf_message v2 victim) as Hvic.
  { rewrite Forall_forall in Hr. apply Hr. by apply last_Some_elem_of. }
  eapply sound_bind; [by apply sound_deadLetter|]. intros m' v3 H3 _. apply IH.
  - apply Forall_take. eapply Forall_impl; [exact Hr|]. intros x. by apply wf_message_mono.
  - rewrite length_take. lia.
Qed.
#[local] Hint Resolve sound_enforce : sound.

(** A new message between its identifier and its place in the store. *)
Lemma sound_new_message {A} v p route (f : string → time → Message → thread L A) :
  (∀ id now msg v', v ⊆ v' → log_id id = true → NewMessage id (with_Address route p) now = Ok msg →
     fine v' (f id now msg)) →
  fine v (id ← t_randomID "msg"; now ← t_now; msg ← t_lift (NewMessage id (with_Address route p) now); f id now msg).
Proof.
  intros Hf. eapply sound_bind; [apply sound_randomID|]. cbv beta. intros id v1 H1 Hid.
  eapply sound_bind; [apply sound_now|]. cbv beta. intros now v2 H2 _.
  destruct (NewMessage _ _ _) as [msg|e|] eqn:Em; [|done|unfold NewMessage in Em; by repeat case_match].
  cbn. apply Hf; [by etrans|done|done].
Qed.

Lemma sound_Accepting v a : fine v (t_lift (L := L) (Accepting a)).
Proof. unfold t_lift, Accepting. by destruct (a_Paused _). Qed.

Lemma sound_publish_route v p created route : fine v (t_publish_route (L := L) p created route).
Proof.
  unfold t_publish_route. apply sound_new_message. intros id now msg v1 _ Hid Em.
  destruct (NewMessage_Ok _ _ _ _ Em) as (Eid & _).
  eapply sound_bind; [apply sound_wrap, sound_Append; by rewrite Eid|]. cbv beta. intros off v2 H2 Hoff.
  eapply sound_bind; [apply sound_wrap, sound_Put|].
  { rewrite <-(set_State_self msg). by eapply wf_message_new. }
  intros. sound_auto.
Qed.

#[local] Hint Resolve sound_publish_route : sound.

Lemma sound_Publish v p : fine v (t_Publish (L := L) p).
Proof.
  unfold t_Publish. cbv zeta. sound_auto. apply sound_Accepting.
Qed.

Lemma sound_stage_route v p out route : fine v (t_stage_route (L := L) p out route).
Proof.
  unfold t_stage_route. apply sound_new_message. intros id now msg v1 _ Hid Em.
  destruct (NewMessage_Ok _ _ _ _ Em) as (Eid & _).
  eapply sound_bind; [apply sound_Append; cbn; by rewrite Eid|]. cbv beta. intros off v2 H2 Hoff.
  eapply sound_bind; [apply sound_Put; by eapply wf_message_new|]. done.
Qed.

#[local] Hint Resolve sound_stage_route : sound.

Lemma sound_Stage v p : fine v (t_Stage (L := L) p).
Proof.
  unfold t_Stage. cbv zeta. sound_auto. apply sound_Accepting.
Qed.
#[local] Hint Resolve sound_Stage : sound.

(** *** Addresses *)
Lemma sound_lift {A} v (r : res A) (P : A → Prop) : (∀ a, r = Ok a → P a) → r ≠ Panic →
  sound (L := L) (gives (λ a _, P a)) v (t_lift r).
Proof. intros Ha Hp. destruct r; [by apply Ha|done|done]. Qed.

Lemma fine_Create v c : fine v (t_Create (L := L) c).
Proof.
  unfold t_Create. eapply sound_bind; [apply sound_now|]. cbv beta. intros now v1 _ _.
  eapply sound_bind; [apply (sound_lift _ _ wf_address)|].
  - intros a Ha. by apply address_New_wf in Ha as [? _].
  - unfold address_New. by repeat case_match.
  - cbv beta. intros. sound_auto.
Qed.

Lemma fine_Bind v x : fine v (t_Bind (L := L) x).
Proof.
  unfold t_Bind. sound_step; [sound_auto|]. sound_step. sound_step; [sound_auto|]. sound_step. sound_step; [sound_auto|].
  sound_step. sound_step; [sound_auto|]. sound_step. eapply sound_bind; [apply (sound_lift _ _ wf_binding)|].
  - intros r Hr. by apply NewBinding_wf in Hr as [? _].
  - unfold NewBinding. by repeat case_match.
  - cbv beta. intros. sound_auto.
Qed.

(** *** Consumers *)
Lemma fine_Register v id a n sem : 0 ≤ n < 2 ^ 32 → fine v (t_Register (L := L) id a n sem).
Proof.
  intros Hn. unfold t_Register. sound_step; [sound_auto|]. sound_step. sound_step; [sound_auto|]. sound_step.
  eapply sound_bind; [apply (sound_lift _ _ wf_consumer)|].
  - intros c Hc. by apply NewConsumer_Ok in Hc as [? _].
  - unfold NewConsumer. by repeat case_match.
  - cbv beta. intros c v3 _ Hc. sound_step; [apply sound_wrap; by apply sound_SaveConsumer|]. sound_auto.
Qed.

(** The delivery of a message read in the call, in the state it has now. *)
Lemma sound_deliver v m m' c (d : Z) : wf_message v m → wf_consumer c → same_message m m' →
  fine v (t_mem (L := L) (Memory_Update m');; t_mem (Memory_SaveConsumer c);;
          body ← t_wrap "read message body" (t_log (Log_Read (m_LogOffset m')));
          mret (set_Body body m', d)).
Proof.
  intros Hm Hc Hs. sound_step; [apply sound_Update; by eapply wf_copy|]. sound_step.
  sound_step; [by apply sound_SaveConsumer|]. sound_auto.
Qed.

Lemma fine_Acquire v id : fine v (t_Acquire (L := L) id).
Proof.
  unfold t_Acquire. apply sound_locked. eapply sound_bind; [apply sound_GetConsumer|]. cbv beta. intros c v1 _ Hc.
  sound_step; [apply sound_guard|]. sound_step. eapply sound_bind; [apply sound_ListReady|]. cbv beta. intros ready v2 _ Hr.
  destruct ready as [|m ready]; [done|]. apply Forall_inv in Hr.
  eapply sound_bind; [apply sound_now|]. cbv beta. intros now v3 H3 _. destruct (Message_Expired m now).
  { eapply sound_bind; [apply fine_deadLetter; by eapply wf_message_mono|]. done. }
  eapply sound_bind; [apply sound_next|]. cbv beta. intros d v4 H4 _.
  destruct (Consumer_Acquire d (m_ID m) c) as [r c'] eqn:Ea. apply Consumer_Acquire_same in Ea as [-> Hp].
  eapply sound_bind; [by apply (sound_lift _ _ (λ _, True))|]. cbv beta zeta. intros [] v5 H5 _.
  assert (wf_message v5 m) as Hm by (eapply wf_message_mono; [|exact Hr]; etrans; [exact H3|]; by etrans).
  destruct (bool_decide _).
  - destruct (Consumer_Settle d c) as [r' c'] eqn:Es. apply Consumer_Settle_same in Es as [-> _].
    eapply sound_deliver; [done|done|same].
  - eapply sound_deliver; [done|done|same].
Qed.

Lemma fine_Settle v id d st : fine v (t_Settle (L := L) id d st).
Proof.
  unfold t_Settle. apply sound_locked. eapply sound_bind; [apply sound_GetConsumer|]. cbv beta. intros c v1 _ Hc.
  destruct (cn_Unsettled c !! d) as [mid|]; [|done].
  eapply sound_bind; [apply sound_message|]. cbv beta. intros m v2 _ Hm.
  apply (sound_bind _ _ (λ m' v', wf_message v' m')).
  - destruct st; try done; [..|by apply sound_deadLetter]; eapply sound_ret_message; try done; same.
  - intros m' v3 _ Hm'. destruct (Consumer_Settle d c) as [r c'] eqn:Es. apply Consumer_Settle_same in Es as [-> Hp].
    eapply sound_bind; [by apply (sound_lift _ _ (λ _, True))|]. cbv beta. intros [] v4 H4 _.
    eapply sound_bind; [|by intros; apply sound_SaveConsumer].
    destruct (negb _); [|apply fine_ret]. apply sound_Update. by eapply wf_message_mono.
Qed.

Lemma fine_Disconnect v id : fine v (t_Disconnect (L := L) id).
Proof.
  unfold t_Disconnect. apply sound_locked. eapply sound_bind; [apply sound_GetConsumer|]. cbv beta. intros c v1 _ Hc.
  eapply sound_bind; [|cbv beta; intros unsettled v2 _ _].
  { apply (sound_fine (λ _ _, True)), sound_act. intros b Hw Hv. unfold map_range. by wpe_auto. }
  eapply sound_bind; [|cbv beta; intros [] v3 _ _].
  - apply fine_for_each. intros mid v' _. unfold t_disconnect_one.
    eapply sound_bind; [apply sound_try, sound_message|]. cbv beta. intros [e|m] v'' _ Hm; [done|].
    eapply sound_bind; [|done]. apply sound_try, sound_Update. eapply wf_copy; [done|done|same].
  - eapply sound_bind; [apply sound_now|]. cbv beta. intros now v4 _ _. apply sound_SaveConsumer.
    destruct Hc as (W1 & W2 & W3 & W4 & W5). unfold wf_consumer. cbn. split_and!; try done; lia.
Qed.

(** *** The sweep and the replay *)
Lemma fine_SweepExpired v : fine v (t_SweepExpired (L := L)).
Proof.
  unfold t_SweepExpired. eapply sound_bind; [apply sound_All|]. cbv beta. intros all v1 _ Hall.
  rewrite Forall_forall in Hall. apply fine_fold_each. intros n m v2 Hm H2. apply Hall in Hm. unfold t_sweep_one.
  destruct (bool_decide _); [|done]. eapply sound_bind; [apply sound_now|]. cbv beta. intros now v3 H3 _.
  destruct (Message_Expired m now); [|done].
  eapply sound_bind; [|done]. apply fine_deadLetter. eapply wf_message_mono; [|done]. by etrans.
Qed.

Lemma replay_candidates_stored limit all m : m ∈ replay_candidates limit all → m ∈ all.
Proof. intros Hm%(sublist_subseteq _ _ (truncate_limit_sublist limit _)). by apply list_elem_of_filter in Hm as [_ ?]. Qed.

Lemma fine_ReplayDead v limit : fine v (t_ReplayDead (L := L) limit).
Proof.
  unfold t_ReplayDead. eapply sound_bind; [apply sound_All|]. cbv beta. intros all v1 _ Hall.
  rewrite Forall_forall in Hall. apply fine_fold_each. intros n m v2 Hm H2. apply replay_candidates_stored, Hall in Hm.
  unfold t_replay_one. eapply sound_bind; [apply sound_try, sound_Get|]. cbv beta. intros [e|a] v3 H3 _; [done|].
  destruct (a_Paused a); [done|]. eapply sound_bind; [|done]. apply sound_Update.
  eapply wf_copy; [done|by etrans|same].
Qed.

(** *** Transactions *)
Lemma fine_CommitStaged v id : fine v (t_CommitStaged (L := L) id).
Proof.
  unfold t_CommitStaged. eapply sound_bind; [apply sound_message|]. cbv beta. intros m v1 _ Hm.
  sound_step; [apply sound_guard|]. cbv zeta. intros _. sound_step; [|sound_auto].
  apply sound_Update. eapply wf_copy; [done|done|same].
Qed.

Lemma fine_RollbackStaged v id : fine v (t_RollbackStaged (L := L) id).
Proof. unfold t_RollbackStaged. sound_auto. Qed.
#[local] Hint Resolve fine_CommitStaged fine_RollbackStaged : sound.

Lemma fine_Declare v ttl c : fine v (t_Declare (L := L) ttl c).
Proof.
  unfold t_Declare. sound_auto. apply (sound_lift _ _ (λ _, True)); [done|]. unfold transaction_New. by repeat case_match.
Qed.

Lemma add_all_no_panic tx msgs : add_all tx msgs ≠ Panic.
Proof.
  revert tx. induction msgs as [|m msgs IH]; intros tx; cbn [add_all]; [done|].
  destruct (Transaction_Add _ tx) as [[]] eqn:E; [by apply IH|done|].
  unfold Transaction_Add, guard_err, mbind, go_bind, gets, mret, go_ret, raise in E. by repeat case_match.
Qed.

Lemma fine_StagePublish v id p : fine v (t_StagePublish (L := L) id p).
Proof.
  unfold t_StagePublish. sound_auto. apply (sound_lift _ _ (λ _, True)); [done|]. apply add_all_no_panic.
Qed.

Lemma fine_complete v tx st : fine v (t_complete (L := L) tx st).
Proof.
  unfold t_complete. eapply sound_bind; [apply sound_now|]. cbv beta. intros now v1 _ _.
  destruct (Transaction_Complete_cases st now tx) as [(_ & _ & ->)|[e ->]]; [|done].
  eapply sound_bind; [by apply (sound_lift _ _ (λ _, True))|]. cbv beta. intros [] v2 _ _. sound_auto.
Qed.

Lemma fine_rollback v tx st : fine v (t_rollback (L := L) tx st).
Proof.
  unfold t_rollback, t_rollback_op. sound_step; [|intros _; apply fine_complete]. sound_auto.
Qed.
#[local] Hint Resolve fine_complete fine_rollback : sound.

(** Every call is sound: whatever the other threads do between its actions. *)
Lemma thread_sound c v : call_in_range c → fine v (thread_of (L := L) c).
Proof.
  assert (∀ {A} (t : thread L A), fine v t → fine v (t_ignore t)) as Hi by (intros; sound_step; [done|sound_auto]).
  intros Hc. destruct c; cbn [thread_of]; try apply Hi.
  - apply fine_Create.
  - apply fine_Bind.
  - unfold t_Pause. sound_auto.
  - apply sound_Publish.
  - by apply fine_Register.
  - apply fine_Acquire.
  - apply fine_Settle.
  - apply fine_Disconnect.
  - apply fine_SweepExpired.
  - apply fine_ReplayDead.
  - apply fine_Declare.
  - apply fine_StagePublish.
  - unfold t_Commit, t_commit_op. sound_auto.
  - unfold t_Rollback. sound_auto.
  - unfold t_Sweep, t_sweep_tx. sound_auto.
Qed.
End calls_sound.
