(* ===== verification/Pool.v ===== *)
(** * Calls in any interleaving

    A pool runs the threads of Concurrent.v as the Go scheduler does: some
    thread that can go on performs its next action, locks the mutex of the
    delivery service or unlocks it, and new calls arrive at any time.

    For every schedule the invariant of the broker holds and no call panics
    ([interleaving_invariant]), the pool never deadlocks and, when no new calls
    arrive, comes to rest with every call returned
    ([calls_return]).  The calls that hold the mutex are atomic for each other:
    any interleaving of them is one of their serial orders
    ([mutex_calls_serialize]).  The calls that do not hold it are not:
    [sweep_races_acquire]. *)

From S2P Require Import Prelude Bytes Text Duration Matcher Address Message Transaction Env.
From S2P Require Import Memory BodyLog Router Delivery DeliveryInv DeliveryFacts TxService TxFacts Broker Concurrent ConcurrentInv.

(** ** The pool *)
Record pool (L : Type) := mkPool {
  pl_broker : broker L;
  pl_asked : nat; (** questions the environment has answered *)
  pl_mu : bool; (** [s.mu] is locked *)
  pl_threads : list (thread L unit);
}.
Arguments mkPool {L}.
Arguments pl_broker {L}.
Arguments pl_asked {L}.
Arguments pl_mu {L}.
Arguments pl_threads {L}.

Section pool.
Context {L : Type}.
Implicit Types (p : pool L) (t : thread L unit).

(** The next step of thread [i]; none when it has returned or waits for the
    mutex.  Unlocking a mutex that is not locked is a fatal error. *)
Definition advance (i : nat) p : option (pool L) :=
  match pl_threads p !! i with
  | Some (Act X op k) =>
      let '(r, (b, n)) := op (pl_broker p, pl_asked p) in
      Some (mkPool b n (pl_mu p) (<[i := k r]> (pl_threads p)))
  | Some (Lock k) =>
      if pl_mu p then None
      else Some (mkPool (pl_broker p) (pl_asked p) true (<[i := k]> (pl_threads p)))
  | Some (Unlock k) =>
      Some (mkPool (pl_broker p) (pl_asked p) false
              (<[i := if pl_mu p then k else Ret Panic]> (pl_threads p)))
  | Some (Ret _) | None => None
  end.

Definition returned t : bool := match t with Ret _ => true | _ => false end.

Definition at_rest p : bool := forallb returned (pl_threads p).

(** The threads in the order the schedule names them. *)
Fixpoint run (schedule : list nat) p : option (pool L) :=
  match schedule with
  | [] => Some p
  | i :: schedule' => p' ← advance i p; run schedule' p'
  end.

Definition moves p p' : Prop := ∃ i, advance i p = Some p'.

Lemma at_rest_Forall p : at_rest p = true ↔ Forall (λ t, returned t = true) (pl_threads p).
Proof. unfold at_rest. induction (pl_threads p); cbn; [by split|]. rewrite andb_true_iff, Forall_cons. tauto. Qed.
End pool.

Section arrivals.
Context `{orc : Oracle, mtch : !Matcher} {L : Type} `{BodyLog L}.
Implicit Types p : pool L.

Definition start (cs : list call) (b : broker L) (n : nat) : pool L :=
  mkPool b n false (thread_of <$> cs).

Definition arrive (c : call) p : pool L :=
  mkPool (pl_broker p) (pl_asked p) (pl_mu p) (pl_threads p ++ [thread_of c]).

(** A thread goes on, or a call arrives. *)
Inductive pool_step p : pool L → Prop :=
  | pool_moves p' : moves p p' → pool_step p p'
  | pool_arrive c : call_in_range c → pool_step p (arrive c p).

(** The calls that hold [s.mu]. *)
Definition takes_mutex (c : call) : bool :=
  match c with CallAcquire _ | CallSettle _ _ _ | CallDisconnect _ => true | _ => false end.
End arrivals.

(** ** Locking *)
Section locking.
Context {L : Type}.

(** No locking in the thread. *)
Fixpoint lockless {A} (t : thread L A) : Prop :=
  match t with
  | Ret _ => True
  | Act X op k => ∀ r, lockless (k r)
  | Lock _ | Unlock _ => False
  end.

(** The thread holds the mutex or not; it locks only what it does not hold and
    returns without it. *)
Fixpoint holds {A} (h : bool) (t : thread L A) : Prop :=
  match t with
  | Ret _ => h = false
  | Act X op k => ∀ r, holds h (k r)
  | Lock k => h = false ∧ holds true k
  | Unlock k => h = true ∧ holds false k
  end.

(** The rest of a critical section: actions, the unlocking, the result. *)
Fixpoint closes {A} (t : thread L A) : Prop :=
  match t with
  | Act X op k => ∀ r, closes (k r)
  | Unlock (Ret _) => True
  | _ => False
  end.

Definition critical_section {A} (t : thread L A) : Prop :=
  match t with Lock k => closes k | _ => False end.

Lemma lockless_bind {A B} (t : thread L A) (f : A → thread L B) :
  lockless t → (∀ a, lockless (f a)) → lockless (t ≫= f).
Proof.
  intros Ht Hf. unfold mbind, thread_bind. induction t as [[a|e|]|X op k IH|k IH|k IH]; cbn in *; auto.
Qed.

Lemma lockless_finish {A B} (g : res A → thread L B) t : lockless t → (∀ r, lockless (g r)) → lockless (finish g t).
Proof. intros Ht Hg. induction t as [r|X op k IH|k IH|k IH]; cbn in *; auto. Qed.

Lemma lockless_for_each {A} (l : list A) (t : A → thread L unit) : (∀ x, lockless (t x)) → lockless (t_for_each l t).
Proof. intros Ht. induction l; cbn; [done|]. by apply lockless_bind. Qed.

Lemma lockless_fold_each {A B} (l : list A) (acc : B) (t : B → A → thread L B) :
  (∀ y x, lockless (t y x)) → lockless (t_fold_each l acc t).
Proof. intros Ht. revert acc. induction l; intros acc; cbn; [done|]. by apply lockless_bind. Qed.

Lemma lockless_holds {A} (t : thread L A) : lockless t → holds false t.
Proof. induction t as [r|X op k IH|k IH|k IH]; cbn; auto; done. Qed.

Lemma closes_holds {A} (t : thread L A) : closes t → holds true t.
Proof. induction t as [r|X op k IH|k IH|k IH]; cbn; try done; auto. by destruct k. Qed.

Lemma critical_holds {A} (t : thread L A) : critical_section t → holds false t.
Proof. destruct t; cbn; try done. split; [done|]. by apply closes_holds. Qed.

(** A locked body is a critical section, and so is its result ignored. *)
Lemma locked_critical {A} (t : thread L A) : lockless t → critical_section (locked t).
Proof. intros Ht. cbn. induction t as [r|X op k IH|k IH|k IH]; cbn in *; auto; done. Qed.

Lemma ignore_critical {A} (t : thread L A) : critical_section t → critical_section (t_ignore t).
Proof.
  destruct t as [| |k|]; try done. cbn. induction k as [r|X op k IH|k IH|k IH]; cbn; try done; auto.
  destruct k as [[]| | |]; done.
Qed.
End locking.

Ltac lockless_step :=
  lazymatch goal with
  | |- lockless (mbind _ _) => apply lockless_bind; [|intros ?]
  | |- lockless (t_try _) => apply lockless_finish; [|by intros []]
  | |- lockless (t_wrap _ _) => apply lockless_finish; [|by intros []]
  | |- lockless (t_ignore _) => apply lockless_bind; [|done]
  | |- lockless (t_guard ?b _) => by destruct b
  | |- lockless (t_for_each _ _) => apply lockless_for_each; intros ?
  | |- lockless (t_fold_each _ _ _) => apply lockless_fold_each; intros ??
  | |- lockless (let '(_, _) := ?x in _) => destruct x as [??] eqn:?
  | |- lockless (match ?x with _ => _ end) => destruct x eqn:?
  | |- lockless (if ?b then _ else _) => destruct b eqn:?
  | |- lockless (act _) => done
  | |- lockless (t_mem _) => done
  | |- lockless (t_log _) => done
  | |- lockless (t_lift _) => done
  | |- lockless (mret _) => done
  | |- lockless (t_raise _) => done
  | |- lockless t_panic => done
  | |- lockless t_now => done
  | |- lockless (t_randomID _) => done
  end.
Ltac lockless_auto := cbv zeta; repeat lockless_step.

Section calls_lock.
Context `{orc : Oracle, mtch : !Matcher} {L : Type} `{BodyLog L}.

Lemma lockless_Resolve source key hdrs : lockless (t_Resolve (L := L) source key hdrs).
Proof. unfold t_Resolve, t_resolve_bindings, t_resolve_step. lockless_auto. Qed.

Lemma lockless_deadLetter m reason : lockless (t_deadLetter (L := L) m reason).
Proof. unfold t_deadLetter. lockless_auto. Qed.

Lemma lockless_enforce name : lockless (t_enforceMaxLength (L := L) name).
Proof.
  unfold t_enforceMaxLength. lockless_auto. generalize (length a0) as fuel. intros fuel. generalize (a_MaxLength a).
  intros k. revert a0. induction fuel as [|fuel IH]; intros ready; cbn [t_enforce_loop]; lockless_auto;
    [apply lockless_deadLetter|apply IH].
Qed.

Lemma lockless_Stage p : lockless (t_Stage (L := L) p).
Proof. unfold t_Stage, t_stage_route. lockless_auto. all: apply lockless_Resolve. Qed.

Lemma lockless_CommitStaged id : lockless (t_CommitStaged (L := L) id).
Proof. unfold t_CommitStaged. lockless_auto. apply lockless_enforce. Qed.

Lemma lockless_rollback tx st : lockless (t_rollback (L := L) tx st).
Proof. unfold t_rollback, t_rollback_op, t_RollbackStaged, t_complete. lockless_auto. Qed.

(** Every call locks nothing or is one critical section. *)
Lemma thread_locking c :
  if takes_mutex c then critical_section (thread_of (L := L) c) else lockless (thread_of (L := L) c).
Proof.
  destruct c; cbn [thread_of takes_mutex].
  - unfold t_Create. lockless_auto.
  - unfold t_Bind. lockless_auto.
  - unfold t_Pause. lockless_auto.
  - unfold t_Publish, t_publish_route. lockless_auto; auto using lockless_Resolve, lockless_enforce.
  - unfold t_Register. lockless_auto.
  - apply ignore_critical, locked_critical. lockless_auto. all: apply lockless_deadLetter.
  - apply locked_critical. lockless_auto. all: apply lockless_deadLetter.
  - apply locked_critical. unfold t_disconnect_one. lockless_auto.
  - unfold t_SweepExpired, t_sweep_one. lockless_auto; apply lockless_deadLetter.
  - unfold t_ReplayDead, t_replay_one. lockless_auto.
  - unfold t_Declare. lockless_auto.
  - unfold t_StagePublish. lockless_auto; apply lockless_Stage.
  - unfold t_Commit, t_commit_op, t_complete. lockless_auto; auto using lockless_CommitStaged, lockless_rollback.
  - unfold t_Rollback. lockless_auto; apply lockless_rollback.
  - unfold t_Sweep, t_sweep_tx. lockless_auto; apply lockless_rollback.
Qed.

Lemma thread_holds c : holds false (thread_of (L := L) c).
Proof.
  pose proof (thread_locking c) as Hc. destruct (takes_mutex c); [by apply critical_holds|by apply lockless_holds].
Qed.
End calls_lock.

(** ** The invariant of the pool *)
Section invariant.
Context `{orc : Oracle, mtch : !Matcher} {L : Type} `{BodyLogLaws L}.
Implicit Types (p : pool L) (t : thread L unit).
Abbreviation view b := (log_view (b_log b)).

(** At most one thread holds the mutex, and exactly when it is locked. *)
Definition held_by (h : option nat) p : Prop :=
  pl_mu p = bool_decide (is_Some h) ∧ (∀ i, h = Some i → (i < length (pl_threads p))%nat) ∧
  ∀ i t, pl_threads p !! i = Some t → holds (bool_decide (h = Some i)) t.

Definition pool_ok p : Prop :=
  wf_broker (pl_broker p) ∧ Forall (λ t, fine (view (pl_broker p)) t) (pl_threads p) ∧ ∃ h, held_by h p.

Lemma fine_mono v v' t : v ⊆ v' → fine v t → fine v' t.
Proof.
  intros Hv. induction t as [r|X op k IH|k IH|k IH]; cbn; auto.
  intros Ht b Hw Hv'. apply Ht; [done|by etrans].
Qed.

(** Thread [i] goes on with [t] and the others stay; the mutex is now held by
    [h']. *)
Lemma held_update p p' h h' i t t0 :
  held_by h p → pl_threads p !! i = Some t0 → pl_threads p' = <[i := t]> (pl_threads p) →
  pl_mu p' = bool_decide (is_Some h') → holds (bool_decide (h' = Some i)) t →
  (∀ j, j ≠ i → h' = Some j ↔ h = Some j) → held_by h' p'.
Proof.
  intros (M & Hlt & Hh) Hi Et Em Ht Hother. split_and!; [done|..].
  - intros j ->. rewrite Et, length_insert. destruct (decide (j = i)) as [->|Hj]; [by eapply lookup_lt_Some|].
    by apply Hlt, Hother.
  - intros j u. rewrite Et. intros [(<- & <- & _)|[Hne Hu]]%list_lookup_insert_Some; [done|].
    rewrite (bool_decide_ext _ _ (Hother j (not_eq_sym Hne))). by apply Hh.
Qed.

Lemma held_advance p p' h i : held_by h p → advance i p = Some p' →
  ∃ h', held_by h' p' ∧ ∀ k, pl_threads p !! i = Some (Unlock k) → pl_threads p' = <[i := k]> (pl_threads p).
Proof.
  intros Hh Hadv. pose proof Hh as (M & Hlt & Hall). unfold advance in Hadv.
  destruct (pl_threads p !! i) as [t|] eqn:Hi; [|done]. pose proof (Hall i t Hi) as Ht.
  destruct t as [r|X op k|k|k]; [done|..]; cbn in Ht.
  - destruct (op _) as [r [b n]]. simplify_eq. exists h. split; [|done]. by eapply held_update.
  - destruct (pl_mu p) eqn:Em; simplify_eq. exists (Some i). split; [|done].
    assert (h = None) as -> by (symmetry in M; apply bool_decide_eq_false, eq_None_not_Some in M; done).
    eapply held_update; [exact Hh|exact Hi|done|done| |].
    + rewrite bool_decide_eq_true_2 by done. apply Ht.
    + cbn. naive_solver.
  - destruct Ht as [Ht Hk]. apply bool_decide_eq_true in Ht. subst h. rewrite bool_decide_eq_true_2 in M by done.
    rewrite M in Hadv. simplify_eq. exists None. split; [|naive_solver]. eapply held_update; [exact Hh|exact Hi|done|done| |].
    + by rewrite bool_decide_eq_false_2.
    + cbn. naive_solver.
Qed.

Lemma pool_ok_advance p p' i : pool_ok p → advance i p = Some p' → pool_ok p' ∧ view (pl_broker p) ⊆ view (pl_broker p').
Proof.
  intros (Hw & Hf & h & Hh) Hadv. destruct (held_advance _ _ _ _ Hh Hadv) as (h' & Hh' & Hu).
  unfold advance in Hadv. destruct (pl_threads p !! i) as [t|] eqn:Hi; [|done].
  assert (fine (view (pl_broker p)) t) as Ht by by eapply Forall_lookup_1 in Hf.
  destruct t as [r|X op k|k|k]; [done|..].
  - specialize (Ht _ Hw (reflexivity _) (pl_asked p)).
    destruct (op _) as [r [b n]] eqn:Eo. simplify_eq. cbn in Ht.
    destruct Ht as (Hw' & Hv' & Hk). split; [|done]. split_and!; [done| |by exists h']. cbn.
    apply Forall_insert; [|done]. eapply Forall_impl; [exact Hf|]. intros u. by apply fine_mono.
  - destruct (pl_mu p); simplify_eq. split; [|done]. split_and!; [done| |by exists h']. by apply Forall_insert.
  - simplify_eq. split; [|done]. split_and!; [done| |by exists h']. rewrite (Hu k eq_refl). by apply Forall_insert.
Qed.

Lemma pool_ok_arrive p c : call_in_range c → pool_ok p → pool_ok (arrive c p).
Proof.
  intros Hc (Hw & Hf & h & M & Hlt & Hh). split_and!; [done|..]; cbn.
  - apply Forall_app. split; [done|]. constructor; [|done]. by apply thread_sound.
  - exists h. split_and!; [done|..]; cbn.
    + intros i Hi. rewrite length_app. apply Hlt in Hi. lia.
    + intros i t [Ht|[Hi Ht]]%lookup_app_Some; [by apply Hh|].
      apply list_lookup_singleton_Some in Ht as [_ <-]. rewrite bool_decide_eq_false_2; [apply thread_holds|].
      intros ->. specialize (Hlt i eq_refl). lia.
Qed.

Lemma pool_ok_start cs b n : wf_broker b → Forall call_in_range cs → pool_ok (start cs b n).
Proof.
  intros Hw Hcs. split_and!; [done|..].
  - cbn. apply Forall_fmap. eapply Forall_impl; [exact Hcs|]. intros c Hc. by apply thread_sound.
  - exists None. split_and!; [done|done|]. cbn. intros i t Ht. apply list_lookup_fmap_Some in Ht as (c & -> & _).
    apply thread_holds.
Qed.

Lemma pool_ok_steps p p' : rtc pool_step p p' → pool_ok p → pool_ok p'.
Proof.
  induction 1 as [|p p1 p' Hs _ IH]; [done|]. intros Hp. apply IH. destruct Hs as [p1 [i Hi]|c Hc].
  - by eapply pool_ok_advance.
  - by apply pool_ok_arrive.
Qed.

Lemma pool_ok_results p i r : pool_ok p → pl_threads p !! i = Some (Ret r) → r ≠ Panic.
Proof. intros (_ & Hf & _) Hi ->. by destruct (Forall_lookup_1 _ _ _ _ Hf Hi). Qed.

(** Somebody can go on. *)
Lemma pool_ok_progress p : pool_ok p → at_rest p = false → ∃ p', moves p p'.
Proof.
  intros (_ & _ & h & M & Hlt & Hh) Hr. destruct h as [i|].
  - destruct (lookup_lt_is_Some_2 (pl_threads p) i (Hlt i eq_refl)) as [t Ht].
    pose proof (Hh i t Ht) as Hhold. rewrite bool_decide_eq_true_2 in Hhold by done.
    unfold moves. destruct t as [r|X op k|k|k]; cbn in Hhold; [done| |by destruct Hhold|].
    + destruct (op (pl_broker p, pl_asked p)) as [r [b n]] eqn:Eo. eexists _, i. unfold advance. rewrite Ht, Eo. done.
    + eexists _, i. unfold advance. by rewrite Ht.
  - assert (∃ i t, pl_threads p !! i = Some t ∧ returned t = false) as (i & t & Ht & Hret).
    { destruct (decide (Forall (λ t, returned t = true) (pl_threads p))) as [Hall|Hno].
      { apply at_rest_Forall in Hall. congruence. }
      apply not_Forall_Exists in Hno; [|apply _]. apply Exists_exists in Hno as (t & Ht & Hret).
      apply list_elem_of_lookup in Ht as [i Hi]. exists i, t. split; [done|]. by apply not_true_iff_false. }
    pose proof (Hh i t Ht) as Hhold. unfold moves. destruct t as [r|X op k|k|k]; [done|..]; cbn in Hhold.
    + destruct (op (pl_broker p, pl_asked p)) as [r [b n]] eqn:Eo. eexists _, i. unfold advance. rewrite Ht, Eo. done.
    + eexists _, i. unfold advance. by rewrite Ht, M.
    + by destruct Hhold as [Hno _].
Qed.
End invariant.

(** ** Every schedule ends *)

(** A relation on the elements of a list, one at a time. *)
Definition pointwise_step {A} (R : relation A) (l l' : list A) : Prop :=
  ∃ i x x', l !! i = Some x ∧ R x x' ∧ l' = <[i := x']> l.

Lemma pointwise_sn {A} (R : relation A) l : Forall (sn R) l → sn (pointwise_step R) l.
Proof.
  induction l as [|x l IH]; intros Hl.
  { constructor. intros l' (i & x & x' & Hi & _). by rewrite lookup_nil in Hi. }
  apply Forall_cons in Hl as [Hx Hl%IH]. clear IH. revert x Hx.
  induction Hl as [l _ IHl]. intros x Hx. induction Hx as [x Hx IHx]. constructor.
  intros l' (i & y & y' & Hi & Hy & ->). destruct i as [|i]; cbn in *.
  - simplify_eq. by apply IHx.
  - apply IHl; [by exists i, y, y'|by constructor].
Qed.

Section rest.
Context {L : Type}.
Implicit Types (p : pool L) (t : thread L unit).

Definition goes_on t t' : Prop :=
  match t with
  | Ret _ => False
  | Act X op k => ∃ r, t' = k r
  | Lock k => t' = k
  | Unlock k => t' = k ∨ t' = Ret Panic
  end.

Lemma thread_sn t : sn goes_on t.
Proof.
  assert (∀ r, sn goes_on (Ret r)) by (constructor; done).
  induction t as [r|X op k IH|k IH|k IH]; [done|..]; constructor; cbn; intros t'; cbn.
  - by intros [r ->].
  - by intros ->.
  - by intros [-> | ->].
Qed.

Lemma moves_threads p p' : moves p p' → pointwise_step goes_on (pl_threads p) (pl_threads p').
Proof.
  intros [i Hi]. unfold advance in Hi. destruct (pl_threads p !! i) as [t|] eqn:Ht; [|done].
  destruct t as [r|X op k|k|k]; [done|..].
  - destruct (op _) as [r [b n]]. simplify_eq. eexists i, _, _. split_and!; [exact Ht|by exists r|done].
  - destruct (pl_mu p); simplify_eq. by eexists i, _, _.
  - simplify_eq. eexists i, _, _. split_and!; [exact Ht| |done]. destruct (pl_mu p); cbn; auto.
Qed.

Lemma moves_sn p : sn moves p.
Proof.
  assert (sn (pointwise_step goes_on) (pl_threads p)) as Hsn.
  { apply pointwise_sn, Forall_forall. intros t _. apply thread_sn. }
  remember (pl_threads p) as l eqn:El. revert p El. induction Hsn as [l _ IH]. intros p ->. constructor.
  intros p' Hm. eapply IH; [|done]. by apply moves_threads.
Qed.
End rest.

(** ** The calls that hold the mutex are atomic for each other *)
Section serial.
Context `{orc : Oracle, mtch : !Matcher} {L : Type} `{BodyLog L}.
Implicit Types (p : pool L) (s : broker L * nat) (σ : list (nat * res unit)).

(** The calls [σ] names, one whole call after the other, with their results. *)
Inductive serial (cs : list call) s0 : list (nat * res unit) → broker L * nat → Prop :=
  | serial_nil : serial cs s0 [] s0
  | serial_snoc σ s i c r s' :
      serial cs s0 σ s → i ∉ σ.*1 → cs !! i = Some c → exec c s = (r, s') →
      serial cs s0 (σ ++ [(i, r)]) s'.

Definition placed σ p (j : nat) (c : call) : Prop :=
  (∃ r, (j, r) ∈ σ ∧ pl_threads p !! j = Some (Ret r)) ∨
  (j ∉ σ.*1 ∧ pl_threads p !! j = Some (thread_of c)).

(** Between two critical sections, and inside one. *)
Definition between (cs : list call) s0 σ p : Prop :=
  pl_mu p = false ∧ serial cs s0 σ (pl_broker p, pl_asked p) ∧
  ∀ j c, cs !! j = Some c → placed σ p j c.

Definition inside (cs : list call) s0 σ p : Prop :=
  pl_mu p = true ∧ ∃ s i c k, serial cs s0 σ s ∧ i ∉ σ.*1 ∧ cs !! i = Some c ∧ pl_threads p !! i = Some k ∧
    closes k ∧ alone k (pl_broker p, pl_asked p) = exec c s ∧
    ∀ j c', j ≠ i → cs !! j = Some c' → placed σ p j c'.

Definition serializes (cs : list call) s0 p : Prop :=
  length (pl_threads p) = length cs ∧ ∃ σ, between cs s0 σ p ∨ inside cs s0 σ p.

Lemma placed_other σ p p' i t j c : pl_threads p' = <[i := t]> (pl_threads p) → j ≠ i →
  placed σ p j c → placed σ p' j c.
Proof. intros Et Hj. unfold placed. rewrite Et, list_lookup_insert_ne by done. done. Qed.

Lemma placed_snoc σ p i r j c : j ≠ i → placed σ p j c → placed (σ ++ [(i, r)]) p j c.
Proof.
  intros Hj [(r' & Hr & Ht)|[Hn Ht]].
  - left. exists r'. split; [apply elem_of_app; by left|done].
  - right. split; [|done]. rewrite fmap_app. cbn. rewrite elem_of_app, list_elem_of_singleton. naive_solver.
Qed.

Lemma takes_mutex_thread c : takes_mutex c = true → ∃ k, thread_of (L := L) c = Lock k ∧ closes k.
Proof.
  intros Hc. pose proof (thread_locking (L := L) c) as Hl. rewrite Hc in Hl.
  destruct (thread_of c); cbn in Hl; try done. eauto.
Qed.

Lemma between_advance cs s0 σ p p' i : Forall (λ c, takes_mutex c = true) cs →
  length (pl_threads p) = length cs → between cs s0 σ p → advance i p = Some p' → inside cs s0 σ p'.
Proof.
  intros Hcs Hlen (Hmu & Hser & Hpl) Hadv. unfold advance in Hadv.
  destruct (pl_threads p !! i) as [t|] eqn:Ht; [|done].
  destruct (lookup_lt_is_Some_2 cs i) as [c Hc]; [rewrite <-Hlen; by eapply lookup_lt_Some|].
  destruct (takes_mutex_thread c) as (k & Ek & Hk); [by eapply (Forall_lookup_1 _ _ _ _ Hcs)|].
  destruct (Hpl i c Hc) as [(r & _ & Ht')|[Hn Ht']]; rewrite Ht in Ht'; simplify_eq.
  rewrite Ek, Hmu in Hadv. simplify_eq. split; [done|]. cbn.
  exists (pl_broker p, pl_asked p), i, c, k. split_and!; try done.
  - apply list_lookup_insert_eq. by eapply lookup_lt_Some.
  - rewrite <-(thread_alone c), Ek. done.
  - intros j c' Hj Hc'. eapply (placed_other _ p); [done|done|]. by apply Hpl.
Qed.

Lemma inside_advance cs s0 σ p p' i : Forall (λ c, takes_mutex c = true) cs →
  length (pl_threads p) = length cs → inside cs s0 σ p → advance i p = Some p' →
  ∃ σ', between cs s0 σ' p' ∨ inside cs s0 σ' p'.
Proof.
  intros Hcs Hlen (Hmu & s & i' & c & k & Hser & Hn & Hc & Hk & Hcl & Hal & Hpl) Hadv. unfold advance in Hadv.
  destruct (pl_threads p !! i) as [t|] eqn:Ht; [|done]. pose proof (lookup_lt_Some _ _ _ Ht) as Hi.
  destruct (decide (i = i')) as [<-|Hne].
  - rewrite Ht in Hk. simplify_eq. destruct k as [r|X op k|k|k]; [done| |done|].
    + cbn in Hal. destruct (op _) as [r [b n]]. simplify_eq. exists σ. right. split; [done|]. cbn.
      exists s, i, c, (k r). split_and!; try done; [by apply list_lookup_insert_eq|].
      intros j c' Hj Hc'. eapply (placed_other _ p); [done|done|]. by apply Hpl.
    + destruct k as [r| | |]; try done. rewrite Hmu in Hadv. simplify_eq. cbn in Hal.
      exists (σ ++ [(i, r)]). left. split_and!; [done|by eapply serial_snoc|].
      intros j c' Hc'. destruct (decide (j = i)) as [->|Hj].
      * left. exists r. split; [apply elem_of_app; right; by left|]. by apply list_lookup_insert_eq.
      * apply placed_snoc; [done|]. eapply (placed_other _ p); [done|done|]. by apply Hpl.
  - destruct (lookup_lt_is_Some_2 cs i) as [c' Hc']; [by rewrite <-Hlen|].
    destruct (takes_mutex_thread c') as (k' & Ek & _); [by eapply (Forall_lookup_1 _ _ _ _ Hcs)|].
    destruct (Hpl i c' Hne Hc') as [(r & _ & Ht')|[_ Ht']]; rewrite Ht in Ht'; simplify_eq.
    by rewrite Ek, Hmu in Hadv.
Qed.

Lemma advance_length i p p' : advance i p = Some p' → length (pl_threads p') = length (pl_threads p).
Proof.
  unfold advance. intros Hadv. repeat case_match; simplify_eq; cbn; by rewrite length_insert.
Qed.

Lemma moves_length p p' : rtc moves p p' → length (pl_threads p') = length (pl_threads p).
Proof. induction 1 as [|p p1 p' [i Hi] _ ->]; [done|]. by apply (advance_length i). Qed.

Lemma moves_serialize cs s0 p p' : Forall (λ c, takes_mutex c = true) cs →
  rtc moves p p' → serializes cs s0 p → serializes cs s0 p'.
Proof.
  intros Hcs. induction 1 as [|p p1 p' [i Hi] _ IH]; [done|]. intros (Hlen & σ & Hs). apply IH. split.
  - by rewrite (advance_length _ _ _ Hi).
  - destruct Hs as [Hs|Hs]; [|by eapply inside_advance]. exists σ. right. by eapply between_advance.
Qed.

Lemma serial_indices cs s0 σ s : serial cs s0 σ s → NoDup σ.*1 ∧ ∀ i, i ∈ σ.*1 → (i < length cs)%nat.
Proof.
  induction 1 as [|σ s i c r s' _ [Hnd Hlt] Hn Hc _]; [by split; [constructor|inversion 1]|].
  rewrite fmap_app. split.
  - apply NoDup_app. split_and!; [done| |apply NoDup_singleton]. intros j Hj Hji. cbn in Hji.
    apply list_elem_of_singleton in Hji. by subst.
  - intros j [Hj|Hj]%elem_of_app; [by apply Hlt|]. cbn in Hj. apply list_elem_of_singleton in Hj as ->.
    by eapply lookup_lt_Some.
Qed.

(** At rest the calls have run one after the other. *)
Lemma rest_serial cs s0 p : Forall (λ c, takes_mutex c = true) cs → serializes cs s0 p → at_rest p = true →
  ∃ σ, serial cs s0 σ (pl_broker p, pl_asked p) ∧ σ.*1 ≡ₚ seq 0 (length cs) ∧
    ∀ i r, (i, r) ∈ σ → pl_threads p !! i = Some (Ret r).
Proof.
  intros Hcs (Hlen & σ & [(_ & Hser & Hpl)|Hin]) Hrest; rewrite at_rest_Forall in Hrest.
  2: { destruct Hin as (_ & s & i & c & k & _ & _ & _ & Hk & Hcl & _).
       eapply Forall_lookup_1 in Hrest; [|exact Hk]. by destruct k. }
  assert (∀ j c, cs !! j = Some c → ∃ r, (j, r) ∈ σ ∧ pl_threads p !! j = Some (Ret r)) as Hret.
  { intros j c Hc. destruct (Hpl j c Hc) as [?|[_ Ht]]; [done|]. eapply Forall_lookup_1 in Hrest; [|exact Ht].
    destruct (takes_mutex_thread c) as (k & Ek & _); [by eapply (Forall_lookup_1 _ _ _ _ Hcs)|]. by rewrite Ek in Hrest. }
  destruct (serial_indices _ _ _ _ Hser) as [Hnd Hlt]. exists σ. split_and!; [done|..].
  - apply NoDup_Permutation; [done|apply NoDup_ListNoDup, seq_NoDup|]. intros j. rewrite elem_of_seq. split.
    + intros Hj%Hlt. lia.
    + intros [_ Hj]. destruct (lookup_lt_is_Some_2 cs j Hj) as [c Hc]. destruct (Hret j c Hc) as (r & Hr & _).
      apply list_elem_of_fmap. by exists (j, r).
  - intros i r Hir. assert (i ∈ σ.*1) as Hi by (apply list_elem_of_fmap; by exists (i, r)).
    destruct (lookup_lt_is_Some_2 cs i (Hlt i Hi)) as [c Hc]. destruct (Hret i c Hc) as (r' & Hr' & Ht).
    apply (elem_of_list_to_map_1 (M := gmap nat)) in Hir, Hr'; [|done..]. congruence.
Qed.
End serial.

(** ** Properties *)
Section properties.
Context `{orc : Oracle, mtch : !Matcher} {L : Type} `{BodyLogLaws L}.
Implicit Types (b : broker L) (p : pool L).

(** C8. In every interleaving of service calls, at the granularity of the
    repositories and of the body log, with calls arriving at any time and any
    answers of the environment, the invariant of the broker holds, no call
    panics (unlocking a mutex that is not locked included), and while a call
    has not returned some call can go on: the mutex never deadlocks. *)
Theorem interleaving_invariant b n p :
  wf_broker b → rtc pool_step (mkPool b n false []) p →
  wf_broker (pl_broker p) ∧
  (∀ i r, pl_threads p !! i = Some (Ret r) → r ≠ Panic) ∧
  (at_rest p = false → ∃ p', moves p p').
Proof.
  intros Hw Hs. assert (pool_ok p) as Hp by (eapply pool_ok_steps; [exact Hs|by apply (pool_ok_start [])]).
  split_and!; [apply Hp| |by apply pool_ok_progress]. intros i r. by apply pool_ok_results.
Qed.

(** C10. Every call returns, whatever the scheduler does: from any started
    calls no schedule is infinite, and a pool in which nobody can go on is at
    rest, with every call returned with a value or an error. *)
Theorem calls_return (cs : list call) b n :
  wf_broker b → Forall call_in_range cs →
  sn moves (start cs b n) ∧
  ∀ p, rtc moves (start cs b n) p → nf moves p →
    at_rest p = true ∧ wf_broker (pl_broker p) ∧
    ∀ i c, cs !! i = Some c → ∃ r, pl_threads p !! i = Some (Ret r) ∧ r ≠ Panic.
Proof.
  intros Hw Hcs. split; [apply moves_sn|]. intros p Hm Hnf.
  assert (pool_ok p) as Hp.
  { eapply pool_ok_steps; [|by apply pool_ok_start]. eapply rtc_subrel; [|exact Hm]. intros. by constructor. }
  destruct (at_rest p) eqn:Hr; [|destruct Hnf; by apply pool_ok_progress]. split_and!; [done|apply Hp|].
  intros i c Hi. apply at_rest_Forall in Hr. destruct (lookup_lt_is_Some_2 (pl_threads p) i) as [t Ht].
  { rewrite (moves_length _ _ Hm). cbn. rewrite length_fmap. by eapply lookup_lt_Some. }
  pose proof (Forall_lookup_1 _ _ _ _ Hr Ht) as Hret. destruct t as [r| | |]; try done.
  exists r. split; [done|]. by eapply pool_ok_results.
Qed.

(** C9. [Acquire], [Settle] and [Disconnect] are atomic for each other: when
    any number of them have run in any interleaving, the state and every
    result are those of some order in which they run one whole call after the
    other, each exactly once. *)
Theorem mutex_calls_serialize (cs : list call) b n p :
  Forall (λ c, takes_mutex c = true) cs → rtc moves (start cs b n) p → at_rest p = true →
  ∃ σ, serial cs (b, n) σ (pl_broker p, pl_asked p) ∧ σ.*1 ≡ₚ seq 0 (length cs) ∧
    ∀ i r, (i, r) ∈ σ → pl_threads p !! i = Some (Ret r).
Proof.
  intros Hcs Hm Hr. apply rest_serial; [done| |done]. eapply moves_serialize; [done|exact Hm|].
  split; [apply length_fmap|]. exists []. left. split_and!; [done|constructor|].
  intros j c Hc. right. split; [by inversion 1|]. cbn. by rewrite list_lookup_fmap, Hc.
Qed.
End properties.

(** ** Concrete runs *)
Lemma run_moves {L} schedule (p p' : pool L) : run schedule p = Some p' → rtc moves p p'.
Proof.
  revert p. induction schedule as [|i schedule IH]; cbn; intros p Hr; [by simplify_eq|].
  destruct (advance i p) as [p1|] eqn:Ha; [|done]. eapply rtc_l; [by exists i|by apply IH].
Qed.

(** What is left of a run: the messages and the results of the calls. *)
Definition observe {L} (p : pool L) : list (string * State * Z * bool) * list (option (res unit)) :=
  ((λ m, (m_Address m, m_State m, m_DeliveryCount m, m_Redelivered m)) <$> map_values (mm_messages (b_mem (pl_broker p))),
   (λ t, match t with Ret r => Some r | _ => None end) <$> pl_threads p).

Section races.
#[local] Existing Instance test_oracle.
#[local] Existing Instance StandardMatcher.

Definition one_message (ttl : duration) : Publish := mkPublish "jobs" "" None (string_bytes "one") 1 ttl false "".

(** A queue with a dead-letter queue, a consumer and one message. *)
Definition expiring : broker MemoryLog * nat :=
  exec_all [CallCreate (mkCreate "dead" KindQueue true 0 "" ""); CallCreate (mkCreate "jobs" KindQueue true 0 "" "dead");
            CallRegister "c1" "jobs" 5 AtLeastOnce; CallPublish (one_message (10 * Second))] (new_broker, O).

(** A message staged in a transaction. *)
Definition declared : broker MemoryLog * nat :=
  exec_all [CallCreate (mkCreate "jobs" KindQueue true 0 "" ""); CallRegister "c1" "jobs" 5 AtLeastOnce;
            CallDeclare Hour "conn"] (new_broker, O).
Definition staging : string :=
  match map_values (mm_transactions (b_mem declared.1)) with t :: _ => tx_ID t | [] => "" end.
Definition staged : broker MemoryLog * nat := exec_all [CallStagePublish staging (one_message Hour)] declared.

(** The sweep does not hold the mutex: it reads the messages while one of them
    waits, [Acquire] hands that one to a consumer, and the sweep, whose clock
    has moved on, stores its old copy in the dead-letter queue.  The delivered
    message is available again, there, and the count of its deliveries is
    gone. *)
Theorem sweep_races_acquire :
  (run [0; 1;1;1;1;1;1;1;1;1]%nat (start [CallSweepExpired; CallAcquire "c1"] expiring.1 expiring.2) ≫= λ p,
     p' ← run [0; 0; 0; 0]%nat p; Some (observe p, observe p')) =
  Some (([("jobs", StateAcquired, 1, false)], [None; Some (Ok tt)]),
        ([("dead", StateAvailable, 0, false)], [Some (Ok tt); Some (Ok tt)])).
Proof. vm_compute. reflexivity. Qed.

(** Two commits of one transaction deliver its message twice: the second has
    read the staged message when the first makes it available and [Acquire]
    hands it out; it then makes it available again, and only afterwards does
    the version of the transaction stop it.  The second delivery does not say
    that it is one. *)
Theorem commit_races_commit :
  observe <$> run ([1;1;1] ++ replicate 7 0 ++ replicate 9 2 ++ replicate 4 1 ++ replicate 9 3)%nat
    (start [CallCommit staging; CallCommit staging; CallAcquire "c1"; CallAcquire "c1"] staged.1 staged.2) =
  Some ([("jobs", StateAcquired, 1, false)],
        [Some (Ok tt); Some (Err (ErrConflict "stale transaction version")); Some (Ok tt); Some (Ok tt)]).
Proof. vm_compute. reflexivity. Qed.

(** A committed message can be lost: a rollback of the same transaction has
    read the staged message when the commit makes it available and returns
    without an error; the rollback then deletes it, and only afterwards does
    the version of the transaction stop it.  One call after the other, in
    either order, the commit fails or the message stays. *)
Theorem rollback_races_commit :
  let p := start [CallCommit staging; CallRollback staging] staged.1 staged.2 in
  observe <$> run ([1;1] ++ replicate 7 0 ++ replicate 3 1)%nat p =
    Some ([], [Some (Ok tt); Some (Err (ErrConflict "stale transaction version"))]) ∧
  observe <$> run (replicate 7 0 ++ replicate 2 1)%nat p =
    Some ([("jobs", StateAvailable, 0, false)],
          [Some (Ok tt); Some (Err (ErrNew "message is not transaction-staged"))]) ∧
  ∃ e, observe <$> run (replicate 5 1 ++ replicate 3 0)%nat p = Some ([], [Some (Err e); Some (Ok tt)]).
Proof. split_and!; [vm_compute; reflexivity..|]. eexists. vm_compute. reflexivity. Qed.

(** The runs of the witnesses. *)
Definition two_takers : pool MemoryLog := start [CallAcquire "c1"; CallDisconnect "c1"] expiring.1 expiring.2.
Abbreviation takers_schedule := (replicate 6 1 ++ replicate 3 0)%nat.

Lemma expiring_wf : wf_broker expiring.1.
Proof.
  apply (steps_advance new_broker); [apply started_wf, new_broker_started|]. apply exec_all_steps.
  repeat constructor; cbn; lia.
Qed.

Definition two_arrivals : pool MemoryLog :=
  arrive CallSweepExpired (arrive (CallAcquire "c1") (mkPool expiring.1 expiring.2 false [])).

Lemma arrivals_run : at_rest <$> run [0; 1; 0]%nat two_arrivals = Some false.
Proof. vm_compute. reflexivity. Qed.

Lemma takers_run : at_rest <$> run takers_schedule two_takers = Some true.
Proof. vm_compute. reflexivity. Qed.

Lemma interleaving_invariant_witness :
  ∃ p, run [0; 1; 0]%nat two_arrivals = Some p ∧ wf_broker (pl_broker p) ∧ ∃ p', moves p p'.
Proof.
  pose proof arrivals_run as Ho. destruct (run [0; 1; 0]%nat two_arrivals) as [p|] eqn:Hr; [|discriminate Ho].
  destruct (interleaving_invariant expiring.1 expiring.2 p) as (Hw & _ & Hp).
  - exact expiring_wf.
  - eapply rtc_l; [by apply (pool_arrive _ (CallAcquire "c1"))|].
    eapply rtc_l; [by apply (pool_arrive _ CallSweepExpired)|].
    apply (rtc_subrel moves); [intros; by constructor|]. exact (run_moves _ _ _ Hr).
  - exists p. split; [reflexivity|]. split; [exact Hw|]. apply Hp. injection Ho as Ho. exact Ho.
Defined.

Lemma calls_return_witness : sn moves two_takers.
Proof. apply (calls_return [CallAcquire "c1"; CallDisconnect "c1"] expiring.1 expiring.2 expiring_wf). repeat constructor. Defined.

Lemma mutex_calls_serialize_witness :
  ∃ p σ, run takers_schedule two_takers = Some p ∧ σ.*1 ≡ₚ [0; 1]%nat ∧
    serial [CallAcquire "c1"; CallDisconnect "c1"] (expiring.1, expiring.2) σ (pl_broker p, pl_asked p).
Proof.
  pose proof takers_run as Ho. destruct (run takers_schedule two_takers) as [p|] eqn:Hr; [|discriminate Ho].
  destruct (mutex_calls_serialize [CallAcquire "c1"; CallDisconnect "c1"] expiring.1 expiring.2 p) as (σ & Hs & Hp & _).
  - repeat constructor.
  - exact (run_moves _ _ _ Hr).
  - injection Ho as Ho. exact Ho.
  - exists p, σ. split; [reflexivity|]. split; [exact Hp|exact Hs].
Defined.
End races.
