(* ===== verification/Sql.v ===== *)
(** * A relational database

    What the PostgreSQL repositories use of [database/sql] and of the server
    behind it.  The database is not part of the sources: it is a parameter,
    the class [SqlDB], and [SqlLaws] states the documented behaviour the
    repositories rely on.  The statements are the ones the repositories send,
    as syntax trees instead of text, with the usual meaning of [WHERE],
    [ORDER BY], [LIMIT] and [SET]; the tables are those of
    [migrations/001_initial.sql].  A statement that succeeds has had
    its effect; one that fails, for a lost connection or a cancelled context as
    much as for a violated constraint, has had its effect or none, and the
    program cannot tell; rows come in an order that respects [ORDER BY]
    and is otherwise arbitrary; a time is stored with the precision of the
    database, a JSON document as an equivalent document, and text is ordered
    by the database's collation.  SqlRef.v has a concrete instance. *)

From Stdlib Require Import Ascii String.
From S2P Require Import Prelude Bytes Duration Matcher Address Message Transaction Env Memory.

(** ** Values and rows *)

(** A driver value: what is passed for [$n] and what a column holds. *)
Inductive datum :=
  | DNull
  | DText (s : string)
  | DInt (z : Z)
  | DBool (b : bool)
  | DTime (t : time)
  | DBytes (b : bytes).

#[global] Instance datum_eq_dec : EqDecision datum.
Proof. solve_decision. Defined.

Abbreviation row := (gmap string datum).

(** The value of a column; one that was not given is null. *)
Definition column (c : string) (r : row) : datum := default DNull (r !! c).

(** ** Statements *)
Inductive operand := Arg (n : nat) | Lit (s : string).

Inductive cond :=
  | CTrue
  | CEq (c : string) (o : operand)         (* c = o *)
  | CSame (o o' : operand)                 (* o = o' *)
  | CIn (c : string) (texts : list string) (* c IN (...) *)
  | CIsNull (c : string)                   (* c IS NULL *)
  | CAnd (p q : cond)
  | COr (p q : cond).

Inductive order := Asc (c : string) | Desc (c : string).

Inductive assignment :=
  | SetTo (c : string) (n : nat)           (* c = $n *)
  | Increment (c : string).                (* c = c + 1 *)

Inductive statement :=
  | INSERT (table : string) (columns : list string)  (* VALUES ($1, $2, ...) *)
  | SELECT (columns : list string) (table : string) (where_ : cond) (by_ : list order)
           (limit : option nat)                      (* LIMIT $n *)
  | COUNT (table : string) (where_ : cond)
  | UPDATE (table : string) (set : list assignment) (where_ : cond)
  | DELETE (table : string) (where_ : cond).

Definition arg (args : list datum) (n : nat) : datum := default DNull (args !! pred n).

Definition operand_value (args : list datum) (o : operand) : datum :=
  match o with Arg n => arg args n | Lit s => DText s end.

(** Comparison with [=]: never true of a null. *)
Definition datum_eqb (x y : datum) : bool :=
  negb (bool_decide (x = DNull)) && bool_decide (x = y).

(** Which rows a condition selects: true, as opposed to false or unknown.
    There is no negation, so the two latter need not be told apart. *)
Fixpoint selects (args : list datum) (p : cond) (r : row) : bool :=
  match p with
  | CTrue => true
  | CEq c o => datum_eqb (column c r) (operand_value args o)
  | CSame o o' => datum_eqb (operand_value args o) (operand_value args o')
  | CIn c texts => existsb (λ t, datum_eqb (column c r) (DText t)) texts
  | CIsNull c => bool_decide (column c r = DNull)
  | CAnd p q => selects args p r && selects args q r
  | COr p q => selects args p r || selects args q r
  end.

Definition project (columns : list string) (r : row) : list datum := (λ c, column c r) <$> columns.

(** ** The database *)
Class SqlDB (D : Type) := {
  (** [db.ExecContext]: the number of rows affected. *)
  sql_Exec : ∀ {orc : Oracle}, statement → list datum → env D Z;
  (** [db.QueryContext] read to its end: the rows and [rows.Err()]. *)
  sql_Query : ∀ {orc : Oracle}, statement → list datum → env D (list (list datum) * option error)
}.

(** [db.QueryRowContext(...)]: the first row, or [sql.ErrNoRows]. *)
Definition sql_QueryRow {D} `{SqlDB D} {orc : Oracle} (q : statement) (args : list datum) :
    env D (list datum) :=
  '(rows, err) ← sql_Query q args;
  match rows, err with
  | r :: _, _ => mret r
  | [], Some e => raise e
  | [], None => raise ErrNoRows
  end.

(** ** The meaning of statements *)
Section meaning.
Context (db_time : time → time) (db_json : bytes → bytes) (db_collate : string → string → bool).

Abbreviation tables := (gmap string (list row)).

(** A value as its column keeps it: [TIMESTAMPTZ] and [JSONB] columns have a
    representation of their own. *)
Definition kept (v : datum) : datum :=
  match v with
  | DTime t => DTime (db_time t)
  | DBytes b => DBytes (db_json b)
  | _ => v
  end.

Definition rows_of (t : string) (db : tables) : list row := default [] (db !! t).

Definition inserted (columns : list string) (args : list datum) : row :=
  list_to_map (zip_with (λ c v, (c, kept v)) columns args).

Definition assign (args : list datum) (r : row) (a : assignment) : row :=
  match a with
  | SetTo c n => <[c := kept (arg args n)]> r
  | Increment c => match column c r with DInt z => <[c := DInt (z + 1)]> r | _ => r end
  end.

Definition updated (set : list assignment) (args : list datum) (r : row) : row :=
  foldl (assign args) r set.

(** [ON DELETE CASCADE]: the bindings of a deleted address go with it. *)
Definition cascade (t : string) (removed : list row) (db : tables) : tables :=
  if bool_decide (t = "addresses") then
    let gone v := existsb (λ r, datum_eqb v (column "name" r)) removed in
    <["bindings" := filter (λ r, gone (column "source" r) || gone (column "destination" r) = false)
                      (rows_of "bindings" db)]> db
  else db.

(** The rows affected and the tables afterwards. *)
Definition effect (q : statement) (args : list datum) (db : tables) : Z * tables :=
  match q with
  | INSERT t cs => (1, <[t := rows_of t db ++ [inserted cs args]]> db)
  | UPDATE t set p =>
      (Z.of_nat (length (filter (λ r, selects args p r = true) (rows_of t db))),
       <[t := (λ r, if selects args p r then updated set args r else r) <$> rows_of t db]> db)
  | DELETE t p =>
      let removed := filter (λ r, selects args p r = true) (rows_of t db) in
      (Z.of_nat (length removed),
       cascade t removed (<[t := filter (λ r, selects args p r = false) (rows_of t db)]> db))
  | SELECT _ _ _ _ _ | COUNT _ _ => (0, db)
  end.

(** Values of one column have one type; across types the order is that of
    the constructors. *)
Definition rank (x : datum) : Z :=
  match x with DNull => 0 | DText _ => 1 | DInt _ => 2 | DBool _ => 3 | DTime _ => 4 | DBytes _ => 5 end.

Definition datum_le (x y : datum) : bool :=
  match x, y with
  | DInt a, DInt b => a <=? b
  | DTime a, DTime b => a <=? b
  | DText a, DText b => db_collate a b
  | _, _ => rank x <=? rank y
  end.

(** [ORDER BY]: the first column that separates the rows decides. *)
Fixpoint row_le (os : list order) (x y : row) : bool :=
  match os with
  | [] => true
  | o :: os' =>
      let '(a, b) := match o with
                     | Asc c => (column c x, column c y)
                     | Desc c => (column c y, column c x)
                     end in
      datum_le a b && (negb (datum_le b a) || row_le os' x y)
  end.

(** [LIMIT]: a null limit is none. *)
Definition limited {A} (limit : option nat) (args : list datum) (l : list A) : list A :=
  match limit with
  | Some n => match arg args n with DInt k => take (Z.to_nat k) l | _ => l end
  | None => l
  end.

(** What a query may return. *)
Definition answer_of (q : statement) (args : list datum) (db : tables) (out : list (list datum)) : Prop :=
  match q with
  | SELECT cs t p os limit =>
      ∃ l, l ≡ₚ filter (λ r, selects args p r = true) (rows_of t db) ∧
        StronglySorted (λ x y, row_le os x y = true) l ∧
        out = project cs <$> limited limit args l
  | COUNT t p =>
      out = [[DInt (Z.of_nat (length (filter (λ r, selects args p r = true) (rows_of t db))))]]
  | _ => out = []
  end.

(** The primary keys of the schema. *)
Definition primary_key (t : string) : string :=
  if bool_decide (t = "addresses") then "name" else "id".

Definition keys_unique (db : tables) : Prop :=
  ∀ t, t ∈ ["addresses"; "bindings"; "messages"] →
    NoDup (column (primary_key t) <$> rows_of t db).
End meaning.

(** An error of the driver or of the context, none of the program's own. *)
Definition driver_error (e : error) : Prop :=
  ∃ text, e = ErrIO text ∨ e = ErrContext text.

(** ** What the repositories rely on *)
Class SqlLaws (D : Type) `{SqlDB D} := {
  db_time : time → time;
  db_json : bytes → bytes;
  db_collate : string → string → bool;
  db_tables : D → gmap string (list row);
  db_valid : D → Prop;
  (** Rows have unique primary keys. *)
  db_keys : ∀ d, db_valid d → keys_unique (db_tables d);
  (** Integers are at most [BIGINT]s. *)
  db_range : ∀ d t r c z, db_valid d → r ∈ rows_of t (db_tables d) → column c r = DInt z →
    - 2 ^ 63 ≤ z < 2 ^ 63;
  wpe_sql_Exec : ∀ {orc : Oracle} q args d, db_valid d →
    wpe (sql_Exec q args) (λ r d', db_valid d' ∧
      match r with
      | Ok n => effect db_time db_json q args (db_tables d) = (n, db_tables d')
      (* an error says nothing about what the server did *)
      | Err e => driver_error e ∧ (db_tables d' = db_tables d ∨
          ∃ n, effect db_time db_json q args (db_tables d) = (n, db_tables d'))
      | Panic => False
      end) d;
  wpe_sql_Query : ∀ {orc : Oracle} q args d, db_valid d →
    wpe (sql_Query q args) (λ r d', db_valid d' ∧ db_tables d' = db_tables d ∧
      (* the rows read before a failure are rows of the answer *)
      match r with
      | Ok (out, None) => answer_of db_collate q args (db_tables d) out
      | Ok (out, Some e) => driver_error e ∧
          ∃ all, answer_of db_collate q args (db_tables d) all ∧ out `prefix_of` all
      | Err e => driver_error e
      | Panic => False
      end) d
}.

(** ** Tables of values

    A table whose rows represent the values [l], found by their primary key. *)
Definition index {A} (key : A → string) (l : list A) : gmap string A :=
  list_to_map ((λ a, (key a, a)) <$> l).

Section index.
Context {A : Type} (key : A → string).
Implicit Types l : list A.

Lemma index_fst l : ((λ a, (key a, a)) <$> l).*1 = key <$> l.
Proof. rewrite <-list_fmap_compose. by apply list_fmap_ext. Qed.

Lemma index_lookup l k a :
  NoDup (key <$> l) → index key l !! k = Some a ↔ a ∈ l ∧ key a = k.
Proof.
  intros Hn. unfold index. rewrite <-elem_of_list_to_map by by rewrite index_fst.
  rewrite list_elem_of_fmap. naive_solver.
Qed.

Lemma index_values l : NoDup (key <$> l) → map_values (index key l) ≡ₚ l.
Proof.
  intros Hn. unfold map_values, index. rewrite map_to_list_to_map by by rewrite index_fst.
  by rewrite <-list_fmap_compose, (list_fmap_ext _ id), list_fmap_id.
Qed.

Lemma index_none l k : index key l !! k = None ↔ ∀ a, a ∈ l → key a ≠ k.
Proof.
  unfold index. rewrite <-not_elem_of_list_to_map, index_fst, list_elem_of_fmap. naive_solver.
Qed.

Lemma index_add l a : key a ∉ key <$> l → index key (l ++ [a]) = <[key a := a]> (index key l).
Proof.
  intros Ha. rewrite insert_union_singleton_r; [unfold index; by rewrite fmap_app, list_to_map_app|].
  apply index_none. intros b Hb E. apply Ha. rewrite <-E. by apply list_elem_of_fmap_2.
Qed.

Lemma index_cons l a : index key (a :: l) = <[key a := a]> (index key l).
Proof. done. Qed.

Lemma index_remove l k : index key (filter (λ a, key a ≠ k) l) = delete k (index key l).
Proof.
  induction l as [|a l IH]; [symmetry; apply delete_empty|]. rewrite filter_cons.
  case_decide as Hk; rewrite !index_cons.
  - by rewrite IH, delete_insert_ne.
  - by rewrite IH, Hk, delete_insert_eq.
Qed.

Lemma index_change l k (f : A → A) :
  (∀ a, key (f a) = key a) →
  index key ((λ a, if decide (key a = k) then f a else a) <$> l) = alter f k (index key l).
Proof.
  intros Hf. induction l as [|a l IH]; [symmetry; apply (alter_empty f)|].
  rewrite fmap_cons, !index_cons, IH. case_decide as Hk.
  - rewrite Hf, Hk, alter_insert_eq, insert_alter. by rewrite decide_True.
  - rewrite alter_insert_ne; [done|congruence].
Qed.
End index.
