(* ===== verification/SqlRef.v ===== *)
(** * A reference database

    An executable instance of the database interface: the tables themselves,
    changed by the effect of a statement when the constraints still hold
    afterwards, with rows sorted by insertion.  The connection may be lost
    before a statement reaches the server and before its answer comes back.  Times are kept to the
    microsecond, documents unchanged, texts ordered bytewise.  It shows that
    the laws of Sql.v can hold, and runs the repositories in the witnesses. *)

From Stdlib Require Import Ascii String OrdersEx.
From S2P Require Import Prelude Bytes Duration Matcher Address Message Transaction Env Memory Sql.

Record RefDB := mkRefDB { ref_tables : gmap string (list row) }.

Definition ref_time (t : time) : time := t / 1000 * 1000.

Definition ref_collate (a b : string) : bool :=
  match String_as_OT.compare a b with Gt => false | _ => true end.

Definition bigint (v : datum) : bool :=
  match v with DInt z => (- 2 ^ 63 <=? z) && (z <? 2 ^ 63) | _ => true end.

(** Primary keys and the range of integers, over all tables. *)
Definition constraints (db : gmap string (list row)) : bool :=
  forallb (λ t, bool_decide (NoDup (column (primary_key t) <$> rows_of t db)))
    ["addresses"; "bindings"; "messages"] &&
  forallb (λ kl, forallb (λ r, forallb (λ kv, bigint kv.2) (map_to_list r)) kl.2) (map_to_list db).

Definition ref_less (os : list order) (x y : row) : bool := negb (row_le ref_collate os y x).

Section operations.
Context {orc : Oracle}.

(** The connection to the server may fail. *)
Definition ref_connect : env RefDB unit :=
  r ← ask o_io;
  match r with Some _ => raise (ErrIO "connection lost") | None => mret tt end.

Definition ref_Exec (q : statement) (args : list datum) : env RefDB Z :=
  ref_connect;;
  d ← get_;
  let '(n, db) := effect ref_time id q args (ref_tables d) in
  if constraints db then put_ (mkRefDB db);; ref_connect;; mret n
  else raise (ErrIO "constraint violation").

Definition ref_Query (q : statement) (args : list datum) :
    env RefDB (list (list datum) * option error) :=
  ref_connect;;
  d ← get_;
  mret (match q with
        | SELECT cs t p os limit =>
            project cs <$> limited limit args
              (sort_stable (ref_less os)
                 (filter (λ r, selects args p r = true) (rows_of t (ref_tables d))))
        | COUNT t p =>
            [[DInt (Z.of_nat (length (filter (λ r, selects args p r = true)
                                        (rows_of t (ref_tables d)))))]]
        | _ => []
        end, None).
End operations.

#[global] Instance ref_db : SqlDB RefDB := {|
  sql_Exec _ := ref_Exec;
  sql_Query _ := ref_Query |}.

(** ** The order of rows *)
Lemma string_lt_asym a b : String_as_OT.lt a b → String_as_OT.lt b a → False.
Proof.
  intros Hab Hba. apply (StrictOrder_Irreflexive (R := String_as_OT.lt) a). by transitivity b.
Qed.

Lemma ref_collate_spec a b : ref_collate a b = true ↔ ¬ String_as_OT.lt b a.
Proof.
  unfold ref_collate. destruct (String_as_OT.compare_spec a b) as [->|Hab|Hba].
  - split; [|done]. intros _. apply (StrictOrder_Irreflexive (R := String_as_OT.lt)).
  - split; [|done]. intros _ ?. by eapply string_lt_asym.
  - by split.
Qed.

Lemma collate_total a b : ref_collate a b = false → ref_collate b a = true.
Proof.
  rewrite <-not_true_iff_false, !ref_collate_spec. intros Hn Hab. apply Hn. intros Hba.
  by eapply string_lt_asym.
Qed.

Lemma collate_trans a b c :
  ref_collate a b = true → ref_collate b c = true → ref_collate a c = true.
Proof.
  rewrite !ref_collate_spec. intros Hab Hbc Hca.
  destruct (String_as_OT.compare_spec a b) as [->|Hlt|Hgt]; [done| |done].
  apply Hbc. by transitivity a.
Qed.

Lemma datum_total x y : datum_le ref_collate x y = false → datum_le ref_collate y x = true.
Proof. destruct x, y; cbn; try done; try lia. apply collate_total. Qed.

Lemma datum_trans x y z :
  datum_le ref_collate x y = true → datum_le ref_collate y z = true → datum_le ref_collate x z = true.
Proof. destruct x, y; cbn; try done; destruct z; cbn; try done; try lia. apply collate_trans. Qed.

(** A lexicographic step over two preorders. *)
Definition lex (ab ba rest : bool) : bool := ab && (negb ba || rest).

Lemma row_le_cons o os x y :
  row_le ref_collate (o :: os) x y =
    match o with
    | Asc c => lex (datum_le ref_collate (column c x) (column c y))
                 (datum_le ref_collate (column c y) (column c x)) (row_le ref_collate os x y)
    | Desc c => lex (datum_le ref_collate (column c y) (column c x))
                  (datum_le ref_collate (column c x) (column c y)) (row_le ref_collate os x y)
    end.
Proof. by destruct o. Qed.

Lemma row_le_total os x y : row_le ref_collate os x y = false → row_le ref_collate os y x = true.
Proof.
  induction os as [|o os IH]; [done|]. rewrite !row_le_cons. unfold lex.
  destruct o as [c|c]; pose proof (datum_total (column c x) (column c y)) as H1;
    pose proof (datum_total (column c y) (column c x)) as H2;
    destruct (datum_le _ (column c x) (column c y)), (datum_le _ (column c y) (column c x)); cbn; auto.
Qed.

Lemma row_le_trans os x y z :
  row_le ref_collate os x y = true → row_le ref_collate os y z = true → row_le ref_collate os x z = true.
Proof.
  induction os as [|o os IH]; [done|]. rewrite !row_le_cons. unfold lex.
  assert (∀ a b d : datum, datum_le ref_collate a b = true → datum_le ref_collate b d = true →
    datum_le ref_collate d a = true → datum_le ref_collate b a = true ∧ datum_le ref_collate d b = true) as Hback.
  { intros a b d Hab Hbd Hda. split; [apply (datum_trans b d a)|apply (datum_trans d a b)]; done. }
  destruct o as [c|c]; rewrite !andb_true_iff, !orb_true_iff, !negb_true_iff, <-!not_true_iff_false;
    intros [H1 H2] [H3 H4]; (split; [by eapply datum_trans|]).
  - destruct (datum_le ref_collate (column c z) (column c x)) eqn:E; [right|by left].
    destruct (Hback _ _ _ H1 H3 E) as [E1 E2]. rewrite E1 in H2. rewrite E2 in H4. naive_solver.
  - destruct (datum_le ref_collate (column c x) (column c z)) eqn:E; [right|by left].
    destruct (Hback _ _ _ H3 H1 E) as [E1 E2]. rewrite E2 in H2. rewrite E1 in H4. naive_solver.
Qed.

(** ** The laws *)
Lemma constraints_keys db : constraints db = true → keys_unique db.
Proof.
  intros [Hk _]%andb_true_iff t Ht. rewrite forallb_forall in Hk.
  apply list_elem_of_In, Hk, bool_decide_eq_true in Ht. done.
Qed.

Lemma constraints_range db t r c z :
  constraints db = true → r ∈ rows_of t db → column c r = DInt z → - 2 ^ 63 ≤ z < 2 ^ 63.
Proof.
  intros [_ Hr]%andb_true_iff Hin Hc. unfold rows_of in Hin.
  destruct (db !! t) as [l|] eqn:E; [|by apply not_elem_of_nil in Hin]. cbn in Hin.
  unfold column in Hc. destruct (r !! c) as [v|] eqn:Ev; [|done]. cbn in Hc. subst v.
  rewrite forallb_forall in Hr. specialize (Hr (t, l)).
  rewrite <-list_elem_of_In, elem_of_map_to_list in Hr. specialize (Hr E). cbn in Hr.
  rewrite forallb_forall in Hr. specialize (Hr r). rewrite <-list_elem_of_In in Hr. specialize (Hr Hin).
  rewrite forallb_forall in Hr. specialize (Hr (c, DInt z)).
  rewrite <-list_elem_of_In, elem_of_map_to_list in Hr. specialize (Hr Ev). cbn in Hr. lia.
Qed.

Lemma driver_ErrIO text : driver_error (ErrIO text).
Proof. exists text. by left. Qed.

Lemma wpe_ref_connect {orc : Oracle} (Q : res unit → RefDB → Prop) d :
  (∀ text, Q (Err (ErrIO text)) d) → Q (Ok tt) d → wpe ref_connect Q d.
Proof.
  intros He HQ n. unfold ref_connect, mbind, go_bind, ask. cbn. destruct (o_io n); [apply He|apply HQ].
Qed.

#[global] Instance ref_laws : SqlLaws RefDB.
Proof.
  refine {| db_time := ref_time; db_json := id; db_collate := ref_collate; db_tables := ref_tables;
            db_valid d := constraints (ref_tables d) = true |}.
  - intros d. apply constraints_keys.
  - intros d t r c z. apply constraints_range.
  - intros orc q args d Hv. cbn. unfold ref_Exec. wpe_step.
    apply wpe_ref_connect; [intros; split_and!; [done|apply driver_ErrIO|by left]|]. wpe_auto.
    destruct (effect ref_time id q args (ref_tables d)) as [n db] eqn:E.
    destruct (constraints db) eqn:Ec; wpe_auto; [|split_and!; [done|apply driver_ErrIO|by left]].
    apply wpe_ref_connect; [|wpe_auto; by split].
    intros; split_and!; [done|apply driver_ErrIO|right; by exists n].
  - intros orc q args d Hv. cbn. unfold ref_Query. wpe_step.
    apply wpe_ref_connect; [intros; split_and!; [done|done|apply driver_ErrIO]|]. wpe_auto.
    split_and!; [done|done|]. destruct q as [|cs t p os limit|t p| |]; cbn; try done.
    eexists. split; [apply sort_stable_perm|]. split; [|done].
    eapply StronglySorted_impl; [|apply (sort_stable_sorted (ref_less os))].
    + intros x y. unfold not_less, ref_less. by rewrite negb_false_iff.
    + intros x y z. unfold not_less, ref_less. rewrite !negb_false_iff. apply row_le_trans.
    + intros x y. unfold ref_less. rewrite negb_true_iff, negb_false_iff. apply row_le_total.
Defined.
