(* ===== verification/Repository.v ===== *)
(** * The repository interfaces

    Models the interfaces [Repository] of [internal/delivery/domain] and of
    [internal/address/domain] (with [BindingRepository]) as classes, and what
    an implementation promises, as laws over an abstract store: a finite map
    from identifiers to what later reads return.  What a store keeps of a
    message ([keeps]) and which states it lists as ready are its own choice,
    within the laws.  A change that reports an error may have been made all the
    same, unless the error says that there was nothing to change.  The in-memory store is an instance
    ([DeliveryMemory] of [delivery_adapter.go] and [Memory]); the PostgreSQL
    repositories are the other one (Postgres.v). *)

From Stdlib Require Import String.
From S2P Require Import Prelude Bytes Duration Matcher Address Message Transaction Env Memory.
From S2P Require Import Router.

(** ** Messages *)
Class MessageRepository (S : Type) := {
  repo_Put : ∀ {orc : Oracle}, Message → env S unit;
  repo_Get : ∀ {orc : Oracle}, string → env S Message;
  repo_Update : ∀ {orc : Oracle}, Message → env S unit;
  repo_Delete : ∀ {orc : Oracle}, string → env S unit;
  repo_ListReady : ∀ {orc : Oracle}, string → Z → env S (list Message);
  repo_ListDead : ∀ {orc : Oracle}, Z → env S (list Message);
  repo_Depth : ∀ {orc : Oracle}, string → env S Z;
  repo_All : ∀ {orc : Oracle}, env S (list Message)
}.

(** [l] is [all], in this order, up to the limit. *)
Definition listed {A} (less : A → A → bool) (limit : Z) (all l : list A) : Prop :=
  ∃ sorted, sorted ≡ₚ all ∧ StronglySorted (not_less less) sorted ∧ l = truncate_limit limit sorted.

Definition older (x y : Message) : bool := time_Before (m_CreatedAt x) (m_CreatedAt y).

Class MessageRepositoryLaws (S : Type) `{MessageRepository S} := {
  (** The messages a store holds, as reads return them. *)
  repo_holds : S → gmap string Message → Prop;
  (** Messages the store can represent, and what it keeps of one that is put
      and of one that replaces [old]. *)
  storable : Message → Prop;
  keeps : Message → Message;
  keeps_over : Message → Message → Message;
  (** The states listed as ready, and counted for the depth. *)
  lists : State → bool;
  counts : Message → bool;
  keeps_ID : ∀ m, m_ID (keeps m) = m_ID m;
  keeps_over_ID : ∀ old m, m_ID (keeps_over old m) = m_ID m;
  lists_available : lists StateAvailable = true;
  lists_only : ∀ s, lists s = true → s = StateAvailable ∨ s = StateReleased;
  counts_listed : ∀ m, lists (m_State m) = true → counts m = true;
  repo_Put_law : ∀ {orc : Oracle} m s M, repo_holds s M → storable m →
    wpe (repo_Put m) (λ r s', match r with
      | Ok _ => M !! m_ID m = None ∧ repo_holds s' (<[m_ID m := keeps m]> M)
      | Err _ => repo_holds s' M ∨ M !! m_ID m = None ∧ repo_holds s' (<[m_ID m := keeps m]> M)
      | Panic => False end) s;
  repo_Get_law : ∀ {orc : Oracle} id s M, repo_holds s M →
    wpe (repo_Get id) (λ r s', repo_holds s' M ∧ match r with
      | Ok m => M !! id = Some m
      | Err e => e = ErrMessageNotFound → M !! id = None
      | Panic => False end) s;
  repo_Update_law : ∀ {orc : Oracle} m s M, repo_holds s M → storable m →
    wpe (repo_Update m) (λ r s', match r with
      | Ok _ => ∃ old, M !! m_ID m = Some old ∧ repo_holds s' (<[m_ID m := keeps_over old m]> M)
      | Err e => (e = ErrMessageNotFound → M !! m_ID m = None) ∧ (repo_holds s' M ∨
          ∃ old, M !! m_ID m = Some old ∧ repo_holds s' (<[m_ID m := keeps_over old m]> M))
      | Panic => False end) s;
  repo_Delete_law : ∀ {orc : Oracle} id s M, repo_holds s M →
    wpe (repo_Delete id) (λ r s', match r with
      | Ok _ => repo_holds s' (delete id M)
      | Err e => (e = ErrMessageNotFound → M !! id = None) ∧
          (repo_holds s' M ∨ repo_holds s' (delete id M))
      | Panic => False end) s;
  repo_ListReady_law : ∀ {orc : Oracle} address limit s M, repo_holds s M →
    wpe (repo_ListReady address limit) (λ r s', repo_holds s' M ∧ match r with
      | Ok l => listed ready_less limit
          (filter (λ m, m_Address m = address ∧ lists (m_State m) = true) (map_values M)) l
      | Err _ => True
      | Panic => False end) s;
  repo_ListDead_law : ∀ {orc : Oracle} limit s M, repo_holds s M →
    wpe (repo_ListDead limit) (λ r s', repo_holds s' M ∧ match r with
      | Ok l => listed older limit (filter dead (map_values M)) l
      | Err _ => True
      | Panic => False end) s;
  repo_Depth_law : ∀ {orc : Oracle} address s M, repo_holds s M →
    wpe (repo_Depth address) (λ r s', repo_holds s' M ∧ match r with
      | Ok n => n = Z.of_nat (length
          (filter (λ m, m_Address m = address ∧ counts m = true) (map_values M)))
      | Err _ => True
      | Panic => False end) s;
  repo_All_law : ∀ {orc : Oracle} s M, repo_holds s M →
    wpe repo_All (λ r s', repo_holds s' M ∧ match r with
      | Ok l => l ≡ₚ map_values M
      | Err _ => True
      | Panic => False end) s
}.

(** *** The in-memory store *)
#[global] Instance DeliveryMemory : MessageRepository Memory := {|
  repo_Put _ := Memory_Put;
  repo_Get _ := Memory_message;
  repo_Update _ := Memory_Update;
  repo_Delete _ := Memory_deleteMessage;
  repo_ListReady _ := Memory_ListReady;
  repo_ListDead _ := Memory_ListDead;
  repo_Depth _ := Memory_Depth;
  repo_All _ := Memory_All |}.

Lemma older_asym x y : older x y = true → older y x = false.
Proof. unfold older, time_Before. lia. Qed.

Lemma older_trans x y z : not_less older x y → not_less older y z → not_less older x z.
Proof. unfold not_less, older, time_Before. lia. Qed.

Lemma listed_sort {A} (less : A → A → bool) limit (P : A → Prop) `{∀ x, Decision (P x)} l all :
  (∀ x y z, not_less less x y → not_less less y z → not_less less x z) →
  (∀ x y, less x y = true → less y x = false) → l ≡ₚ all →
  listed less limit (filter P all) (truncate_limit limit (sort_stable less (filter P l))).
Proof.
  intros Ht Ha Hl. exists (sort_stable less (filter P l)). split_and!; [|by apply sort_stable_sorted|done].
  by rewrite sort_stable_perm, Hl.
Qed.

Lemma ready_less_trans x y z : not_less ready_less x y → not_less ready_less y z → not_less ready_less x z.
Proof. unfold not_less, ready_less, time_Before. repeat case_match; lia. Qed.

Lemma ready_less_asym x y : ready_less x y = true → ready_less y x = false.
Proof. unfold ready_less, time_Before. repeat case_match; lia. Qed.

Definition is_available (s : State) : bool := bool_decide (s = StateAvailable).

Lemma filter_available a (l : list Message) :
  filter (λ m, m_Address m = a ∧ is_available (m_State m) = true) l = filter (ready a) l.
Proof.
  apply list_filter_iff. intros m. unfold ready, is_available. by rewrite bool_decide_eq_true.
Qed.

#[global] Instance MemoryLaws : MessageRepositoryLaws Memory.
Proof.
  refine {| repo_holds m M := mm_messages m = M; storable _ := True; keeps m := m;
            keeps_over _ m := m; lists := is_available; counts m := is_available (m_State m) |};
    try done.
  - intros s ?%bool_decide_eq_true. by left.
  - intros orc m s M <- _. apply wpe_Put; [by left|]. by intros.
  - intros orc id s M <-. apply wpe_message_exact; by intros.
  - intros orc m s M <- _. unfold repo_Update. cbn. unfold Memory_Update. wpe_step.
    apply wpe_ctx_Err_exact; [by split; [|left]|]. wpe_auto.
    case_match; wpe_auto; [by eexists|by split; [|left]].
  - intros orc id s M <-. apply wpe_deleteMessage_exact; by intros; try split; auto.
  - intros orc a limit s M <-. cbn. unfold Memory_ListReady. wpe_auto; [done|]. split; [done|].
    rewrite filter_available. apply listed_sort; [apply ready_less_trans|apply ready_less_asym|done].
  - intros orc limit s M <-. cbn. unfold Memory_ListDead. wpe_auto; [done|]. split; [done|].
    apply (listed_sort older); [apply older_trans|apply older_asym|done].
  - intros orc a s M <-. cbn. unfold Memory_Depth. wpe_auto; [done|]. split; [done|].
    rewrite filter_available. f_equal. apply Permutation_length. by rewrite H.
  - intros orc s M <-. cbn. unfold Memory_All. wpe_auto; done.
Defined.

(** ** Addresses and bindings *)
Class AddressRepository (S : Type) := {
  repo_Create : ∀ {orc : Oracle}, Address → env S unit;
  repo_GetAddress : ∀ {orc : Oracle}, string → env S Address;
  repo_List : ∀ {orc : Oracle}, env S (list Address);
  repo_SetPaused : ∀ {orc : Oracle}, string → bool → env S Address;
  repo_DeleteAddress : ∀ {orc : Oracle}, string → env S unit;
  repo_CreateBinding : ∀ {orc : Oracle}, Binding → env S unit;
  repo_ListBindings : ∀ {orc : Oracle}, string → env S (list Binding);
  repo_DeleteBinding : ∀ {orc : Oracle}, string → env S unit
}.

(** An address after [SetPaused]: a new version. *)
Definition with_paused (b : bool) (a : Address) : Address :=
  mkAddress (a_Name a) (a_Kind a) (a_Durable a) (a_MaxLength a) (a_DefaultTTL a) (a_DeadLetter a) b
    (a_CreatedAt a) (u64 (a_Version a + 1)).

(** What the deletion of an address may do to the bindings: those that do not
    mention it stay. *)
Definition bindings_left (name : string) (B B' : gmap string Binding) : Prop :=
  B' ⊆ B ∧
  ∀ id b, B !! id = Some b → bd_Source b ≠ name → bd_Destination b ≠ name → B' !! id = Some b.

Class AddressRepositoryLaws (S : Type) `{AddressRepository S} := {
  arepo_holds : S → gmap string Address → gmap string Binding → Prop;
  storable_address : Address → Prop;
  storable_binding : Binding → Prop;
  keeps_address : Address → Address;
  keeps_binding : Binding → Binding;
  keeps_address_Name : ∀ a, a_Name (keeps_address a) = a_Name a;
  keeps_binding_ID : ∀ b, bd_ID (keeps_binding b) = bd_ID b;
  repo_Create_law : ∀ {orc : Oracle} a s A B, arepo_holds s A B → storable_address a →
    wpe (repo_Create a) (λ r s', match r with
      | Ok _ => A !! a_Name a = None ∧ arepo_holds s' (<[a_Name a := keeps_address a]> A) B
      | Err _ => arepo_holds s' A B ∨
          A !! a_Name a = None ∧ arepo_holds s' (<[a_Name a := keeps_address a]> A) B
      | Panic => False end) s;
  repo_GetAddress_law : ∀ {orc : Oracle} name s A B, arepo_holds s A B →
    wpe (repo_GetAddress name) (λ r s', arepo_holds s' A B ∧ match r with
      | Ok a => A !! name = Some a
      | Err e => e = ErrAddressNotFound → A !! name = None
      | Panic => False end) s;
  repo_List_law : ∀ {orc : Oracle} s A B, arepo_holds s A B →
    wpe repo_List (λ r s', arepo_holds s' A B ∧ match r with
      | Ok l => l ≡ₚ map_values A
      | Err _ => True
      | Panic => False end) s;
  repo_SetPaused_law : ∀ {orc : Oracle} name b s A B, arepo_holds s A B →
    wpe (repo_SetPaused name b) (λ r s', match r with
      | Ok a' => ∃ a, A !! name = Some a ∧ a' = with_paused b a ∧ arepo_holds s' (<[name := a']> A) B
      | Err e => (e = ErrAddressNotFound → A !! name = None) ∧
          (arepo_holds s' A B ∨
           ∃ a, A !! name = Some a ∧ arepo_holds s' (<[name := with_paused b a]> A) B)
      | Panic => False end) s;
  repo_DeleteAddress_law : ∀ {orc : Oracle} name s A B, arepo_holds s A B →
    wpe (repo_DeleteAddress name) (λ r s', match r with
      | Ok _ => is_Some (A !! name) ∧ ∃ B', bindings_left name B B' ∧ arepo_holds s' (delete name A) B'
      | Err e => (e = ErrAddressNotFound → A !! name = None) ∧ (arepo_holds s' A B ∨
          is_Some (A !! name) ∧ ∃ B', bindings_left name B B' ∧ arepo_holds s' (delete name A) B')
      | Panic => False end) s;
  repo_CreateBinding_law : ∀ {orc : Oracle} b s A B, arepo_holds s A B → storable_binding b →
    wpe (repo_CreateBinding b) (λ r s', match r with
      | Ok _ => B !! bd_ID b = None ∧ arepo_holds s' A (<[bd_ID b := keeps_binding b]> B)
      | Err _ => arepo_holds s' A B ∨
          B !! bd_ID b = None ∧ arepo_holds s' A (<[bd_ID b := keeps_binding b]> B)
      | Panic => False end) s;
  repo_ListBindings_law : ∀ {orc : Oracle} source s A B, arepo_holds s A B →
    wpe (repo_ListBindings source) (λ r s', arepo_holds s' A B ∧ match r with
      | Ok l => l ≡ₚ filter (λ b, source = "" ∨ bd_Source b = source) (map_values B) ∧
          StronglySorted (λ x y, bd_Priority y ≤ bd_Priority x) l
      | Err _ => True
      | Panic => False end) s;
  repo_DeleteBinding_law : ∀ {orc : Oracle} id s A B, arepo_holds s A B →
    wpe (repo_DeleteBinding id) (λ r s', match r with
      | Ok _ => arepo_holds s' A (delete id B)
      | Err _ => arepo_holds s' A B ∨ arepo_holds s' A (delete id B)
      | Panic => False end) s
}.

#[global] Instance AddressMemory : AddressRepository Memory := {|
  repo_Create _ := Memory_Create;
  repo_GetAddress _ := Memory_Get;
  repo_List _ := Memory_List;
  repo_SetPaused _ := Memory_SetPaused;
  repo_DeleteAddress _ := Memory_Delete;
  repo_CreateBinding _ := Memory_CreateBinding;
  repo_ListBindings _ := Memory_ListBindings;
  repo_DeleteBinding _ := Memory_DeleteBinding |}.

Ltac memory_law :=
  intros; cbn; wpe_step; (apply wpe_ctx_Err_exact; [|wpe_auto; try case_match; wpe_auto]);
  naive_solver.

#[global] Instance AddressMemoryLaws : AddressRepositoryLaws Memory.
Proof.
  refine {| arepo_holds m A B := mm_addresses m = A ∧ mm_bindings m = B;
            storable_address _ := True; storable_binding _ := True;
            keeps_address a := a; keeps_binding b := b |}; try done.
  - intros orc a s A B [<- <-] _. unfold repo_Create. cbn. unfold Memory_Create. memory_law.
  - intros orc name s A B [<- <-]. cbn. unfold Memory_Get. memory_law.
  - intros orc s A B [<- <-]. cbn. unfold Memory_List. wpe_auto; [done|]. by rewrite sort_stable_perm.
  - intros orc name b s A B [<- <-]. cbn. unfold Memory_SetPaused. memory_law.
  - intros orc name s A B [<- <-]. cbn. unfold Memory_Delete.
    wpe_step. apply wpe_ctx_Err_exact; [intros; split; [done|auto]|]. wpe_auto. case_match eqn:E; wpe_auto; [|split; auto].
    split; [by eexists|]. exists (mm_bindings s). split; [split; [done|by intros]|by split].
  - intros orc b s A B [<- <-] _. cbn. unfold Memory_CreateBinding. memory_law.
  - intros orc src s A B [<- <-]. apply wpe_ListBindings; [done|]. intros bs Hbs. split; [done|].
    split; [by rewrite sort_stable_perm, Hbs|].
    apply bindings_sorted.
  - intros orc id s A B [<- <-]. cbn. unfold Memory_DeleteBinding. memory_law.
Defined.
