(* ===== verification/Postgres.v ===== *)
(** * The PostgreSQL repositories

    Models [internal/storage/infrastructure/postgres_message.go] and
    [postgres_address.go] over the database interface of Sql.v: every method,
    with its statement and arguments, the scanning of rows and the errors.
    [encoding/json] of a [map[string]string] is a parameter with its round
    trip.  [Scan] of a column whose value has another type than the destination
    is an error here: the schema gives every column its type.

    Both repositories discharge the laws of Repository.v.  What they keep
    differs from the in-memory store: a message comes back without its body
    (which lives in the body log), times with the precision of the database,
    and an update does not touch the creation time; released messages are
    listed as ready, which the in-memory store never does. *)

From Stdlib Require Import Ascii String.
From S2P Require Import Prelude Bytes Duration Matcher Address Message Transaction Env Memory.
From S2P Require Import Router Sql Repository.

(** [json.Marshal] and [json.Unmarshal] of a string map; [map_text] holds
    when every string is valid UTF-8. *)
Class MapJSON := {
  map_Marshal : headers → error + bytes;
  map_Unmarshal : bytes → res headers;
  map_text : headers → Prop;
  map_Marshal_total : ∀ h, ∃ b, map_Marshal h = inr b;
  map_roundtrip : ∀ h b, map_text h → map_Marshal h = inr b → map_Unmarshal b = Ok h;
  map_Unmarshal_no_panic : ∀ b, map_Unmarshal b ≠ Panic
}.

(** The constants of [type State string] and of [type Kind string]. *)
Definition State_string (s : State) : string :=
  match s with
  | StateAvailable => "available" | StateAcquired => "acquired" | StateAccepted => "accepted"
  | StateReleased => "released" | StateRejected => "rejected"
  | StateDeadLettered => "dead-lettered" | StateExpired => "expired" | StateOther t => t
  end.

Definition State_of (t : string) : State :=
  if bool_decide (t = "available") then StateAvailable
  else if bool_decide (t = "acquired") then StateAcquired
  else if bool_decide (t = "accepted") then StateAccepted
  else if bool_decide (t = "released") then StateReleased
  else if bool_decide (t = "rejected") then StateRejected
  else if bool_decide (t = "dead-lettered") then StateDeadLettered
  else if bool_decide (t = "expired") then StateExpired
  else StateOther t.

Definition Kind_of (t : string) : Kind :=
  if bool_decide (t = "queue") then KindQueue
  else if bool_decide (t = "topic") then KindTopic
  else if bool_decide (t = "fanout") then KindFanout
  else if bool_decide (t = "direct") then KindDirect
  else if bool_decide (t = "temporary") then KindTemporary
  else KindOther t.

(** ** Scanning *)
Definition scan_error {A} : res A := Err (ErrNew "sql: Scan error").

Definition scan_string (d : datum) : res string :=
  match d with DText s => Ok s | _ => scan_error end.
Definition scan_int (d : datum) : res Z :=
  match d with DInt z => Ok z | _ => scan_error end.
Definition scan_uint64 (d : datum) : res Z :=
  match d with DInt z => if z <? 0 then scan_error else Ok z | _ => scan_error end.
Definition scan_bool (d : datum) : res bool :=
  match d with DBool b => Ok b | _ => scan_error end.
Definition scan_time (d : datum) : res time :=
  match d with DTime t => Ok t | _ => scan_error end.
Definition scan_bytes (d : datum) : res bytes :=
  match d with DBytes b => Ok b | _ => scan_error end.
(** [sql.NullTime] and [sql.NullString]: a null leaves the zero value. *)
Definition scan_NullTime (d : datum) : res time :=
  match d with DNull => Ok 0 | DTime t => Ok t | _ => scan_error end.
Definition scan_NullString (d : datum) : res string :=
  match d with DNull => Ok "" | DText s => Ok s | _ => scan_error end.

Definition nullable (v : string) : datum := if bool_decide (v = "") then DNull else DText v.
Definition nullTime (v : time) : datum := if time_IsZero v then DNull else DTime v.

Section scans.
Context `{MapJSON}.

Definition scanMessage (row : list datum) : res Message :=
  match row with
  | [id; address; routing_key; headers; priority; created_at; expires_at; state; delivery_count;
     redelivered; transaction_id; log_offset] =>
      ID ← scan_string id; Address ← scan_string address; RoutingKey ← scan_string routing_key;
      headers ← scan_bytes headers; Priority ← scan_int priority; CreatedAt ← scan_time created_at;
      expires ← scan_NullTime expires_at; State ← scan_string state;
      DeliveryCount ← scan_int delivery_count; Redelivered ← scan_bool redelivered;
      tx ← scan_NullString transaction_id; LogOffset ← scan_int log_offset;
      Headers ← map_Unmarshal headers;
      Ok (mkMessage ID Address RoutingKey Headers [] Priority CreatedAt expires (State_of State)
            DeliveryCount Redelivered tx LogOffset)
  | _ => scan_error
  end.

Definition scanAddress (row : list datum) : res Address :=
  match row with
  | [name; kind; durable; max_length; default_ttl_ns; dead_letter; paused; created_at; version] =>
      Name ← scan_string name; Kind ← scan_string kind; Durable ← scan_bool durable;
      MaxLength ← scan_int max_length; ttl ← scan_int default_ttl_ns;
      dead ← scan_NullString dead_letter; Paused ← scan_bool paused;
      CreatedAt ← scan_time created_at; Version ← scan_uint64 version;
      Ok (mkAddress Name (Kind_of Kind) Durable MaxLength ttl dead Paused CreatedAt Version)
  | _ => scan_error
  end.

Definition scanBinding (row : list datum) : res Binding :=
  match row with
  | [id; source; destination; routing_key; filter_; priority; created_at] =>
      ID ← scan_string id; Source ← scan_string source; Destination ← scan_string destination;
      RoutingKey ← scan_string routing_key; raw ← scan_bytes filter_;
      Priority ← scan_int priority; CreatedAt ← scan_time created_at;
      Filter ← map_Unmarshal raw;
      Ok (mkBinding ID Source Destination RoutingKey Filter Priority CreatedAt)
  | _ => scan_error
  end.

(** [for rows.Next() { ...; out = append(out, x) }]. *)
Fixpoint scan_rows {A} (scan : list datum → res A) (rows : list (list datum)) : res (list A) :=
  match rows with
  | [] => Ok []
  | r :: rows' => x ← scan r; xs ← scan_rows scan rows'; Ok (x :: xs)
  end.
End scans.

(** ** The repositories *)
Definition message_columns : list string :=
  ["id"; "address"; "routing_key"; "headers"; "priority"; "created_at"; "expires_at"; "state";
   "delivery_count"; "redelivered"; "transaction_id"; "log_offset"].
Definition address_columns : list string :=
  ["name"; "kind"; "durable"; "max_length"; "default_ttl_ns"; "dead_letter"; "paused"; "created_at";
   "version"].
Definition binding_columns : list string :=
  ["id"; "source"; "destination"; "routing_key"; "filter"; "priority"; "created_at"].

Section operations.
Context `{MapJSON} {D : Type} `{SqlDB D} {orc : Oracle}.

Definition jsonMap (v : headers) : env D bytes :=
  match map_Marshal v with inl e => raise e | inr b => mret b end.

(** The loop over the rows of a query, and [rows.Err()] after it. *)
Definition read_rows {A} (scan : list datum → res A) (q : statement) (args : list datum) :
    env D (list A) :=
  '(rows, err) ← sql_Query q args;
  out ← lift (scan_rows scan rows);
  match err with Some e => raise e | None => mret out end.

Definition PostgresMessages_Put (m : Message) : env D unit :=
  headers ← jsonMap (m_Headers m);
  wrap "insert message"
    (sql_Exec (INSERT "messages" message_columns)
       [DText (m_ID m); DText (m_Address m); DText (m_RoutingKey m); DBytes headers;
        DInt (m_Priority m); DTime (m_CreatedAt m); nullTime (m_ExpiresAt m);
        DText (State_string (m_State m)); DInt (m_DeliveryCount m); DBool (m_Redelivered m);
        nullable (m_TransactionID m); DInt (m_LogOffset m)]);;
  mret tt.

Definition PostgresMessages_Get (id : string) : env D Message :=
  r ← try (row ← sql_QueryRow
             (SELECT message_columns "messages" (CEq "id" (Arg 1)) [] None) [DText id];
           lift (scanMessage row));
  match r with
  | inl e => if errors_Is e ErrNoRows then raise ErrMessageNotFound else raise e
  | inr m => mret m
  end.

Definition PostgresMessages_Update (m : Message) : env D unit :=
  let headers := match map_Marshal (m_Headers m) with inl _ => DNull | inr b => DBytes b end in
  n ← sql_Exec
        (UPDATE "messages"
           [SetTo "address" 2; SetTo "routing_key" 3; SetTo "headers" 4; SetTo "priority" 5;
            SetTo "expires_at" 6; SetTo "state" 7; SetTo "delivery_count" 8; SetTo "redelivered" 9;
            SetTo "transaction_id" 10; SetTo "log_offset" 11]
           (CEq "id" (Arg 1)))
        [DText (m_ID m); DText (m_Address m); DText (m_RoutingKey m); headers; DInt (m_Priority m);
         nullTime (m_ExpiresAt m); DText (State_string (m_State m)); DInt (m_DeliveryCount m);
         DBool (m_Redelivered m); nullable (m_TransactionID m); DInt (m_LogOffset m)];
  guard_err (n =? 0) ErrMessageNotFound.

Definition PostgresMessages_Delete (id : string) : env D unit :=
  sql_Exec (DELETE "messages" (CEq "id" (Arg 1))) [DText id];;
  mret tt.

Definition PostgresMessages_query (q : statement) (args : list datum) : env D (list Message) :=
  read_rows scanMessage q args.

Definition PostgresMessages_ListReady (address : string) (limit : Z) : env D (list Message) :=
  let q := SELECT message_columns "messages"
             (CAnd (CEq "address" (Arg 1)) (CIn "state" ["available"; "released"]))
             [Desc "priority"; Asc "created_at"] in
  if 0 <? limit then PostgresMessages_query (q (Some 2%nat)) [DText address; DInt limit]
  else PostgresMessages_query (q None) [DText address].

Definition PostgresMessages_ListDead (limit : Z) : env D (list Message) :=
  let q := SELECT message_columns "messages" (CIn "state" ["dead-lettered"; "expired"])
             [Asc "created_at"] in
  if 0 <? limit then PostgresMessages_query (q (Some 1%nat)) [DInt limit]
  else PostgresMessages_query (q None) [].

Definition PostgresMessages_Depth (address : string) : env D Z :=
  row ← sql_QueryRow
    (COUNT "messages"
       (CAnd (CEq "address" (Arg 1))
          (COr (CIn "state" ["available"; "released"])
             (CAnd (CEq "state" (Lit "acquired")) (CIsNull "transaction_id"))))) [DText address];
  match row with [d] => lift (scan_int d) | _ => lift scan_error end.

Definition PostgresMessages_All : env D (list Message) :=
  PostgresMessages_query (SELECT message_columns "messages" CTrue [Asc "created_at"] None) [].

Definition PostgresAddresses_Create (a : Address) : env D unit :=
  wrap "insert address"
    (sql_Exec (INSERT "addresses" address_columns)
       [DText (a_Name a); DText (Kind_string (a_Kind a)); DBool (a_Durable a); DInt (a_MaxLength a);
        DInt (a_DefaultTTL a); nullable (a_DeadLetter a); DBool (a_Paused a); DTime (a_CreatedAt a);
        DInt (a_Version a)]);;
  mret tt.

Definition PostgresAddresses_Get (name : string) : env D Address :=
  r ← try (row ← sql_QueryRow
             (SELECT address_columns "addresses" (CEq "name" (Arg 1)) [] None) [DText name];
           lift (scanAddress row));
  match r with
  | inl e => if errors_Is e ErrNoRows then raise ErrAddressNotFound
             else raise (ErrWrap "select address" e)
  | inr a => mret a
  end.

Definition PostgresAddresses_List : env D (list Address) :=
  read_rows scanAddress (SELECT address_columns "addresses" CTrue [Asc "name"] None) [].

Definition PostgresAddresses_SetPaused (name : string) (paused : bool) : env D Address :=
  n ← sql_Exec (UPDATE "addresses" [SetTo "paused" 2; Increment "version"] (CEq "name" (Arg 1)))
        [DText name; DBool paused];
  guard_err (n =? 0) ErrAddressNotFound;;
  PostgresAddresses_Get name.

Definition PostgresAddresses_Delete (name : string) : env D unit :=
  n ← sql_Exec (DELETE "addresses" (CEq "name" (Arg 1))) [DText name];
  guard_err (n =? 0) ErrAddressNotFound.

Definition PostgresAddresses_CreateBinding (b : Binding) : env D unit :=
  raw ← jsonMap (bd_Filter b);
  sql_Exec (INSERT "bindings" binding_columns)
    [DText (bd_ID b); DText (bd_Source b); DText (bd_Destination b); DText (bd_RoutingKey b);
     DBytes raw; DInt (bd_Priority b); DTime (bd_CreatedAt b)];;
  mret tt.

Definition PostgresAddresses_ListBindings (source : string) : env D (list Binding) :=
  read_rows scanBinding
    (SELECT binding_columns "bindings" (COr (CSame (Arg 1) (Lit "")) (CEq "source" (Arg 1)))
       [Desc "priority"; Asc "id"] None) [DText source].

Definition PostgresAddresses_DeleteBinding (id : string) : env D unit :=
  sql_Exec (DELETE "bindings" (CEq "id" (Arg 1))) [DText id];;
  mret tt.
End operations.

#[global] Instance PostgresMessages {D} `{MapJSON, SqlDB D} : MessageRepository D := {|
  repo_Put _ := PostgresMessages_Put;
  repo_Get _ := PostgresMessages_Get;
  repo_Update _ := PostgresMessages_Update;
  repo_Delete _ := PostgresMessages_Delete;
  repo_ListReady _ := PostgresMessages_ListReady;
  repo_ListDead _ := PostgresMessages_ListDead;
  repo_Depth _ := PostgresMessages_Depth;
  repo_All _ := PostgresMessages_All |}.

#[global] Instance PostgresAddresses {D} `{MapJSON, SqlDB D} : AddressRepository D := {|
  repo_Create _ := PostgresAddresses_Create;
  repo_GetAddress _ := PostgresAddresses_Get;
  repo_List _ := PostgresAddresses_List;
  repo_SetPaused _ := PostgresAddresses_SetPaused;
  repo_DeleteAddress _ := PostgresAddresses_Delete;
  repo_CreateBinding _ := PostgresAddresses_CreateBinding;
  repo_ListBindings _ := PostgresAddresses_ListBindings;
  repo_DeleteBinding _ := PostgresAddresses_DeleteBinding |}.
