(* ===== verification/PostgresFacts.v ===== *)
(** * Properties of the PostgreSQL repositories

    A generic account of a table whose rows represent values of a type, found
    by their primary key: what a select, a lookup, an insert, an update and a
    delete by key do to the values.  With it both repositories discharge the
    laws of Repository.v against any database that satisfies [SqlLaws]. *)

From Stdlib Require Import Ascii String.
From S2P Require Import Prelude Bytes Duration Matcher Address Message Transaction Env Memory.
From S2P Require Import Router Sql Repository Postgres.

(** ** Tables *)
Lemma filter_fmap {A B} (f : A → B) (P : B → Prop) `{∀ b, Decision (P b)} (l : list A) :
  filter P (f <$> l) = f <$> filter (λ a, P (f a)) l.
Proof.
  induction l as [|a l IH]; [done|]. rewrite fmap_cons, !filter_cons, IH. by case_decide.
Qed.

Lemma fmap_prefix {A B} (f : A → B) (l : list A) k :
  k `prefix_of` f <$> l → ∃ l', k = f <$> l' ∧ l' `prefix_of` l.
Proof.
  intros [k' Hk]. apply fmap_app_inv in Hk as (l1 & l2 & -> & -> & ->).
  exists l1. split; [done|by exists l2].
Qed.

Lemma limited_fmap {A B} (f : A → B) limit args (l : list A) :
  limited limit args (f <$> l) = f <$> limited limit args l.
Proof. unfold limited. repeat case_match; rewrite ?fmap_take; done. Qed.

Lemma limited_prefix {A} limit args (l : list A) : limited limit args l `prefix_of` l.
Proof. unfold limited. repeat case_match; try done; apply prefix_take. Qed.

Lemma prefix_of_one {A} (l : list A) a : l `prefix_of` [a] → l = [] ∨ l = [a].
Proof. intros [k Hk]. destruct l as [|x l]; [by left|]. injection Hk as <- Hk. by destruct l; [right|]. Qed.

Lemma Forall_prefix {A} (P : A → Prop) (l k : list A) : l `prefix_of` k → Forall P k → Forall P l.
Proof. intros [k' ->]. by intros [? _]%Forall_app. Qed.

Lemma StronglySorted_of_fmap {A B} (f : A → B) (R : B → B → Prop) (l : list A) :
  StronglySorted R (f <$> l) → StronglySorted (λ x y, R (f x) (f y)) l.
Proof.
  induction l as [|a l IH]; [constructor|]. rewrite fmap_cons. intros [Hs Ha]%StronglySorted_inv. constructor; [auto|].
  by rewrite Forall_fmap in Ha.
Qed.

Section table.
Context {D : Type} `{SqlLaws D} {orc : Oracle}.
Context {A : Type} (key : A → string) (row_of : A → row) (scan : list datum → res A).
Context (t : string) (columns : list string) (good : A → Prop).
Context (scan_row : ∀ a, good a → scan (project columns (row_of a)) = Ok a).
Context (row_key : ∀ a, column (primary_key t) (row_of a) = DText (key a)).
Context (known : t ∈ ["addresses"; "bindings"; "messages"]).

(** The table holds the values [l]. *)
Definition table_is (d : D) (l : list A) : Prop :=
  db_valid d ∧ rows_of t (db_tables d) = row_of <$> l ∧ Forall good l.

Lemma table_nodup d l : table_is d l → NoDup (key <$> l).
Proof.
  intros (Hv & Hr & _). pose proof (db_keys d Hv t known) as Hk. rewrite Hr in Hk.
  rewrite <-list_fmap_compose in Hk. rewrite (list_fmap_ext _ (DText ∘ key)) in Hk.
  - rewrite list_fmap_compose in Hk. by apply NoDup_fmap_1 in Hk.
  - intros i a _. apply row_key.
Qed.

Lemma scan_rows_good l :
  Forall good l → scan_rows scan (project columns <$> (row_of <$> l)) = Ok l.
Proof.
  induction 1 as [|a l Ha Hl IH]; [done|]. cbn [fmap list_fmap scan_rows].
  rewrite scan_row by done. unfold mbind, res_mbind. cbn [res_bind].
  by setoid_rewrite IH.
Qed.

(** Which values a condition selects. *)
Abbreviation chosen args p := (filter (λ a, selects args p (row_of a) = true)).

Lemma wpe_read_rows p os limit args d l :
  table_is d l →
  wpe (read_rows scan (SELECT columns t p os limit) args)
    (λ r d', db_valid d' ∧ db_tables d' = db_tables d ∧ match r with
      | Ok out => ∃ l', l' ≡ₚ chosen args p l ∧
          StronglySorted (λ x y, row_le db_collate os (row_of x) (row_of y) = true) l' ∧
          out = limited limit args l'
      | Err e => True
      | Panic => False end) d.
Proof.
  intros (Hv & Hr & Hg). unfold read_rows. wpe_step. eapply wpe_mono; [by apply wpe_sql_Query|].
  intros r d' (Hv' & Ht & Hq). destruct r as [[out err]|e|]; [|by split_and!|done].
  assert (∃ all, answer_of db_collate (SELECT columns t p os limit) args (db_tables d) all ∧
    out `prefix_of` all ∧ (err = None → out = all)) as (all & (rows & Hp & Hs & ->) & Hout & Heq).
  { destruct err as [e|]; [destruct Hq as (_ & all & ? & ?); by exists all|by exists out]. }
  rewrite Hr, filter_fmap in Hp. apply Permutation_map_inv in Hp as (l' & -> & Hp).
  rewrite limited_fmap in Hout, Heq.
  assert (Forall good l') as Hg'.
  { rewrite <-Hp. apply Forall_forall. intros a [_ Ha]%list_elem_of_filter. by eapply Forall_forall in Hg. }
  assert (Forall good (limited limit args l')) as Hgl by (eapply Forall_prefix; [apply limited_prefix|done]).
  rewrite <-list_fmap_compose in Hout. apply fmap_prefix in Hout as (k & -> & Hk).
  rewrite list_fmap_compose in Heq |- *.
  assert (Forall good k) as Hgk by by eapply Forall_prefix.
  wpe_step. wpe_step. rewrite scan_rows_good by done.
  destruct err as [e|]; wpe_step; [by split_and!|]. split_and!; [done..|].
  exists l'. split_and!; [done|exact (StronglySorted_of_fmap row_of _ _ Hs)|].
  specialize (Heq eq_refl). apply (f_equal (scan_rows scan)) in Heq.
  rewrite !scan_rows_good in Heq by done. by injection Heq.
Qed.

Lemma chosen_key k p args a :
  p = CEq (primary_key t) (Arg 1) → args !! 0%nat = Some (DText k) →
  selects args p (row_of a) = true ↔ key a = k.
Proof.
  intros -> Hk. cbn [selects operand_value]. unfold arg. cbn [pred]. rewrite Hk, row_key.
  unfold datum_eqb. cbn [default].
  rewrite andb_true_iff, negb_true_iff, bool_decide_eq_false, bool_decide_eq_true. naive_solver.
Qed.

Lemma wpe_lookup k d l :
  table_is d l →
  wpe (row ← sql_QueryRow (SELECT columns t (CEq (primary_key t) (Arg 1)) [] None) [DText k];
       lift (scan row))
    (λ r d', db_valid d' ∧ db_tables d' = db_tables d ∧ match r with
      | Ok a => a ∈ l ∧ key a = k
      | Err e => e = ErrNoRows ∧ (∀ a, a ∈ l → key a ≠ k) ∨ driver_error e
      | Panic => False end) d.
Proof.
  intros (Hv & Hr & Hg). unfold sql_QueryRow. wpe_step. wpe_step. eapply wpe_mono; [by apply wpe_sql_Query|].
  intros r d' (Hv' & Ht & Hq). destruct r as [[out err]|e|]; [|by split_and!; auto|done].
  assert (∃ all, answer_of db_collate (SELECT columns t (CEq (primary_key t) (Arg 1)) [] None) [DText k]
      (db_tables d) all ∧ out `prefix_of` all ∧ (err = None → out = all))
    as (all & (rows & Hp & Hs & ->) & Hout & Heq).
  { destruct err as [e|]; [destruct Hq as (_ & all & ? & ?); by exists all|by exists out]. }
  rewrite Hr, filter_fmap in Hp. apply Permutation_map_inv in Hp as (l' & -> & Hp).
  cbn [limited] in Hout, Heq.
  destruct out as [|r0 out].
  - destruct err as [e|]; wpe_auto; (split_and!; [done..|]); [right; apply Hq|left].
    split; [done|]. specialize (Heq eq_refl). destruct l' as [|a l']; [|done].
    intros a Ha Hk. assert (a ∈ ([] : list A)) as []%not_elem_of_nil.
    rewrite <-Hp. apply list_elem_of_filter. split; [by eapply chosen_key|done].
  - destruct l' as [|a l']; [by apply prefix_nil_inv in Hout|].
    destruct Hout as [k' [= <- _]]. wpe_step. wpe_step.
    assert (a ∈ chosen [DText k] (CEq (primary_key t) (Arg 1)) l) as [Ha Hal]%list_elem_of_filter
      by (rewrite Hp; by left).
    rewrite scan_row by by eapply Forall_forall in Hg. split_and!; try done.
    by eapply chosen_key in Ha.
Qed.
(** *** Changes *)
Definition only (d d' : D) : Prop :=
  ∀ t', t' ≠ t → rows_of t' (db_tables d') = rows_of t' (db_tables d).

Lemma rows_of_insert (db : gmap string (list row)) l : rows_of t (<[t := l]> db) = l.
Proof. unfold rows_of. by rewrite lookup_insert_eq. Qed.

Lemma rows_of_insert_ne (db : gmap string (list row)) t' l :
  t' ≠ t → rows_of t' (<[t := l]> db) = rows_of t' db.
Proof. intros. unfold rows_of. by rewrite lookup_insert_ne. Qed.

Lemma table_same d d' l : table_is d l → db_valid d' → db_tables d' = db_tables d → table_is d' l.
Proof. intros (_ & Hr & Hg) Hv Ht. split_and!; [done|by rewrite Ht|done]. Qed.

(** The [n]-th row affected tells whether the key was there. *)
Lemma count_key k p args l :
  p = CEq (primary_key t) (Arg 1) → args !! 0%nat = Some (DText k) →
  let n := Z.of_nat (length (filter (λ r, selects args p r = true) (row_of <$> l))) in
  (n = 0 ↔ ∀ a, a ∈ l → key a ≠ k).
Proof.
  intros Hp Hk n. subst n. rewrite filter_fmap, length_fmap.
  split.
  - intros Hz a Ha Hs. apply (Nat2Z.inj _ 0), length_zero_iff_nil in Hz.
    assert (a ∈ ([] : list A)) as []%not_elem_of_nil.
    rewrite <-Hz. apply list_elem_of_filter. split; [by apply (chosen_key k)|done].
  - intros Hn. destruct (filter _ l) as [|a l'] eqn:E; [done|]. exfalso.
    assert (a ∈ filter (λ a, selects args p (row_of a) = true) l) as [Hs Ha]%list_elem_of_filter
      by (rewrite E; by left).
    apply (Hn a Ha). by apply (chosen_key k p args).
Qed.

(** What a statement that was executed has done to the table; one that failed
    has done it, or nothing. *)
Definition done_or_not (d : D) (l : list A) (did : D → Prop) (d' : D) : Prop :=
  table_is d' l ∧ db_tables d' = db_tables d ∨ did d'.

Lemma wpe_exec q args d l (did : Z → D → Prop) :
  table_is d l →
  (∀ n d', db_valid d' → effect db_time db_json q args (db_tables d) = (n, db_tables d') → did n d') →
  wpe (sql_Exec q args) (λ r d', match r with
    | Ok n => did n d'
    | Err e => driver_error e ∧ done_or_not d l (λ d', ∃ n, did n d') d'
    | Panic => False end) d.
Proof.
  intros Ht Hdid. eapply wpe_mono; [apply wpe_sql_Exec, Ht|].
  intros [n|e|] d' (Hv' & Hq); [by apply Hdid| |done]. destruct Hq as [He [Hq|[n Hq]]]; (split; [done|]).
  - left. split; [by eapply table_same|done].
  - right. exists n. by apply Hdid.
Qed.

Definition inserts (d : D) (l : list A) (a : A) (_ : Z) (d' : D) : Prop :=
  table_is d' (l ++ [a]) ∧ key a ∉ key <$> l ∧ only d d'.

Lemma wpe_insert a args d l :
  table_is d l → good a → inserted db_time db_json columns args = row_of a →
  wpe (sql_Exec (INSERT t columns) args) (λ r d', match r with
    | Ok n => inserts d l a n d'
    | Err e => driver_error e ∧ done_or_not d l (λ d', ∃ n, inserts d l a n d') d'
    | Panic => False end) d.
Proof.
  intros Ht Hg Hi. apply wpe_exec; [done|]. pose proof Ht as (Hv & Hr & Hgl). intros n d' Hv' Hq.
  cbn [effect] in Hq. apply pair_equal_spec in Hq as [_ Hq].
  assert (table_is d' (l ++ [a])) as Ht'.
  { split_and!; [done| |by apply Forall_app; split; [|constructor]].
    by rewrite <-Hq, rows_of_insert, Hr, Hi, fmap_app. }
  split_and!; [done| |intros t' Hne; by rewrite <-Hq, rows_of_insert_ne].
  apply table_nodup in Ht'. rewrite fmap_app in Ht'. apply NoDup_app in Ht' as (_ & Hn & _).
  intros Hin. apply (Hn _ Hin). by left.
Qed.

Lemma insert_new l a : key a ∉ key <$> l → index key l !! key a = None.
Proof. intros Hk. apply index_none. intros b Hb E. apply Hk. rewrite <-E. by apply list_elem_of_fmap_2. Qed.

Definition updates (k : string) (f : A → A) (d : D) (l : list A) (n : Z) (d' : D) : Prop :=
  (n = 0 ↔ ∀ a, a ∈ l → key a ≠ k) ∧
  table_is d' ((λ a, if decide (key a = k) then f a else a) <$> l) ∧ only d d'.

Lemma wpe_row_update k set (f : A → A) args d l :
  table_is d l → args !! 0%nat = Some (DText k) →
  (∀ a, a ∈ l → key a = k → updated db_time db_json set args (row_of a) = row_of (f a) ∧ good (f a)) →
  wpe (sql_Exec (UPDATE t set (CEq (primary_key t) (Arg 1))) args) (λ r d', match r with
    | Ok n => updates k f d l n d'
    | Err e => driver_error e ∧ done_or_not d l (λ d', ∃ n, updates k f d l n d') d'
    | Panic => False end) d.
Proof.
  intros Ht Hk Hf. apply wpe_exec; [done|]. pose proof Ht as (Hv & Hr & Hgl). intros n d' Hv' Hq.
  cbn [effect] in Hq. apply pair_equal_spec in Hq as [<- Hq]. rewrite Hr.
  split_and!; [by apply (count_key k)|..|intros t' Hne; by rewrite <-Hq, rows_of_insert_ne].
  split_and!; [done| |].
  - rewrite <-Hq, rows_of_insert, Hr, <-!list_fmap_compose. apply list_fmap_ext. intros i a Ha.
    unfold compose. pose proof (chosen_key k _ args a eq_refl Hk) as Hc. apply list_elem_of_lookup_2 in Ha.
    destruct (selects args _ (row_of a)); case_decide as Hd; try done.
    + by apply Hf.
    + exfalso. by apply Hd, Hc.
    + exfalso. apply Hc in Hd. done.
  - apply Forall_fmap, Forall_forall. intros a Ha. cbn. case_decide; [by apply Hf|by eapply Forall_forall in Hgl].
Qed.

(** The values after an update by key: nothing has changed when the key was
    not there, otherwise its value. *)
Lemma index_updates k f n d l d' :
  (∀ a, key (f a) = key a) → NoDup (key <$> l) → updates k f d l n d' →
  if n =? 0 then index key l !! k = None ∧
    index key ((λ a, if decide (key a = k) then f a else a) <$> l) = index key l
  else ∃ a, index key l !! k = Some a ∧
    index key ((λ a, if decide (key a = k) then f a else a) <$> l) = <[k := f a]> (index key l).
Proof.
  intros Hkey Hnd (Hn & _). rewrite index_change by done. destruct (Z.eqb_spec n 0) as [Hz|Hz].
  - assert (index key l !! k = None) as Hnone by (apply index_none, Hn, Hz). split; [done|].
    apply alter_id. intros x Hx. by rewrite Hnone in Hx.
  - destruct (index key l !! k) as [a|] eqn:E; [|by exfalso; apply Hz, Hn, index_none]. exists a. split; [done|].
    apply map_eq. intros j. destruct (decide (j = k)) as [->|].
    + by rewrite lookup_alter_eq, lookup_insert_eq, E.
    + by rewrite lookup_alter_ne, lookup_insert_ne.
Qed.

Definition deletes (k : string) (d : D) (l : list A) (n : Z) (d' : D) : Prop :=
  (n = 0 ↔ ∀ a, a ∈ l → key a ≠ k) ∧ table_is d' (filter (λ a, key a ≠ k) l) ∧
  effect db_time db_json (DELETE t (CEq (primary_key t) (Arg 1))) [DText k] (db_tables d) =
    (n, db_tables d').

Lemma wpe_delete k d l :
  table_is d l →
  wpe (sql_Exec (DELETE t (CEq (primary_key t) (Arg 1))) [DText k]) (λ r d', match r with
    | Ok n => deletes k d l n d'
    | Err e => driver_error e ∧ done_or_not d l (λ d', ∃ n, deletes k d l n d') d'
    | Panic => False end) d.
Proof.
  intros Ht. apply wpe_exec; [done|]. pose proof Ht as (Hv & Hr & Hgl). intros n d' Hv' Hq.
  split_and!; [..|done].
  - cbn [effect] in Hq. apply pair_equal_spec in Hq as [<- _]. rewrite Hr. by apply (count_key k).
  - cbn [effect] in Hq. apply pair_equal_spec in Hq as [_ Hq]. split_and!; [done| |].
    + rewrite <-Hq. unfold cascade. trans (rows_of t (<[t := filter
        (λ r, selects [DText k] (CEq (primary_key t) (Arg 1)) r = false) (rows_of t (db_tables d))]> (db_tables d))).
      { case_bool_decide as Ha; [|done]. unfold rows_of at 1.
        rewrite lookup_insert_ne; [done|by rewrite Ha]. }
      rewrite rows_of_insert, Hr, filter_fmap. f_equal. apply list_filter_iff. intros a.
      rewrite <-not_true_iff_false. by rewrite (chosen_key k).
    + apply Forall_forall. intros a [_ Ha]%list_elem_of_filter. by eapply Forall_forall in Hgl.
Qed.
End table.

(** ** Messages *)

(** [JSONB] gives back a document that decodes to the same map. *)
Class JsonbFaithful (D : Type) `{SqlLaws D, MapJSON} := {
  jsonb_faithful : ∀ h b, map_Marshal h = inr b → map_Unmarshal (db_json b) = map_Unmarshal b
}.

Lemma State_of_string s : State_string (State_of s) = s.
Proof. unfold State_of. repeat (case_bool_decide; [by subst|]). done. Qed.

Lemma Kind_of_string s : Kind_string (Kind_of s) = s.
Proof. unfold Kind_of. repeat (case_bool_decide; [by subst|]). done. Qed.

Lemma scan_nullTime t : scan_NullTime (nullTime t) = Ok t.
Proof. unfold nullTime, time_IsZero. by destruct (Z.eqb_spec t 0) as [->|]. Qed.

Lemma scan_nullable s : scan_NullString (nullable s) = Ok s.
Proof. unfold nullable. by case_bool_decide as E; [rewrite E|]. Qed.

Lemma nullable_null s : nullable s = DNull ↔ s = "".
Proof. unfold nullable. by case_bool_decide. Qed.

Section messages.
Context {D : Type} `{SqlLaws D, !MapJSON, !JsonbFaithful D}.

Definition jsonb (h : headers) : bytes :=
  match map_Marshal h with inr b => db_json b | inl _ => [] end.

Lemma jsonb_back h : map_text h → map_Unmarshal (jsonb h) = Ok h.
Proof.
  intros Ht. unfold jsonb. destruct (map_Marshal_total h) as [b E]. rewrite E.
  by rewrite (jsonb_faithful h b E), (map_roundtrip h b).
Qed.

Lemma kept_headers h b : map_Marshal h = inr b → kept db_time db_json (DBytes b) = DBytes (jsonb h).
Proof. intros E. unfold jsonb. by rewrite E. Qed.

(** The row of a message as the table keeps it. *)
Definition message_row (m : Message) : row :=
  list_to_map (zip message_columns
    [DText (m_ID m); DText (m_Address m); DText (m_RoutingKey m); DBytes (jsonb (m_Headers m));
     DInt (m_Priority m); DTime (m_CreatedAt m); nullTime (m_ExpiresAt m);
     DText (State_string (m_State m)); DInt (m_DeliveryCount m); DBool (m_Redelivered m);
     nullable (m_TransactionID m); DInt (m_LogOffset m)]).

(** A time that is not the zero time stays one. *)
Definition kept_time (t : time) : time := if time_IsZero t then 0 else db_time t.

(** What the table keeps: no body, and times as the database has them. *)
Definition kept_message (m : Message) : Message :=
  mkMessage (m_ID m) (m_Address m) (m_RoutingKey m) (m_Headers m) [] (m_Priority m)
    (db_time (m_CreatedAt m)) (kept_time (m_ExpiresAt m)) (State_of (State_string (m_State m)))
    (m_DeliveryCount m) (m_Redelivered m) (m_TransactionID m) (m_LogOffset m).

(** An update leaves the creation time. *)
Definition updated_message (old m : Message) : Message :=
  mkMessage (m_ID m) (m_Address m) (m_RoutingKey m) (m_Headers m) [] (m_Priority m)
    (m_CreatedAt old) (kept_time (m_ExpiresAt m)) (State_of (State_string (m_State m)))
    (m_DeliveryCount m) (m_Redelivered m) (m_TransactionID m) (m_LogOffset m).

Definition good_message (m : Message) : Prop :=
  map_text (m_Headers m) ∧ m_Body m = [] ∧ State_of (State_string (m_State m)) = m_State m.

Definition storable_message (m : Message) : Prop :=
  map_text (m_Headers m) ∧ (m_ExpiresAt m ≠ 0 → db_time (m_ExpiresAt m) ≠ 0).

Lemma kept_nullTime t :
  (t ≠ 0 → db_time t ≠ 0) → kept db_time db_json (nullTime t) = nullTime (kept_time t).
Proof.
  intros Ht. unfold nullTime, kept_time, time_IsZero. destruct (Z.eqb_spec t 0); [done|].
  destruct (Z.eqb_spec (db_time t) 0); [by apply Ht in n|done].
Qed.

Lemma kept_nullable s : kept db_time db_json (nullable s) = nullable s.
Proof. unfold nullable. by case_bool_decide. Qed.

Lemma scan_message_row m : good_message m → scanMessage (project message_columns (message_row m)) = Ok m.
Proof.
  intros (Ht & Hb & Hs).
  change (project message_columns (message_row m)) with
    [DText (m_ID m); DText (m_Address m); DText (m_RoutingKey m); DBytes (jsonb (m_Headers m));
     DInt (m_Priority m); DTime (m_CreatedAt m); nullTime (m_ExpiresAt m);
     DText (State_string (m_State m)); DInt (m_DeliveryCount m); DBool (m_Redelivered m);
     nullable (m_TransactionID m); DInt (m_LogOffset m)].
  unfold scanMessage, mbind, res_mbind. cbn [scan_string scan_bytes scan_int scan_time scan_bool res_bind].
  rewrite scan_nullTime. cbn [res_bind]. rewrite scan_nullable. cbn [res_bind].
  rewrite jsonb_back by done. cbn [res_bind]. rewrite Hs. destruct m. cbn in *. by subst.
Qed.

Lemma message_row_key m : column (primary_key "messages") (message_row m) = DText (m_ID m).
Proof. reflexivity. Qed.

Lemma kept_good m : storable_message m → good_message (kept_message m).
Proof. intros [Ht _]. split_and!; [done|done|]. cbn. by rewrite State_of_string. Qed.

Lemma updated_good old m : storable_message m → good_message (updated_message old m).
Proof. intros [Ht _]. split_and!; [done|done|]. cbn. by rewrite State_of_string. Qed.

Definition holds_messages (d : D) (M : gmap string Message) : Prop :=
  ∃ l, table_is message_row "messages" good_message d l ∧ M = index m_ID l.

Lemma messages_known : "messages" ∈ ["addresses"; "bindings"; "messages"].
Proof. set_solver. Qed.

Context {orc : Oracle}.
Implicit Types (d : D) (M : gmap string Message).

Lemma messages_nodup d l :
  table_is message_row "messages" good_message d l → NoDup (m_ID <$> l).
Proof. apply table_nodup; [apply message_row_key|apply messages_known]. Qed.

Lemma PostgresMessages_Put_law m d M :
  holds_messages d M → storable_message m →
  wpe (PostgresMessages_Put m) (λ r d', match r with
    | Ok _ => M !! m_ID m = None ∧ holds_messages d' (<[m_ID m := kept_message m]> M)
    | Err _ => holds_messages d' M ∨
        M !! m_ID m = None ∧ holds_messages d' (<[m_ID m := kept_message m]> M)
    | Panic => False end) d.
Proof.
  intros (l & Ht & ->) Hs. unfold PostgresMessages_Put, jsonMap.
  destruct (map_Marshal_total (m_Headers m)) as [b Eb]. rewrite Eb. wpe_auto.
  assert (∀ n d', inserts m_ID message_row "messages" good_message d l (kept_message m) n d' →
    index m_ID l !! m_ID m = None ∧
    holds_messages d' (<[m_ID m := kept_message m]> (index m_ID l))) as Hpost.
  { intros n d' (Ht' & Hk & _). split; [exact (insert_new m_ID _ _ Hk)|].
    exists (l ++ [kept_message m]). split; [done|]. by rewrite index_add. }
  eapply wpe_mono.
  { eapply (wpe_insert m_ID message_row); [apply message_row_key|apply messages_known|exact Ht|
      by apply (kept_good m)|].
    unfold inserted, message_row. cbn [zip_with message_columns].
    rewrite (kept_headers _ _ Eb), kept_nullTime, kept_nullable by apply Hs.
    cbn [kept m_State kept_message]. by rewrite State_of_string. }
  intros [n|e|] d'; [intros Hi; wpe_auto; by eapply Hpost| |done].
  intros (_ & [[]|[n Hi]]); [left; by exists l|right; by eapply Hpost].
Qed.

Lemma PostgresMessages_Get_law id d M :
  holds_messages d M →
  wpe (PostgresMessages_Get id) (λ r d', holds_messages d' M ∧ match r with
    | Ok m => M !! id = Some m
    | Err e => e = ErrMessageNotFound → M !! id = None
    | Panic => False end) d.
Proof.
  intros (l & Ht & ->). unfold PostgresMessages_Get. wpe_step. wpe_step.
  eapply wpe_mono; [by apply (wpe_lookup m_ID message_row _ "messages" _ good_message
    scan_message_row message_row_key)|].
  intros r d' (Hv & Heq & Hr).
  assert (holds_messages d' (index m_ID l)) as Hh by (exists l; split; [by eapply table_same|done]).
  destruct r as [m|e|]; [| |done].
  - wpe_auto. split; [done|]. apply index_lookup; [by eapply messages_nodup|done].
  - destruct Hr as [[-> Hn]|[text [-> | ->]]]; cbn; wpe_auto; split; try done.
    intros _. by apply index_none.
Qed.

Lemma PostgresMessages_Update_law m d M :
  holds_messages d M → storable_message m →
  wpe (PostgresMessages_Update m) (λ r d', match r with
    | Ok _ => ∃ old, M !! m_ID m = Some old ∧ holds_messages d' (<[m_ID m := updated_message old m]> M)
    | Err e => (e = ErrMessageNotFound → M !! m_ID m = None) ∧ (holds_messages d' M ∨
        ∃ old, M !! m_ID m = Some old ∧ holds_messages d' (<[m_ID m := updated_message old m]> M))
    | Panic => False end) d.
Proof.
  intros (l & Ht & ->) Hs. unfold PostgresMessages_Update.
  destruct (map_Marshal_total (m_Headers m)) as [b Eb]. rewrite Eb.
  set (f := λ old, if decide (m_ID old = m_ID m) then updated_message old m else old).
  assert (∀ n d', updates m_ID message_row "messages" good_message (m_ID m) f d l n d' →
    if n =? 0 then index m_ID l !! m_ID m = None ∧ holds_messages d' (index m_ID l)
    else ∃ old, index m_ID l !! m_ID m = Some old ∧
      holds_messages d' (<[m_ID m := updated_message old m]> (index m_ID l))) as Hpost.
  { intros n d' Hu. pose proof (messages_nodup _ _ Ht) as Hnd.
    pose proof (index_updates m_ID message_row "messages" good_message (m_ID m) f n d l d') as Hi.
    specialize (Hi ltac:(intros; unfold f; by case_decide) Hnd Hu). destruct Hu as (_ & Ht' & _).
    destruct (n =? 0); [destruct Hi as [Hn Hi]|destruct Hi as (old & Ho & Hi)].
    - split; [done|]. eexists. split; [exact Ht'|by rewrite Hi].
    - exists old. split; [done|]. eexists. split; [exact Ht'|]. rewrite Hi. unfold f.
      apply index_lookup in Ho as [_ Ho]; [|done]. by rewrite decide_True. }
  wpe_step. eapply wpe_mono.
  { apply (wpe_row_update m_ID message_row "messages" good_message message_row_key (m_ID m) _ f); [done|done|..].
    intros old _ Hid. unfold f. rewrite decide_True by done. split; [|by apply updated_good].
    cbv [updated foldl assign arg pred lookup list_lookup from_option id].
    rewrite (kept_headers _ _ Eb), kept_nullTime, kept_nullable by apply Hs.
    unfold message_row, updated_message. cbn [m_ID m_Address m_RoutingKey m_Headers m_Priority m_CreatedAt m_ExpiresAt
      m_State m_DeliveryCount m_Redelivered m_TransactionID m_LogOffset kept].
    rewrite Hid, State_of_string. reflexivity. }
  intros [n|e|] d'; [| |done].
  - intros Hu%Hpost. apply wpe_guard; intros Hz; rewrite Hz in Hu; [|done].
    destruct Hu as [Hn Hh]. split; [done|by left].
  - intros ([text [-> | ->]] & [[]|[n Hu%Hpost]]); (split; [done|]); try (left; by exists l);
      destruct (n =? 0); [left; apply Hu|by right|left; apply Hu|by right].
Qed.

Lemma PostgresMessages_Delete_law id d M :
  holds_messages d M →
  wpe (PostgresMessages_Delete id) (λ r d', match r with
    | Ok _ => holds_messages d' (delete id M)
    | Err e => (e = ErrMessageNotFound → M !! id = None) ∧
        (holds_messages d' M ∨ holds_messages d' (delete id M))
    | Panic => False end) d.
Proof.
  intros (l & Ht & ->). unfold PostgresMessages_Delete. wpe_step.
  eapply wpe_mono; [by apply (wpe_delete m_ID message_row "messages" good_message message_row_key)|].
  assert (∀ n d', deletes m_ID message_row "messages" good_message id d l n d' →
    holds_messages d' (delete id (index m_ID l))) as Hpost.
  { intros n d' (_ & Ht' & _). eexists. split; [exact Ht'|]. by rewrite index_remove. }
  intros [n|e|] d'; [intros Hd; wpe_step; by eapply Hpost| |done].
  intros ([text [-> | ->]] & [[]|[n Hd]]); (split; [done|]); try (left; by exists l); right; by eapply Hpost.
Qed.
(** *** Listings *)
Definition lists_pg (s : State) : bool :=
  match s with StateAvailable | StateReleased => true | _ => false end.

(** The depth also counts what a consumer holds outside a transaction. *)
Definition counts_pg (m : Message) : bool :=
  lists_pg (m_State m) ||
  bool_decide (m_State m = StateAcquired) && bool_decide (m_TransactionID m = "").

Lemma text_eqb a b : datum_eqb (DText a) (DText b) = bool_decide (a = b).
Proof. unfold datum_eqb. cbn. apply bool_decide_ext. naive_solver. Qed.

(** For a state in its canonical form the text decides. *)
Lemma state_text s t : State_of (State_string s) = s → State_string s = t ↔ s = State_of t.
Proof. intros Hs. split; [intros <-; done|intros ->; apply State_of_string]. Qed.

Lemma filter_iff_in {A} (P Q : A → Prop) `{∀ x, Decision (P x), ∀ x, Decision (Q x)} (l : list A) :
  (∀ x, x ∈ l → P x ↔ Q x) → filter P l = filter Q l.
Proof.
  induction l as [|x l IH]; intros Hl; [done|]. rewrite !filter_cons.
  rewrite IH by (intros; apply Hl; by right).
  assert (P x ↔ Q x) as Hx by (apply Hl; by left). by repeat case_decide; tauto || done.
Qed.

Lemma filter_everything {A} (l : list A) : filter (λ _, True) l = l.
Proof. induction l as [|x l IH]; [done|]. rewrite filter_cons, decide_True by done. by rewrite IH. Qed.

Lemma selects_states ts m args :
  good_message m →
  selects args (CIn "state" ts) (message_row m) = true ↔ ∃ t, t ∈ ts ∧ m_State m = State_of t.
Proof.
  intros (_ & _ & Hs). cbn [selects].
  change (column "state" (message_row m)) with (DText (State_string (m_State m))).
  rewrite existsb_exists. split.
  - intros (t & Hin & Ht). rewrite text_eqb, bool_decide_eq_true in Ht. exists t.
    split; [by apply list_elem_of_In|exact (proj1 (state_text _ _ Hs) Ht)].
  - intros (t & Hin & Ht). exists t. split; [by apply list_elem_of_In|].
    rewrite text_eqb. apply bool_decide_eq_true. exact (proj2 (state_text _ _ Hs) Ht).
Qed.

Lemma selects_address a args m :
  args !! 0%nat = Some (DText a) →
  selects args (CEq "address" (Arg 1)) (message_row m) = true ↔ m_Address m = a.
Proof.
  intros Ha. cbn [selects operand_value]. unfold arg. cbn [pred]. rewrite Ha.
  change (column "address" (message_row m)) with (DText (m_Address m)). cbn [from_option id].
  by rewrite text_eqb, bool_decide_eq_true.
Qed.

Lemma limited_truncate {A} limit n args (l : list A) :
  0 < limit → arg args n = DInt limit → limited (Some n) args l = truncate_limit limit l.
Proof.
  intros Hl Ha. unfold limited, truncate_limit. rewrite Ha.
  case_bool_decide as Hd; [done|]. apply take_ge. lia.
Qed.

Lemma truncate_none {A} limit (l : list A) : ¬ 0 < limit → truncate_limit limit l = l.
Proof. intros. unfold truncate_limit. by rewrite bool_decide_eq_false_2 by tauto. Qed.

(** A query of the message table, in the terms of the messages it holds. *)
Lemma wpe_messages_query p os less limit limit' args d M (P : Message → Prop) `{∀ m, Decision (P m)} :
  holds_messages d M →
  (∀ m, good_message m → selects args p (message_row m) = true ↔ P m) →
  (∀ x y, row_le db_collate os (message_row x) (message_row y) = true → not_less less x y) →
  (∀ l : list Message, limited limit args l = truncate_limit limit' l) →
  wpe (PostgresMessages_query (SELECT message_columns "messages" p os limit) args)
    (λ r d', holds_messages d' M ∧ match r with
      | Ok out => listed less limit' (filter P (map_values M)) out
      | Err _ => True
      | Panic => False end) d.
Proof.
  intros (l & Ht & ->) HP Hless Hlim. unfold PostgresMessages_query.
  eapply wpe_mono; [by apply (wpe_read_rows message_row _ "messages" _ good_message scan_message_row)|].
  intros r d' (Hv & Heq & Hr).
  assert (holds_messages d' (index m_ID l)) as Hh by (exists l; split; [by eapply table_same|done]).
  split; [done|]. destruct r as [out|e|]; [|done..]. destruct Hr as (l' & Hp & Hs & ->).
  exists l'. split_and!; [|eapply StronglySorted_impl; [|exact Hs]; apply Hless|apply Hlim].
  rewrite Hp, index_values by by eapply messages_nodup. apply Permutation_refl', filter_iff_in.
  intros m Hm. apply HP. destruct Ht as (_ & _ & Hg). by eapply Forall_forall in Hg.
Qed.

Lemma older_row_le x y :
  row_le db_collate [Asc "created_at"] (message_row x) (message_row y) = true → not_less older x y.
Proof.
  change (row_le db_collate [Asc "created_at"] (message_row x) (message_row y)) with
    ((m_CreatedAt x <=? m_CreatedAt y) && (negb (m_CreatedAt y <=? m_CreatedAt x) || true)).
  unfold not_less, older, time_Before. lia.
Qed.

Lemma ready_row_le x y :
  row_le db_collate [Desc "priority"; Asc "created_at"] (message_row x) (message_row y) = true →
  not_less ready_less x y.
Proof.
  change (row_le db_collate [Desc "priority"; Asc "created_at"] (message_row x) (message_row y)) with
    ((m_Priority y <=? m_Priority x) && (negb (m_Priority x <=? m_Priority y) ||
       ((m_CreatedAt x <=? m_CreatedAt y) && (negb (m_CreatedAt y <=? m_CreatedAt x) || true)))).
  unfold not_less, ready_less, time_Before. case_match; lia.
Qed.

Lemma lists_pg_texts s : (∃ t, t ∈ ["available"; "released"] ∧ s = State_of t) ↔ lists_pg s = true.
Proof.
  split.
  - intros (t & Ht & ->). rewrite !elem_of_cons in Ht. destruct Ht as [->|[->|[]%not_elem_of_nil]]; done.
  - destruct s; try done; intros _; [by exists "available"; set_solver|by exists "released"; set_solver].
Qed.

Lemma dead_texts m : (∃ t, t ∈ ["dead-lettered"; "expired"] ∧ m_State m = State_of t) ↔ dead m.
Proof.
  unfold dead. split.
  - intros (t & Ht & ->). rewrite !elem_of_cons in Ht.
    destruct Ht as [->|[->|[]%not_elem_of_nil]]; [by left|by right].
  - intros [->| ->]; [by exists "dead-lettered"; set_solver|by exists "expired"; set_solver].
Qed.

Lemma PostgresMessages_ListReady_law address limit d M :
  holds_messages d M →
  wpe (PostgresMessages_ListReady address limit) (λ r d', holds_messages d' M ∧ match r with
    | Ok l => listed ready_less limit
        (filter (λ m, m_Address m = address ∧ lists_pg (m_State m) = true) (map_values M)) l
    | Err _ => True
    | Panic => False end) d.
Proof.
  intros Hh. unfold PostgresMessages_ListReady.
  assert (∀ args m, args !! 0%nat = Some (DText address) → good_message m →
    selects args (CAnd (CEq "address" (Arg 1)) (CIn "state" ["available"; "released"])) (message_row m) = true
    ↔ m_Address m = address ∧ lists_pg (m_State m) = true) as Hsel.
  { intros args m Ha Hg. rewrite <-lists_pg_texts, <-(selects_states _ _ args Hg).
    rewrite <-(selects_address address args m Ha). cbn [selects]. by rewrite andb_true_iff. }
  destruct (Z.ltb_spec 0 limit).
  - apply wpe_messages_query; [done|by intros; apply Hsel|apply ready_row_le|].
    intros l. by apply limited_truncate.
  - apply wpe_messages_query; [done|by intros; apply Hsel|apply ready_row_le|].
    intros l. rewrite truncate_none by lia. done.
Qed.

Lemma PostgresMessages_ListDead_law limit d M :
  holds_messages d M →
  wpe (PostgresMessages_ListDead limit) (λ r d', holds_messages d' M ∧ match r with
    | Ok l => listed older limit (filter dead (map_values M)) l
    | Err _ => True
    | Panic => False end) d.
Proof.
  intros Hh. unfold PostgresMessages_ListDead.
  assert (∀ args m, good_message m →
    selects args (CIn "state" ["dead-lettered"; "expired"]) (message_row m) = true ↔ dead m) as Hsel.
  { intros args m Hg. by rewrite selects_states, dead_texts. }
  destruct (Z.ltb_spec 0 limit).
  - apply wpe_messages_query; [done|by intros; apply Hsel|apply older_row_le|].
    intros l. by apply limited_truncate.
  - apply wpe_messages_query; [done|by intros; apply Hsel|apply older_row_le|].
    intros l. rewrite truncate_none by lia. done.
Qed.

Lemma PostgresMessages_All_law d M :
  holds_messages d M →
  wpe PostgresMessages_All (λ r d', holds_messages d' M ∧ match r with
    | Ok l => l ≡ₚ map_values M
    | Err _ => True
    | Panic => False end) d.
Proof.
  intros Hh. unfold PostgresMessages_All. eapply wpe_mono.
  - apply (wpe_messages_query _ _ older _ 0 _ _ M (λ _, True)); [done|done|apply older_row_le|].
    intros l. by rewrite truncate_none by lia.
  - intros [l|e|] d'; [|done..]. intros (Hh' & sorted & Hp & _ & ->). split; [done|].
    rewrite truncate_none by lia. rewrite Hp. apply Permutation_refl'.
    apply filter_everything.
Qed.
Lemma PostgresMessages_Depth_law address d M :
  holds_messages d M →
  wpe (PostgresMessages_Depth address) (λ r d', holds_messages d' M ∧ match r with
    | Ok n => n = Z.of_nat (length
        (filter (λ m, m_Address m = address ∧ counts_pg m = true) (map_values M)))
    | Err _ => True
    | Panic => False end) d.
Proof.
  intros (l & Ht & ->). unfold PostgresMessages_Depth, sql_QueryRow. wpe_step. wpe_step.
  eapply wpe_mono; [apply wpe_sql_Query, Ht|]. intros r d' (Hv & Heq & Hq).
  assert (holds_messages d' (index m_ID l)) as Hh by (exists l; split; [by eapply table_same|done]).
  destruct r as [[out err]|e|]; [|by split|done].
  set (p := CAnd _ _) in *.
  assert (out = [] ∨ out = [[DInt (Z.of_nat (length (filter (λ r, selects [DText address] p r = true)
    (rows_of "messages" (db_tables d)))))]]) as [-> | ->].
  { destruct err as [e|]; [|by right]. destruct Hq as (_ & all & -> & Hpre).
    by apply prefix_of_one. }
  { by destruct err; wpe_auto; split. }
  wpe_auto. split; [done|]. pose proof (messages_nodup _ _ Ht) as Hnd.
  destruct Ht as (Hv0 & Hr & Hg). rewrite Hr, filter_fmap, length_fmap.
  f_equal. apply Permutation_length. rewrite index_values by done.
  apply Permutation_refl', filter_iff_in. intros m Hm. eapply Forall_forall in Hg; [|exact Hm].
  unfold p. change (selects ?a (CAnd ?x ?y) ?r) with (selects a x r && selects a y r).
  rewrite andb_true_iff, (selects_address address) by done. apply and_iff_compat_l.
  change (selects ?a (COr ?x (CAnd ?y (CIsNull "transaction_id"))) (message_row m)) with
    (selects a x (message_row m) || (selects a y (message_row m) &&
       bool_decide (nullable (m_TransactionID m) = DNull))).
  rewrite orb_true_iff, andb_true_iff, selects_states, lists_pg_texts by done.
  change (selects ?a (CEq "state" (Lit "acquired")) (message_row m)) with
    (datum_eqb (DText (State_string (m_State m))) (DText "acquired")).
  rewrite text_eqb, !bool_decide_eq_true, nullable_null, (state_text _ _ (proj2 (proj2 Hg))).
  unfold counts_pg. by rewrite orb_true_iff, andb_true_iff, !bool_decide_eq_true.
Qed.
End messages.

#[global] Instance PostgresMessagesLaws {D} `{SqlLaws D, !MapJSON, !JsonbFaithful D} :
  MessageRepositoryLaws D.
Proof.
  refine {| repo_holds := holds_messages; storable := storable_message; keeps := kept_message;
            keeps_over := updated_message; lists := lists_pg; counts := counts_pg |}; try done.
  - intros []; try done; [by left|by right].
  - intros m Hm. unfold counts_pg. by rewrite Hm.
  - intros orc. apply PostgresMessages_Put_law.
  - intros orc. apply PostgresMessages_Get_law.
  - intros orc. apply PostgresMessages_Update_law.
  - intros orc. apply PostgresMessages_Delete_law.
  - intros orc. apply PostgresMessages_ListReady_law.
  - intros orc. apply PostgresMessages_ListDead_law.
  - intros orc. apply PostgresMessages_Depth_law.
  - intros orc. apply PostgresMessages_All_law.
Defined.

(** ** Addresses and bindings *)
Section addresses.
Context {D : Type} `{SqlLaws D, !MapJSON, !JsonbFaithful D}.

Definition address_row (a : Address) : row :=
  list_to_map (zip address_columns
    [DText (a_Name a); DText (Kind_string (a_Kind a)); DBool (a_Durable a); DInt (a_MaxLength a);
     DInt (a_DefaultTTL a); nullable (a_DeadLetter a); DBool (a_Paused a); DTime (a_CreatedAt a);
     DInt (a_Version a)]).

Definition binding_row (b : Binding) : row :=
  list_to_map (zip binding_columns
    [DText (bd_ID b); DText (bd_Source b); DText (bd_Destination b); DText (bd_RoutingKey b);
     DBytes (jsonb (bd_Filter b)); DInt (bd_Priority b); DTime (bd_CreatedAt b)]).

Definition kept_address (a : Address) : Address :=
  mkAddress (a_Name a) (Kind_of (Kind_string (a_Kind a))) (a_Durable a) (a_MaxLength a)
    (a_DefaultTTL a) (a_DeadLetter a) (a_Paused a) (db_time (a_CreatedAt a)) (a_Version a).

Definition kept_binding (b : Binding) : Binding :=
  mkBinding (bd_ID b) (bd_Source b) (bd_Destination b) (bd_RoutingKey b) (bd_Filter b)
    (bd_Priority b) (db_time (bd_CreatedAt b)).

Definition good_address (a : Address) : Prop :=
  Kind_of (Kind_string (a_Kind a)) = a_Kind a ∧ 0 ≤ a_Version a.
Definition good_binding (b : Binding) : Prop := map_text (bd_Filter b).

Lemma scan_address_row a : good_address a → scanAddress (project address_columns (address_row a)) = Ok a.
Proof.
  intros (Hk & Hv).
  change (project address_columns (address_row a)) with
    [DText (a_Name a); DText (Kind_string (a_Kind a)); DBool (a_Durable a); DInt (a_MaxLength a);
     DInt (a_DefaultTTL a); nullable (a_DeadLetter a); DBool (a_Paused a); DTime (a_CreatedAt a);
     DInt (a_Version a)].
  unfold scanAddress, mbind, res_mbind. cbn [scan_string scan_int scan_time scan_bool scan_uint64 res_bind].
  rewrite scan_nullable. cbn [res_bind]. rewrite (proj2 (Z.ltb_ge _ _)) by done. cbn [res_bind].
  rewrite Hk. by destruct a.
Qed.

Lemma scan_binding_row b : good_binding b → scanBinding (project binding_columns (binding_row b)) = Ok b.
Proof.
  intros Hf.
  change (project binding_columns (binding_row b)) with
    [DText (bd_ID b); DText (bd_Source b); DText (bd_Destination b); DText (bd_RoutingKey b);
     DBytes (jsonb (bd_Filter b)); DInt (bd_Priority b); DTime (bd_CreatedAt b)].
  unfold scanBinding, mbind, res_mbind. cbn [scan_string scan_bytes scan_int scan_time res_bind].
  rewrite jsonb_back by done. by destruct b.
Qed.

Lemma address_row_key a : column (primary_key "addresses") (address_row a) = DText (a_Name a).
Proof. reflexivity. Qed.
Lemma binding_row_key b : column (primary_key "bindings") (binding_row b) = DText (bd_ID b).
Proof. reflexivity. Qed.
Lemma addresses_known : "addresses" ∈ ["addresses"; "bindings"; "messages"].
Proof. set_solver. Qed.
Lemma bindings_known : "bindings" ∈ ["addresses"; "bindings"; "messages"].
Proof. set_solver. Qed.

Abbreviation addresses_are := (table_is address_row "addresses" good_address).
Abbreviation bindings_are := (table_is binding_row "bindings" good_binding).

Definition holds_addresses (d : D) (A : gmap string Address) (B : gmap string Binding) : Prop :=
  ∃ la lb, addresses_are d la ∧ bindings_are d lb ∧ A = index a_Name la ∧ B = index bd_ID lb.

Context {orc : Oracle}.
Implicit Types (d : D) (A : gmap string Address) (B : gmap string Binding).

Lemma table_other {T} (row_of : T → row) t t' good d d' l :
  table_is row_of t' good d l → t' ≠ t → db_valid d' → only t d d' → table_is row_of t' good d' l.
Proof. intros (_ & Hr & Hg) Hne Hv Ho. split_and!; [done|by rewrite Ho|done]. Qed.

Lemma holds_same d d' la lb :
  addresses_are d la → bindings_are d lb → db_valid d' → db_tables d' = db_tables d →
  holds_addresses d' (index a_Name la) (index bd_ID lb).
Proof. intros Ha Hb Hv Ht. exists la, lb. split_and!; try done; by eapply table_same. Qed.

Lemma PostgresAddresses_Create_law a d A B :
  holds_addresses d A B → 0 ≤ a_Version a →
  wpe (PostgresAddresses_Create a) (λ r d', match r with
    | Ok _ => A !! a_Name a = None ∧ holds_addresses d' (<[a_Name a := kept_address a]> A) B
    | Err _ => holds_addresses d' A B ∨
        A !! a_Name a = None ∧ holds_addresses d' (<[a_Name a := kept_address a]> A) B
    | Panic => False end) d.
Proof.
  intros (la & lb & Ha & Hb & -> & ->) Hs. unfold PostgresAddresses_Create. wpe_auto.
  assert (∀ n d', inserts a_Name address_row "addresses" good_address d la (kept_address a) n d' →
    index a_Name la !! a_Name a = None ∧
    holds_addresses d' (<[a_Name a := kept_address a]> (index a_Name la)) (index bd_ID lb)) as Hpost.
  { intros n d' (Ht' & Hk & Ho). split; [exact (insert_new a_Name _ _ Hk)|].
    exists (la ++ [kept_address a]), lb. split_and!; try done.
    - apply (table_other _ "addresses" _ _ d); [exact Hb|done|apply Ht'|exact Ho].
    - by rewrite index_add. }
  eapply wpe_mono.
  { eapply (wpe_insert a_Name address_row); [apply address_row_key|apply addresses_known|exact Ha| |].
    - instantiate (1 := kept_address a). split; [|done]. cbn. by rewrite Kind_of_string.
    - unfold inserted, address_row. cbn [zip_with address_columns].
      rewrite kept_nullable. cbn [kept a_Kind kept_address]. by rewrite Kind_of_string. }
  intros [n|e|] d'; [intros Hi; wpe_auto; by eapply Hpost| |done].
  intros (_ & [[Ht Heq]|[n Hi]]); [left; apply (holds_same d); [done|done|apply Ht|done]|right; by eapply Hpost].
Qed.

Lemma PostgresAddresses_Get_law name d A B :
  holds_addresses d A B →
  wpe (PostgresAddresses_Get name) (λ r d', holds_addresses d' A B ∧ match r with
    | Ok a => A !! name = Some a
    | Err e => e = ErrAddressNotFound → A !! name = None
    | Panic => False end) d.
Proof.
  intros (la & lb & Ha & Hb & -> & ->). unfold PostgresAddresses_Get. wpe_step. wpe_step.
  eapply wpe_mono; [by apply (wpe_lookup a_Name address_row _ "addresses" _ good_address
    scan_address_row address_row_key)|].
  intros r d' (Hv & Heq & Hr). pose proof (holds_same d d' la lb Ha Hb Hv Heq) as Hh.
  destruct r as [a|e|]; [| |done].
  - wpe_auto. split; [done|]. apply index_lookup; [|done].
    by eapply table_nodup; [apply address_row_key|apply addresses_known|].
  - destruct Hr as [[-> Hn]|[text [-> | ->]]]; cbn; wpe_auto; split; try done.
    intros _. by apply index_none.
Qed.

Lemma PostgresAddresses_List_law d A B :
  holds_addresses d A B →
  wpe PostgresAddresses_List (λ r d', holds_addresses d' A B ∧ match r with
    | Ok l => l ≡ₚ map_values A
    | Err _ => True
    | Panic => False end) d.
Proof.
  intros (la & lb & Ha & Hb & -> & ->). unfold PostgresAddresses_List.
  eapply wpe_mono; [by apply (wpe_read_rows address_row _ "addresses" _ good_address scan_address_row)|].
  intros r d' (Hv & Heq & Hr). split; [by apply (holds_same d)|]. destruct r as [out|e|]; [|done..].
  destruct Hr as (l' & Hp & _ & ->). cbn [limited]. rewrite Hp, index_values.
  - apply Permutation_refl'. rewrite <-(filter_everything la) at 2. by apply filter_iff_in.
  - by eapply table_nodup; [apply address_row_key|apply addresses_known|].
Qed.

Lemma paused_row b a args :
  args !! 1%nat = Some (DBool b) → a_Version a < 2 ^ 63 → 0 ≤ a_Version a →
  updated db_time db_json [SetTo "paused" 2; Increment "version"] args (address_row a) =
    address_row (with_paused b a).
Proof.
  intros Ha Hv Hpos. cbv [updated foldl assign arg pred]. rewrite Ha. cbn [from_option id].
  change (column "version" _) with (DInt (a_Version a)). cbn iota.
  unfold address_row, with_paused. cbn [a_Name a_Kind a_Durable a_MaxLength a_DefaultTTL a_DeadLetter
    a_Paused a_CreatedAt a_Version kept]. unfold u64. rewrite Z.mod_small by lia. reflexivity.
Qed.

Lemma PostgresAddresses_SetPaused_law name b d A B :
  holds_addresses d A B →
  wpe (PostgresAddresses_SetPaused name b) (λ r d', match r with
    | Ok a' => ∃ a, A !! name = Some a ∧ a' = with_paused b a ∧ holds_addresses d' (<[name := a']> A) B
    | Err e => (e = ErrAddressNotFound → A !! name = None) ∧
        (holds_addresses d' A B ∨
         ∃ a, A !! name = Some a ∧ holds_addresses d' (<[name := with_paused b a]> A) B)
    | Panic => False end) d.
Proof.
  intros (la & lb & Ha & Hb & -> & ->). unfold PostgresAddresses_SetPaused. wpe_step.
  assert (NoDup (a_Name <$> la)) as Hnd
    by by eapply table_nodup; [apply address_row_key|apply addresses_known|].
  assert (∀ n d', updates a_Name address_row "addresses" good_address name (with_paused b) d la n d' →
    if n =? 0 then index a_Name la !! name = None ∧ holds_addresses d' (index a_Name la) (index bd_ID lb)
    else ∃ a, index a_Name la !! name = Some a ∧
      holds_addresses d' (<[name := with_paused b a]> (index a_Name la)) (index bd_ID lb)) as Hpost.
  { intros n d' Hu. pose proof (index_updates a_Name address_row "addresses" good_address name
      (with_paused b) n d la d' (λ _, eq_refl) Hnd Hu) as Hi. destruct Hu as (_ & Ht' & Ho).
    assert (bindings_are d' lb) as Hb'.
    { apply (table_other _ "addresses" _ _ d); [exact Hb|done|apply Ht'|exact Ho]. }
    destruct (n =? 0); [destruct Hi as [Hn Hi]; split; [done|]|destruct Hi as (a & Hl & Hi); exists a; split; [done|]];
      eexists _, lb; (split_and!; [exact Ht'|exact Hb'|by rewrite Hi|done]). }
  eapply wpe_mono.
  { apply (wpe_row_update a_Name address_row "addresses" good_address address_row_key name _ (with_paused b)
      _ _ la); [done|done|].
    intros a Hin _. destruct Ha as (Hv & Hr & Hg). eapply Forall_forall in Hg as [Hk Hpos]; [|exact Hin].
    assert (a_Version a < 2 ^ 63).
    { eapply (db_range d "addresses" (address_row a) "version"); [done| |reflexivity].
      rewrite Hr. by apply list_elem_of_fmap_2. }
    split; [by apply paused_row|]. split; [done|]. cbn. unfold u64. apply Z.mod_pos_bound. lia. }
  intros [n|e|] d'; [| |done].
  - intros Hu%Hpost. wpe_step. apply wpe_guard; intros Hz; rewrite Hz in Hu.
    { destruct Hu as [Hn Hh]. split; [done|by left]. }
    destruct Hu as (a & E & Hh). eapply wpe_mono; [by apply PostgresAddresses_Get_law|].
    intros [a'|e|] d'' [Hh' Hr]; [|split; [|right; by exists a]|done].
    + rewrite lookup_insert_eq in Hr. injection Hr as <-. by exists a.
    + intros He. specialize (Hr He). by rewrite lookup_insert_eq in Hr.
  - intros ([text [-> | ->]] & [[Ht Heq]|[n Hu%Hpost]]); (split; [done|]);
      try (left; apply (holds_same d); [done|done|apply Ht|done]);
      destruct (n =? 0); [left; apply Hu|by right|left; apply Hu|by right].
Qed.

(** [ON DELETE CASCADE] removes only bindings of the address. *)
Lemma cascade_bindings name (lb : list Binding) (la : list Address) (db : gmap string (list row)) :
  rows_of "bindings" db = binding_row <$> lb →
  ∃ lb', rows_of "bindings" (cascade "addresses"
      (filter (λ r, selects [DText name] (CEq "name" (Arg 1)) r = true) (address_row <$> la)) db) =
    binding_row <$> lb' ∧
    (∀ b, b ∈ lb' → b ∈ lb) ∧
    (∀ b, b ∈ lb → bd_Source b ≠ name → bd_Destination b ≠ name → b ∈ lb') ∧
    ((∀ a, a ∈ la → a_Name a ≠ name) → lb' = lb).
Proof.
  intros Hr. unfold cascade. rewrite bool_decide_eq_true_2 by done.
  unfold rows_of at 1. rewrite lookup_insert_eq. cbn [from_option id]. rewrite Hr, filter_fmap.
  eexists. split; [reflexivity|]. split; [by intros b [_ Hb]%list_elem_of_filter|]. split.
  2: { intros Hno. rewrite <-(filter_everything lb) at 2. apply filter_iff_in. intros b _.
       assert (filter (λ r, selects [DText name] (CEq "name" (Arg 1)) r = true) (address_row <$> la) = [])
         as ->; [|done].
       rewrite filter_fmap. destruct (filter _ la) as [|a l] eqn:E; [done|]. exfalso.
       assert (a ∈ a :: l) as Hin by by left. rewrite <-E in Hin.
       apply list_elem_of_filter in Hin as [Hs Hin]. apply (Hno a Hin).
       by apply (chosen_key a_Name address_row "addresses" address_row_key name) in Hs. }
  intros b Hb Hs Hd. apply list_elem_of_filter. split; [|done].
  change (column "source" (binding_row b)) with (DText (bd_Source b)).
  change (column "destination" (binding_row b)) with (DText (bd_Destination b)).
  assert (∀ s, s ≠ name → existsb (λ r, datum_eqb (DText s) (column "name" r))
    (filter (λ r, selects [DText name] (CEq "name" (Arg 1)) r = true) (address_row <$> la)) = false) as Hgone.
  { intros s Hne. rewrite <-not_true_iff_false, existsb_exists. intros (r & Hin%list_elem_of_In & Heq).
    rewrite filter_fmap in Hin. apply list_elem_of_fmap in Hin as (a & -> & [Hsel _]%list_elem_of_filter).
    change (column "name" (address_row a)) with (DText (a_Name a)) in Heq.
    rewrite text_eqb, bool_decide_eq_true in Heq. apply (chosen_key a_Name address_row "addresses"
      address_row_key name) in Hsel; [congruence|done|done]. }
  by rewrite !Hgone.
Qed.

Lemma address_deleted d la lb name n d' :
  addresses_are d la → bindings_are d lb →
  deletes a_Name address_row "addresses" good_address name d la n d' →
  if n =? 0 then index a_Name la !! name = None ∧ holds_addresses d' (index a_Name la) (index bd_ID lb)
  else is_Some (index a_Name la !! name) ∧ ∃ B', bindings_left name (index bd_ID lb) B' ∧
    holds_addresses d' (delete name (index a_Name la)) B'.
Proof.
  intros Ha Hb (Hn & Ht' & Heff). cbn [effect] in Heff. apply pair_equal_spec in Heff as [_ Heff].
  assert (NoDup (bd_ID <$> lb)) as Hnb
    by by eapply table_nodup; [apply binding_row_key|apply bindings_known|].
  destruct Ha as (Hv & Hra & Hga), Hb as (_ & Hrb & Hgb).
  destruct (cascade_bindings name lb la (<["addresses" := filter (λ r, selects [DText name]
    (CEq (primary_key "addresses") (Arg 1)) r = false) (rows_of "addresses" (db_tables d))]> (db_tables d)))
    as (lb' & Hrows & Hsub & Hkeep & Hall).
  { unfold rows_of. rewrite lookup_insert_ne by done. exact Hrb. }
  rewrite Hra in Heff, Hrows.
  assert (bindings_are d' lb') as Hb'.
  { split_and!; [apply Ht'| |].
    - rewrite <-Heff. exact Hrows.
    - apply Forall_forall. intros b Hin%Hsub. by eapply Forall_forall in Hgb. }
  assert (NoDup (bd_ID <$> lb')) as Hnb'
    by by eapply table_nodup; [apply binding_row_key|apply bindings_known|].
  assert (holds_addresses d' (delete name (index a_Name la)) (index bd_ID lb')) as Hh.
  { exists (filter (λ a, a_Name a ≠ name) la), lb'. split_and!; try done. by rewrite index_remove. }
  destruct (Z.eqb_spec n 0) as [Hz|Hz].
  - assert (∀ a, a ∈ la → a_Name a ≠ name) as Hnone by by apply Hn.
    rewrite (Hall Hnone) in Hh. apply index_none in Hnone. by rewrite delete_id in Hh.
  - split; [|exists (index bd_ID lb'); split; [|done]].
    + destruct (index a_Name la !! name) as [a|] eqn:E; [by eexists|]. by exfalso; apply Hz, Hn, index_none.
    + split.
      * apply map_subseteq_spec. intros k b [Hin Hk]%index_lookup; [|done]. apply index_lookup; [done|auto].
      * intros k b [Hin Hk]%index_lookup Hs Hd; [|done]. apply index_lookup; [done|auto].
Qed.

Lemma PostgresAddresses_Delete_law name d A B :
  holds_addresses d A B →
  wpe (PostgresAddresses_Delete name) (λ r d', match r with
    | Ok _ => is_Some (A !! name) ∧ ∃ B', bindings_left name B B' ∧ holds_addresses d' (delete name A) B'
    | Err e => (e = ErrAddressNotFound → A !! name = None) ∧ (holds_addresses d' A B ∨
        is_Some (A !! name) ∧ ∃ B', bindings_left name B B' ∧ holds_addresses d' (delete name A) B')
    | Panic => False end) d.
Proof.
  intros (la & lb & Ha & Hb & -> & ->). unfold PostgresAddresses_Delete. wpe_step.
  assert (∀ n d', deletes a_Name address_row "addresses" good_address name d la n d' →
    if n =? 0 then index a_Name la !! name = None ∧ holds_addresses d' (index a_Name la) (index bd_ID lb)
    else is_Some (index a_Name la !! name) ∧ ∃ B', bindings_left name (index bd_ID lb) B' ∧
      holds_addresses d' (delete name (index a_Name la)) B') as Hpost
    by (intros; by apply (address_deleted d)).
  eapply wpe_mono; [by apply (wpe_delete a_Name address_row "addresses" good_address address_row_key)|].
  intros [n|e|] d'; [| |done].
  - intros Hd%Hpost. apply wpe_guard; intros Hz; rewrite Hz in Hd; [|done].
    destruct Hd as [Hn Hh]. split; [done|by left].
  - intros ([text [-> | ->]] & [[Ht Heq]|[n Hd%Hpost]]); (split; [done|]);
      try (left; apply (holds_same d); [done|done|apply Ht|done]);
      destruct (n =? 0); [left; apply Hd|by right|left; apply Hd|by right].
Qed.

Lemma PostgresAddresses_CreateBinding_law b d A B :
  holds_addresses d A B → map_text (bd_Filter b) →
  wpe (PostgresAddresses_CreateBinding b) (λ r d', match r with
    | Ok _ => B !! bd_ID b = None ∧ holds_addresses d' A (<[bd_ID b := kept_binding b]> B)
    | Err _ => holds_addresses d' A B ∨
        B !! bd_ID b = None ∧ holds_addresses d' A (<[bd_ID b := kept_binding b]> B)
    | Panic => False end) d.
Proof.
  intros (la & lb & Ha & Hb & -> & ->) Hs. unfold PostgresAddresses_CreateBinding, jsonMap.
  destruct (map_Marshal_total (bd_Filter b)) as [raw Eb]. rewrite Eb. wpe_auto.
  assert (∀ n d', inserts bd_ID binding_row "bindings" good_binding d lb (kept_binding b) n d' →
    index bd_ID lb !! bd_ID b = None ∧
    holds_addresses d' (index a_Name la) (<[bd_ID b := kept_binding b]> (index bd_ID lb))) as Hpost.
  { intros n d' (Ht' & Hk & Ho). split; [exact (insert_new bd_ID _ _ Hk)|].
    exists la, (lb ++ [kept_binding b]). split_and!; try done.
    - apply (table_other _ "bindings" _ _ d); [exact Ha|done|apply Ht'|exact Ho].
    - by rewrite index_add. }
  eapply wpe_mono.
  { eapply (wpe_insert bd_ID binding_row _ _ good_binding binding_row_key bindings_known (kept_binding b));
      [exact Hb|exact Hs|].
    unfold inserted, binding_row. cbn [zip_with binding_columns]. by rewrite (kept_headers _ _ Eb). }
  intros [n|e|] d'; [intros Hi; wpe_auto; by eapply Hpost| |done].
  intros (_ & [[Ht Heq]|[n Hi]]); [left; apply (holds_same d); [done|done|apply Ht|done]|right; by eapply Hpost].
Qed.

Lemma PostgresAddresses_ListBindings_law source d A B :
  holds_addresses d A B →
  wpe (PostgresAddresses_ListBindings source) (λ r d', holds_addresses d' A B ∧ match r with
    | Ok l => l ≡ₚ filter (λ b, source = "" ∨ bd_Source b = source) (map_values B) ∧
        StronglySorted (λ x y, bd_Priority y ≤ bd_Priority x) l
    | Err _ => True
    | Panic => False end) d.
Proof.
  intros (la & lb & Ha & Hb & -> & ->). unfold PostgresAddresses_ListBindings.
  eapply wpe_mono; [by apply (wpe_read_rows binding_row _ "bindings" _ good_binding scan_binding_row)|].
  intros r d' (Hv & Heq & Hr). split; [by apply (holds_same d)|]. destruct r as [out|e|]; [|done..].
  destruct Hr as (l' & Hp & Hs & ->). cbn [limited]. split.
  - rewrite Hp, index_values by by eapply table_nodup; [apply binding_row_key|apply bindings_known|].
    apply Permutation_refl', filter_iff_in. intros b _.
    change (selects _ _ (binding_row b)) with
      (datum_eqb (DText source) (DText "") || datum_eqb (DText (bd_Source b)) (DText source)).
    by rewrite !text_eqb, orb_true_iff, !bool_decide_eq_true.
  - eapply StronglySorted_impl; [|exact Hs]. intros x y.
    change (row_le _ _ (binding_row x) (binding_row y)) with
      ((bd_Priority y <=? bd_Priority x) && (negb (bd_Priority x <=? bd_Priority y) ||
         row_le db_collate [Asc "id"] (binding_row x) (binding_row y))).
    intros [Hxy _]%andb_true_iff. by apply Z.leb_le.
Qed.

Lemma PostgresAddresses_DeleteBinding_law id d A B :
  holds_addresses d A B →
  wpe (PostgresAddresses_DeleteBinding id) (λ r d', match r with
    | Ok _ => holds_addresses d' A (delete id B)
    | Err _ => holds_addresses d' A B ∨ holds_addresses d' A (delete id B)
    | Panic => False end) d.
Proof.
  intros (la & lb & Ha & Hb & -> & ->). unfold PostgresAddresses_DeleteBinding. wpe_step.
  eapply wpe_mono; [by apply (wpe_delete bd_ID binding_row "bindings" good_binding binding_row_key)|].
  assert (∀ n d', deletes bd_ID binding_row "bindings" good_binding id d lb n d' →
    holds_addresses d' (index a_Name la) (delete id (index bd_ID lb))) as Hpost.
  { intros n d' (_ & Ht' & Heff). apply pair_equal_spec in Heff as [_ Heff].
    exists la, (filter (λ b, bd_ID b ≠ id) lb). split_and!; [|done|done|by rewrite index_remove].
    destruct Ha as (_ & Hr & Hg). split_and!; [apply Ht'| |done]. rewrite <-Heff.
    unfold cascade, rows_of. rewrite bool_decide_eq_false_2, lookup_insert_ne by done. exact Hr. }
  intros [n|e|] d'; [intros Hd; wpe_step; by eapply Hpost| |done].
  intros (_ & [[Ht Heq]|[n Hd]]); [left; apply (holds_same d); [done|done|apply Ht|done]|right; by eapply Hpost].
Qed.
End addresses.

#[global] Instance PostgresAddressesLaws {D} `{SqlLaws D, !MapJSON, !JsonbFaithful D} :
  AddressRepositoryLaws D.
Proof.
  refine {| arepo_holds := holds_addresses; storable_address a := 0 ≤ a_Version a;
            storable_binding b := map_text (bd_Filter b); keeps_address := kept_address;
            keeps_binding := kept_binding |}; try done; intros orc.
  - apply PostgresAddresses_Create_law.
  - apply PostgresAddresses_Get_law.
  - apply PostgresAddresses_List_law.
  - apply PostgresAddresses_SetPaused_law.
  - apply PostgresAddresses_Delete_law.
  - apply PostgresAddresses_CreateBinding_law.
  - apply PostgresAddresses_ListBindings_law.
  - apply PostgresAddresses_DeleteBinding_law.
Defined.
