(* ===== verification/Stores.v ===== *)
(** * The two stores side by side

    Clients of the repository interfaces of Repository.v, proved for every
    implementation, and a simulation between the in-memory store and the
    PostgreSQL repositories: through any calls on which both succeed, or
    that are refused, the database holds what the memory holds, up to what it keeps of a
    message, and reads agree.  They part where the listing of ready messages
    is concerned ([released_listed_by_postgres]). *)

From Stdlib Require Import Ascii String.
From S2P Require Import Prelude Bytes Duration Matcher Address Message Transaction Env Memory.
From S2P Require Import Router Sql SqlRef Repository Postgres PostgresFacts.

(** ** Clients of the interface *)
Section clients.
Context {S : Type} `{MessageRepositoryLaws S}.

(** Calls for messages other than [id]. *)
Inductive other_call {orc : Oracle} (id : string) : env S unit → Prop :=
  | other_Put m : m_ID m ≠ id → storable m → other_call id (repo_Put m)
  | other_Update m : m_ID m ≠ id → storable m → other_call id (repo_Update m)
  | other_Delete id' : id' ≠ id → other_call id (repo_Delete id').

(** Any number of them, each in an environment of its own, with any outcome. *)
Inductive other_calls (id : string) : S → S → Prop :=
  | others_done s : other_calls id s s
  | others_call (orc : Oracle) c r n n1 s s1 s2 :
      other_call id c → c (s, n) = (r, (s1, n1)) → other_calls id s1 s2 → other_calls id s s2.

Definition kept_as (id : string) (m : Message) (s : S) : Prop :=
  ∃ M, repo_holds s M ∧ M !! id = Some m.

Lemma other_call_keeps {orc : Oracle} id m c s :
  other_call id c → kept_as id m s → wpe c (λ _ s', kept_as id m s') s.
Proof.
  intros Hc (M & Hh & Hm). destruct Hc as [x Hid Hs|x Hid Hs|id' Hid].
  - assert (∀ s', repo_holds s' (<[m_ID x := keeps x]> M) → kept_as id m s') as Hpost.
    { intros s' Hh'. eexists. split; [done|]. by rewrite lookup_insert_ne. }
    eapply wpe_mono; [by apply repo_Put_law|]. unfold kept_as in *. intros [[]|e|] s'; naive_solver.
  - assert (∀ old s', repo_holds s' (<[m_ID x := keeps_over old x]> M) → kept_as id m s') as Hpost.
    { intros old s' Hh'. eexists. split; [done|]. by rewrite lookup_insert_ne. }
    eapply wpe_mono; [by apply repo_Update_law|]. unfold kept_as in *. intros [[]|e|] s'; naive_solver.
  - assert (∀ s', repo_holds s' (delete id' M) → kept_as id m s') as Hpost.
    { intros s' Hh'. eexists. split; [done|]. by rewrite lookup_delete_ne. }
    eapply wpe_mono; [by apply repo_Delete_law|]. unfold kept_as in *. intros [[]|e|] s'; naive_solver.
Qed.

Lemma other_calls_keep id m s s' : other_calls id s s' → kept_as id m s → kept_as id m s'.
Proof.
  induction 1 as [s|orc c r n n1 s s1 s2 Hc E _ IH]; [done|]. intros Hk. apply IH.
  exact (wpe_elim _ _ _ _ _ _ _ (other_call_keeps id m c s Hc Hk) E).
Qed.

(** A store keeps what is put, whichever implementation of the repository
    interface it is: after a successful [Put] and any number of calls for
    other messages, with any outcomes, [Get] returns what the store keeps of
    the message or fails with an error other than "message not found", and
    another [Put] of the identifier is refused. *)
Theorem store_keeps_messages (orc orc' : Oracle) (s s1 s2 : S) (M : gmap string Message) (m : Message)
    (n n1 k : nat) :
  repo_holds s M → storable m →
  repo_Put m (s, n) = (Ok tt, (s1, n1)) → other_calls (m_ID m) s1 s2 →
  match (repo_Get (orc := orc') (m_ID m) (s2, k)).1 with
  | Ok x => x = keeps m
  | Err e => e ≠ ErrMessageNotFound
  | Panic => False
  end ∧
  ∀ m', m_ID m' = m_ID m → storable m' → ∃ e, (repo_Put (orc := orc') m' (s2, k)).1 = Err e.
Proof.
  intros Hh Hs E Hrun. pose proof (wpe_elim _ _ _ _ _ _ _ (repo_Put_law m s M Hh Hs) E) as [_ Hh1].
  assert (kept_as (m_ID m) (keeps m) s2) as (M2 & Hh2 & Hm).
  { eapply other_calls_keep; [exact Hrun|]. eexists. split; [exact Hh1|]. apply lookup_insert_eq. }
  split.
  - pose proof (repo_Get_law (orc := orc') (m_ID m) s2 M2 Hh2 k) as Hg.
    destruct (repo_Get (m_ID m) (s2, k)) as [[x|e|] [s3 k3]]; cbn in *; destruct Hg as [_ Hg]; [|..|done].
    + rewrite Hm in Hg. by injection Hg.
    + intros He. by rewrite (Hg He) in Hm.
  - intros m' Hid Hs'. pose proof (repo_Put_law (orc := orc') m' s2 M2 Hh2 Hs' k) as Hp.
    destruct (repo_Put m' (s2, k)) as [[[]|e|] [s3 k3]]; cbn in *; [|by exists e|done].
    destruct Hp as [Hnone _]. by rewrite Hid, Hm in Hnone.
Qed.
End clients.

(** ** The database follows the memory *)
Section simulation.
Context {D : Type} `{SqlLaws D, !MapJSON, !JsonbFaithful D}.

Inductive store_call := SPut (m : Message) | SUpdate (m : Message) | SDelete (id : string).

Definition in_memory {orc : Oracle} (c : store_call) : env Memory unit :=
  match c with
  | SPut m => Memory_Put m
  | SUpdate m => Memory_Update m
  | SDelete id => Memory_deleteMessage id
  end.

Definition in_postgres {orc : Oracle} (c : store_call) : env D unit :=
  match c with
  | SPut m => PostgresMessages_Put m
  | SUpdate m => PostgresMessages_Update m
  | SDelete id => PostgresMessages_Delete id
  end.

(** What the services pass: messages the table can represent, and updates
    that do not change a message's creation time. *)
Definition admissible (c : store_call) (m : Memory) : Prop :=
  match c with
  | SPut x => storable_message x
  | SUpdate x => storable_message x ∧
      ∀ old, mm_messages m !! m_ID x = Some old → m_CreatedAt x = m_CreatedAt old
  | SDelete _ => True
  end.

(** The database holds what the table keeps of the messages in memory. *)
Definition agrees (m : Memory) (d : D) : Prop :=
  holds_messages d (kept_message <$> mm_messages m).

(** The memory refuses a call: not for its context, but because there is
    such a message already, or none. *)
Definition refuses (e : error) : Prop := ∀ text, e ≠ ErrContext text.

(** One call on both: both succeed; the memory refuses it and the database
    does not carry it out either, which for a deletion it does not report; or
    the database reports the message of an update as missing.  Any other error of the
    database leaves open whether the call took place. *)
Definition same_outcome (c : store_call) (r r' : res unit) : Prop :=
  match r, r' with
  | Ok _, Ok _ => True
  | Err e, Err e' => refuses e ∨ e' = ErrMessageNotFound ∧ ∃ x, c = SUpdate x
  | Err e, Ok _ => e = ErrMessageNotFound ∧ ∃ id, c = SDelete id
  | _, _ => False
  end.

Inductive together : list store_call → Memory → D → Memory → D → Prop :=
  | together_done m d : together [] m d m d
  | together_call (orc orc' : Oracle) c cs n n1 k k1 r r' m m1 m2 d d1 d2 :
      admissible c m → in_memory c (m, n) = (r, (m1, n1)) →
      in_postgres (orc := orc') c (d, k) = (r', (d1, k1)) → same_outcome c r r' →
      together cs m1 d1 m2 d2 → together (c :: cs) m d m2 d2.

Lemma updated_kept old x :
  m_CreatedAt x = m_CreatedAt old → updated_message (kept_message old) x = kept_message x.
Proof. intros E. unfold updated_message, kept_message. cbn. by rewrite E. Qed.

(** The messages after a call that took place. *)
Definition applied (c : store_call) (M : gmap string Message) : gmap string Message :=
  match c with
  | SPut x => <[m_ID x := x]> M
  | SUpdate x => alter (λ _, x) (m_ID x) M
  | SDelete id => delete id M
  end.

(** Whether there is anything for it to do. *)
Definition applicable (c : store_call) (M : gmap string Message) : Prop :=
  match c with
  | SPut x => M !! m_ID x = None
  | SUpdate x => is_Some (M !! m_ID x)
  | SDelete id => is_Some (M !! id)
  end.

Lemma applied_update x M : is_Some (M !! m_ID x) → applied (SUpdate x) M = <[m_ID x := x]> M.
Proof.
  intros [y Hy]. apply map_eq. intros i. cbn. destruct (decide (i = m_ID x)) as [->|].
  - by rewrite lookup_alter_eq, lookup_insert_eq, Hy.
  - by rewrite lookup_alter_ne, lookup_insert_ne.
Qed.

(** What a call does to the memory. *)
Lemma memory_effect {orc : Oracle} c m n r m1 n1 :
  in_memory c (m, n) = (r, (m1, n1)) →
  match r with
  | Ok _ => applicable c (mm_messages m) ∧ mm_messages m1 = applied c (mm_messages m)
  | Err e => m1 = m ∧ (refuses e → ¬ applicable c (mm_messages m))
  | Panic => False
  end.
Proof.
  intros E. refine (wpe_elim _ (λ r m1, match r with
    | Ok _ => applicable c (mm_messages m) ∧ mm_messages m1 = applied c (mm_messages m)
    | Err e => m1 = m ∧ (refuses e → ¬ applicable c (mm_messages m))
    | Panic => False end) _ _ _ _ _ _ E).
  assert (∀ text P, refuses (ErrContext text) → P) as Hctx by (intros text P Hr; by destruct (Hr text)).
  destruct c as [x|x|id]; cbn [in_memory applicable]; unfold Memory_Put, Memory_Update, Memory_deleteMessage;
    wpe_step; (apply wpe_ctx_Err_exact; [intros text; split; [done|apply Hctx]|]); wpe_auto;
    case_match eqn:Hx; wpe_auto; try (split; [done|]).
  - intros _ [=].
  - done.
  - by rewrite applied_update by by rewrite Hx.
  - intros _ [? [=]].
  - by split.
  - intros _ [? [=]].
Qed.

(** What a call does to the database: when it succeeds it took place, and
    only a deletion may have had nothing to do; when it fails it took place or
    did not, and an update that reports its message as missing did not. *)
Lemma postgres_effect {orc : Oracle} c m d n r d1 n1 :
  agrees m d → admissible c m → in_postgres c (d, n) = (r, (d1, n1)) →
  let took_place := holds_messages d1 (kept_message <$> applied c (mm_messages m)) in
  match r with
  | Ok _ => (applicable c (mm_messages m) ∨ ∃ id, c = SDelete id) ∧ took_place
  | Err e => (agrees m d1 ∨ applicable c (mm_messages m) ∧ took_place) ∧
      ((∃ x, c = SUpdate x) → e = ErrMessageNotFound → agrees m d1)
  | Panic => False
  end.
Proof.
  intros Ha Hc Ep. destruct c as [x|x|id]; cbn in Hc, Ep.
  - pose proof (wpe_elim _ _ _ _ _ _ _ (PostgresMessages_Put_law x d _ Ha Hc) Ep) as Hp.
    assert ((kept_message <$> mm_messages m) !! m_ID x = None ↔ mm_messages m !! m_ID x = None) as Hnew
      by by rewrite lookup_fmap, fmap_None.
    cbn. rewrite fmap_insert. destruct r as [[]|e|]; naive_solver.
  - destruct Hc as [Hs Hold].
    pose proof (wpe_elim _ _ _ _ _ _ _ (PostgresMessages_Update_law x d _ Ha Hs) Ep) as Hp.
    assert (∀ old', (kept_message <$> mm_messages m) !! m_ID x = Some old' →
      holds_messages d1 (<[m_ID x := updated_message old' x]> (kept_message <$> mm_messages m)) →
      applicable (SUpdate x) (mm_messages m) ∧
      holds_messages d1 (kept_message <$> applied (SUpdate x) (mm_messages m))) as Hpost.
    { intros old' Hl Hh. rewrite lookup_fmap in Hl. apply fmap_Some in Hl as (old & Hl & ->).
      split; [by eexists|]. rewrite applied_update, fmap_insert by by eexists.
      by rewrite updated_kept in Hh by by apply Hold. }
    destruct r as [[]|e|]; [naive_solver| |done]. split; [naive_solver|]. intros _ He.
    destruct Hp as [Hn [Hh|(old' & Hl & _)]]; [done|]. by rewrite (Hn He) in Hl.
  - pose proof (wpe_elim _ _ _ _ _ _ _ (PostgresMessages_Delete_law id d _ Ha) Ep) as Hp.
    cbn. rewrite fmap_delete. destruct r as [[]|e|]; [naive_solver| |done]. split; [|naive_solver].
    destruct Hp as [_ [Hh|Hh]]; [by left|]. destruct (mm_messages m !! id) as [y|] eqn:E; [right; naive_solver|left].
    rewrite delete_id in Hh; [done|]. by rewrite lookup_fmap, E.
Qed.

Lemma call_agrees {orc orc' : Oracle} c m d n n1 k k1 r r' m1 d1 :
  agrees m d → admissible c m → in_memory c (m, n) = (r, (m1, n1)) →
  in_postgres (orc := orc') c (d, k) = (r', (d1, k1)) → same_outcome c r r' → agrees m1 d1.
Proof.
  intros Ha Hc Em Ep Ho. apply memory_effect in Em.
  pose proof (postgres_effect c m d k r' d1 k1 Ha Hc Ep) as Hp. cbn zeta in Hp.
  destruct r as [[]|e|], r' as [[]|e'|]; try done.
  - unfold agrees. destruct Em as [_ ->]. apply Hp.
  - destruct Ho as [-> [id ->]], Em as [-> Hn], Hp as [_ Hp]. cbn in Hn, Hp. unfold agrees.
    rewrite delete_id in Hp; [done|]. apply eq_None_not_Some, Hn. by intros.
  - destruct Em as [-> Hn], Hp as [[Hp|[Hx _]] Hm]; [done|].
    destruct Ho as [Hr|[-> Hu]]; [by destruct (Hn Hr)|by apply Hm].
Qed.

Lemma together_agrees cs m d m' d' : together cs m d m' d' → agrees m d → agrees m' d'.
Proof.
  induction 1 as [|orc orc' c cs n n1 k k1 r r' m m1 m2 d d1 d2 Hc Em Ep Ho _ IH]; [done|].
  intros Ha. by eapply IH, call_agrees.
Qed.

(** Reading the database through the memory. *)
Lemma ready_kept address (m : Memory) :
  (∀ id x, mm_messages m !! id = Some x → m_State x ≠ StateReleased ∧
     State_of (State_string (m_State x)) = m_State x) →
  filter (λ x, m_Address x = address ∧ lists_pg (m_State x) = true)
    (map_values (kept_message <$> mm_messages m)) ≡ₚ
  kept_message <$> filter (ready address) (map_values (mm_messages m)).
Proof.
  intros Hx. unfold map_values. rewrite map_to_list_fmap, <-!list_fmap_compose.
  rewrite (list_fmap_ext _ (kept_message ∘ snd)) by by intros ? [].
  rewrite list_fmap_compose, filter_fmap. apply Permutation_refl'. f_equal. apply filter_iff_in.
  intros x ([id y] & -> & Hin%elem_of_map_to_list)%list_elem_of_fmap. cbn in *.
  destruct (Hx _ _ Hin) as [Hr Hs]. unfold ready. rewrite Hs. destruct (m_State y); naive_solver.
Qed.

(** C13. The PostgreSQL repository follows the in-memory store: from agreeing
    stores, through any sequence of [Put], [Update] and [Delete] that both
    carry out or that are refused (a [Put] of an identifier in use, an [Update]
    or [Delete] of a missing message), the database holds what the table keeps
    of exactly the messages in memory (everything but the body, times as the
    database rounds them); updates are taken to keep the creation time, which
    the table does not overwrite.  A [Get] then returns what is kept of the
    message in memory, and reports it as missing only if it is; and while no
    message is in state released, [ListReady] lists what is kept of exactly the
    messages the memory lists, by priority and age, up to the limit.  A further
    call that fails in the database, a lost connection say, took place there
    entirely or not at all. *)
Theorem postgres_follows_memory (cs : list store_call) (m m' : Memory) (d d' : D) :
  agrees m d → together cs m d m' d' →
  agrees m' d' ∧
  (∀ orc id n, match (PostgresMessages_Get (orc := orc) id (d', n)).1 with
     | Ok x => ∃ y, mm_messages m' !! id = Some y ∧ x = kept_message y
     | Err e => e = ErrMessageNotFound → mm_messages m' !! id = None
     | Panic => False end) ∧
  (∀ orc address limit n,
     (∀ id x, mm_messages m' !! id = Some x → m_State x ≠ StateReleased ∧
        State_of (State_string (m_State x)) = m_State x) →
     match (PostgresMessages_ListReady (orc := orc) address limit (d', n)).1 with
     | Ok l => listed ready_less limit
         (kept_message <$> filter (ready address) (map_values (mm_messages m'))) l
     | Err _ => True
     | Panic => False end) ∧
  (∀ orc c n n' e d'', admissible c m' → in_postgres (orc := orc) c (d', n) = (Err e, (d'', n')) →
     agrees m' d'' ∨ holds_messages d'' (kept_message <$> applied c (mm_messages m'))).
Proof.
  intros Ha Hrun. pose proof (together_agrees _ _ _ _ _ Hrun Ha) as Ha'. split_and!; [done| | |].
  - intros orc id n. pose proof (PostgresMessages_Get_law id d' _ Ha' n) as Hg.
    destruct (PostgresMessages_Get id (d', n)) as [[x|e|] [d2 n2]]; cbn in *; [..|by destruct Hg].
    + destruct Hg as [_ Hg]. rewrite lookup_fmap in Hg.
      apply fmap_Some in Hg as (y & Hy & ->). by exists y.
    + destruct Hg as [_ Hg]. intros He. specialize (Hg He). rewrite lookup_fmap in Hg.
      by apply fmap_None in Hg.
  - intros orc address limit n Hx. pose proof (PostgresMessages_ListReady_law address limit d' _ Ha' n) as Hl.
    destruct (PostgresMessages_ListReady address limit (d', n)) as [[l|e|] [d2 n2]]; cbn in *;
      [|done|by destruct Hl].
    destruct Hl as (_ & sorted & Hp & Hs & ->). exists sorted. split_and!; [|done|done].
    by rewrite Hp, ready_kept.
  - intros orc c n n' e d'' Hc E. pose proof (postgres_effect c m' d' n _ d'' n' Ha' Hc E) as [[?|[_ ?]] _]; auto.
Qed.

(** The two stores disagree about released messages: the database lists
    one as ready, the memory never does. *)
Theorem released_listed_by_postgres (orc orc' : Oracle) (m m' : Memory) (d d' : D) (id : string)
    (x : Message) (l l' : list Message) (n n' k k' : nat) :
  agrees m d → mm_messages m !! id = Some x → m_State x = StateReleased →
  Memory_ListReady (m_Address x) 0 (m, n) = (Ok l, (m', n')) →
  PostgresMessages_ListReady (orc := orc') (m_Address x) 0 (d, k) = (Ok l', (d', k')) →
  x ∉ l ∧ kept_message x ∈ l'.
Proof.
  intros Ha Hx Hst Em Ep. split.
  - pose proof (wpe_elim _ _ _ _ _ _ _ (repo_ListReady_law (S := Memory) (m_Address x) 0 m _ eq_refl) Em)
      as (_ & sorted & Hp & _ & ->).
    rewrite truncate_none, Hp by lia. intros [[_ Hav] _]%list_elem_of_filter.
    cbn in Hav. rewrite Hst in Hav. by vm_compute in Hav.
  - pose proof (wpe_elim _ _ _ _ _ _ _ (PostgresMessages_ListReady_law (m_Address x) 0 d _ Ha) Ep)
      as (_ & sorted & Hp & _ & ->).
    rewrite truncate_none, Hp by lia. apply list_elem_of_filter. cbn. rewrite Hst. split; [done|].
    unfold map_values. apply list_elem_of_fmap. exists (id, kept_message x). split; [done|].
    apply elem_of_map_to_list. by rewrite lookup_fmap, Hx.
Qed.
End simulation.

(** ** Pausing, on either store *)

(** Pausing an address works on any implementation of the address
    repository: a successful [SetPaused] returns the stored address with the
    flag set and its version advanced by one (at 64 bits); from then on a
    [Get] returns that address, which refuses messages exactly when it was
    paused, and never reports it as missing. *)
Theorem SetPaused_takes_effect {S} `{AddressRepositoryLaws S} (orc orc' : Oracle) (s s1 : S)
    (A : gmap string Address) (B : gmap string Binding) (name : string) (paused : bool) (a' : Address)
    (n n1 k : nat) :
  arepo_holds s A B → repo_SetPaused name paused (s, n) = (Ok a', (s1, n1)) →
  (∃ a, A !! name = Some a ∧ a' = with_paused paused a) ∧
  (is_ok (Accepting a') ↔ paused = false) ∧
  match (repo_GetAddress (orc := orc') name (s1, k)).1 with
  | Ok x => x = a'
  | Err e => e ≠ ErrAddressNotFound
  | Panic => False
  end.
Proof.
  intros Hh E. destruct (wpe_elim _ _ _ _ _ _ _ (repo_SetPaused_law name paused s A B Hh) E)
    as (a & Ha & -> & Hh1).
  split_and!; [by exists a|by destruct paused|].
  pose proof (repo_GetAddress_law (orc := orc') name s1 _ B Hh1 k) as Hg.
  destruct (repo_GetAddress name (s1, k)) as [[x|e|] [s2 k2]]; cbn in *; destruct Hg as [_ Hg]; [|..|done];
    rewrite lookup_insert_eq in Hg; [by injection Hg|]. intros He. by apply Hg in He.
Qed.

(** ** Concrete stores *)

(** Documents for the witnesses: the bits of the map's code. *)
Fixpoint bits_of (p : positive) : bytes :=
  match p with
  | xH => []
  | xO p => Ascii.zero :: bits_of p
  | xI p => Ascii.one :: bits_of p
  end.

Fixpoint of_bits (l : bytes) : positive :=
  match l with
  | [] => xH
  | c :: l => if ascii_dec c Ascii.one then xI (of_bits l) else xO (of_bits l)
  end.

Lemma of_bits_of p : of_bits (bits_of p) = p.
Proof. induction p as [p IH|p IH|]; cbn; by rewrite ?IH. Qed.

#[local] Instance demo_maps : MapJSON.
Proof.
  refine {| map_Marshal h := inr (bits_of (encode h));
            map_Unmarshal b := match decode (of_bits b) with Some h => Ok h | None => Err (ErrNew "json") end;
            map_text _ := True |}.
  - intros h. by eexists.
  - intros h b _ [= <-]. by rewrite of_bits_of, decode_encode.
  - intros b. by case_match.
Defined.

#[local] Instance demo_jsonb : JsonbFaithful RefDB.
Proof. split. by intros. Qed.

#[local] Existing Instance test_oracle.

Definition stored_message (id : string) (prio : Z) (s : State) : Message :=
  mkMessage id "jobs" "" {["k" := "v"]} [] prio Second (2 * Second) s 0 false "" 7.

Definition empty_db : RefDB := mkRefDB ∅.

Lemma empty_holds : holds_messages empty_db ∅.
Proof. exists []. split; [|done]. split_and!; [by vm_compute|done|constructor]. Qed.

Lemma stored_storable id p s : storable_message (D := RefDB) (stored_message id p s).
Proof. split; [done|]. intros _. by vm_compute. Qed.

Abbreviation put_first :=
  (PostgresMessages_Put (D := RefDB) (stored_message "m1" 4 StateAvailable) (empty_db, O)).

Lemma put_first_ok : put_first.1 = Ok tt.
Proof. vm_compute. reflexivity. Qed.

Lemma store_keeps_messages_witness :
  match (PostgresMessages_Get (D := RefDB) "m1" (put_first.2.1, O)).1 with
  | Ok x => x = kept_message (D := RefDB) (stored_message "m1" 4 StateAvailable)
  | Err e => e ≠ ErrMessageNotFound
  | Panic => False
  end.
Proof.
  pose proof put_first_ok as Hok. destruct put_first as [r [d1 n1]] eqn:E. cbn in Hok |- *. subst r.
  refine (proj1 (store_keeps_messages (S := RefDB) test_oracle test_oracle empty_db d1 d1 ∅
    (stored_message "m1" 4 StateAvailable) O n1 O _ _ _ _)).
  - exact empty_holds.
  - apply stored_storable.
  - exact E.
  - constructor.
Defined.

Lemma empty_agrees : agrees (D := RefDB) NewMemory empty_db.
Proof. exact empty_holds. Qed.

(** Put, update and a deletion of nothing, on both stores. *)
Definition demo_calls : list store_call :=
  [SPut (stored_message "m1" 4 StateAvailable); SUpdate (stored_message "m1" 6 StateReleased);
   SDelete "m2"].

Definition memory_run (cs : list store_call) : Memory :=
  foldl (λ m c, (in_memory c (m, O)).2.1) NewMemory cs.
Definition postgres_run (cs : list store_call) : RefDB :=
  foldl (λ d c, (in_postgres c (d, O)).2.1) empty_db cs.

Lemma demo_together :
  together (D := RefDB) demo_calls NewMemory empty_db (memory_run demo_calls) (postgres_run demo_calls).
Proof.
  eapply (together_call test_oracle test_oracle _ _ O _ O); [apply stored_storable|vm_compute; reflexivity..|done|].
  eapply (together_call test_oracle test_oracle _ _ O _ O);
    [split; [apply stored_storable|]|vm_compute; reflexivity..|done|].
  { intros old Ho. vm_compute in Ho. by injection Ho as <-. }
  eapply (together_call test_oracle test_oracle _ _ O _ O); [done|vm_compute; reflexivity..| |].
  { split; [done|]. by eexists. }
  constructor.
Qed.

Lemma postgres_follows_memory_witness :
  agrees (D := RefDB) (memory_run demo_calls) (postgres_run demo_calls) ∧
  match (PostgresMessages_Get (D := RefDB) "m1" (postgres_run demo_calls, O)).1 with
  | Ok x => m_State x = StateReleased ∧ m_Priority x = 6
  | _ => False
  end.
Proof.
  destruct (postgres_follows_memory (D := RefDB) demo_calls NewMemory (memory_run demo_calls) empty_db
    (postgres_run demo_calls)) as (H1 & _).
  - exact empty_agrees.
  - exact demo_together.
  - split; [exact H1|]. vm_compute. split; reflexivity.
Defined.

Definition paused_db : RefDB :=
  (PostgresAddresses_Create (D := RefDB) (mkAddress "jobs" KindQueue true 10 0 "" false Second 1)
     (empty_db, O)).2.1.

Lemma SetPaused_takes_effect_witness :
  ∃ a' s1 n1, PostgresAddresses_SetPaused (D := RefDB) "jobs" true (paused_db, O) = (Ok a', (s1, n1)) ∧
    ¬ is_ok (Accepting a').
Proof.
  destruct (PostgresAddresses_SetPaused (D := RefDB) "jobs" true (paused_db, O)) as [r [s1 n1]] eqn:E.
  destruct r as [a'|e|]; [|exfalso; revert E; vm_compute; discriminate..].
  exists a', s1, n1. split; [reflexivity|].
  destruct (SetPaused_takes_effect (S := RefDB) test_oracle test_oracle paused_db s1
    {["jobs" := mkAddress "jobs" KindQueue true 10 0 "" false Second 1]} ∅ "jobs" true a' O n1 O)
    as (_ & H & _).
  - exists [mkAddress "jobs" KindQueue true 10 0 "" false Second 1], []. split_and!; try reflexivity.
    + split_and!; [by vm_compute|vm_compute; reflexivity|by repeat constructor].
    + split_and!; [by vm_compute|vm_compute; reflexivity|by repeat constructor].
  - exact E.
  - intros Hok. apply H in Hok. discriminate Hok.
Defined.
