(* ===== verification/Cluster.v ===== *)
(** * Shard ownership

    Models [internal/cluster/domain/lease.go],
    [internal/cluster/infrastructure/memory.go] (the in-memory coordinator)
    and [internal/cluster/application/service.go].  Shards are [uint32],
    epochs [uint64]; the coordinator's methods run under its mutex. *)

From Stdlib Require Import Ascii String.
From S2P Require Import Prelude Bytes Duration Env.

(** ** Leases *)
Record Lease := mkLease {
  l_Shard : Z; l_NodeID : string; l_Epoch : Z; l_AcquiredAt : time; l_ExpiresAt : time;
  l_Draining : bool }.

Definition NewLease (shard : Z) (node : string) (epoch : Z) (now : time) (ttl : duration) : res Lease :=
  if bool_decide (node = "") then Err (ErrNew "node id required")
  else if ttl <=? 0 then Err (ErrNew "lease ttl must be positive")
  else Ok (mkLease shard node epoch now (time_Add now ttl) false).

Definition Lease_OwnedBy (l : Lease) (node : string) (now : time) : bool :=
  bool_decide (l_NodeID l = node) && time_Before now (l_ExpiresAt l) && negb (l_Draining l).

Definition Lease_Expired (l : Lease) (now : time) : bool := negb (time_Before now (l_ExpiresAt l)).

Record Node := mkNode {
  nd_ID : string; nd_Capacity : Z; nd_Healthy : bool; nd_LastSeen : time; nd_Draining : bool }.

(** ** The coordinator *)
Record Coordinator := mkCoordinator {
  co_leases : gmap Z Lease; co_epochs : gmap Z Z; co_nodes : gmap string Node }.

Definition NewCoordinator : Coordinator := mkCoordinator ∅ ∅ ∅.

(** A map read gives zero for an absent key. *)
Definition epoch_of (c : Coordinator) (shard : Z) : Z := default 0 (co_epochs c !! shard).

Section coordinator.
Context `{orc : Oracle}.

Definition Coordinator_Acquire (shard : Z) (node : string) (ttl : duration) : env Coordinator Lease :=
  ctx_Err;;
  now ← clock_Now;
  c ← get_;
  let taken := match co_leases c !! shard with
               | Some old => negb (Lease_Expired old now) && negb (bool_decide (l_NodeID old = node))
               | None => false
               end in
  guard_err taken (ErrNew "shard already leased");;
  let epoch := u64 (epoch_of c shard + 1) in
  lease ← lift (NewLease shard node epoch now ttl);
  put_ (mkCoordinator (<[shard := lease]> (co_leases c)) (<[shard := epoch]> (co_epochs c)) (co_nodes c));;
  mret lease.

(** Whether [l] is the lease the coordinator holds for its shard. *)
Definition fenced (c : Coordinator) (l : Lease) : bool :=
  match co_leases c !! l_Shard l with
  | Some current =>
      negb (bool_decide (l_NodeID current = l_NodeID l)) || negb (l_Epoch current =? l_Epoch l)
  | None => true
  end.

Definition Coordinator_Renew (l : Lease) (ttl : duration) : env Coordinator Lease :=
  ctx_Err;;
  c ← get_;
  guard_err (fenced c l) (ErrNew "lease fencing token rejected");;
  match co_leases c !! l_Shard l with
  | None => panic
  | Some current =>
      now ← clock_Now;
      guard_err (Lease_Expired current now) (ErrNew "lease expired");;
      now' ← clock_Now;
      let current := mkLease (l_Shard current) (l_NodeID current) (l_Epoch current)
                       (l_AcquiredAt current) (time_Add now' ttl) (l_Draining current) in
      put_ (mkCoordinator (<[l_Shard l := current]> (co_leases c)) (co_epochs c) (co_nodes c));;
      mret current
  end.

Definition Coordinator_Release (l : Lease) : env Coordinator unit :=
  ctx_Err;;
  c ← get_;
  match co_leases c !! l_Shard l with
  | None => mret tt
  | Some current =>
      guard_err (negb (bool_decide (l_NodeID current = l_NodeID l)) ||
                 negb (l_Epoch current =? l_Epoch l))
        (ErrNew "lease fencing token rejected");;
      put_ (mkCoordinator (delete (l_Shard l) (co_leases c)) (co_epochs c) (co_nodes c))
  end.

Definition Coordinator_List : env Coordinator (list Lease) :=
  ctx_Err;;
  c ← get_;
  out ← map_range ((map_to_list (co_leases c)).*2);
  mret (sort_stable (λ x y, l_Shard x <? l_Shard y) out).

Definition RegisterNode (n : Node) : env Coordinator unit :=
  ctx_Err;;
  guard_err (bool_decide (nd_ID n = "") || (nd_Capacity n <? 1))
    (ErrNew "valid node id and capacity required");;
  now ← clock_Now;
  update_ (λ c, mkCoordinator (co_leases c) (co_epochs c)
    (<[nd_ID n := mkNode (nd_ID n) (nd_Capacity n) true now (nd_Draining n)]> (co_nodes c))).

Definition ListNodes : env Coordinator (list Node) :=
  ctx_Err;;
  c ← get_;
  out ← map_range ((map_to_list (co_nodes c)).*2);
  mret (sort_stable (λ x y, String.ltb (nd_ID x) (nd_ID y)) out).
End coordinator.

(** ** The ownership service of a node *)
Record ClusterService := mkClusterService {
  cs_nodeID : string; cs_shards : Z; cs_ttl : duration; cs_owned : gmap Z Lease }.

Definition set_owned (o : gmap Z Lease) (s : ClusterService) : ClusterService :=
  mkClusterService (cs_nodeID s) (cs_shards s) (cs_ttl s) o.

(** [fnv.New32a]. *)
Definition fnv32a (b : bytes) : Z :=
  foldl (λ h c, u32 (Z.lxor h (b2z c) * 16777619)) 2166136261 b.

(** The modulus panics for zero shards. *)
Definition Service_Shard (s : ClusterService) (address : string) : res Z :=
  if cs_shards s =? 0 then Panic else Ok (fnv32a (string_bytes address) `mod` cs_shards s).

(** A node's service and the coordinator it talks to. *)
Abbreviation cluster := (ClusterService * Coordinator)%type.

Section service.
Context `{orc : Oracle}.

Definition coord {A} (m : env Coordinator A) : env cluster A := on snd (λ c s, (s.1, c)) m.
Definition own (f : gmap Z Lease → gmap Z Lease) : env cluster unit :=
  update_ (λ s, (set_owned (f (cs_owned s.1)) s.1, s.2)).

Definition Service_Ensure (address : string) : env cluster Lease :=
  s ← get_;
  shard ← lift (Service_Shard s.1 address);
  let acquire :=
    lease ← wrap "acquire shard" (coord (Coordinator_Acquire shard (cs_nodeID s.1) (cs_ttl s.1)));
    own (insert shard lease);;
    mret lease in
  match cs_owned s.1 !! shard with
  | Some lease =>
      now ← clock_Now;
      if Lease_OwnedBy lease (cs_nodeID s.1) now then mret lease else acquire
  | None => acquire
  end.

Definition renew_one (kv : Z * Lease) : env cluster unit :=
  s ← get_;
  r ← try (coord (Coordinator_Renew kv.2 (cs_ttl s.1)));
  match r with
  | inl e => own (delete kv.1);; raise (ErrWrap "renew shard" e)
  | inr next => own (insert kv.1 next)
  end.

Definition Service_Renew : env cluster unit :=
  s ← get_;
  leases ← map_range (map_to_list (cs_owned s.1));
  for_each leases renew_one.

Definition release_one (first : option error) (kv : Z * Lease) : env cluster (option error) :=
  r ← try (coord (Coordinator_Release kv.2));
  own (delete kv.1);;
  match r, first with
  | inl e, None => mret (Some e)
  | _, _ => mret first
  end.

Definition ReleaseAll : env cluster unit :=
  s ← get_;
  leases ← map_range (map_to_list (cs_owned s.1));
  first ← fold_each leases None release_one;
  match first with Some e => raise e | None => mret tt end.

Definition Service_Leases : env cluster (list Lease) := coord Coordinator_List.
End service.

(** ** Calls on the coordinator *)
Inductive co_call :=
  | CoAcquire (shard : Z) (node : string) (ttl : duration)
  | CoRenew (l : Lease) (ttl : duration)
  | CoRelease (l : Lease)
  | CoRegister (n : Node).

Definition co_exec `{orc : Oracle} (c : co_call) : env Coordinator unit :=
  match c with
  | CoAcquire shard node ttl => try (Coordinator_Acquire shard node ttl);; mret tt
  | CoRenew l ttl => try (Coordinator_Renew l ttl);; mret tt
  | CoRelease l => try (Coordinator_Release l);; mret tt
  | CoRegister n => try (RegisterNode n);; mret tt
  end.

Definition co_run `{orc : Oracle} (cs : list co_call) : env Coordinator unit := for_each cs co_exec.

(** ** The invariant: a held lease carries its shard's latest epoch, and the
    epochs count the acquisitions so far *)
Definition co_inv (k : Z) (c : Coordinator) : Prop :=
  (∀ shard l, co_leases c !! shard = Some l →
     l_Shard l = shard ∧ l_Epoch l = epoch_of c shard ∧ 0 < l_Epoch l) ∧
  (∀ shard, 0 ≤ epoch_of c shard ≤ k).

(** Epochs only grow. *)
Definition epochs_grow (c c' : Coordinator) : Prop := ∀ shard, epoch_of c shard ≤ epoch_of c' shard.

Section rules.
Context `{orc : Oracle}.

Lemma epoch_of_insert c shard e leases nodes sh :
  epoch_of (mkCoordinator leases (<[shard := e]> (co_epochs c)) nodes) sh =
  if decide (shard = sh) then e else epoch_of c sh.
Proof.
  unfold epoch_of. cbn. destruct (decide (shard = sh)) as [<-|].
  - by rewrite lookup_insert_eq.
  - by rewrite lookup_insert_ne.
Qed.

Lemma wpe_Acquire k shard node ttl (Q : res Lease → Coordinator → Prop) c :
  co_inv k c → k + 1 < 2 ^ 64 →
  (∀ e, Q (Err e) c) →
  (∀ l c', co_inv (k + 1) c' → epochs_grow c c' → co_leases c' !! shard = Some l →
     l_NodeID l = node → l_Shard l = shard → l_Epoch l = epoch_of c shard + 1 →
     epoch_of c' shard = l_Epoch l → Q (Ok l) c') →
  wpe (Coordinator_Acquire shard node ttl) Q c.
Proof.
  intros [Hl He] Hk HE HQ. unfold Coordinator_Acquire. wpe_auto; [done..|].
  pose proof (He shard). assert (u64 (epoch_of c shard + 1) = epoch_of c shard + 1) as ->.
  { unfold u64. rewrite Z.mod_small; lia. }
  unfold NewLease. case_bool_decide; [by wpe_auto|]. destruct (ttl <=? 0); [by wpe_auto|]. wpe_auto.
  apply HQ; try done; cbn.
  - split.
    + intros sh l Hx. cbn in Hx. apply lookup_insert_Some in Hx as [[<- <-]|[Hne Hl']];
        cbn [l_Shard l_Epoch]; rewrite epoch_of_insert.
      * rewrite decide_True by done. split_and!; [done|done|lia].
      * rewrite decide_False by done. by apply Hl.
    + intros sh. rewrite epoch_of_insert. specialize (He sh). destruct (decide _); lia.
  - intros sh. rewrite epoch_of_insert. destruct (decide _) as [<-|]; lia.
  - apply lookup_insert_eq.
  - rewrite epoch_of_insert. by rewrite decide_True.
Qed.

Lemma wpe_Renew k l ttl (Q : res Lease → Coordinator → Prop) c :
  co_inv k c →
  (∀ e, Q (Err e) c) →
  (∀ l' c', co_inv k c' → co_epochs c' = co_epochs c → fenced c l = false → Q (Ok l') c') →
  wpe (Coordinator_Renew l ttl) Q c.
Proof.
  intros [Hl He] HE HQ. unfold Coordinator_Renew. wpe_step. wpe_step; [done|]. wpe_step. wpe_step.
  wpe_step. wpe_step; [done|]. rename H into Hf. unfold fenced in Hf.
  destruct (co_leases c !! l_Shard l) as [cur|] eqn:E; [|done].
  wpe_auto; [done|]. apply HQ; [|done|by unfold fenced; rewrite E].
  destruct (Hl _ _ E) as (Hs & Hep & Hpos). split; [|done].
  intros sh x Hx. cbn in Hx. apply lookup_insert_Some in Hx as [[<- <-]|[_ Hx]]; [done|by apply Hl].
Qed.

Lemma wpe_Release k l (Q : res unit → Coordinator → Prop) c :
  co_inv k c →
  (∀ e, Q (Err e) c) →
  (fenced c l = true → Q (Ok tt) c) →
  (∀ c', co_inv k c' → co_epochs c' = co_epochs c → fenced c l = false → Q (Ok tt) c') →
  wpe (Coordinator_Release l) Q c.
Proof.
  intros [Hl He] HE HN HQ. unfold Coordinator_Release. wpe_step. wpe_step; [done|]. wpe_step. wpe_step.
  unfold fenced in *. destruct (co_leases c !! l_Shard l) as [cur|] eqn:E; [|wpe_auto; by apply HN].
  wpe_auto; [done|]. apply HQ; [|done|done].
  split; [|done]. intros sh x Hx. cbn in Hx. apply lookup_delete_Some in Hx as [_ Hx]. by apply Hl.
Qed.

Lemma wpe_RegisterNode k n (Q : res unit → Coordinator → Prop) c :
  co_inv k c → (∀ e, Q (Err e) c) →
  (∀ c', co_inv k c' → co_epochs c' = co_epochs c → co_leases c' = co_leases c → Q (Ok tt) c') →
  wpe (RegisterNode n) Q c.
Proof.
  intros Hi HE HQ. unfold RegisterNode. wpe_auto; [done..|]. by apply HQ.
Qed.

Lemma co_inv_mono k k' c : k ≤ k' → co_inv k c → co_inv k' c.
Proof. intros Hk [Hl He]. split; [done|]. intros sh. specialize (He sh). lia. Qed.

Lemma epochs_same_grow c c' : co_epochs c' = co_epochs c → epochs_grow c c'.
Proof. intros E sh. unfold epoch_of. by rewrite E. Qed.

Lemma co_run_spec cs : ∀ k c,
  co_inv k c → k + Z.of_nat (length cs) < 2 ^ 64 →
  wpe (co_run cs) (λ r c', r = Ok tt ∧ co_inv (k + Z.of_nat (length cs)) c' ∧ epochs_grow c c') c.
Proof.
  induction cs as [|x cs IH]; intros k c Hi Hk; unfold co_run; cbn [for_each length] in *.
  { wpe_auto. split_and!; [done|by eapply co_inv_mono; [|done]; lia|]. intros sh. lia. }
  assert (∀ c1, co_inv (k + 1) c1 → epochs_grow c c1 →
    wpe (co_run cs) (λ r c', r = Ok tt ∧ co_inv (k + Z.of_nat (S (length cs))) c' ∧
      epochs_grow c c') c1) as Hrest.
  { intros c1 Hi1 Hg1. eapply wpe_mono; [apply (IH (k + 1)); [done|lia]|].
    intros r c' (-> & Hi' & Hg'). split_and!; [done|by eapply co_inv_mono; [|done]; lia|].
    intros sh. specialize (Hg1 sh). specialize (Hg' sh). lia. }
  assert (co_inv (k + 1) c) as Hi1 by (by eapply co_inv_mono; [|done]; lia).
  assert (epochs_grow c c) as Hg by (intros sh; lia).
  wpe_step. destruct x as [shard node ttl|l ttl|l|n]; cbn [co_exec]; wpe_step; wpe_step.
  - apply (wpe_Acquire k); [done|lia|intros; wpe_step; by apply Hrest|].
    intros l c' Hi' Hg' _ _ _ _ _. wpe_step. by apply Hrest.
  - apply (wpe_Renew (k + 1)); [done|intros; wpe_step; by apply Hrest|].
    intros l' c' Hi' E _. wpe_step. apply Hrest; [done|by apply epochs_same_grow].
  - apply (wpe_Release (k + 1)); [done|intros; wpe_step; by apply Hrest|intros _; wpe_step; by apply Hrest|].
    intros c' Hi' E _. wpe_step. apply Hrest; [done|by apply epochs_same_grow].
  - apply (wpe_RegisterNode (k + 1)); [done|intros; wpe_step; by apply Hrest|].
    intros c' Hi' E _. wpe_step. apply Hrest; [done|by apply epochs_same_grow].
Qed.
End rules.

(** ** Properties *)
Lemma new_co_inv : co_inv 0 NewCoordinator.
Proof. split; [by intros|]. intros sh. by vm_compute. Qed.

(** A lease whose shard has moved to a later epoch is fenced off. *)
Lemma fenced_later k c l :
  co_inv k c → l_Epoch l < epoch_of c (l_Shard l) → fenced c l = true.
Proof.
  intros [Hl _] Hlt. unfold fenced. destruct (co_leases c !! l_Shard l) as [cur|] eqn:E; [|done].
  destruct (Hl _ _ E) as (_ & Hep & _). apply orb_true_iff. right. apply negb_true_iff, Z.eqb_neq. lia.
Qed.

(** C16. Fencing: when a shard has been acquired again after a lease on it was
    issued, in any interleaving of calls by any nodes and in any environment,
    the old lease is worthless for ever after: its epoch is smaller, renewing
    it fails, releasing it never removes a lease, and neither call changes the
    coordinator. *)
Theorem lease_fencing (orc : Oracle) (cs1 cs2 cs3 : list co_call) (shard : Z) (node node' : string)
    (ttl ttl' ttl'' : duration) (l l' : Lease) (c1 c2 c3 c4 c5 : Coordinator) (n0 n1 n2 n3 n4 n5 : nat)
    (r1 r3 r5 : res unit) :
  Z.of_nat (length cs1 + length cs2 + length cs3) + 2 < 2 ^ 64 →
  co_run cs1 (NewCoordinator, n0) = (r1, (c1, n1)) →
  Coordinator_Acquire shard node ttl (c1, n1) = (Ok l, (c2, n2)) →
  co_run cs2 (c2, n2) = (r3, (c3, n3)) →
  Coordinator_Acquire shard node' ttl' (c3, n3) = (Ok l', (c4, n4)) →
  co_run cs3 (c4, n4) = (r5, (c5, n5)) →
  l_Epoch l < l_Epoch l' ∧
  (∃ e n6, Coordinator_Renew l ttl'' (c5, n5) = (Err e, (c5, n6))) ∧
  (∃ r n6, Coordinator_Release l (c5, n5) = (r, (c5, n6))).
Proof.
  intros Hlen E1 E2 E3 E4 E5.
  destruct (wpe_elim _ _ _ _ _ _ _ (co_run_spec cs1 0 _ new_co_inv ltac:(lia)) E1) as (_ & I1 & _).
  assert (co_inv (Z.of_nat (length cs1) + 1) c2 ∧ l_Shard l = shard ∧ epoch_of c2 shard = l_Epoch l)
    as (I2 & Hs & He2).
  { refine (wpe_elim _ (λ r c, match r with Ok l => co_inv (Z.of_nat (length cs1) + 1) c ∧
      l_Shard l = shard ∧ epoch_of c shard = l_Epoch l | _ => True end) _ _ _ _ _ _ E2).
    apply (wpe_Acquire (Z.of_nat (length cs1))); [done|lia|done|]. intros; by split_and!. }
  destruct (wpe_elim _ _ _ _ _ _ _ (co_run_spec cs2 _ _ I2 ltac:(lia)) E3) as (_ & I3 & G3).
  assert (co_inv (Z.of_nat (length cs1) + 1 + Z.of_nat (length cs2) + 1) c4 ∧
    l_Epoch l' = epoch_of c3 shard + 1 ∧ epoch_of c4 shard = l_Epoch l') as (I4 & He' & He4).
  { refine (wpe_elim _ (λ r c, match r with Ok l' => co_inv _ c ∧
      l_Epoch l' = epoch_of c3 shard + 1 ∧ epoch_of c shard = l_Epoch l' | _ => True end) _ _ _ _ _ _ E4).
    apply (wpe_Acquire _ _ _ _ _ _ I3); [lia|done|]. intros; by split_and!. }
  destruct (wpe_elim _ _ _ _ _ _ _ (co_run_spec cs3 _ _ I4 ltac:(lia)) E5) as (_ & I5 & G5).
  specialize (G3 shard). specialize (G5 shard).
  assert (fenced c5 l = true) as Hf by (eapply fenced_later; [exact I5|]; rewrite Hs; lia).
  split; [lia|]. split.
  - assert (wpe (Coordinator_Renew l ttl'') (λ r c, c = c5 ∧ ∃ e, r = Err e) c5) as H
      by (eapply wpe_Renew; [exact I5|by eauto|congruence]).
    specialize (H n5). destruct (Coordinator_Renew l ttl'' (c5, n5)) as [r [c n6]]. cbn in H.
    destruct H as (-> & e & ->). eauto.
  - assert (wpe (Coordinator_Release l) (λ r c, c = c5) c5) as H
      by (eapply wpe_Release; [exact I5|done|done|congruence]).
    specialize (H n5). destruct (Coordinator_Release l (c5, n5)) as [r [c n6]]. cbn in H. subst c. eauto.
Qed.

(** Exclusion: an acquisition that succeeds took nothing from a live
    owner: the shard was free, or its lease had expired at the coordinator's
    clock, or it belonged to the same node; the new lease is the one stored,
    lasts for the time asked from that instant, and no other shard's lease
    changes. *)
Theorem Acquire_exclusive (orc : Oracle) (shard : Z) (node : string) (ttl : duration)
    (c c' : Coordinator) (n n' : nat) (l : Lease) :
  Coordinator_Acquire shard node ttl (c, n) = (Ok l, (c', n')) →
  (∀ old, co_leases c !! shard = Some old →
     Lease_Expired old (l_AcquiredAt l) = true ∨ l_NodeID old = node) ∧
  co_leases c' = <[shard := l]> (co_leases c) ∧ l_NodeID l = node ∧
  0 < ttl ∧ l_ExpiresAt l = l_AcquiredAt l + ttl.
Proof.
  intros E. refine (wpe_elim _ (λ r c', match r with Ok l =>
    (∀ old, co_leases c !! shard = Some old →
       Lease_Expired old (l_AcquiredAt l) = true ∨ l_NodeID old = node) ∧
    co_leases c' = <[shard := l]> (co_leases c) ∧ l_NodeID l = node ∧
    0 < ttl ∧ l_ExpiresAt l = l_AcquiredAt l + ttl | _ => True end) c n _ c' n' _ E).
  unfold Coordinator_Acquire. wpe_auto; [done..|]. rename H into Ht.
  unfold NewLease. case_bool_decide; [by wpe_auto|].
  destruct (Z.leb_spec ttl 0); [by wpe_auto|]. wpe_auto. cbn. split_and!; try done.
  intros old Hold. rewrite Hold in Ht. apply andb_false_iff in Ht as [Ht|Ht]; zbool; auto.
Qed.

(** Every address belongs to one of the configured shards, and the same
    one each time; with no shards configured the computation panics. *)
Theorem Shard_in_range (s : ClusterService) (address : string) :
  0 ≤ cs_shards s →
  Service_Shard s address = Panic ∧ cs_shards s = 0 ∨
  ∃ k, Service_Shard s address = Ok k ∧ 0 ≤ k < cs_shards s.
Proof.
  intros Hs. unfold Service_Shard. destruct (Z.eqb_spec (cs_shards s) 0) as [E|E]; [by left|].
  right. eexists. split; [done|]. apply Z.mod_pos_bound. lia.
Qed.

Lemma coord_Release `{orc : Oracle} l (s : ClusterService) c :
  wpe (coord (Coordinator_Release l)) (λ r x, x.1 = s ∧ r ≠ Panic) (s, c).
Proof.
  apply wpe_on. unfold Coordinator_Release. wpe_step. wpe_step; [done|]. wpe_step. wpe_step.
  destruct (co_leases _ !! _); by wpe_auto.
Qed.

(** Releasing everything leaves the node with no lease it believes it
    owns, whatever the coordinator answers and in any environment. *)
Theorem ReleaseAll_disowns (orc : Oracle) (s s' : ClusterService) (c c' : Coordinator) (n n' : nat)
    (r : res unit) :
  ReleaseAll ((s, c), n) = (r, ((s', c'), n')) → cs_owned s' = ∅ ∧ r ≠ Panic.
Proof.
  intros E. refine (wpe_elim _ (λ r x, cs_owned x.1 = ∅ ∧ r ≠ Panic) (s, c) n r (s', c') n' _ E).
  unfold ReleaseAll. wpe_step. wpe_step. wpe_step. wpe_step. wpe_step. cbn [fst] in *.
  apply (wpe_fold_each _ _ _ (λ rest _ x, dom (cs_owned x.1) ⊆ list_to_set rest.*1)).
  - cbn [fst]. rewrite H. intros k [v Hv]%elem_of_dom. apply elem_of_list_to_set, list_elem_of_fmap.
    exists (k, v). by rewrite elem_of_map_to_list.
  - intros [k v] rest first [s1 c1] Hd. unfold release_one. cbn [fst snd] in *.
    assert (dom (delete k (cs_owned s1)) ⊆ list_to_set rest.*1) as Hd'.
    { rewrite dom_delete_L. cbn in Hd. set_solver. }
    wpe_step. wpe_step. eapply wpe_mono; [apply (coord_Release v s1 c1)|].
    intros r1 [s2 c2] [Hs2 Hr1]. cbn in Hs2. subst s2.
    destruct r1 as [[]|e|]; [| |done]; unfold own; wpe_auto; [|destruct first]; wpe_auto; exact Hd'.
  - intros first x Hx. cbn in Hx.
    assert (cs_owned x.1 = ∅) as Ho by (apply dom_empty_inv_L; set_solver).
    destruct first; wpe_auto; by split.
Qed.

(** ** Concrete runs *)
Lemma lease_fencing_witness :
  ∃ l l' c n, l_Epoch l = 1 ∧ l_Epoch l' = 2 ∧
    ∃ e n6, Coordinator_Renew (orc := test_oracle) l Hour (c, n) = (Err e, (c, n6)).
Proof.
  destruct (Coordinator_Acquire (orc := test_oracle) 7 "node-a" 1 (NewCoordinator, O)) as [r1 [c2 n2]] eqn:E2.
  destruct r1 as [l|e|]; [|exfalso; revert E2; vm_compute; discriminate..].
  destruct (Coordinator_Acquire (orc := test_oracle) 7 "node-b" Hour (c2, n2)) as [r2 [c4 n4]] eqn:E4.
  destruct r2 as [l'|e|];
    [|exfalso; revert E4; injection E2 as _ <- <-; vm_compute; discriminate..].
  destruct (lease_fencing test_oracle [] [] [] 7 "node-a" "node-b" 1 Hour Hour l l'
    NewCoordinator c2 c2 c4 c4 O O n2 n2 n4 n4 (Ok tt) (Ok tt) (Ok tt)) as (H1 & H2 & _).
  - cbn. lia.
  - reflexivity.
  - exact E2.
  - reflexivity.
  - exact E4.
  - reflexivity.
  - exists l, l', c4, n4. split; [by injection E2 as <- _ _|].
    split; [|exact H2]. injection E2 as <- <- <-. by injection E4 as <- _ _.
Defined.

Lemma Acquire_exclusive_witness :
  ∃ l c' n', Coordinator_Acquire (orc := test_oracle) 7 "node-a" Hour (NewCoordinator, O) =
    (Ok l, (c', n')) ∧ l_NodeID l = "node-a".
Proof.
  destruct (Coordinator_Acquire (orc := test_oracle) 7 "node-a" Hour (NewCoordinator, O))
    as [r [c' n']] eqn:E.
  destruct r as [l|e|]; [|exfalso; revert E; vm_compute; discriminate..].
  exists l, c', n'. split; [reflexivity|].
  destruct (Acquire_exclusive test_oracle 7 "node-a" Hour NewCoordinator c' O n' l E)
    as (_ & _ & H & _). exact H.
Defined.

Lemma Shard_in_range_witness :
  ∃ k, Service_Shard (mkClusterService "node-a" 64 Hour ∅) "orders" = Ok k ∧ 0 ≤ k < 64.
Proof.
  destruct (Shard_in_range (mkClusterService "node-a" 64 Hour ∅) "orders") as [[_ H]|H].
  - cbn. lia.
  - discriminate H.
  - exact H.
Defined.

Lemma ReleaseAll_disowns_witness :
  ∃ r s' c' n', ReleaseAll (orc := test_oracle)
    ((mkClusterService "node-a" 64 Hour {[3 := mkLease 3 "node-a" 1 0 5 false]}, NewCoordinator), O) =
    (r, ((s', c'), n')) ∧ cs_owned s' = ∅.
Proof.
  destruct (ReleaseAll (orc := test_oracle)
    ((mkClusterService "node-a" 64 Hour {[3 := mkLease 3 "node-a" 1 0 5 false]}, NewCoordinator), O))
    as [r [[s' c'] n']] eqn:E.
  exists r, s', c', n'. split; [reflexivity|].
  apply (ReleaseAll_disowns test_oracle _ s' _ c' O n' r E).
Defined.
