(* ===== verification/Connection.v ===== *)
(** * Connections

    Models [internal/connection/domain/connection.go],
    [internal/connection/application/registry.go] and the authenticator of
    [internal/connection/infrastructure/auth.go]. *)

From Stdlib Require Import Ascii String.
From S2P Require Import Prelude Bytes Text Duration Env.

(** ** The connection state machine *)
Inductive ConnState :=
  | ConnStart | ConnHeader | ConnOpen | ConnClosing | ConnClosed
  | ConnOther (text : string).

#[global] Instance ConnState_eq_dec : EqDecision ConnState.
Proof. solve_decision. Defined.

Record Connection := mkConnection {
  k_ID : string; k_ContainerID : string; k_Remote : string; k_State : ConnState;
  k_MaxFrame : Z; k_IdleTimeout : duration; k_OpenedAt : time; k_LastActivity : time;
  k_Sessions : gmap Z string }.

Definition connection_New (id remote : string) (maxFrame : Z) (idle : duration) (now : time) :
    Connection :=
  mkConnection id "" remote ConnStart maxFrame idle now now ∅.

Definition set_ConnState (s : ConnState) (c : Connection) : Connection :=
  mkConnection (k_ID c) (k_ContainerID c) (k_Remote c) s (k_MaxFrame c) (k_IdleTimeout c)
    (k_OpenedAt c) (k_LastActivity c) (k_Sessions c).

Definition set_Sessions (m : gmap Z string) (c : Connection) : Connection :=
  mkConnection (k_ID c) (k_ContainerID c) (k_Remote c) (k_State c) (k_MaxFrame c) (k_IdleTimeout c)
    (k_OpenedAt c) (k_LastActivity c) m.

Definition transition_valid (from next : ConnState) : bool :=
  match from with
  | ConnStart => bool_decide (next = ConnHeader) || bool_decide (next = ConnClosed)
  | ConnHeader => bool_decide (next = ConnOpen) || bool_decide (next = ConnClosed)
  | ConnOpen => bool_decide (next = ConnClosing) || bool_decide (next = ConnClosed)
  | ConnClosing => bool_decide (next = ConnClosed)
  | _ => false
  end.

Definition Connection_Transition (next : ConnState) : go Connection unit :=
  c ← gets id;
  guard_err (negb (transition_valid (k_State c) next))
    (ErrNew "invalid connection state transition");;
  modify (set_ConnState next).

Definition Connection_Touch (now : time) : go Connection unit :=
  modify (λ c, mkConnection (k_ID c) (k_ContainerID c) (k_Remote c) (k_State c) (k_MaxFrame c)
    (k_IdleTimeout c) (k_OpenedAt c) now (k_Sessions c)).

Definition Connection_AddSession (channel : Z) (sid : string) : go Connection unit :=
  c ← gets id;
  guard_err (negb (bool_decide (k_State c = ConnOpen))) (ErrNew "connection is not open");;
  guard_err (bool_decide (is_Some (k_Sessions c !! channel))) (ErrNew "channel already in use");;
  modify (λ c, set_Sessions (<[channel := sid]> (k_Sessions c)) c).

Definition Connection_RemoveSession (channel : Z) : go Connection unit :=
  modify (λ c, set_Sessions (delete channel (k_Sessions c)) c).

Definition Connection_Expired (c : Connection) (now : time) : bool :=
  (0 <? k_IdleTimeout c) && (k_IdleTimeout c <? now - k_LastActivity c).

Record ConnSnapshot := mkConnSnapshot {
  sn_ID : string; sn_ContainerID : string; sn_Remote : string; sn_State : ConnState;
  sn_MaxFrame : Z; sn_IdleTimeout : duration; sn_OpenedAt : time; sn_LastActivity : time;
  sn_SessionCount : Z }.

(** The idle timeout is kept as a duration; the code prints it. *)
Definition Connection_Snapshot (c : Connection) : ConnSnapshot :=
  mkConnSnapshot (k_ID c) (k_ContainerID c) (k_Remote c) (k_State c) (k_MaxFrame c) (k_IdleTimeout c)
    (k_OpenedAt c) (k_LastActivity c) (Z.of_nat (size (k_Sessions c))).

(** ** The registry *)
Record ConnRegistry := mkConnRegistry { cr_max : Z; cr_items : gmap string Connection }.

Definition conn_NewRegistry (max : Z) : ConnRegistry := mkConnRegistry max ∅.

Definition ConnRegistry_Add (c : Connection) : go ConnRegistry unit :=
  r ← gets id;
  guard_err (cr_max r <=? Z.of_nat (size (cr_items r))) (ErrNew "connection limit reached");;
  guard_err (bool_decide (is_Some (cr_items r !! k_ID c))) (ErrNew "connection already registered");;
  modify (λ r, mkConnRegistry (cr_max r) (<[k_ID c := c]> (cr_items r))).

Definition ConnRegistry_Get (id : string) (r : ConnRegistry) : option Connection := cr_items r !! id.

Definition ConnRegistry_Remove (id : string) : go ConnRegistry unit :=
  modify (λ r, mkConnRegistry (cr_max r) (delete id (cr_items r))).

Definition ConnRegistry_List `{orc : Oracle} : env ConnRegistry (list ConnSnapshot) :=
  r ← get_;
  cs ← map_range ((map_to_list (cr_items r)).*2);
  mret (sort_stable (λ a b, sn_OpenedAt a <? sn_OpenedAt b) (Connection_Snapshot <$> cs)).

Definition ConnRegistry_Expired `{orc : Oracle} (now : time) : env ConnRegistry (list Connection) :=
  r ← get_;
  cs ← map_range ((map_to_list (cr_items r)).*2);
  mret (filter (λ c, Connection_Expired c now = true) cs).

Definition ConnRegistry_Count (r : ConnRegistry) : Z := Z.of_nat (size (cr_items r)).

(** ** Authentication *)
Record Identity := mkIdentity {
  i_Subject : string; i_Mechanism : string; i_Attributes : option (gmap string string) }.

Record StaticAuthenticator := mkStaticAuthenticator {
  au_Username : string; au_Password : string; au_AllowAnonymous : bool }.

Definition Mechanisms (a : StaticAuthenticator) : list string :=
  if au_AllowAnonymous a then ["ANONYMOUS"; "PLAIN"] else ["PLAIN"].

Definition zero_separator : byte := z2b 0.

(** The switch of [Authenticate], after the context check. *)
Definition authenticate (a : StaticAuthenticator) (mechanism : string) (response : bytes) :
    res Identity :=
  if bool_decide (mechanism = "ANONYMOUS") then
    if negb (au_AllowAnonymous a) then Err (ErrNew "anonymous authentication disabled")
    else Ok (mkIdentity "anonymous" mechanism None)
  else if bool_decide (mechanism = "PLAIN") then
    match Split zero_separator response with
    | [_; user; pass] =>
        if negb (bool_decide (bytes_string user = au_Username a)) ||
           negb (bool_decide (bytes_string pass = au_Password a))
        then Err (ErrNew "invalid credentials")
        else Ok (mkIdentity (bytes_string user) mechanism None)
    | _ => Err (ErrNew "invalid PLAIN response")
    end
  else Err (ErrNew "unsupported SASL mechanism").

Definition Authenticate `{orc : Oracle} {T} (a : StaticAuthenticator) (mechanism : string)
    (response : bytes) : env T Identity :=
  ctx_Err;;
  lift (authenticate a mechanism response).

(** ** Properties *)

(** How far a connection has come. *)
Definition conn_rank (s : ConnState) : Z :=
  match s with
  | ConnStart => 0 | ConnHeader => 1 | ConnOpen => 2 | ConnClosing => 3
  | ConnClosed => 4 | ConnOther _ => 4
  end.

(** The transitions a connection went through. *)
Fixpoint transitions (cs : list ConnState) (c : Connection) : res Connection :=
  match cs with
  | [] => Ok c
  | s :: cs' =>
      match Connection_Transition s c with
      | (Ok _, c') => transitions cs' c'
      | (Err e, _) => Err e
      | (Panic, _) => Panic
      end
  end.

Lemma Connection_Transition_cases s c :
  Connection_Transition s c =
  if transition_valid (k_State c) s then (Ok tt, set_ConnState s c)
  else (Err (ErrNew "invalid connection state transition"), c).
Proof. unfold Connection_Transition, mbind, go_bind, gets. cbn. by destruct (transition_valid _ _). Qed.

Lemma transition_valid_rank s s' :
  transition_valid s s' = true → conn_rank s < conn_rank s' ≤ 4.
Proof.
  destruct s; cbn; intros H; try done;
    repeat (apply orb_true_iff in H as [H|H]); apply bool_decide_eq_true in H; subst; cbn; lia.
Qed.

(** The connection state machine only moves forward: a refused transition
    changes nothing, an accepted one sets the state, a connection makes at
    most four transitions in its life, and once closed it makes no other. *)
Theorem transitions_forward (cs : list ConnState) (c c' : Connection) :
  transitions cs c = Ok c' →
  Z.of_nat (length cs) + conn_rank (k_State c) ≤ conn_rank (k_State c') ∧
  (Z.of_nat (length cs) ≤ 4) ∧
  (k_State c = ConnClosed → cs = []) ∧
  k_Sessions c' = k_Sessions c.
Proof.
  revert c. induction cs as [|s cs IH]; intros c H; cbn in H.
  { simplify_res. cbn. split_and!; [lia|lia|done|done]. }
  rewrite Connection_Transition_cases in H.
  destruct (transition_valid (k_State c) s) eqn:Ev; [|done].
  apply IH in H as (H1 & H2 & H3 & H4). pose proof (transition_valid_rank _ _ Ev) as [Hr1 Hr2].
  cbn [k_State set_ConnState length] in *.
  assert (conn_rank (k_State c') ≤ 4) by (destruct (k_State c'); cbn; lia).
  assert (0 ≤ conn_rank (k_State c)) by (destruct (k_State c); cbn; lia).
  split_and!; [lia|lia| |done]. intros E. by rewrite E in Ev.
Qed.

Lemma transitions_forward_witness :
  ∃ c', transitions [ConnHeader; ConnOpen; ConnClosing; ConnClosed]
    (connection_New "conn_1" "127.0.0.1" 65536 Minute 5) = Ok c' ∧ k_State c' = ConnClosed ∧
    (Z.of_nat (length [ConnHeader; ConnOpen; ConnClosing; ConnClosed]) ≤ 4).
Proof.
  eexists. split; [reflexivity|]. split; [reflexivity|].
  apply (transitions_forward [ConnHeader; ConnOpen; ConnClosing; ConnClosed]
    (connection_New "conn_1" "127.0.0.1" 65536 Minute 5)
    (set_ConnState ConnClosed (connection_New "conn_1" "127.0.0.1" 65536 Minute 5))).
  reflexivity.
Defined.

(** Calls on the registry. *)
Inductive registry_call := RegAdd (c : Connection) | RegRemove (id : string).

Definition registry_exec (c : registry_call) (r : ConnRegistry) : ConnRegistry :=
  match c with
  | RegAdd c => (ConnRegistry_Add c r).2
  | RegRemove id => (ConnRegistry_Remove id r).2
  end.

(** The connection limit holds: starting from an empty registry, after
    any sequence of additions and removals the number of registered
    connections does not exceed the configured maximum. *)
Theorem registry_limit (max : Z) (cs : list registry_call) :
  0 ≤ max →
  ConnRegistry_Count (foldl (λ r c, registry_exec c r) (conn_NewRegistry max) cs) ≤ max.
Proof.
  intros Hmax.
  assert (∀ r, cr_max r = max → ConnRegistry_Count r ≤ max →
    cr_max (foldl (λ r c, registry_exec c r) r cs) = max ∧
    ConnRegistry_Count (foldl (λ r c, registry_exec c r) r cs) ≤ max) as H.
  { induction cs as [|c cs IH]; intros r Hr Hc; [done|]. cbn [foldl]. apply IH.
    - destruct c as [c|id]; cbn; [|done].
      unfold ConnRegistry_Add, guard_err, mbind, go_bind, gets, raise, mret, go_ret, modify.
      by repeat case_match; simplify_eq; cbn.
    - destruct c as [c|id]; cbn.
      + unfold ConnRegistry_Add, guard_err, mbind, go_bind, gets, raise, mret, go_ret, modify. cbn.
        destruct (Z.leb_spec (cr_max r) (Z.of_nat (size (cr_items r)))) as [|Hlt]; cbn; [done|].
        case_bool_decide as Hin; cbn; [done|]. unfold ConnRegistry_Count. cbn.
        rewrite map_size_insert_None by (by apply eq_None_not_Some). lia.
      + unfold ConnRegistry_Count in *. cbn.
        rewrite map_size_delete. etrans; [|exact Hc]. apply Nat2Z.inj_le.
        case_match; [apply Nat.le_pred_l|done]. }
  apply H; [done|]. cbn. unfold ConnRegistry_Count. cbn. by rewrite map_size_empty.
Qed.

Lemma registry_limit_witness :
  ConnRegistry_Count (foldl (λ r c, registry_exec c r) (conn_NewRegistry 1)
    [RegAdd (connection_New "a" "" 0 0 0); RegAdd (connection_New "b" "" 0 0 0)]) ≤ 1.
Proof. apply registry_limit. lia. Defined.

(** PLAIN authentication accepts exactly the configured credentials: the
    response must be an authorization identity, the user name and the password
    separated by zero bytes; and ANONYMOUS is accepted exactly when allowed. *)
Theorem authenticate_exact (a : StaticAuthenticator) (response : bytes) (i : Identity) :
  (authenticate a "PLAIN" response = Ok i ↔
     i = mkIdentity (au_Username a) "PLAIN" None ∧
     ∃ authz, Split zero_separator response =
       [authz; string_bytes (au_Username a); string_bytes (au_Password a)]) ∧
  (authenticate a "ANONYMOUS" response = Ok i ↔
     i = mkIdentity "anonymous" "ANONYMOUS" None ∧ au_AllowAnonymous a = true).
Proof.
  unfold authenticate. rewrite (bool_decide_eq_false_2 ("PLAIN" = "ANONYMOUS")) by done.
  rewrite (bool_decide_eq_true_2 ("PLAIN" = "PLAIN")) by done.
  rewrite (bool_decide_eq_true_2 ("ANONYMOUS" = "ANONYMOUS")) by done. split.
  - destruct (Split zero_separator response) as [|x [|u [|q [|? ?]]]];
      try (split; [done|intros [_ [z Hz]]; done]).
    destruct (decide (bytes_string u = au_Username a)) as [Hu|Hu];
      [destruct (decide (bytes_string q = au_Password a)) as [Hq|Hq]|].
    + rewrite !bool_decide_eq_true_2 by done. cbn. rewrite <-Hu, <-Hq, !string_bytes_string. split.
      * intros E. simplify_res. by eauto.
      * intros [-> _]. done.
    + rewrite (bool_decide_eq_true_2 _ Hu), (bool_decide_eq_false_2 _ Hq). cbn. split; [done|].
      intros [_ [z Hz]]. destruct Hq. injection Hz as _ _ ->. apply bytes_string_bytes.
    + rewrite (bool_decide_eq_false_2 _ Hu). cbn. split; [done|].
      intros [_ [z Hz]]. destruct Hu. injection Hz as _ -> _. apply bytes_string_bytes.
  - destruct (au_AllowAnonymous a); cbn; split; try done; [by intros; simplify_res|by intros [-> _]|by intros [_ ?]].
Qed.
