(* ===== verification/Registry.v ===== *)
(** * Registries with a secondary index

    The session registry and the link registry keep their items under an
    identifier and, in a second map, the identifier under a key computed from
    the item (connection and channel, session and handle).  This file holds
    the representation and the lemmas on its consistency that both share; the
    operations are in [Session.v] and [Link.v]. *)

From S2P Require Import Prelude Bytes.

Record registry (T : Type) := mkRegistry {
  r_items : gmap string T;
  r_keys : gmap string string }.
Arguments mkRegistry {T}.
Arguments r_items {T}.
Arguments r_keys {T}.

Definition empty_registry {T} : registry T := mkRegistry ∅ ∅.

Section registry.
Context {T : Type} (ident keyof owner : T → string).

Definition add_item (x : T) (r : registry T) : registry T :=
  mkRegistry (<[ident x := x]> (r_items r)) (<[keyof x := ident x]> (r_keys r)).

Definition remove_item (id : string) (r : registry T) : registry T :=
  match r_items r !! id with
  | Some x => mkRegistry (delete id (r_items r)) (delete (keyof x) (r_keys r))
  | None => r
  end.

(** One entry of the loop that removes the items of an owner. *)
Definition remove_owned (o : string) (r : registry T) (kv : string * T) : registry T :=
  if bool_decide (owner kv.2 = o)
  then mkRegistry (delete kv.1 (r_items r)) (delete (keyof kv.2) (r_keys r))
  else r.

(** Every item is under its identifier and its key, and no key dangles. *)
Definition reg_inv (r : registry T) : Prop :=
  (∀ id x, r_items r !! id = Some x → ident x = id ∧ r_keys r !! keyof x = Some id) ∧
  (∀ k id, r_keys r !! k = Some id → ∃ x, r_items r !! id = Some x ∧ keyof x = k).

Lemma reg_inv_empty : reg_inv empty_registry.
Proof. split; by intros ??. Qed.

Lemma reg_inv_add x r :
  reg_inv r → r_items r !! ident x = None → r_keys r !! keyof x = None → reg_inv (add_item x r).
Proof.
  intros [H1 H2] Hid Hk. split; cbn.
  - intros id y [[<- <-]|[Hne Hy]]%lookup_insert_Some; [by rewrite lookup_insert_eq|].
    destruct (H1 _ _ Hy) as [Hi Hc]. split; [done|]. rewrite lookup_insert_ne; [done|]. congruence.
  - intros k id [[<- <-]|[Hne Hy]]%lookup_insert_Some; [exists x; by rewrite lookup_insert_eq|].
    destruct (H2 _ _ Hy) as (y & Hy1 & Hy2). exists y. rewrite lookup_insert_ne; [done|]. congruence.
Qed.

Lemma reg_inv_delete id x r :
  reg_inv r → r_items r !! id = Some x →
  reg_inv (mkRegistry (delete id (r_items r)) (delete (keyof x) (r_keys r))).
Proof.
  intros [H1 H2] Hid. split; cbn.
  - intros id' y [Hne Hy]%lookup_delete_Some. destruct (H1 _ _ Hy) as [Hi Hc]. split; [done|].
    apply lookup_delete_Some. split; [|done]. intros E. destruct (H1 _ _ Hid) as [_ Hc'].
    rewrite E in Hc'. congruence.
  - intros k id' [Hne Hy]%lookup_delete_Some. destruct (H2 _ _ Hy) as (y & Hy1 & Hy2).
    exists y. split; [|done]. apply lookup_delete_Some. split; [|done]. intros <-. congruence.
Qed.

Lemma reg_inv_remove id r : reg_inv r → reg_inv (remove_item id r).
Proof.
  intros Hr. unfold remove_item. destruct (r_items r !! id) eqn:E; [by apply reg_inv_delete|done].
Qed.

Lemma remove_item_ne id i r : i ≠ id → r_items (remove_item id r) !! i = r_items r !! i.
Proof.
  intros Hne. unfold remove_item. destruct (r_items r !! id); [|done]. cbn. by apply lookup_delete_ne.
Qed.

(** An item may change as long as its identifier and key do not. *)
Lemma reg_inv_update id x y r :
  reg_inv r → r_items r !! id = Some x → ident y = ident x → keyof y = keyof x →
  reg_inv (mkRegistry (<[id := y]> (r_items r)) (r_keys r)).
Proof.
  intros [H1 H2] Hid Hi Hk. split; cbn.
  - intros id' z [[<- <-]|[Hne Hz]]%lookup_insert_Some; [|by apply H1].
    rewrite Hi, Hk. by apply H1.
  - intros k id' Hx. destruct (H2 _ _ Hx) as (z & Hz & Hzk).
    destruct (decide (id = id')) as [<-|Hne].
    + exists y. rewrite lookup_insert_eq. split; [done|]. congruence.
    + exists z. by rewrite lookup_insert_ne.
Qed.

(** What the removal loop leaves, in any order of the entries. *)
Lemma remove_owned_items o l : ∀ r,
  NoDup l.*1 → (∀ id x, (id, x) ∈ l → r_items r !! id = Some x) →
  ∀ id x, r_items (foldl (remove_owned o) r l) !! id = Some x ↔
    r_items r !! id = Some x ∧ ((id, x) ∈ l → owner x ≠ o).
Proof.
  induction l as [|[id s] l IH]; intros r Hnd Hl; cbn [foldl].
  { intros id s. split; [|by intros [? _]]. intros ?. split; [done|].
    intros Hin. by apply not_elem_of_nil in Hin. }
  cbn in Hnd. apply NoDup_cons in Hnd as [Hn Hnd].
  assert (r_items r !! id = Some s) as Hs by (apply Hl; by left).
  assert (∀ s', (id, s') ∉ l) as Hnot by (intros s' Hin; apply Hn; by apply (list_elem_of_fmap_2 fst) in Hin).
  unfold remove_owned at 2. cbn [fst snd]. case_bool_decide as Hc.
  - intros id' s'. rewrite IH; [|done|].
    2: { intros i x Hin. cbn. rewrite lookup_delete_ne; [apply Hl; by right|]. intros <-. by eapply Hnot. }
    cbn. rewrite lookup_delete_Some, elem_of_cons. split.
    + intros [[Hne Hx] Hc']. split; [done|]. intros [E|Hin]; [congruence|by apply Hc'].
    + intros [Hx Hc']. split; [|by auto]. split; [|done]. intros <-.
      rewrite Hs in Hx. injection Hx as <-. by apply Hc'; [left|].
  - intros id' s'. rewrite IH, elem_of_cons; [|done|intros; apply Hl; by right]. split.
    + intros [Hx Hc']. split; [done|]. intros [E|Hin]; [by injection E as -> ->|by apply Hc'].
    + intros [Hx Hc']. auto.
Qed.

Lemma remove_owned_inv o l : ∀ r,
  reg_inv r → NoDup l.*1 → (∀ id x, (id, x) ∈ l → r_items r !! id = Some x) →
  reg_inv (foldl (remove_owned o) r l).
Proof.
  induction l as [|[id s] l IH]; intros r Hr Hnd Hl; cbn [foldl]; [done|].
  cbn in Hnd. apply NoDup_cons in Hnd as [Hn Hnd].
  unfold remove_owned at 2. cbn [fst snd]. case_bool_decide as Hc.
  - apply IH; [apply reg_inv_delete; [done|]; apply Hl; by left|done|].
    intros i x Hin. cbn. rewrite lookup_delete_ne; [apply Hl; by right|].
    intros <-. apply Hn. by apply (list_elem_of_fmap_2 fst) in Hin.
  - apply IH; [done|done|]. intros. apply Hl. by right.
Qed.

(** Removing an owner leaves exactly the items of the others. *)
Lemma remove_owned_left o l r :
  l ≡ₚ map_to_list (r_items r) →
  ∀ id x, r_items (foldl (remove_owned o) r l) !! id = Some x ↔
    r_items r !! id = Some x ∧ owner x ≠ o.
Proof.
  intros Hl id s. rewrite remove_owned_items.
  - split; intros [Hx Hc]; (split; [done|]); [|done]. apply Hc. by rewrite Hl, elem_of_map_to_list.
  - rewrite Hl. apply NoDup_fst_map_to_list.
  - intros i x. by rewrite Hl, elem_of_map_to_list.
Qed.

Lemma remove_owned_all o l r :
  reg_inv r → l ≡ₚ map_to_list (r_items r) →
  reg_inv (foldl (remove_owned o) r l) ∧
  ∀ id x, r_items (foldl (remove_owned o) r l) !! id = Some x ↔
    r_items r !! id = Some x ∧ owner x ≠ o.
Proof.
  intros Hr Hl. split; [|by apply remove_owned_left]. apply remove_owned_inv; [done| |].
  - rewrite Hl. apply NoDup_fst_map_to_list.
  - intros i x. by rewrite Hl, elem_of_map_to_list.
Qed.
End registry.
