(* ===== verification/Session.v ===== *)
(** * Sessions

    Models [internal/session/domain/session.go] and
    [internal/session/application/registry.go].  Channels are [uint16],
    handles, windows and transfer identifiers [uint32].  The registry shares
    sessions by pointer; as every access goes through the registry, a session
    is kept by value under its identifier. *)

From Stdlib Require Import Ascii String.
From S2P Require Import Prelude Bytes Duration Env Registry.

(** ** The session *)
Inductive SessState :=
  | SessUnmapped | SessBeginSent | SessMapped | SessEndSent | SessEnded
  | SessOther (text : string).

#[global] Instance SessState_eq_dec : EqDecision SessState.
Proof. solve_decision. Defined.

Record Session := mkSession {
  s_ID : string; s_ConnectionID : string; s_LocalChannel : Z; s_RemoteChannel : Z;
  s_State : SessState; s_NextOutgoingID : Z; s_IncomingWindow : Z; s_OutgoingWindow : Z;
  s_Links : gmap Z string; s_CreatedAt : time }.

Definition session_New (id connection : string) (local remote : Z) (now : time) : Session :=
  mkSession id connection local remote SessUnmapped 0 2048 2048 ∅ now.

Definition set_session (st : SessState) (next inw outw : Z) (links : gmap Z string) (s : Session) :
    Session :=
  mkSession (s_ID s) (s_ConnectionID s) (s_LocalChannel s) (s_RemoteChannel s) st next inw outw
    links (s_CreatedAt s).

Definition Session_Begin : go Session unit :=
  s ← gets id;
  guard_err (negb (bool_decide (s_State s = SessUnmapped)) &&
             negb (bool_decide (s_State s = SessBeginSent))) (ErrNew "session cannot begin");;
  modify (λ s, set_session SessMapped (s_NextOutgoingID s) (s_IncomingWindow s)
                 (s_OutgoingWindow s) (s_Links s) s).

Definition Session_End : go Session unit :=
  s ← gets id;
  guard_err (negb (bool_decide (s_State s = SessMapped)) &&
             negb (bool_decide (s_State s = SessEndSent))) (ErrNew "session cannot end");;
  modify (λ s, set_session SessEnded (s_NextOutgoingID s) (s_IncomingWindow s)
                 (s_OutgoingWindow s) ∅ s).

Definition Session_Attach (handle : Z) (linkID : string) : go Session unit :=
  s ← gets id;
  guard_err (negb (bool_decide (s_State s = SessMapped))) (ErrNew "session not mapped");;
  guard_err (bool_decide (is_Some (s_Links s !! handle))) (ErrNew "handle already attached");;
  guard_err (65535 <? handle) (ErrNew "handle exceeds negotiated maximum");;
  modify (λ s, set_session (s_State s) (s_NextOutgoingID s) (s_IncomingWindow s)
                 (s_OutgoingWindow s) (<[handle := linkID]> (s_Links s)) s).

Definition Session_Detach (handle : Z) : go Session unit :=
  modify (λ s, set_session (s_State s) (s_NextOutgoingID s) (s_IncomingWindow s)
                 (s_OutgoingWindow s) (delete handle (s_Links s)) s).

Definition Session_ConsumeIncoming : go Session unit :=
  s ← gets id;
  guard_err (s_IncomingWindow s =? 0) (ErrNew "incoming session window exhausted");;
  modify (λ s, set_session (s_State s) (s_NextOutgoingID s) (u32 (s_IncomingWindow s - 1))
                 (s_OutgoingWindow s) (s_Links s) s).

Definition Session_AdvanceOutgoing : go Session Z :=
  s ← gets id;
  guard_err (s_OutgoingWindow s =? 0) (ErrNew "outgoing session window exhausted");;
  modify (λ s, set_session (s_State s) (u32 (s_NextOutgoingID s + 1)) (s_IncomingWindow s)
                 (u32 (s_OutgoingWindow s - 1)) (s_Links s) s);;
  mret (s_NextOutgoingID s).

Definition Session_Flow (incoming outgoing : Z) : go Session unit :=
  modify (λ s, set_session (s_State s) (s_NextOutgoingID s) incoming outgoing (s_Links s) s).

(** ** The registry

    [items] and [channels] of the code are [r_items] and [r_keys]. *)
Abbreviation SessRegistry := (registry Session).

Definition sess_NewRegistry : SessRegistry := mkRegistry ∅ ∅.

(** [connection + ":" + string(rune(channel))]. *)
Definition key (connection : string) (channel : Z) : string :=
  (connection +:+ ":" +:+ bytes_string (rune_string channel))%string.

Definition session_key (s : Session) : string := key (s_ConnectionID s) (s_LocalChannel s).

Definition SessRegistry_Add (s : Session) : go SessRegistry unit :=
  r ← gets id;
  guard_err (bool_decide (is_Some (r_keys r !! session_key s)))
    (ErrNew "session channel already exists");;
  modify (add_item s_ID session_key s).

Definition SessRegistry_Get (id : string) (r : SessRegistry) : option Session := r_items r !! id.

Definition SessRegistry_ByChannel (connection : string) (channel : Z) (r : SessRegistry) :
    option Session :=
  match r_keys r !! key connection channel with
  | None => None
  | Some id => r_items r !! id
  end.

Definition SessRegistry_Remove (id : string) : go SessRegistry unit :=
  modify (remove_item session_key id).

(** The deleted key is [key(connection, s.LocalChannel)], which is the
    session's own key as [s.ConnectionID == connection]. *)
Definition SessRegistry_RemoveConnection `{orc : Oracle} (connection : string) :
    env SessRegistry unit :=
  r ← get_;
  items ← map_range (map_to_list (r_items r));
  put_ (foldl (remove_owned session_key s_ConnectionID connection) r items).

(** A call on a session held by the registry; a session that is not there is
    a nil pointer. *)
Definition with_session {A} (id : string) (m : go Session A) : go SessRegistry A := λ r,
  match r_items r !! id with
  | None => (Panic, r)
  | Some s =>
      let '(x, s') := m s in
      (x, mkRegistry (<[id := s']> (r_items r)) (r_keys r))
  end.

(** ** The session invariant *)
Definition wf_session (s : Session) : Prop :=
  0 ≤ s_NextOutgoingID s < 2 ^ 32 ∧ 0 ≤ s_IncomingWindow s < 2 ^ 32 ∧
  0 ≤ s_OutgoingWindow s < 2 ^ 32 ∧
  (∀ h id, s_Links s !! h = Some id → h ≤ 65535) ∧
  (s_State s = SessMapped ∨ s_Links s = ∅).

(** The operations of a session. *)
Inductive sess_op :=
  | OpBegin | OpEnd | OpAttach (handle : Z) (link : string) | OpDetach (handle : Z)
  | OpConsume | OpAdvance | OpFlow (incoming outgoing : Z).

Definition sess_exec (o : sess_op) (s : Session) : Session :=
  match o with
  | OpBegin => (Session_Begin s).2
  | OpEnd => (Session_End s).2
  | OpAttach h l => (Session_Attach h l s).2
  | OpDetach h => (Session_Detach h s).2
  | OpConsume => (Session_ConsumeIncoming s).2
  | OpAdvance => (Session_AdvanceOutgoing s).2
  | OpFlow i o => (Session_Flow i o s).2
  end.

Definition sess_op_ok (o : sess_op) : Prop :=
  match o with OpFlow i o => 0 ≤ i < 2 ^ 32 ∧ 0 ≤ o < 2 ^ 32 | _ => True end.

Ltac sess_run :=
  unfold Session_Begin, Session_End, Session_Attach, Session_Detach, Session_ConsumeIncoming,
    Session_AdvanceOutgoing, Session_Flow, guard_err, mbind, go_bind, gets, raise, mret, go_ret,
    modify, id in *.

Lemma sess_exec_wf o s : sess_op_ok o → wf_session s → wf_session (sess_exec o s).
Proof.
  intros Ho (H1 & H2 & H3 & H4 & H5). destruct o; cbn [sess_exec]; sess_run.
  - repeat case_match; simplify_eq; unfold wf_session; cbn; split_and!; try (done || lia); auto.
  - repeat case_match; simplify_eq; unfold wf_session; cbn; split_and!; try (done || lia); auto.
  - repeat case_match; simplify_eq; unfold wf_session; cbn; split_and!; try (done || lia); auto;
      zbool; auto. intros h x [[<- <-]|[_ Hx]]%lookup_insert_Some; [lia|by eapply H4].
  - unfold wf_session; cbn; split_and!; try (done || lia).
    + intros h x [_ Hx]%lookup_delete_Some. by eapply H4.
    + destruct H5 as [?|E]; [by left|]. right. by rewrite E, delete_empty.
  - repeat case_match; simplify_eq; unfold wf_session; cbn; zbool; split_and!; try (done || lia);
      apply u32_range.
  - repeat case_match; simplify_eq; unfold wf_session; cbn; zbool; split_and!; try (done || lia);
      apply u32_range.
  - destruct Ho as [??]. unfold wf_session; cbn; split_and!; done || lia.
Qed.

Lemma sess_exec_window o s : wf_session s → (∀ i w, o ≠ OpFlow i w) →
  s_IncomingWindow (sess_exec o s) ≤ s_IncomingWindow s ∧
  s_OutgoingWindow (sess_exec o s) ≤ s_OutgoingWindow s.
Proof.
  intros (_ & H2 & H3 & _) Ho. destruct o; cbn [sess_exec]; sess_run; try (by destruct (Ho _ _ eq_refl));
    repeat case_match; simplify_eq; cbn; zbool; try lia; unfold u32; rewrite Z.mod_small by lia; lia.
Qed.

(** ** Properties *)

(** C32. The session keeps its discipline through any sequence of operations:
    the flow-control windows and the transfer identifiers stay 32-bit values,
    handles stay within the negotiated maximum, and links exist only while the
    session is mapped; and in whatever state this leaves the session, only a
    [Flow] opens its windows: no other operation, the use of an exhausted
    window included, makes one larger. *)
Theorem session_discipline (id connection : string) (local remote : Z) (now : time)
    (ops : list sess_op) :
  Forall sess_op_ok ops →
  let s := foldl (λ s o, sess_exec o s) (session_New id connection local remote now) ops in
  wf_session s ∧
  ∀ o, (∀ i w, o ≠ OpFlow i w) →
    s_IncomingWindow (sess_exec o s) ≤ s_IncomingWindow s ∧
    s_OutgoingWindow (sess_exec o s) ≤ s_OutgoingWindow s.
Proof.
  intros Hops s.
  assert (wf_session (session_New id connection local remote now)) as Hw.
  { unfold wf_session; cbn. split_and!; try lia; [done|by right]. }
  assert (wf_session s) as Hs.
  { revert Hw. unfold s. clear s. generalize (session_New id connection local remote now).
    induction Hops as [|o ops Ho _ IH]; intros s Hs; [done|]. cbn. apply IH. by apply sess_exec_wf. }
  split; [done|]. intros o Ho. by apply sess_exec_window.
Qed.

Lemma session_discipline_witness :
  wf_session (foldl (λ s o, sess_exec o s) (session_New "ssn_1" "conn_1" 0 0 5)
    [OpBegin; OpAttach 3 "lnk_1"; OpConsume; OpFlow 10 20; OpAdvance; OpEnd]).
Proof.
  eapply (session_discipline "ssn_1" "conn_1" 0 0 5
    [OpBegin; OpAttach 3 "lnk_1"; OpConsume; OpFlow 10 20; OpAdvance; OpEnd]).
  repeat constructor; cbn; lia.
Defined.

(** Outgoing transfers are numbered consecutively: from a window of [w]
    the session hands out exactly [w] identifiers, the successors modulo
    [2^32] of the next one, and then refuses. *)
Theorem AdvanceOutgoing_sequence (s : Session) (k : nat) :
  wf_session s → Z.of_nat k ≤ s_OutgoingWindow s →
  ∃ s', Nat.iter k (λ r, match r with
          | (Ok ids, s) => match Session_AdvanceOutgoing s with
                           | (Ok i, s') => (Ok (ids ++ [i]), s')
                           | (Err e, s') => (Err e, s')
                           | (Panic, s') => (Panic, s')
                           end
          | r => r
          end) (Ok [], s) =
        (Ok ((λ i, u32 (s_NextOutgoingID s + Z.of_nat i)) <$> seq 0 k), s') ∧
    s_OutgoingWindow s' = s_OutgoingWindow s - Z.of_nat k ∧
    s_NextOutgoingID s' = u32 (s_NextOutgoingID s + Z.of_nat k) ∧
    (Z.of_nat k = s_OutgoingWindow s →
       Session_AdvanceOutgoing s' = (Err (ErrNew "outgoing session window exhausted"), s')).
Proof.
  intros (Hn & _ & Ho & _) Hk. induction k as [|k IH].
  { exists s. cbn. rewrite Z.sub_0_r, Z.add_0_r. unfold u32 at 1. rewrite Z.mod_small by lia.
    split_and!; try done. intros E. sess_run. by rewrite <-E. }
  destruct IH as (s1 & E1 & W1 & N1 & _); [lia|]. rewrite Nat.iter_succ, E1, seq_S, fmap_app.
  unfold Session_AdvanceOutgoing at 1, guard_err, mbind, go_bind, gets, mret, go_ret, modify, id. cbn -[Z.of_nat].
  destruct (Z.eqb_spec (s_OutgoingWindow s1) 0) as [E0|E0]; [lia|]. eexists. split; [|split_and!]; cbn -[Z.of_nat].
  - by rewrite N1.
  - cbn -[Z.of_nat]. rewrite W1. unfold u32. rewrite Z.mod_small; lia.
  - cbn -[Z.of_nat]. rewrite ?N1. unfold u32. rewrite Zplus_mod_idemp_l. f_equal. lia.
  - intros E. sess_run. cbn -[Z.of_nat]. rewrite W1. unfold u32. rewrite Z.mod_small by lia.
    replace (_ - _ - 1) with 0 by lia. done.
Qed.

Lemma AdvanceOutgoing_sequence_witness :
  ∃ s', s_OutgoingWindow s' = 2045 ∧ s_NextOutgoingID s' = u32 3.
Proof.
  destruct (AdvanceOutgoing_sequence (session_New "s" "c" 0 0 1) 3) as (s' & _ & H1 & H2 & _).
  - unfold wf_session; cbn. split_and!; try lia; [intros h i Hi; discriminate Hi|by right].
  - cbn. lia.
  - exists s'. split; [exact H1|exact H2].
Defined.

(** ** Registry keys *)
Definition colon : byte := z2b 58.
Definition no_colon (s : string) : Prop := colon ∉ string_bytes s.

Lemma split_colon (l l' r r' : bytes) :
  colon ∉ l → colon ∉ l' → l ++ colon :: r = l' ++ colon :: r' → l = l' ∧ r = r'.
Proof.
  revert l'. induction l as [|c l IH]; intros [|c' l'] Hl Hl' E; cbn in E.
  - by injection E.
  - injection E as <- _. set_solver.
  - injection E as -> _. set_solver.
  - injection E as -> E. apply not_elem_of_cons in Hl as [_ Hl]. apply not_elem_of_cons in Hl' as [_ Hl'].
    destruct (IH l') as [-> ->]; done.
Qed.

Lemma key_bytes c ch : string_bytes (key c ch) = string_bytes c ++ colon :: rune_string ch.
Proof. unfold key. rewrite !string_bytes_app, string_bytes_string. done. Qed.

(** Registry keys separate sessions: for connection identifiers without a
    colon (the generated ones are hexadecimal), two channels of the Unicode
    scalar range have the same key only when the connections and the channels
    are the same. *)
Theorem key_injective (c c' : string) (ch ch' : Z) :
  no_colon c → no_colon c' → valid_rune ch = true → valid_rune ch' = true →
  key c ch = key c' ch' → c = c' ∧ ch = ch'.
Proof.
  intros Hc Hc' Hv Hv' E. apply (f_equal string_bytes) in E. rewrite !key_bytes in E.
  apply split_colon in E as [E1 E2]; [|done|done].
  split; [by apply string_bytes_inj|by apply rune_string_inj].
Qed.

Lemma key_injective_witness : key "conn_1" 3 = key "conn_1" 3 ∧ "conn_1" = "conn_1" ∧ 3 = 3.
Proof.
  split; [reflexivity|]. apply (key_injective "conn_1" "conn_1" 3 3); try reflexivity;
    unfold no_colon; apply (bool_decide_unpack _); vm_compute; exact I.
Defined.

(** Channels in the surrogate range share one key: on one connection, no
    second session can begin on any channel from 0xD800 to 0xDFFF while
    another of them is in use, although channels up to 65535 are offered. *)
Theorem key_surrogates_collide (c : string) (ch ch' : Z) :
  0xD800 ≤ ch ≤ 0xDFFF → 0xD800 ≤ ch' ≤ 0xDFFF → key c ch = key c ch'.
Proof.
  intros H H'. unfold key. rewrite !rune_string_invalid; [done|..]; unfold valid_rune;
    apply orb_false_iff; split; apply andb_false_iff; rewrite ?Z.ltb_ge, ?Z.leb_gt; lia.
Qed.

Lemma key_surrogates_collide_witness : key "conn_1" 55296 = key "conn_1" 57343.
Proof. apply key_surrogates_collide; lia. Defined.

(** ** Consistency of the registry *)
Abbreviation sess_inv := (reg_inv s_ID session_key).

(** Calls on the registry with fresh session identifiers, and operations on
    the sessions it holds. *)
Inductive sreg_step (r : SessRegistry) : SessRegistry → Prop :=
  | sreg_add s x r' : r_items r !! s_ID s = None → SessRegistry_Add s r = (x, r') → sreg_step r r'
  | sreg_remove id x r' : SessRegistry_Remove id r = (x, r') → sreg_step r r'
  | sreg_remove_conn (orc : Oracle) c x n n' r' :
      SessRegistry_RemoveConnection c (r, n) = (x, (r', n')) → sreg_step r r'
  | sreg_op id o s :
      r_items r !! id = Some s →
      sreg_step r (mkRegistry (<[id := sess_exec o s]> (r_items r)) (r_keys r)).

Lemma sess_exec_id o s :
  s_ID (sess_exec o s) = s_ID s ∧ s_ConnectionID (sess_exec o s) = s_ConnectionID s ∧
  s_LocalChannel (sess_exec o s) = s_LocalChannel s.
Proof. destruct o; cbn [sess_exec]; sess_run; repeat case_match; simplify_eq; done. Qed.

Lemma RemoveConnection_spec (orc : Oracle) c r :
  sess_inv r →
  wpe (SessRegistry_RemoveConnection c) (λ x r', x = Ok tt ∧ sess_inv r' ∧
    ∀ id s, r_items r' !! id = Some s ↔ r_items r !! id = Some s ∧ s_ConnectionID s ≠ c) r.
Proof.
  intros Hr. unfold SessRegistry_RemoveConnection. wpe_auto. split; [done|].
  by apply remove_owned_all.
Qed.

Lemma SessRegistry_Add_inv s r :
  sess_inv r → r_items r !! s_ID s = None → sess_inv (SessRegistry_Add s r).2.
Proof.
  intros Hr Hid. unfold SessRegistry_Add, guard_err, mbind, go_bind, gets, raise, mret, go_ret, modify, id.
  case_bool_decide as Hk; cbn; [done|]. apply reg_inv_add; [done|done|]. by apply eq_None_not_Some.
Qed.

Lemma SessRegistry_Add_result s r x r' :
  SessRegistry_Add s r = (x, r') → x ≠ Panic ∧ (x = Ok tt → r_items r' !! s_ID s = Some s).
Proof.
  unfold SessRegistry_Add. sess_run. case_bool_decide; intros E; injection E as <- <-; (split; [done|]); [done|].
  intros _. cbn. by rewrite lookup_insert_eq.
Qed.

Lemma sreg_step_inv r r' : sess_inv r → sreg_step r r' → sess_inv r'.
Proof.
  intros Hr [s x r1 Hid E|id x r1 E|orc c x n n' r1 E|id o s E].
  - replace r1 with (SessRegistry_Add s r).2 by by rewrite E. by apply SessRegistry_Add_inv.
  - unfold SessRegistry_Remove, modify in E. simplify_eq. by apply reg_inv_remove.
  - apply (wpe_elim _ _ _ _ _ _ _ (RemoveConnection_spec orc c r Hr) E).
  - destruct (sess_exec_id o s) as (H1 & H2 & H3). eapply reg_inv_update; [done..|].
    unfold session_key. by rewrite H2, H3.
Qed.

(** The session registry stays consistent: after any additions of
    sessions with fresh identifiers, operations on them, removals and connection
    clean-ups, every
    registered session is found under its own connection and channel, and the
    clean-up of a connection removes all of its sessions and no other. *)
Theorem session_registry_consistent (r : SessRegistry) (orc : Oracle) (c : string) (n : nat) :
  rtc sreg_step sess_NewRegistry r →
  (∀ id s, r_items r !! id = Some s →
     SessRegistry_ByChannel (s_ConnectionID s) (s_LocalChannel s) r = Some s) ∧
  ∃ r' n', SessRegistry_RemoveConnection c (r, n) = (Ok tt, (r', n')) ∧
    ∀ id s, r_items r' !! id = Some s ↔ r_items r !! id = Some s ∧ s_ConnectionID s ≠ c.
Proof.
  intros Hs. assert (sess_inv r) as Hr.
  { pose proof (reg_inv_empty s_ID session_key : sess_inv sess_NewRegistry) as H0.
    revert H0. induction Hs as [|r0 r1 r2 H1 _ IH]; intros H0; [done|].
    apply IH. by eapply sreg_step_inv. }
  split.
  - intros id s Hid. unfold SessRegistry_ByChannel. destruct (proj1 Hr _ _ Hid) as [_ Hc].
    unfold session_key in Hc. by rewrite Hc.
  - pose proof (RemoveConnection_spec orc c r Hr n) as H.
    destruct (SessRegistry_RemoveConnection c (r, n)) as [x [r' n']]. cbn in H.
    destruct H as (-> & _ & H). eauto.
Qed.

Definition demo_registry : SessRegistry :=
  (SessRegistry_Add (session_New "ssn_1" "conn_1" 3 3 1) sess_NewRegistry).2.

Lemma session_registry_consistent_witness :
  SessRegistry_ByChannel "conn_1" 3 demo_registry = Some (session_New "ssn_1" "conn_1" 3 3 1).
Proof.
  destruct (session_registry_consistent demo_registry test_oracle "conn_1" O) as [H _].
  - apply rtc_once. apply (sreg_add _ (session_New "ssn_1" "conn_1" 3 3 1) (Ok tt)); reflexivity.
  - apply (H "ssn_1" (session_New "ssn_1" "conn_1" 3 3 1)). vm_compute. reflexivity.
Defined.
