(* ===== verification/Link.v ===== *)
(** * Links

    Models [internal/link/domain/link.go] and
    [internal/link/application/registry.go].  Handles, credit and the delivery
    count are [uint32], sizes [uint64].  Links are shared by pointer between
    the registry and the peer; as every access goes through the registry, a
    link is kept by value under its identifier. *)

From Stdlib Require Import Ascii String.
From S2P Require Import Prelude Bytes Duration Env Registry.

(** ** The link *)
Abbreviation Role := bool.
Definition RoleSender : Role := false.
Definition RoleReceiver : Role := true.

Inductive LinkState :=
  | LinkDetached | LinkAttachSent | LinkAttached | LinkDetachSent
  | LinkOther (text : string).

#[global] Instance LinkState_eq_dec : EqDecision LinkState.
Proof. solve_decision. Defined.

Record Link := mkLink {
  l_ID : string; l_SessionID : string; l_Name : string; l_Handle : Z; l_Role : Role;
  l_Address : string; l_State : LinkState; l_Credit : Z; l_DeliveryCount : Z;
  l_MaxMessageSize : Z; l_CreatedAt : time }.

Definition link_New (id session name address : string) (handle : Z) (role : Role) (now : time) :
    res Link :=
  if bool_decide (id = "") || bool_decide (session = "") || bool_decide (name = "") ||
     bool_decide (address = "")
  then Err (ErrNew "link identity and address required")
  else Ok (mkLink id session name handle role address LinkDetached 0 0 (Z.shiftl 16 20) now).

Definition set_link (st : LinkState) (credit count : Z) (l : Link) : Link :=
  mkLink (l_ID l) (l_SessionID l) (l_Name l) (l_Handle l) (l_Role l) (l_Address l) st credit count
    (l_MaxMessageSize l) (l_CreatedAt l).

Definition Link_Attach : go Link unit :=
  l ← gets id;
  guard_err (negb (bool_decide (l_State l = LinkDetached)) &&
             negb (bool_decide (l_State l = LinkAttachSent))) (ErrNew "link cannot attach");;
  modify (λ l, set_link LinkAttached (l_Credit l) (l_DeliveryCount l) l).

Definition Link_Detach : go Link unit :=
  modify (λ l, set_link LinkDetached 0 (l_DeliveryCount l) l).

Definition Link_Grant (credit : Z) : go Link unit :=
  modify (λ l, set_link (l_State l) credit (l_DeliveryCount l) l).

Definition Link_Consume (size : Z) : go Link unit :=
  l ← gets id;
  guard_err (negb (bool_decide (l_State l = LinkAttached))) (ErrNew "link is not attached");;
  guard_err (bool_decide (l_Role l = RoleSender) && (l_Credit l =? 0))
    (ErrNew "link credit exhausted");;
  guard_err (l_MaxMessageSize l <? size) (ErrNew "message exceeds link maximum");;
  modify (λ l, set_link (l_State l)
    (if bool_decide (l_Role l = RoleSender) then u32 (l_Credit l - 1) else l_Credit l)
    (u32 (l_DeliveryCount l + 1)) l).

Definition Link_Snapshot (l : Link) : LinkState * Z := (l_State l, l_Credit l).

(** ** The registry

    [items] and [handles] of the code are [r_items] and [r_keys]. *)
Abbreviation LinkRegistry := (registry Link).

Definition link_NewRegistry : LinkRegistry := mkRegistry ∅ ∅.

(** [session + ":" + string(rune(handle))]: a rune is an [int32]. *)
Definition handleKey (session : string) (handle : Z) : string :=
  (session +:+ ":" +:+ bytes_string (rune_string (s32 handle)))%string.

Definition link_key (l : Link) : string := handleKey (l_SessionID l) (l_Handle l).

Definition LinkRegistry_Add (l : Link) : go LinkRegistry unit :=
  r ← gets id;
  guard_err (bool_decide (is_Some (r_keys r !! link_key l))) (ErrNew "link handle already exists");;
  modify (add_item l_ID link_key l).

Definition LinkRegistry_Get (id : string) (r : LinkRegistry) : option Link := r_items r !! id.

Definition LinkRegistry_ByHandle (session : string) (handle : Z) (r : LinkRegistry) : option Link :=
  match r_keys r !! handleKey session handle with
  | None => None
  | Some id => r_items r !! id
  end.

Definition LinkRegistry_Remove (id : string) : go LinkRegistry unit :=
  modify (remove_item link_key id).

(** The deleted key is [handleKey(session, l.Handle)], which is the link's own
    key as [l.SessionID == session]. *)
Definition LinkRegistry_RemoveSession `{orc : Oracle} (session : string) : env LinkRegistry unit :=
  r ← get_;
  items ← map_range (map_to_list (r_items r));
  put_ (foldl (remove_owned link_key l_SessionID session) r items).

(** A call on a link held by the registry; a link that is not there is a nil
    pointer. *)
Definition with_link {A} (id : string) (m : go Link A) : go LinkRegistry A := λ r,
  match r_items r !! id with
  | None => (Panic, r)
  | Some l =>
      let '(x, l') := m l in
      (x, mkRegistry (<[id := l']> (r_items r)) (r_keys r))
  end.

(** ** Properties *)
Ltac link_run :=
  unfold Link_Attach, Link_Detach, Link_Grant, Link_Consume, guard_err, mbind, go_bind, gets, raise,
    mret, go_ret, modify, id in *.

(** What a transfer of [size] bytes does to an attached link. *)
Lemma Link_Consume_step size l :
  l_State l = LinkAttached → (l_Role l = RoleSender → l_Credit l ≠ 0) → size ≤ l_MaxMessageSize l →
  Link_Consume size l =
    (Ok tt, set_link LinkAttached
              (if bool_decide (l_Role l = RoleSender) then u32 (l_Credit l - 1) else l_Credit l)
              (u32 (l_DeliveryCount l + 1)) l).
Proof.
  intros Hs Hc Hz. link_run. rewrite Hs, bool_decide_true by done. cbn [negb].
  destruct (Z.ltb_spec (l_MaxMessageSize l) size); [lia|].
  destruct (decide (l_Role l = RoleSender)) as [Hr|Hr].
  - rewrite !bool_decide_true by done. destruct (Z.eqb_spec (l_Credit l) 0) as [E|E]; [by destruct Hc|].
    cbn. by rewrite Hs, bool_decide_true.
  - rewrite !bool_decide_false by done. cbn. by rewrite Hs, bool_decide_false.
Qed.

Lemma Link_Consume_size size l u l' : Link_Consume size l = (Ok u, l') → size ≤ l_MaxMessageSize l.
Proof.
  link_run. destruct (negb _); [done|]. destruct (_ && _); [done|].
  destruct (Z.ltb_spec (l_MaxMessageSize l) size); [done|lia].
Qed.

(** The counters of a link are 32-bit values. *)
Definition wf_link (l : Link) : Prop :=
  0 ≤ l_Credit l < 2 ^ 32 ∧ 0 ≤ l_DeliveryCount l < 2 ^ 32.

(** A sequence of transfers of the given sizes. *)
Definition transfers (sizes : list Z) : go Link unit := for_each sizes Link_Consume.

Lemma transfers_sender sizes : ∀ l,
  l_State l = LinkAttached → l_Role l = RoleSender → wf_link l →
  Forall (λ n, n ≤ l_MaxMessageSize l) sizes → Z.of_nat (length sizes) ≤ l_Credit l →
  transfers sizes l =
    (Ok tt, set_link LinkAttached (l_Credit l - Z.of_nat (length sizes))
              (u32 (l_DeliveryCount l + Z.of_nat (length sizes))) l).
Proof.
  induction sizes as [|n sizes IH]; intros l Hs Hr [Hc Hd] Hz Hn.
  { cbn. unfold mret, go_ret, set_link. unfold u32. rewrite Z.mod_small, Z.sub_0_r, Z.add_0_r by lia.
    destruct l; cbn in *; by subst. }
  apply Forall_cons in Hz as [Hn0 Hz]. rewrite length_cons in *.
  unfold transfers. cbn [for_each]. unfold mbind at 1, go_bind. rewrite Link_Consume_step; [|done|lia|done].
  rewrite bool_decide_true by done. fold (transfers sizes).
  rewrite IH; cbn -[Z.of_nat]; [|done|done| |done|].
  - unfold set_link, u32. cbn -[Z.of_nat]. rewrite Zplus_mod_idemp_l, (Z.mod_small (_ - 1)) by lia.
    do 2 f_equal; [lia|]. f_equal. lia.
  - split; apply u32_range.
  - unfold u32. rewrite Z.mod_small; lia.
Qed.

(** C37. Link credit is a hard bound: an attached sender link with credit [c]
    carries exactly [c] more transfers within the size limit, counting each
    modulo [2^32], its credit reaching zero and never wrapping, and then
    refuses every transfer without a change until credit is granted again; a
    message over the link's maximum is refused without using credit. *)
Theorem Link_credit_exact (l : Link) (sizes : list Z) (big : Z) :
  l_State l = LinkAttached → l_Role l = RoleSender → wf_link l →
  Forall (λ n, n ≤ l_MaxMessageSize l) sizes → Z.of_nat (length sizes) = l_Credit l →
  l_MaxMessageSize l < big →
  ∃ l', transfers sizes l = (Ok tt, l') ∧ l_Credit l' = 0 ∧
    l_DeliveryCount l' = u32 (l_DeliveryCount l + l_Credit l) ∧
    (∀ size, Link_Consume size l' = (Err (ErrNew "link credit exhausted"), l')) ∧
    (0 < l_Credit l → Link_Consume big l = (Err (ErrNew "message exceeds link maximum"), l)).
Proof.
  intros Hs Hr Hw Hz Hn Hb. eexists. split; [apply transfers_sender; try done; lia|].
  cbn -[Z.of_nat]. rewrite Hn, Z.sub_diag. split_and!; [done|done| |].
  - intros size. link_run. cbn. by rewrite Hr.
  - intros Hc. link_run. rewrite Hs, Hr. cbn. destruct (Z.eqb_spec (l_Credit l) 0); [lia|].
    destruct (Z.ltb_spec (l_MaxMessageSize l) big); [done|lia].
Qed.

Definition demo_link : Link :=
  mkLink "lnk_1" "ssn_1" "receiver" 0 RoleSender "orders" LinkAttached 2 0 100 1.

Lemma Link_credit_exact_witness :
  Link_Consume 101 demo_link = (Err (ErrNew "message exceeds link maximum"), demo_link) ∧
  ∃ l', transfers [10; 100] demo_link = (Ok tt, l') ∧ l_Credit l' = 0.
Proof.
  destruct (Link_credit_exact demo_link [10; 100] 101) as (l' & H1 & H2 & _ & _ & H3).
  - reflexivity.
  - reflexivity.
  - split; cbn; lia.
  - repeat constructor; cbn; lia.
  - reflexivity.
  - cbn. lia.
  - split; [apply H3; cbn; lia|]. exists l'. split; [exact H1|exact H2].
Defined.

(** ** Consistency of the registry *)
Abbreviation link_inv := (reg_inv l_ID link_key).

Lemma LinkRegistry_Add_inv l r :
  link_inv r → r_items r !! l_ID l = None → link_inv (LinkRegistry_Add l r).2.
Proof.
  intros Hr Hid. unfold LinkRegistry_Add. link_run.
  case_bool_decide as Hk; cbn; [done|]. apply reg_inv_add; [done|done|]. by apply eq_None_not_Some.
Qed.

Lemma LinkRegistry_Add_result l r x r' :
  LinkRegistry_Add l r = (x, r') → x ≠ Panic ∧ (x = Ok tt → r_items r' !! l_ID l = Some l).
Proof.
  unfold LinkRegistry_Add. link_run. case_bool_decide; intros E; injection E as <- <-; (split; [done|]); [done|].
  intros _. cbn. by rewrite lookup_insert_eq.
Qed.

Lemma RemoveSession_spec (orc : Oracle) ssn r :
  link_inv r →
  wpe (LinkRegistry_RemoveSession ssn) (λ x r', x = Ok tt ∧ link_inv r' ∧
    ∀ id l, r_items r' !! id = Some l ↔ r_items r !! id = Some l ∧ l_SessionID l ≠ ssn) r.
Proof.
  intros Hr. unfold LinkRegistry_RemoveSession. wpe_auto. split; [done|]. by apply remove_owned_all.
Qed.

(** The operations of a link. *)
Inductive link_op := LAttach | LDetach | LGrant (credit : Z) | LConsume (size : Z).

Definition link_exec (o : link_op) (l : Link) : Link :=
  match o with
  | LAttach => (Link_Attach l).2
  | LDetach => (Link_Detach l).2
  | LGrant c => (Link_Grant c l).2
  | LConsume n => (Link_Consume n l).2
  end.

Lemma link_exec_key o l : l_ID (link_exec o l) = l_ID l ∧ link_key (link_exec o l) = link_key l.
Proof.
  destruct o; cbn [link_exec]; link_run; repeat case_match; simplify_eq; done.
Qed.

(** Calls on the registry with fresh link identifiers, and operations on the
    links it holds. *)
Inductive lreg_step (r : LinkRegistry) : LinkRegistry → Prop :=
  | lreg_add l x r' : r_items r !! l_ID l = None → LinkRegistry_Add l r = (x, r') → lreg_step r r'
  | lreg_remove id x r' : LinkRegistry_Remove id r = (x, r') → lreg_step r r'
  | lreg_remove_session (orc : Oracle) ssn x n n' r' :
      LinkRegistry_RemoveSession ssn (r, n) = (x, (r', n')) → lreg_step r r'
  | lreg_op id o l :
      r_items r !! id = Some l →
      lreg_step r (mkRegistry (<[id := link_exec o l]> (r_items r)) (r_keys r)).

Lemma lreg_step_inv r r' : link_inv r → lreg_step r r' → link_inv r'.
Proof.
  intros Hr [l x r1 Hid E|id x r1 E|orc c x n n' r1 E|id o l E].
  - replace r1 with (LinkRegistry_Add l r).2 by by rewrite E. by apply LinkRegistry_Add_inv.
  - unfold LinkRegistry_Remove, modify in E. simplify_eq. by apply reg_inv_remove.
  - apply (wpe_elim _ _ _ _ _ _ _ (RemoveSession_spec orc c r Hr) E).
  - destruct (link_exec_key o l) as [H1 H2]. by eapply reg_inv_update.
Qed.

(** The link registry stays consistent: after any additions of links with
    fresh identifiers, operations on them, removals and session clean-ups,
    every registered link is found under its own session and handle, and the
    clean-up of a session removes all of its links and no other. *)
Theorem link_registry_consistent (r : LinkRegistry) (orc : Oracle) (ssn : string) (n : nat) :
  rtc lreg_step link_NewRegistry r →
  (∀ id l, r_items r !! id = Some l →
     LinkRegistry_ByHandle (l_SessionID l) (l_Handle l) r = Some l) ∧
  ∃ r' n', LinkRegistry_RemoveSession ssn (r, n) = (Ok tt, (r', n')) ∧
    ∀ id l, r_items r' !! id = Some l ↔ r_items r !! id = Some l ∧ l_SessionID l ≠ ssn.
Proof.
  intros Hs. assert (link_inv r) as Hr.
  { pose proof (reg_inv_empty l_ID link_key : link_inv link_NewRegistry) as H0.
    revert H0. induction Hs as [|r0 r1 r2 H1 _ IH]; intros H0; [done|].
    apply IH. by eapply lreg_step_inv. }
  split.
  - intros id l Hid. unfold LinkRegistry_ByHandle. destruct (proj1 Hr _ _ Hid) as [_ Hc].
    unfold link_key in Hc. by rewrite Hc.
  - pose proof (RemoveSession_spec orc ssn r Hr n) as H.
    destruct (LinkRegistry_RemoveSession ssn (r, n)) as [x [r' n']]. cbn in H.
    destruct H as (-> & _ & H). eauto.
Qed.

Lemma link_registry_consistent_witness :
  LinkRegistry_ByHandle "ssn_1" 0 (LinkRegistry_Add demo_link link_NewRegistry).2 = Some demo_link.
Proof.
  destruct (link_registry_consistent (LinkRegistry_Add demo_link link_NewRegistry).2 test_oracle
              "ssn_2" O) as [H _].
  - apply rtc_once. apply (lreg_add _ demo_link (Ok tt)); reflexivity.
  - apply (H "lnk_1" demo_link). vm_compute. reflexivity.
Defined.
