(* ===== verification/Peer.v ===== *)
(** * The AMQP connection handler

    Models [internal/amqp/adapter/server.go]: the protocol handshake, the
    frame loop, the handlers of the nine performatives and the clean-up when a
    connection ends, over the shared registries and the delivery service.  A
    [world] is the server's shared state together with one peer and the two
    directions of its socket: the bytes the client will still send and the
    bytes sent to it.  Writes may fail after any prefix, reads may fail at any
    time.  A pointer to a session or link that its registry no longer holds
    is nil, and a call on it a panic.  [Start], [accept] and [Close] (listening
    and goroutines) are not modelled. *)

From Stdlib Require Import Ascii String.
From stdpp Require Import pretty.
From S2P Require Import Prelude Bytes Wire Codec Text Duration Matcher Address Message.
From S2P Require Import Transaction Env Memory BodyLog Router Delivery Connection Registry.
From S2P Require Import Session Link.

(** ** State *)
Record ServerConfig := mkServerConfig {
  sc_MaxFrame : Z; sc_IdleTimeout : duration; sc_Auth : option StaticAuthenticator }.

(** [linkIDs] is keyed by ["%d:%d"] of channel and handle. *)
Record peer := mkPeer {
  pr_connection : Connection; pr_identity : Identity;
  pr_sessionIDs : gmap Z string; pr_linkIDs : gmap string string;
  pr_deliveryConsumer : gmap Z string }.

Record world (L : Type) := mkWorld {
  w_connections : ConnRegistry; w_sessions : SessRegistry; w_links : LinkRegistry;
  w_delivery : broker L; w_peer : peer; w_in : bytes; w_out : bytes }.
Arguments mkWorld {L}.
Arguments w_connections {L}.
Arguments w_sessions {L}.
Arguments w_links {L}.
Arguments w_delivery {L}.
Arguments w_peer {L}.
Arguments w_in {L}.
Arguments w_out {L}.

Definition no_identity : Identity := mkIdentity "" "" None.

Section setters.
Context {L : Type}.
Implicit Types w : world L.

Definition set_connections (x : ConnRegistry) w : world L :=
  mkWorld x (w_sessions w) (w_links w) (w_delivery w) (w_peer w) (w_in w) (w_out w).
Definition set_sessions (x : SessRegistry) w : world L :=
  mkWorld (w_connections w) x (w_links w) (w_delivery w) (w_peer w) (w_in w) (w_out w).
Definition set_links (x : LinkRegistry) w : world L :=
  mkWorld (w_connections w) (w_sessions w) x (w_delivery w) (w_peer w) (w_in w) (w_out w).
Definition set_delivery (x : broker L) w : world L :=
  mkWorld (w_connections w) (w_sessions w) (w_links w) x (w_peer w) (w_in w) (w_out w).
Definition set_peer (x : peer) w : world L :=
  mkWorld (w_connections w) (w_sessions w) (w_links w) (w_delivery w) x (w_in w) (w_out w).
Definition set_in (x : bytes) w : world L :=
  mkWorld (w_connections w) (w_sessions w) (w_links w) (w_delivery w) (w_peer w) x (w_out w).
Definition set_out (x : bytes) w : world L :=
  mkWorld (w_connections w) (w_sessions w) (w_links w) (w_delivery w) (w_peer w) (w_in w) x.
End setters.

Definition set_sessionIDs (m : gmap Z string) (p : peer) : peer :=
  mkPeer (pr_connection p) (pr_identity p) m (pr_linkIDs p) (pr_deliveryConsumer p).
Definition set_linkIDs (m : gmap string string) (p : peer) : peer :=
  mkPeer (pr_connection p) (pr_identity p) (pr_sessionIDs p) m (pr_deliveryConsumer p).
Definition set_deliveryConsumer (m : gmap Z string) (p : peer) : peer :=
  mkPeer (pr_connection p) (pr_identity p) (pr_sessionIDs p) (pr_linkIDs p) m.
Definition set_identity (i : Identity) (p : peer) : peer :=
  mkPeer (pr_connection p) i (pr_sessionIDs p) (pr_linkIDs p) (pr_deliveryConsumer p).

(** The peer and the connection registry share the connection by pointer: a
    change is seen through both. *)
Definition set_connection {L} (c : Connection) (w : world L) : world L :=
  let p := w_peer w in
  let r := w_connections w in
  set_connections (mkConnRegistry (cr_max r) (alter (λ _, c) (k_ID c) (cr_items r)))
    (set_peer (mkPeer c (pr_identity p) (pr_sessionIDs p) (pr_linkIDs p) (pr_deliveryConsumer p)) w).

(** [fmt.Sprintf("%d:%d", channel, handle)]. *)
Definition link_slot (channel handle : Z) : string :=
  (pretty channel +:+ ":" +:+ pretty handle)%string.

(** [err.Error() == text]. *)
Definition error_text_is (e : error) (text : string) : bool :=
  match e with
  | ErrNew t | ErrConflict t | ErrContext t | ErrIO t => bool_decide (t = text)
  | _ => false
  end.

(** ** Operations *)
Section operations.
Context (cfg : ServerConfig) `{orc : Oracle, mtch : !Matcher} {L : Type} `{BodyLog L}.

Definition on_connection {A} (m : go Connection A) : env (world L) A :=
  on (λ w, pr_connection (w_peer w)) set_connection (quietly m).
Definition on_connections {A} (m : go ConnRegistry A) : env (world L) A :=
  on w_connections set_connections (quietly m).
Definition on_sessions {A} (m : go SessRegistry A) : env (world L) A :=
  on w_sessions set_sessions (quietly m).
Definition on_links {A} (m : go LinkRegistry A) : env (world L) A :=
  on w_links set_links (quietly m).
Definition on_delivery {A} (m : env (broker L) A) : env (world L) A :=
  on w_delivery set_delivery m.
Definition on_peer (f : peer → peer) : env (world L) unit :=
  update_ (λ w, set_peer (f (w_peer w)) w).

Definition server_randomID (prefix : string) : env (world L) string :=
  b ← rand_Read 10;
  mret (id_of prefix b).

(** [net.Conn.Write]: everything is taken, or an error is reported after some
    of it. *)
Definition net_Write (raw : bytes) : env (world L) nat :=
  r ← ask o_io;
  match r with
  | None => update_ (λ w, set_out (w_out w ++ raw) w);; mret (length raw)
  | Some e =>
      k ← ask o_short;
      update_ (λ w, set_out (w_out w ++ take k raw) w);;
      raise e
  end.

(** A read from the socket: a deadline or a reset may end it. *)
Definition net_Read {A} (m : go bytes A) : env (world L) A :=
  r ← ask o_io;
  match r with
  | None => on w_in set_in (quietly m)
  | Some e => raise e
  end.

Definition peer_write (channel : Z) (typ : byte) (perf : Performative) (payload : bytes) :
    env (world L) unit :=
  frame ← lift (FrameFor channel perf payload);
  let frame := mkFrame (f_Size frame) (f_DataOffset frame) typ (f_Channel frame) (f_Body frame) in
  w ← get_;
  WriteFrame net_Write frame (k_MaxFrame (pr_connection (w_peer w))).

(** The SASL exchange of [handshake], after the client's SASL header. *)
Definition handshake_sasl (auth : StaticAuthenticator) : env (world L) unit :=
  net_Write SASLHeader;;
  peer_write 0 FrameTypeSASL
    (mkPerformative DescriptorSASLMechanisms [VList (VSymbol <$> Mechanisms auth)]) [];;
  w ← get_;
  frame ← net_Read (ReadFrame (k_MaxFrame (pr_connection (w_peer w))));
  r ← try (lift (DecodePerformative (f_Body frame)));
  match r with
  | inr (init, _) =>
      guard_err (negb (bool_decide (p_Descriptor init = DescriptorSASLInit)))
        (ErrNew "expected SASL init");;
      authed ← try (Authenticate auth (Performative_String init 0) (Performative_Binary init 1));
      let code := match authed with inl _ => z2b 1 | inr _ => z2b 0 end in
      peer_write 0 FrameTypeSASL (mkPerformative DescriptorSASLOutcome [VU8 code]) [];;
      match authed with
      | inl authErr => raise authErr
      | inr who =>
          on_peer (set_identity who);;
          header ← net_Read (ReadFull 8);
          r ← try (lift (ValidateProtocolHeader header));
          match r with
          | inr protocol =>
              guard_err (negb (b2z protocol =? 0))
                (ErrNew "expected AMQP protocol header after SASL")
          | inl _ => raise (ErrNew "expected AMQP protocol header after SASL")
          end
      end
  | inl _ => raise (ErrNew "expected SASL init")
  end.

Definition handshake : env (world L) unit :=
  header ← net_Read (ReadFull 8);
  protocol ← lift (ValidateProtocolHeader header);
  (if b2z protocol =? 3 then
     match sc_Auth cfg with
     | None => raise (ErrNew "SASL requested but no authenticator configured")
     | Some auth => handshake_sasl auth
     end
   else mret tt);;
  net_Write AMQPHeader;;
  on_connection (Connection_Transition ConnHeader).

Definition set_ContainerID (s : string) (c : Connection) : Connection :=
  mkConnection (k_ID c) s (k_Remote c) (k_State c) (k_MaxFrame c) (k_IdleTimeout c) (k_OpenedAt c)
    (k_LastActivity c) (k_Sessions c).
Definition set_MaxFrame (n : Z) (c : Connection) : Connection :=
  mkConnection (k_ID c) (k_ContainerID c) (k_Remote c) (k_State c) n (k_IdleTimeout c)
    (k_OpenedAt c) (k_LastActivity c) (k_Sessions c).

Definition onOpen (perf : Performative) : env (world L) unit :=
  w ← get_;
  guard_err (negb (bool_decide (k_State (pr_connection (w_peer w)) = ConnHeader)))
    (ErrNew "duplicate open");;
  on_connection (modify (set_ContainerID (Performative_String perf 0)));;
  let peerMax := Performative_Uint perf 2 in
  (if (512 <=? peerMax) && (peerMax <? k_MaxFrame (pr_connection (w_peer w)))
   then on_connection (modify (set_MaxFrame peerMax)) else mret tt);;
  on_connection (Connection_Transition ConnOpen);;
  w ← get_;
  let c := pr_connection (w_peer w) in
  peer_write 0 FrameTypeAMQP
    (mkPerformative DescriptorOpen
       [VString "amqp-broker-core"; VNil; VU32 (k_MaxFrame c); VU16 65535;
        VU32 (u32 (Z.quot (k_IdleTimeout c) Millisecond))]) [].

Definition onBegin (channel : Z) : env (world L) unit :=
  w ← get_;
  guard_err (negb (bool_decide (k_State (pr_connection (w_peer w)) = ConnOpen)))
    (ErrNew "begin before open");;
  id ← server_randomID "ssn";
  now ← clock_Now;
  let '(r, s) := Session_Begin (session_New id (k_ID (pr_connection (w_peer w))) channel channel now) in
  lift r;;
  on_sessions (SessRegistry_Add s);;
  on_connection (Connection_AddSession channel id);;
  on_peer (λ p, set_sessionIDs (<[channel := id]> (pr_sessionIDs p)) p);;
  peer_write channel FrameTypeAMQP
    (mkPerformative DescriptorBegin [VU16 channel; VU32 0; VU32 2048; VU32 2048]) [].

Definition onAttach (channel : Z) (perf : Performative) : env (world L) unit :=
  w ← get_;
  match pr_sessionIDs (w_peer w) !! channel with
  | None => raise (ErrNew "attach on unmapped session")
  | Some sessionID =>
      let handle := Performative_Uint perf 1 in
      let remoteRole := Performative_Bool perf 2 in
      let address := Performative_String perf 5 in
      let address := if bool_decide (address = "") then Performative_String perf 6 else address in
      guard_err (bool_decide (address = "")) (ErrNew "attach source or target address required");;
      id ← server_randomID "lnk";
      let role := if remoteRole then RoleSender else RoleReceiver in
      now ← clock_Now;
      l ← lift (link_New id sessionID (Performative_String perf 0) address handle role now);
      let '(r, l) := Link_Attach l in
      lift r;;
      on_links (LinkRegistry_Add l);;
      on_sessions (with_session sessionID (Session_Attach handle id));;
      on_peer (λ p, set_linkIDs (<[link_slot channel handle := id]> (pr_linkIDs p)) p);;
      (if remoteRole then
         consumer ← on_delivery (Service_Register id address 100 AtLeastOnce);
         on_links (with_link id (Link_Grant (cn_Credit consumer)))
       else mret tt);;
      peer_write channel FrameTypeAMQP
        (mkPerformative DescriptorAttach
           [VString (Performative_String perf 0); VU32 handle; VBool (negb remoteRole); VNil; VNil;
            Performative_Field perf 5; Performative_Field perf 6]) []
  end.

(** [for i := uint32(0); i < credit; i++]: one turn per unit of credit; an
    empty queue ends the loop without an error. *)
Fixpoint flow_loop (turns : nat) (channel handle : Z) (id : string) : env (world L) unit :=
  match turns with
  | O => mret tt
  | S turns' =>
      r ← try (on_delivery (Service_Acquire id));
      match r with
      | inl e => if error_text_is e "no message available" then mret tt else raise e
      | inr (msg, deliveryID) =>
          on_links (with_link id (Link_Consume (Z.of_nat (length (m_Body msg)))));;
          peer_write channel FrameTypeAMQP
            (mkPerformative DescriptorTransfer
               [VU32 handle; VU32 deliveryID; VBinary (string_bytes (m_ID msg)); VU32 0; VBool false;
                VBool false; VNil; VNil; VNil; VNil; VBool false])
            (EncodeDataSection (m_Body msg));;
          on_peer (λ p, set_deliveryConsumer (<[deliveryID := id]> (pr_deliveryConsumer p)) p);;
          flow_loop turns' channel handle id
      end
  end.

Definition onFlow (channel : Z) (perf : Performative) : env (world L) unit :=
  w ← get_;
  match pr_sessionIDs (w_peer w) !! channel with
  | None => raise (ErrNew "flow on unknown session")
  | Some sessionID =>
      on_sessions (with_session sessionID
        (Session_Flow (Performative_Uint perf 1) (Performative_Uint perf 3)));;
      let handle := Performative_Uint perf 4 in
      match pr_linkIDs (w_peer w) !! link_slot channel handle with
      | None => mret tt
      | Some id =>
          match LinkRegistry_Get id (w_links w) with
          | None => mret tt
          | Some l =>
              let credit := Performative_Uint perf 6 in
              on_links (with_link id (Link_Grant credit));;
              if negb (bool_decide (l_Role l = RoleSender)) then mret tt
              else flow_loop (Z.to_nat credit) channel handle id
          end
      end
  end.

Definition accepted_state : value := VMap [("descriptor", VU8 (z2b 0x24)); ("value", VList [])].

Definition onTransfer (channel : Z) (perf : Performative) (payload : bytes) : env (world L) unit :=
  w ← get_;
  match pr_sessionIDs (w_peer w) !! channel with
  | None => raise (ErrNew "transfer on unknown session")
  | Some sessionID =>
      on_sessions (with_session sessionID Session_ConsumeIncoming);;
      let handle := Performative_Uint perf 0 in
      match pr_linkIDs (w_peer w) !! link_slot channel handle with
      | None => raise (ErrNew "transfer on unknown link")
      | Some id =>
          match LinkRegistry_Get id (w_links w) with
          | None => panic (* l.Role of a nil link *)
          | Some l =>
              guard_err (negb (bool_decide (l_Role l = RoleReceiver)))
                (ErrNew "transfer sent on sender link");;
              body ← lift (DecodeDataSection payload);
              on_links (with_link id (Link_Consume (Z.of_nat (length body))));;
              on_delivery (Service_Publish
                (mkPublish (l_Address l) "" None body 0 0 (Performative_Bool perf 4) ""));;
              let deliveryID := Performative_Uint perf 1 in
              if negb (Performative_Bool perf 4) then
                peer_write channel FrameTypeAMQP
                  (mkPerformative DescriptorDisposition
                     [VBool true; VU32 deliveryID; VNil; VBool true; accepted_state]) []
              else mret tt
          end
      end
  end.

(** [for id := first; id <= last; id++], left at the largest [uint32]. *)
Fixpoint disposition_loop (fuel : nat) (id last : Z) : env (world L) unit :=
  if negb (id <=? last) then mret tt
  else
    match fuel with
    | O => panic
    | S fuel' =>
        w ← get_;
        let consumer := default "" (pr_deliveryConsumer (w_peer w) !! id) in
        (if negb (bool_decide (consumer = "")) then
           try (on_delivery (Service_Settle consumer id StateAccepted));;
           on_peer (λ p, set_deliveryConsumer (delete id (pr_deliveryConsumer p)) p)
         else mret tt);;
        if id =? 2 ^ 32 - 1 then mret tt
        else disposition_loop fuel' (u32 (id + 1)) last
    end.

Definition onDisposition (perf : Performative) : env (world L) unit :=
  let first := Performative_Uint perf 1 in
  let last := if negb (is_nil (Performative_Field perf 2)) then Performative_Uint perf 2 else first in
  disposition_loop (Z.to_nat (last - first + 1)) first last.

Definition onDetach (channel : Z) (perf : Performative) : env (world L) unit :=
  w ← get_;
  match pr_sessionIDs (w_peer w) !! channel with
  | None => raise (ErrNew "detach on unknown session")
  | Some sessionID =>
      let handle := Performative_Uint perf 0 in
      let k := link_slot channel handle in
      match pr_linkIDs (w_peer w) !! k with
      | None => raise (ErrNew "unknown link handle")
      | Some id =>
          match LinkRegistry_Get id (w_links w) with
          | Some l =>
              on_links (with_link id Link_Detach);;
              if bool_decide (l_Role l = RoleSender)
              then try (on_delivery (Service_Disconnect id));; mret tt else mret tt
          | None => mret tt
          end;;
          on_links (LinkRegistry_Remove id);;
          match SessRegistry_Get sessionID (w_sessions w) with
          | Some _ => on_sessions (with_session sessionID (Session_Detach handle))
          | None => mret tt
          end;;
          on_peer (λ p, set_linkIDs (delete k (pr_linkIDs p)) p);;
          peer_write channel FrameTypeAMQP
            (mkPerformative DescriptorDetach [VU32 handle; VBool true]) []
      end
  end.

Definition onEnd (channel : Z) : env (world L) unit :=
  w ← get_;
  match pr_sessionIDs (w_peer w) !! channel with
  | None => raise (ErrNew "end on unknown session")
  | Some id =>
      try (on_sessions (with_session id Session_End));;
      on w_links set_links (LinkRegistry_RemoveSession id);;
      on_sessions (SessRegistry_Remove id);;
      on_connection (Connection_RemoveSession channel);;
      on_peer (λ p, set_sessionIDs (delete channel (pr_sessionIDs p)) p);;
      peer_write channel FrameTypeAMQP (mkPerformative DescriptorEnd []) []
  end.

Definition onClose : env (world L) unit :=
  try (on_connection (Connection_Transition ConnClosing));;
  peer_write 0 FrameTypeAMQP (mkPerformative DescriptorClose []) [];;
  on_connection (Connection_Transition ConnClosed).

Definition process (frame : Frame) : env (world L) unit :=
  pn ← wrap "decode frame on channel" (lift (DecodePerformative (f_Body frame)));
  let '(perf, n) := pn in
  payload ← lift (slice_from (f_Body frame) n);
  let d := p_Descriptor perf in
  let eqd x := bool_decide (d = x) in
  if eqd DescriptorOpen then onOpen perf
  else if eqd DescriptorBegin then onBegin (f_Channel frame)
  else if eqd DescriptorAttach then onAttach (f_Channel frame) perf
  else if eqd DescriptorFlow then onFlow (f_Channel frame) perf
  else if eqd DescriptorTransfer then onTransfer (f_Channel frame) perf payload
  else if eqd DescriptorDisposition then onDisposition perf
  else if eqd DescriptorDetach then onDetach (f_Channel frame) perf
  else if eqd DescriptorEnd then onEnd (f_Channel frame)
  else if eqd DescriptorClose then onClose
  else raise (ErrFmtS "performative not valid in connection state" (Performative_Name perf)).

(** The frame loop of [handle].  Every turn that goes on has read at least
    eight bytes, so the length of the input is enough fuel. *)
Fixpoint handle_loop (fuel : nat) : env (world L) unit :=
  match fuel with
  | O => panic
  | S fuel' =>
      w ← get_;
      frame ← net_Read (ReadFrame (k_MaxFrame (pr_connection (w_peer w))));
      now ← clock_Now;
      on_connection (Connection_Touch now);;
      process frame;;
      w ← get_;
      if bool_decide (k_State (pr_connection (w_peer w)) = ConnClosed) then mret tt
      else handle_loop fuel'
  end.

Definition handle_cleanup (id : string) : env (world L) unit :=
  on w_sessions set_sessions (SessRegistry_RemoveConnection id);;
  on_connections (ConnRegistry_Remove id);;
  try (on_connection (Connection_Transition ConnClosed));;
  mret tt.

(** [handle] for a connection from [remote]; the peer is new. *)
Definition handle (remote : string) : env (world L) unit :=
  id ← server_randomID "conn";
  now ← clock_Now;
  let c := connection_New id remote (sc_MaxFrame cfg) (sc_IdleTimeout cfg) now in
  on_connections (ConnRegistry_Add c);;
  on_peer (λ _, mkPeer c no_identity ∅ ∅ ∅);;
  deferred (handle_cleanup id)
    (handshake;;
     w ← get_;
     handle_loop (S (length (w_in w)))).
End operations.
