(* ===== verification/PeerInv.v ===== *)
(** * The invariant of the connection handler

    Weakest-precondition rules for the parts of a [world], the invariant that
    ties a peer's tables to the shared registries, and its preservation by
    every handler of [Peer.v].  The properties of the handler are in
    [PeerFacts.v]. *)

From Stdlib Require Import Ascii String.
From stdpp Require Import pretty.
From S2P Require Import Prelude Bytes Wire Codec CodecFacts Text Duration Matcher Address Message.
From S2P Require Import Transaction Env Memory BodyLog Router Delivery DeliveryInv DeliveryFacts.
From S2P Require Import Connection Registry Session Link Peer.

(** ** Rules for the parts of a world *)
Section rules.
Context `{orc : Oracle, mtch : !Matcher} {L : Type} `{BodyLogLaws L}.
Implicit Types w : world L.

Lemma wpe_on_connection {A} (m : go Connection A) (Q : res A → world L → Prop) w :
  Q (m (pr_connection (w_peer w))).1 (set_connection (m (pr_connection (w_peer w))).2 w) →
  wpe (on_connection m) Q w.
Proof. intros. unfold on_connection. wpe_auto. done. Qed.

Lemma wpe_on_connections {A} (m : go ConnRegistry A) (Q : res A → world L → Prop) w :
  Q (m (w_connections w)).1 (set_connections (m (w_connections w)).2 w) →
  wpe (on_connections m) Q w.
Proof. intros. unfold on_connections. wpe_auto. done. Qed.

Lemma wpe_on_sessions {A} (m : go SessRegistry A) (Q : res A → world L → Prop) w :
  Q (m (w_sessions w)).1 (set_sessions (m (w_sessions w)).2 w) → wpe (on_sessions m) Q w.
Proof. intros. unfold on_sessions. wpe_auto. done. Qed.

Lemma wpe_on_links {A} (m : go LinkRegistry A) (Q : res A → world L → Prop) w :
  Q (m (w_links w)).1 (set_links (m (w_links w)).2 w) → wpe (on_links m) Q w.
Proof. intros. unfold on_links. wpe_auto. done. Qed.

Lemma wpe_with_session {A} id s (m : go Session A) (Q : res A → world L → Prop) w :
  r_items (w_sessions w) !! id = Some s →
  Q (m s).1 (set_sessions (mkRegistry (<[id := (m s).2]> (r_items (w_sessions w)))
                             (r_keys (w_sessions w))) w) →
  wpe (on_sessions (with_session id m)) Q w.
Proof.
  intros Hs HQ. apply wpe_on_sessions. unfold with_session. rewrite Hs. by destruct (m s).
Qed.

Lemma wpe_with_link {A} id l (m : go Link A) (Q : res A → world L → Prop) w :
  r_items (w_links w) !! id = Some l →
  Q (m l).1 (set_links (mkRegistry (<[id := (m l).2]> (r_items (w_links w)))
                          (r_keys (w_links w))) w) →
  wpe (on_links (with_link id m)) Q w.
Proof.
  intros Hs HQ. apply wpe_on_links. unfold with_link. rewrite Hs. by destruct (m l).
Qed.

Lemma wpe_on_delivery {A} (m : env (broker L) A) (Q : res A → world L → Prop) w :
  wpe m (λ r b, Q r (set_delivery b w)) (w_delivery w) → wpe (on_delivery m) Q w.
Proof. intros. unfold on_delivery. by wpe_step. Qed.

Lemma wpe_on_peer f (Q : res unit → world L → Prop) w :
  Q (Ok tt) (set_peer (f (w_peer w)) w) → wpe (on_peer f) Q w.
Proof. intros. unfold on_peer. by wpe_step. Qed.

Lemma wpe_server_randomID prefix (Q : res string → world L → Prop) w :
  (∀ e, Q (Err e) w) → (∀ n b, o_rand n 10 = inr b → Q (Ok (id_of prefix b)) w) →
  wpe (server_randomID prefix) Q w.
Proof.
  intros He HQ n. unfold server_randomID, rand_Read, mbind, go_bind, ask. cbn.
  destruct (o_rand n 10) eqn:E; cbn; eauto.
Qed.

Lemma wpe_ask {A} (f : nat → A) (Q : res A → world L → Prop) w :
  (∀ n, Q (Ok (f n)) w) → wpe (ask f) Q w.
Proof. intros HQ n. apply HQ. Qed.

Lemma wpe_net_Write raw (Q : res nat → world L → Prop) w :
  (∀ e o, Q (Err e) (set_out (w_out w ++ o) w)) →
  Q (Ok (length raw)) (set_out (w_out w ++ raw) w) →
  wpe (net_Write raw) Q w.
Proof.
  intros He HQ. unfold net_Write. wpe_step. apply wpe_ask. intros n.
  destruct (o_io n) as [e|]; [|by wpe_auto].
  wpe_step. apply wpe_ask. intros k. wpe_auto. apply He.
Qed.

Lemma wpe_net_Read {A} (m : go bytes A) (Q : res A → world L → Prop) w :
  (∀ e, Q (Err e) w) → Q (m (w_in w)).1 (set_in (m (w_in w)).2 w) → wpe (net_Read m) Q w.
Proof.
  intros He HQ. unfold net_Read. wpe_step. apply wpe_ask. intros n.
  destruct (o_io n) as [e|]; [by wpe_auto|]. by wpe_auto.
Qed.

(** The bytes of a frame the peer sends. *)
Definition sent_frame (max : Z) (ch : Z) (typ : byte) (perf : Performative) (payload raw : bytes) : Prop :=
  ∃ body, EncodePerformative perf = Ok body ∧
    Frame_Marshal (mkFrame 0 (z2b 2) typ ch (body ++ payload)) max = Ok raw.

Lemma set_out_out o o' w : set_out o (set_out o' w) = set_out o w.
Proof. done. Qed.

Lemma wpe_peer_write ch typ perf payload (Q : res unit → world L → Prop) w :
  (∀ e o, Q (Err e) (set_out (w_out w ++ o) w)) →
  (∀ raw, sent_frame (k_MaxFrame (pr_connection (w_peer w))) ch typ perf payload raw →
     Q (Ok tt) (set_out (w_out w ++ raw) w)) →
  wpe (peer_write ch typ perf payload) Q w.
Proof.
  intros He HQ. assert (set_out (w_out w ++ []) w = w) as Hnil by (rewrite app_nil_r; by destruct w).
  unfold peer_write. wpe_step. wpe_step. pose proof (FrameFor_no_panic ch perf payload) as Hp.
  destruct (FrameFor ch perf payload) as [f|e|] eqn:Ef; [|rewrite <-Hnil; apply He|done].
  apply res_bind_Ok in Ef as (body & Eb & [= <-]). wpe_step. wpe_step. cbn [f_Size f_DataOffset f_Channel f_Body].
  unfold WriteFrame. wpe_step. wpe_step. set (fr := mkFrame _ _ _ _ _).
  assert (Frame_Marshal fr (k_MaxFrame (pr_connection (w_peer w))) ≠ Panic) as Hm
    by apply Frame_Marshal_no_panic.
  destruct (Frame_Marshal fr _) as [raw|e|] eqn:Em; [|rewrite <-Hnil; apply He|done].
  assert (sent_frame (k_MaxFrame (pr_connection (w_peer w))) ch typ perf payload raw) as Hsent
    by by exists body.
  destruct raw as [|c raw]; cbn [length write_loop]; [wpe_auto; rewrite <-Hnil; by apply HQ|].
  wpe_step. apply wpe_net_Write; [done|]. wpe_step. wpe_step.
  rewrite slice_from_Ok by done. rewrite drop_all.
  destruct (length raw); cbn [write_loop]; wpe_auto; by apply HQ.
Qed.
End rules.

(** ** The invariant *)
Section invariant.
Context {L : Type} `{BodyLogLaws L}.
Implicit Types w : world L.

(** What every outcome of a handler keeps of the shared state. *)
Record shared_inv w : Prop := {
  sh_broker : wf_broker (w_delivery w);
  sh_sessions : sess_inv (w_sessions w);
  sh_links : link_inv (w_links w) }.

(** The peer's tables point into the registries: a mapped channel at a session
    of that channel, a link slot at a link of the session mapped on its
    channel; the connection's table of sessions mirrors the peer's, and before
    the connection is open nothing is mapped. *)
Record peer_inv w : Prop := {
  pi_shared : shared_inv w;
  pi_sessions : ∀ ch id, pr_sessionIDs (w_peer w) !! ch = Some id →
    ∃ s, r_items (w_sessions w) !! id = Some s ∧ s_LocalChannel s = ch;
  pi_links : ∀ k id, pr_linkIDs (w_peer w) !! k = Some id →
    ∃ ch l, r_items (w_links w) !! id = Some l ∧
      pr_sessionIDs (w_peer w) !! ch = Some (l_SessionID l) ∧ k = link_slot ch (l_Handle l);
  pi_mirror : k_Sessions (pr_connection (w_peer w)) = pr_sessionIDs (w_peer w);
  pi_early : k_State (pr_connection (w_peer w)) = ConnStart ∨
             k_State (pr_connection (w_peer w)) = ConnHeader → pr_sessionIDs (w_peer w) = ∅ }.

(** The outcome of a handler: it does not panic, the shared state is sound,
    and the peer's tables are when the connection goes on. *)
Definition peer_post {A} (r : res A) w : Prop :=
  match r with Ok _ => peer_inv w | Err _ => shared_inv w | Panic => False end.

Lemma peer_post_ok {A} (a : A) w : peer_inv w → peer_post (Ok a) w.
Proof. done. Qed.

Lemma peer_post_err {A} e w : peer_inv w → peer_post (Err (A := A) e) w.
Proof. apply pi_shared. Qed.

Lemma peer_broker w : peer_inv w → wf_broker (w_delivery w).
Proof. intros [[] ????]. done. Qed.

Lemma shared_out o w : shared_inv w → shared_inv (set_out o w).
Proof. intros []. by split. Qed.

Lemma peer_out o w : peer_inv w → peer_inv (set_out o w).
Proof. intros [Hsh ????]. split; try done. by apply shared_out. Qed.

Lemma peer_delivery b w : peer_inv w → wf_broker b → peer_inv (set_delivery b w).
Proof. intros [[] ????] Hb. (split; [split|..]; done). Qed.

Lemma peer_consumers m w :
  peer_inv w → peer_inv (set_peer (set_deliveryConsumer m (w_peer w)) w).
Proof. intros [[] ????]. (split; [split|..]; done). Qed.

(** Two mapped channels have different sessions. *)
Lemma peer_sessions_inj w ch ch' id :
  peer_inv w → pr_sessionIDs (w_peer w) !! ch = Some id → pr_sessionIDs (w_peer w) !! ch' = Some id →
  ch = ch'.
Proof.
  intros Hi (s & Hs & <-)%(pi_sessions _ Hi) (s' & Hs' & <-)%(pi_sessions _ Hi). congruence.
Qed.

Lemma peer_connection c w :
  peer_inv w → k_Sessions c = pr_sessionIDs (w_peer w) →
  (k_State c = ConnStart ∨ k_State c = ConnHeader → pr_sessionIDs (w_peer w) = ∅) →
  peer_inv (set_connection c w).
Proof. intros [[] ????] Hc He. (split; [split|..]; done). Qed.

Lemma peer_session_update id s s' w :
  peer_inv w → r_items (w_sessions w) !! id = Some s → s_ID s' = s_ID s →
  s_ConnectionID s' = s_ConnectionID s → s_LocalChannel s' = s_LocalChannel s →
  peer_inv (set_sessions (mkRegistry (<[id := s']> (r_items (w_sessions w))) (r_keys (w_sessions w))) w).
Proof.
  intros [[Hb Hss Hl] H1 H2 H3 H4] Hs E1 E2 E3. split; [split| | | |]; try done.
  - eapply reg_inv_update; [done..|]. unfold session_key. by rewrite E2, E3.
  - intros ch i Hi. destruct (H1 _ _ Hi) as (x & Hx & Hc). cbn.
    destruct (decide (id = i)) as [<-|Hne].
    + exists s'. rewrite lookup_insert_eq. split; [done|]. rewrite E3. congruence.
    + exists x. by rewrite lookup_insert_ne.
Qed.

Lemma peer_link_update id l l' w :
  peer_inv w → r_items (w_links w) !! id = Some l → l_ID l' = l_ID l →
  l_SessionID l' = l_SessionID l → l_Handle l' = l_Handle l →
  peer_inv (set_links (mkRegistry (<[id := l']> (r_items (w_links w))) (r_keys (w_links w))) w).
Proof.
  intros [[Hb Hss Hl] H1 H2 H3 H4] Hs E1 E2 E3. split; [split| | | |]; try done.
  - eapply reg_inv_update; [done..|]. unfold link_key. by rewrite E2, E3.
  - intros k i Hi. destruct (H2 _ _ Hi) as (ch & x & Hx & Hc & Hk). exists ch. cbn.
    destruct (decide (id = i)) as [<-|Hne].
    + exists l'. rewrite lookup_insert_eq, E2, E3. rewrite Hs in Hx. by injection Hx as ->.
    + exists x. by rewrite lookup_insert_ne.
Qed.

Lemma peer_link_add l w :
  peer_inv w → r_items (w_links w) !! l_ID l = None →
  peer_inv (set_links (LinkRegistry_Add l (w_links w)).2 w).
Proof.
  intros [[Hb Hss Hl] H1 H2 H3 H4] Hf. split; [split| | | |]; try done.
  - by apply LinkRegistry_Add_inv.
  - intros k i Hi. destruct (H2 _ _ Hi) as (ch & x & Hx & Hc & Hk). exists ch, x. split; [|done].
    cbn. unfold LinkRegistry_Add, guard_err, mbind, go_bind, gets, raise, mret, go_ret, modify, id.
    case_bool_decide; [done|]. cbn. rewrite lookup_insert_ne; [done|]. congruence.
Qed.

Lemma peer_session_add s w :
  peer_inv w → r_items (w_sessions w) !! s_ID s = None →
  peer_inv (set_sessions (SessRegistry_Add s (w_sessions w)).2 w).
Proof.
  intros [[Hb Hss Hl] H1 H2 H3 H4] Hf. split; [split| | | |]; try done.
  - by apply SessRegistry_Add_inv.
  - intros ch i Hi. destruct (H1 _ _ Hi) as (x & Hx & Hc). exists x. split; [|done].
    cbn. unfold SessRegistry_Add, guard_err, mbind, go_bind, gets, raise, mret, go_ret, modify, id.
    case_bool_decide; [done|]. cbn. rewrite lookup_insert_ne; [done|]. congruence.
Qed.
End invariant.

(** ** The handlers keep it *)
Lemma Transition_eq next c :
  Connection_Transition next c =
    if transition_valid (k_State c) next then (Ok tt, set_ConnState next c)
    else (Err (ErrNew "invalid connection state transition"), c).
Proof.
  unfold Connection_Transition, guard_err, mbind, go_bind, gets, id. by destruct (transition_valid _ _).
Qed.

Lemma AddSession_eq ch sid c :
  k_State c = ConnOpen →
  Connection_AddSession ch sid c =
    if bool_decide (is_Some (k_Sessions c !! ch)) then (Err (ErrNew "channel already in use"), c)
    else (Ok tt, set_Sessions (<[ch := sid]> (k_Sessions c)) c).
Proof.
  intros Ho. unfold Connection_AddSession, guard_err, mbind, go_bind, gets, id. rewrite Ho.
  by destruct (bool_decide (is_Some _)).
Qed.

(** The identifiers the random source gives out are not in use. *)
Definition Fresh {L} (orc : Oracle) (w : world L) : Prop :=
  ∀ n b, o_rand n 10 = inr b →
    r_items (w_sessions w) !! id_of "ssn" b = None ∧ r_items (w_links w) !! id_of "lnk" b = None.

Section handlers.
Context `{orc : Oracle, mtch : !Matcher} {L : Type} `{BodyLogLaws L}.
Implicit Types w : world L.

Lemma wpe_session_op {A} id s o (m : go Session A) (Q : res A → world L → Prop) w :
  peer_inv w → r_items (w_sessions w) !! id = Some s →
  (m s).2 = sess_exec o s → (m s).1 ≠ Panic →
  (∀ e r, peer_inv (set_sessions r w) → Q (Err e) (set_sessions r w)) →
  (∀ a r, peer_inv (set_sessions r w) → Q (Ok a) (set_sessions r w)) →
  wpe (on_sessions (with_session id m)) Q w.
Proof.
  intros Hi Hs Ho Hp He HQ. eapply wpe_with_session; [done|]. rewrite Ho.
  destruct (sess_exec_id o s) as (E1 & E2 & E3).
  pose proof (peer_session_update id s (sess_exec o s) w Hi Hs E1 E2 E3) as Hi'.
  destruct (m s).1; [by apply HQ|by apply He|done].
Qed.

Lemma wpe_link_op {A} id l o (m : go Link A) (Q : res A → world L → Prop) w :
  peer_inv w → r_items (w_links w) !! id = Some l →
  (m l).2 = link_exec o l → (m l).1 ≠ Panic →
  (∀ e r, peer_inv (set_links r w) → Q (Err e) (set_links r w)) →
  (∀ a r, peer_inv (set_links r w) → (m l).1 = Ok a → Q (Ok a) (set_links r w)) →
  wpe (on_links (with_link id m)) Q w.
Proof.
  intros Hi Hs Ho Hp He HQ. eapply wpe_with_link; [done|]. rewrite Ho.
  assert (l_ID (link_exec o l) = l_ID l ∧ l_SessionID (link_exec o l) = l_SessionID l ∧
          l_Handle (link_exec o l) = l_Handle l) as (E1 & E2 & E3).
  { destruct o; cbn [link_exec]; link_run; repeat case_match; simplify_eq; done. }
  pose proof (peer_link_update id l (link_exec o l) w Hi Hs E1 E2 E3) as Hi'.
  destruct (m l).1; [by apply HQ|by apply He|done].
Qed.

Lemma wpe_delivery_safe {A} (m : env (broker L) A) (Q : res A → world L → Prop) w :
  wpe m (safe_post (w_delivery w)) (w_delivery w) → peer_inv w →
  (∀ e b, peer_inv (set_delivery b w) → Q (Err e) (set_delivery b w)) →
  (∀ a b, peer_inv (set_delivery b w) → Q (Ok a) (set_delivery b w)) →
  wpe (on_delivery m) Q w.
Proof.
  intros Hm Hi He HQ. apply wpe_on_delivery. eapply wpe_mono; [exact Hm|].
  intros [a|e|] b (Hp & Hw & _); [| |done]; auto using peer_delivery.
Qed.

Lemma peer_write_post ch typ perf payload w :
  peer_inv w → wpe (peer_write ch typ perf payload) peer_post w.
Proof.
  intros Hi. apply wpe_peer_write; intros.
  - by apply peer_post_err, peer_out.
  - by apply peer_post_ok, peer_out.
Qed.

Lemma onOpen_post perf w : peer_inv w → wpe (onOpen perf) peer_post w.
Proof.
  intros Hi. unfold onOpen. wpe_step. wpe_step. wpe_step. wpe_step; [by apply peer_post_err|].
  apply negb_false_iff, bool_decide_eq_true in H1.
  pose proof (pi_early _ Hi (or_intror H1)) as Hempty.
  assert (∀ w', peer_inv w' → k_State (pr_connection (w_peer w')) = ConnHeader →
    wpe (on_connection (Connection_Transition ConnOpen);;
      w ← get_; peer_write 0 FrameTypeAMQP
        (mkPerformative DescriptorOpen
           [VString "amqp-broker-core"; VNil; VU32 (k_MaxFrame (pr_connection (w_peer w))); VU16 65535;
            VU32 (u32 (Z.quot (k_IdleTimeout (pr_connection (w_peer w))) Millisecond))]) []) peer_post w')
    as Hrest.
  { intros w' Hi' Hh. wpe_step. apply wpe_on_connection. rewrite Transition_eq, Hh. cbn [transition_valid].
    rewrite bool_decide_true by done. cbn [orb fst snd]. wpe_step. wpe_step. apply peer_write_post, peer_connection; [done|by apply Hi'|].
    cbn. by intros [?|?]. }
  wpe_step. apply wpe_on_connection. cbn [modify fst snd].
  assert (peer_inv (set_connection (set_ContainerID (Performative_String perf 0) (pr_connection (w_peer w))) w))
    as Hi1 by (apply peer_connection; [done|by apply Hi|done]).
  wpe_step. destruct ((512 <=? _) && _); [|wpe_step; by apply Hrest].
  apply wpe_on_connection. cbn [modify fst snd]. apply Hrest; [|done].
  apply peer_connection; [done|by apply Hi1|done].
Qed.

Lemma onBegin_post ch w : peer_inv w → Fresh orc w → wpe (onBegin ch) peer_post w.
Proof.
  intros Hi Hf. unfold onBegin. wpe_step. wpe_step. wpe_step. wpe_step; [by apply peer_post_err|].
  apply negb_false_iff, bool_decide_eq_true in H1. wpe_step.
  apply wpe_server_randomID; [by intros; apply peer_post_err|]. intros n b Hb.
  destruct (Hf n b Hb) as [Hs _]. wpe_step. wpe_step.
  rewrite (surjective_pairing (Session_Begin _)). set (s := (Session_Begin _).2).
  change (Session_Begin _).1 with (Ok tt : res unit). wpe_step. wpe_step. wpe_step. apply wpe_on_sessions. pose proof (peer_session_add s w Hi Hs) as Hi1.
  destruct (SessRegistry_Add s (w_sessions w)) as [r reg] eqn:Er. cbn [fst snd] in *.
  destruct (SessRegistry_Add_result _ _ _ _ Er) as [Hp Hreg].
  destruct r as [[]|e|]; [|by apply peer_post_err|done].
  wpe_step. apply wpe_on_connection. cbn [w_peer set_sessions].
  rewrite AddSession_eq by done. case_bool_decide as Hk; cbn [fst snd].
  { apply peer_post_err, peer_connection; [done|by apply Hi|]. cbn. rewrite H1. by intros [?|?]. }
  wpe_step. apply wpe_on_peer. cbn. apply peer_write_post.
  apply not_eq_None_Some in Hk || apply eq_None_not_Some in Hk. rewrite (pi_mirror _ Hi) in Hk.
  destruct Hi1 as [[] J1 J2 J3 J4]. split; [split| | | |]; try done; cbn.
  - intros c i [[<- <-]|[Hne Hx]]%lookup_insert_Some; [exists s; split; [by apply Hreg|done]|by apply J1].
  - intros k i Hx. destruct (J2 _ _ Hx) as (c & l & Hl & Hc & ->). exists c, l.
    split_and!; [done| |done]. rewrite lookup_insert_ne; [done|]. intros <-. cbn in Hc. congruence.
  - cbn in J3. by rewrite J3.
  - rewrite H1. by intros [?|?].
Qed.
Lemma link_New_Ok id ssn name a h role now l :
  link_New id ssn name a h role now = Ok l →
  l_ID l = id ∧ l_SessionID l = ssn ∧ l_Handle l = h ∧ l_State l = LinkDetached.
Proof. unfold link_New. case_match; [done|]. by intros [= <-]. Qed.

Lemma onAttach_post ch perf w : peer_inv w → Fresh orc w → wpe (onAttach ch perf) peer_post w.
Proof.
  intros Hi Hf. unfold onAttach. wpe_step. wpe_step.
  destruct (pr_sessionIDs (w_peer w) !! ch) as [sid|] eqn:Es; [|wpe_auto; by apply peer_post_err].
  destruct (pi_sessions _ Hi _ _ Es) as (s & Hs & Hch).
  wpe_step. wpe_step; [by apply peer_post_err|]. wpe_step.
  apply wpe_server_randomID; [by intros; apply peer_post_err|]. intros n b Hb.
  destruct (Hf n b Hb) as [_ Hl]. wpe_step. wpe_step. wpe_step. wpe_step.
  destruct (link_New _ _ _ _ _ _ _) as [l|e|] eqn:El; [|by apply peer_post_err|].
  2: { unfold link_New in El. by case_match. }
  apply link_New_Ok in El as (E1 & E2 & E3 & E4).
  set (l1 := set_link LinkAttached (l_Credit l) (l_DeliveryCount l) l).
  replace (Link_Attach l) with (Ok tt : res unit, l1) by (unfold Link_Attach, guard_err, mbind, go_bind, gets, id; by rewrite E4).
  wpe_step. wpe_step. wpe_step. apply wpe_on_links.
  assert (r_items (w_links w) !! l_ID l1 = None) as Hl1 by (cbn; by rewrite E1).
  pose proof (peer_link_add l1 w Hi Hl1) as Hi1.
  destruct (LinkRegistry_Add l1 (w_links w)) as [r reg] eqn:Er. cbn [fst snd] in *.
  destruct (LinkRegistry_Add_result _ _ _ _ Er) as [Hp Hreg]. cbn in Hreg. rewrite E1 in Hreg.
  destruct r as [[]|e|]; [|by apply peer_post_err|done]. specialize (Hreg eq_refl).
  wpe_step. apply (wpe_session_op sid s (OpAttach (Performative_Uint perf 1) (id_of "lnk" b))); [done|done|done| | |].
  { unfold Session_Attach. sess_run. by repeat case_match; simplify_eq. }
  { intros. by apply peer_post_err. }
  intros [] reg2 Hi2. wpe_step. apply wpe_on_peer.
  set (w2 := set_peer _ _).
  assert (peer_inv w2 ∧ r_items (w_links w2) !! id_of "lnk" b = Some l1) as [Hi3 Hl3].
  { split; [|done]. destruct Hi2 as [[] J1 J2 J3 J4]. split; [split| | | |]; try done.
    subst w2; cbn. intros k i [[<- <-]|[Hne Hx]]%lookup_insert_Some; [|by apply J2].
    exists ch, l1. cbn. by rewrite E2, E3. }
  clearbody w2. clear -Hi3 Hl3. wpe_step.
  destruct (Performative_Bool perf 2); [|wpe_step; by apply peer_write_post].
  wpe_step. apply wpe_delivery_safe; [apply Register_safe; [lia|by apply peer_broker]|done|by intros; apply peer_post_err|].
  intros c b' Hi4. apply (wpe_link_op (id_of "lnk" b) l1 (LGrant (cn_Credit c))); [done..| |].
  - intros. by apply peer_post_err.
  - intros. by apply peer_write_post.
Qed.

Lemma flow_loop_post turns ch h id k : ∀ w,
  peer_inv w → pr_linkIDs (w_peer w) !! k = Some id →
  wpe (flow_loop turns ch h id) peer_post w.
Proof.
  induction turns as [|turns IH]; intros w Hi Hk; cbn [flow_loop]; [by wpe_auto|].
  wpe_step. wpe_step. apply wpe_delivery_safe; [by apply Acquire_safe, peer_broker|done| |].
  { intros e b Hb. case_match; wpe_auto; [done|by apply peer_post_err]. }
  intros [msg d] b Hb. destruct (pi_links _ Hi _ _ Hk) as (c & l & Hl & _). wpe_step.
  apply (wpe_link_op id l (LConsume (Z.of_nat (length (m_Body msg))))); [done|done|done| | |].
  { link_run. by repeat case_match; simplify_eq. }
  { intros. by apply peer_post_err. }
  intros [] reg Hi2 _. wpe_step. apply wpe_peer_write; [intros; by apply peer_post_err, peer_out|].
  intros raw _. wpe_step. apply wpe_on_peer. apply IH; [|done]. by apply peer_consumers, peer_out.
Qed.

Lemma onFlow_post ch perf w : peer_inv w → wpe (onFlow ch perf) peer_post w.
Proof.
  intros Hi. unfold onFlow. wpe_step. wpe_step.
  destruct (pr_sessionIDs (w_peer w) !! ch) as [sid|] eqn:Es; [|wpe_auto; by apply peer_post_err].
  destruct (pi_sessions _ Hi _ _ Es) as (s & Hs & Hch). wpe_step.
  apply (wpe_session_op sid s (OpFlow (Performative_Uint perf 1) (Performative_Uint perf 3))); [done..| |].
  { intros. by apply peer_post_err. }
  intros [] reg Hi1. destruct (pr_linkIDs (w_peer w) !! _) as [id|] eqn:Ek; [|by wpe_auto].
  unfold LinkRegistry_Get. destruct (r_items (w_links w) !! id) as [l|] eqn:El; [|by wpe_auto].
  wpe_step. apply (wpe_link_op id l (LGrant (Performative_Uint perf 6))); [done..| |].
  { intros. by apply peer_post_err. }
  intros [] reg2 Hi2 _. destruct (negb _); [by wpe_auto|]. by eapply flow_loop_post.
Qed.

Lemma onTransfer_post ch perf payload w : peer_inv w → wpe (onTransfer ch perf payload) peer_post w.
Proof.
  intros Hi. unfold onTransfer. wpe_step. wpe_step.
  destruct (pr_sessionIDs (w_peer w) !! ch) as [sid|] eqn:Es; [|wpe_auto; by apply peer_post_err].
  destruct (pi_sessions _ Hi _ _ Es) as (s & Hs & Hch). wpe_step.
  apply (wpe_session_op sid s OpConsume); [done..| | |].
  { sess_run. by repeat case_match; simplify_eq. }
  { intros. by apply peer_post_err. }
  intros [] reg Hi1. destruct (pr_linkIDs (w_peer w) !! _) as [id|] eqn:Ek; [|wpe_auto; by apply peer_post_err].
  destruct (pi_links _ Hi _ _ Ek) as (c & l & Hl & _). unfold LinkRegistry_Get. rewrite Hl.
  wpe_step. wpe_step; [by apply peer_post_err|]. wpe_step. wpe_step.
  pose proof (DecodeDataSection_no_panic payload) as Hd.
  destruct (DecodeDataSection payload) as [body|e|]; [|by apply peer_post_err|done].
  wpe_step. apply (wpe_link_op id l (LConsume (Z.of_nat (length body)))); [done..| | |].
  { link_run. by repeat case_match; simplify_eq. }
  { intros. by apply peer_post_err. }
  intros [] reg2 Hi2 _. wpe_step. apply wpe_delivery_safe; [by apply Publish_safe, peer_broker|done|by intros; apply peer_post_err|].
  intros ms b Hb. destruct (Performative_Bool perf 4); cbn [negb]; [by wpe_auto|]. by apply peer_write_post.
Qed.
(** *** Dispositions *)
(** The entries a disposition for [first .. last] leaves in the table. *)
Definition settled_range (first last : Z) (m m' : gmap Z string) : Prop :=
  ∀ d c, m' !! d = Some c ↔ m !! d = Some c ∧ (first ≤ d ≤ last → c = "").

Definition disposed (first last : Z) w w' : Prop :=
  peer_inv w' ∧ w_sessions w' = w_sessions w ∧ w_links w' = w_links w ∧ w_out w' = w_out w ∧
  pr_connection (w_peer w') = pr_connection (w_peer w) ∧
  settled_range first last (pr_deliveryConsumer (w_peer w)) (pr_deliveryConsumer (w_peer w')).

Lemma disposed_done id last w : last < id → peer_inv w → disposed id last w w.
Proof. intros Hlt Hi. split_and!; try done. intros d c. split; [|by intros []]. intros ?. split; [done|lia]. Qed.

Lemma disposed_trans id last w w1 w2 :
  id ≤ last → disposed id id w w1 → disposed (id + 1) last w1 w2 → disposed id last w w2.
Proof.
  intros Hle (_ & E1 & E2 & E3 & E4 & H1) (Hi & F1 & F2 & F3 & F4 & H2).
  split_and!; try congruence. intros d c. rewrite (H2 d c), (H1 d c).
  split; intros [A B]; (split; [|try lia]).
  - apply A.
  - intros Hd. destruct (decide (d = id)) as [->|]; [by apply A|apply B; lia].
  - split; [done|]. intros. apply B. lia.
  - intros. apply B. lia.
Qed.

Lemma disposition_turn id w :
  peer_inv w →
  wpe ((if negb (bool_decide (default "" (pr_deliveryConsumer (w_peer w) !! id) = "")) then
          try (on_delivery (Service_Settle (default "" (pr_deliveryConsumer (w_peer w) !! id)) id StateAccepted));;
          on_peer (λ p, set_deliveryConsumer (delete id (pr_deliveryConsumer p)) p)
        else mret tt))
    (λ r w', r = Ok tt ∧ disposed id id w w') w.
Proof.
  intros Hi. case_bool_decide as Hc; cbn [negb].
  - wpe_auto. split; [done|]. split_and!; try done. intros d c. split; [|by intros []]. intros Hd.
    split; [done|]. intros Hr. assert (d = id) as -> by lia. by rewrite Hd in Hc.
  - assert (∀ b, peer_inv (set_delivery b w) →
      disposed id id w (set_peer (set_deliveryConsumer (delete id (pr_deliveryConsumer (w_peer w))) (w_peer w))
        (set_delivery b w))) as Hd.
    { intros b Hb. split_and!; try done; [by apply (peer_consumers _ (set_delivery b w))|].
      intros d c. cbn. rewrite lookup_delete_Some. split.
      - intros [Hne Hx]. split; [done|]. lia.
      - intros [Hx Hr]. split; [|done]. intros <-. rewrite Hx in Hc. by destruct Hc; apply Hr. }
    wpe_step. wpe_step. apply wpe_delivery_safe; [by apply Settle_safe, peer_broker|done| |];
      intros x b Hb; apply wpe_on_peer; (split; [done|]); by apply Hd.
Qed.

Lemma disposition_loop_spec fuel : ∀ id last w,
  0 ≤ id < 2 ^ 32 → last < 2 ^ 32 → last - id + 1 ≤ Z.of_nat fuel → peer_inv w →
  wpe (disposition_loop fuel id last) (λ r w', r = Ok tt ∧ disposed id last w w') w.
Proof.
  induction fuel as [|fuel IH]; intros id last w Hid Hl Hf Hi; cbn [disposition_loop];
    (destruct (Z.leb_spec id last) as [Hle|Hlt]; cbn [negb];
      [|wpe_auto; split; [done|]; by apply disposed_done]); [lia|].
  wpe_step. wpe_step. wpe_step. eapply wpe_mono; [by apply disposition_turn|].
  intros r w1 [-> Hd1]. destruct (Z.eqb_spec id (2 ^ 32 - 1)) as [->|Hne].
  - wpe_auto. split; [done|]. replace last with (2 ^ 32 - 1) by lia. exact Hd1.
  - replace (u32 (id + 1)) with (id + 1) by (unfold u32; rewrite Z.mod_small; lia).
    eapply wpe_mono; [apply IH; [lia|lia|lia|apply Hd1]|].
    intros r w2 [-> Hd2]. split; [done|]. by eapply disposed_trans.
Qed.

Lemma Uint_range p i : Forall wf_value (p_Fields p) → 0 ≤ Performative_Uint p i < 2 ^ 32.
Proof.
  intros Hp. unfold Performative_Uint.
  assert (wf_value (Performative_Field p i)) as Hv.
  { unfold Performative_Field. destruct (_ || _); [done|].
    destruct (p_Fields p !! Z.to_nat i) as [v|] eqn:Ev; [|done]. rewrite Forall_lookup in Hp. by eapply Hp. }
  destruct (Performative_Field p i) as [| |x| | | | | | | | |]; cbn in Hv |- *; try lia.
  - pose proof (b2z_range x). lia.
  - apply u32_range.
Qed.

(** The range of deliveries a disposition names. *)
Definition disposition_last (perf : Performative) : Z :=
  if negb (is_nil (Performative_Field perf 2)) then Performative_Uint perf 2 else Performative_Uint perf 1.

Lemma onDisposition_spec perf w :
  Forall wf_value (p_Fields perf) → peer_inv w →
  wpe (onDisposition perf) (λ r w', r = Ok tt ∧
    disposed (Performative_Uint perf 1) (disposition_last perf) w w') w.
Proof.
  intros Hp Hi. pose proof (Uint_range perf 1 Hp). pose proof (Uint_range perf 2 Hp).
  unfold onDisposition, disposition_last.
  set (last := if negb _ then _ else _). assert (last < 2 ^ 32) by (subst last; case_match; lia).
  clearbody last. apply disposition_loop_spec; [done|done|lia|done].
Qed.

(** *** Detach, end and close *)
Lemma peer_link_remove k id w :
  peer_inv w → pr_linkIDs (w_peer w) !! k = Some id →
  peer_inv (set_peer (set_linkIDs (delete k (pr_linkIDs (w_peer w))) (w_peer w))
              (set_links (remove_item link_key id (w_links w)) w)).
Proof.
  intros Hi Hk. pose proof Hi as [[] J1 J2 J3 J4]. split; [split| | | |]; try done; cbn.
  - by apply reg_inv_remove.
  - intros k' i [Hne Hx]%lookup_delete_Some. destruct (J2 _ _ Hx) as (c & l & Hl & Hc & E).
    exists c, l. rewrite remove_item_ne; [done|]. intros ->.
    destruct (J2 _ _ Hk) as (c' & l' & Hl' & Hc' & E'). apply Hne. rewrite Hl in Hl'. injection Hl' as <-.
    rewrite E, E'. f_equal. by eapply (peer_sessions_inj w).
Qed.

Lemma onDetach_post ch perf w : peer_inv w → wpe (onDetach ch perf) peer_post w.
Proof.
  intros Hi. unfold onDetach. wpe_step. wpe_step.
  destruct (pr_sessionIDs (w_peer w) !! ch) as [sid|] eqn:Es; [|wpe_auto; by apply peer_post_err].
  destruct (pr_linkIDs (w_peer w) !! _) as [id|] eqn:Ek; [|wpe_auto; by apply peer_post_err].
  destruct (pi_sessions _ Hi _ _ Es) as (s & Hs & Hch).
  destruct (pi_links _ Hi _ _ Ek) as (c & l & Hl & _). unfold LinkRegistry_Get, SessRegistry_Get.
  rewrite Hl, Hs. set (k := link_slot _ _) in *.
  assert (∀ w', peer_inv w' → w_peer w' = w_peer w → w_sessions w' = w_sessions w →
    wpe (on_links (LinkRegistry_Remove id);;
         on_sessions (with_session sid (Session_Detach (Performative_Uint perf 0)));;
         on_peer (λ p, set_linkIDs (delete k (pr_linkIDs p)) p);;
         peer_write ch FrameTypeAMQP
            (mkPerformative DescriptorDetach [VU32 (Performative_Uint perf 0); VBool true]) [])
      peer_post w') as Hrest.
  { intros w' Hi' Ep Esess. wpe_step. apply wpe_on_links. cbn [LinkRegistry_Remove modify fst snd].
    wpe_step. eapply wpe_with_session; [cbn; by rewrite Esess|]. cbn [Session_Detach modify fst snd].
    wpe_step. apply wpe_on_peer. apply peer_write_post.
    assert (pr_linkIDs (w_peer w') !! k = Some id) as Ek' by by rewrite Ep.
    pose proof (peer_link_remove k id w' Hi' Ek') as Hi2.
    refine (peer_session_update sid s _ _ Hi2 _ _ _ _); [cbn; by rewrite Esess|done..]. }
  wpe_step. wpe_step. apply (wpe_link_op id l LDetach); [done..|by intros; apply peer_post_err|].
  intros [] reg Hi1 _. case_bool_decide; [|wpe_step; by apply Hrest].
  wpe_step. wpe_step. apply wpe_delivery_safe; [by apply Disconnect_safe, peer_broker|done| |];
    intros x b Hb; wpe_step; by apply Hrest.
Qed.

(** What is left when the session of a channel without link slots ends. *)
Lemma peer_end ch id s c reg w :
  peer_inv w → pr_sessionIDs (w_peer w) !! ch = Some id →
  (∀ h, pr_linkIDs (w_peer w) !! link_slot ch h = None) →
  link_inv reg →
  (∀ i l, r_items reg !! i = Some l ↔ r_items (w_links w) !! i = Some l ∧ l_SessionID l ≠ id) →
  k_Sessions c = delete ch (pr_sessionIDs (w_peer w)) →
  k_State c = k_State (pr_connection (w_peer w)) →
  r_items (w_sessions w) !! id = Some s →
  let w1 := set_links reg (set_sessions (remove_item session_key id (w_sessions w)) w) in
  let p := w_peer (set_connection c w1) in
  peer_inv (set_peer (set_sessionIDs (delete ch (pr_sessionIDs p)) p) (set_connection c w1)).
Proof.
  intros Hi Hch Hslots Hreg Hitems Hc Hst Hs w1 p. pose proof Hi as [[] J1 J2 J3 J4].
  split; [split| | | |]; try done; cbn.
  - by apply reg_inv_remove.
  - intros c' i [Hne Hx]%lookup_delete_Some. destruct (J1 _ _ Hx) as (x & Hx1 & Hx2). exists x.
    rewrite remove_item_ne; [done|]. intros ->. apply Hne. by eapply (peer_sessions_inj w).
  - intros k i Hx. destruct (J2 _ _ Hx) as (c' & l & Hl & Hc' & ->). exists c', l.
    assert (ch ≠ c') as Hne by (intros <-; by rewrite Hslots in Hx).
    split_and!; [|by rewrite lookup_delete_ne|done]. apply Hitems. split; [done|].
    intros E. apply Hne. rewrite E in Hc'. by eapply (peer_sessions_inj w).
  - rewrite Hst. intros He. by rewrite J4, delete_empty.
Qed.

Lemma onEnd_post ch w :
  peer_inv w → (∀ h, pr_linkIDs (w_peer w) !! link_slot ch h = None) →
  wpe (onEnd ch) peer_post w.
Proof.
  intros Hi Hslots. unfold onEnd. wpe_step. wpe_step.
  destruct (pr_sessionIDs (w_peer w) !! ch) as [id|] eqn:Es; [|wpe_auto; by apply peer_post_err].
  destruct (pi_sessions _ Hi _ _ Es) as (s & Hs & Hch).
  assert (∀ reg0, peer_inv (set_sessions reg0 w) →
    wpe (on w_links set_links (LinkRegistry_RemoveSession id);;
      on_sessions (SessRegistry_Remove id);;
      on_connection (Connection_RemoveSession ch);;
      on_peer (λ p, set_sessionIDs (delete ch (pr_sessionIDs p)) p);;
      peer_write ch FrameTypeAMQP (mkPerformative DescriptorEnd []) []) peer_post (set_sessions reg0 w))
    as Hrest.
  { intros reg0 Hi0. destruct (pi_sessions _ Hi0 _ _ Es) as (s' & Hs' & _).
    wpe_step. wpe_step. eapply wpe_mono; [apply RemoveSession_spec, Hi0|].
    intros r reg (-> & Hreg & Hitems). wpe_step. apply wpe_on_sessions. cbn [SessRegistry_Remove modify fst snd].
    wpe_step. apply wpe_on_connection. cbn [Connection_RemoveSession modify fst snd].
    wpe_step. apply wpe_on_peer. apply peer_write_post.
    apply (peer_end ch id s' _ reg (set_sessions reg0 w)); try done. cbn. by rewrite (pi_mirror _ Hi). }
  wpe_step. wpe_step. apply (wpe_session_op id s OpEnd); [done..| | |].
  - sess_run. by repeat case_match; simplify_eq.
  - intros e reg Hr. by apply Hrest.
  - intros [] reg Hr. by apply Hrest.
Qed.

Lemma onClose_post w : peer_inv w → wpe onClose peer_post w.
Proof.
  intros Hi. assert (∀ next w', next = ConnClosing ∨ next = ConnClosed → peer_inv w' →
    peer_inv (set_connection (set_ConnState next (pr_connection (w_peer w'))) w')) as Hset.
  { intros next w' Hn Hw'. apply peer_connection; [done|by apply Hw'|]. cbn.
    intros [E|E]; destruct Hn; congruence. }
  assert (∀ w', peer_inv w' → peer_inv (set_connection (pr_connection (w_peer w')) w')) as Hsame.
  { intros w' Hw'. apply peer_connection; [done|by apply Hw'..]. }
  assert (∀ w', peer_inv w' → wpe (peer_write 0 FrameTypeAMQP (mkPerformative DescriptorClose []) [];;
    on_connection (Connection_Transition ConnClosed)) peer_post w') as Hrest.
  { intros w' Hw'. wpe_step. apply wpe_peer_write; [intros; by apply peer_post_err, peer_out|].
    intros raw _. apply wpe_on_connection. rewrite Transition_eq.
    pose proof (peer_out (w_out w' ++ raw) w' Hw') as Ho.
    destruct (transition_valid _ _); cbn [fst snd]; [|by apply peer_post_err, Hsame].
    apply Hset; [by right|done]. }
  unfold onClose. wpe_step. wpe_step. apply wpe_on_connection. rewrite Transition_eq.
  destruct (transition_valid _ _); cbn [fst snd]; [|by apply Hrest, Hsame].
  apply Hrest, Hset; [by left|done].
Qed.
(** A client that ends a session has detached the links of its channel. *)
Definition clean_end (f : Frame) w : Prop :=
  ∀ p n, DecodePerformative (f_Body f) = Ok (p, n) → p_Descriptor p = DescriptorEnd →
    ∀ h, pr_linkIDs (w_peer w) !! link_slot (f_Channel f) h = None.

Lemma process_post f w : peer_inv w → Fresh orc w → clean_end f w → wpe (process f) peer_post w.
Proof.
  intros Hi Hf Hc. unfold process. wpe_step. wpe_step. wpe_step.
  pose proof (DecodePerformative_spec (f_Body f)) as Hd. unfold clean_end in Hc.
  destruct (DecodePerformative (f_Body f)) as [[perf n]|e|]; [|by apply peer_post_err|done].
  destruct Hd as (Hn & Hwf & _). specialize (Hc _ _ eq_refl). wpe_step. wpe_step.
  rewrite slice_from_Ok by done.
  case_bool_decide; [by apply onOpen_post|]. case_bool_decide; [by apply onBegin_post|].
  case_bool_decide; [by apply onAttach_post|]. case_bool_decide; [by apply onFlow_post|].
  case_bool_decide; [by apply onTransfer_post|].
  case_bool_decide.
  { eapply wpe_mono; [by apply onDisposition_spec|]. intros r w' [-> Hd]. apply Hd. }
  case_bool_decide; [by apply onDetach_post|]. case_bool_decide; [by apply onEnd_post; auto|].
  case_bool_decide; [by apply onClose_post|]. wpe_auto. by apply peer_post_err.
Qed.
End handlers.
