(* ===== verification/PeerFacts.v ===== *)
(** * Properties of the connection handler

    For a client that detaches its links before it ends a session, no frame
    makes the handler panic, whatever other connections do in between; before
    the connection is open nothing but [open], [close] and [disposition] is
    accepted; a transfer is acknowledged only after its message has been
    published; the disposition loop ends on every range; SASL lets in only what the
    authenticator accepts; and the end of a connection leaves none of its
    sessions behind. *)

From Stdlib Require Import Ascii String.
From stdpp Require Import pretty.
From S2P Require Import Prelude Bytes Wire Codec CodecFacts Text Duration Matcher Address Message.
From S2P Require Import Transaction Env Memory BodyLog Router Delivery DeliveryInv DeliveryFacts.
From S2P Require Import Connection Registry Session Link Peer PeerInv.

(** ** A connection among others *)
Section runs.
Context {L : Type} `{BodyLogLaws L}.
Implicit Types w : world L.

(** A peer after the handshake: nothing is mapped yet. *)
Definition ready_peer w : Prop :=
  shared_inv w ∧ k_State (pr_connection (w_peer w)) = ConnHeader ∧
  k_Sessions (pr_connection (w_peer w)) = ∅ ∧ pr_sessionIDs (w_peer w) = ∅ ∧
  pr_linkIDs (w_peer w) = ∅.

(** What the other connections, the front ends and the workers may do between
    two frames: anything to the broker that keeps its invariant, and anything
    to the registries that leaves this peer's sessions and links alone. *)
Definition others w w' : Prop :=
  w_peer w' = w_peer w ∧ shared_inv w' ∧
  (∀ ch id, pr_sessionIDs (w_peer w) !! ch = Some id →
     r_items (w_sessions w') !! id = r_items (w_sessions w) !! id) ∧
  (∀ k id, pr_linkIDs (w_peer w) !! k = Some id →
     r_items (w_links w') !! id = r_items (w_links w) !! id).

(** The frames processed on one connection, interleaved with the others. *)
Inductive peer_run : list Frame → world L → world L → Prop :=
  | run_done w : peer_run [] w w
  | run_frame (orc : Oracle) (mtch : Matcher) f fs n n1 w w1 w2 :
      Fresh orc w → clean_end f w → process f (w, n) = (Ok tt, (w1, n1)) →
      peer_run fs w1 w2 → peer_run (f :: fs) w w2
  | run_others fs w w1 w2 : others w w1 → peer_run fs w1 w2 → peer_run fs w w2.

Lemma ready_inv w : ready_peer w → peer_inv w.
Proof.
  intros (Hs & Hst & Hk & Hm & Hl). split; [done| | | |]; rewrite ?Hm, ?Hl; try done.
Qed.

Lemma others_inv w w' : peer_inv w → others w w' → peer_inv w'.
Proof.
  intros [_ H1 H2 H3 H4] (Ep & Hsh & Hs & Hl). split; [done| | | |]; rewrite ?Ep; try done.
  - intros ch id Hx. rewrite (Hs _ _ Hx). by apply H1.
  - intros k id Hx. rewrite (Hl _ _ Hx). by apply H2.
Qed.

Lemma peer_run_inv fs w w' : peer_run fs w w' → peer_inv w → peer_inv w'.
Proof.
  induction 1 as [w|orc mtch f fs n n1 w w1 w2 Hf Hc E _ IH|fs w w1 w2 Ho _ IH]; intros Hi; [done| |].
  - apply IH. exact (wpe_elim _ _ _ _ _ _ _ (process_post f w Hi Hf Hc) E).
  - by apply IH, (others_inv w).
Qed.

(** C18. No frame brings the connection handler down: on a connection past its
    handshake, after any frames and any activity of other connections in
    between, processing one more frame of any content does not panic and
    leaves the broker, the session and the link registry consistent, and when
    the frame is accepted every mapped channel and every link slot still
    points at a registered session or link.  The client must not end a session
    whose links are still attached, and the random identifiers must not
    collide. *)
Theorem connection_never_panics (fs : list Frame) (w w' : world L) (orc : Oracle) (mtch : Matcher)
    (f : Frame) (n : nat) :
  ready_peer w → peer_run fs w w' → Fresh orc w' → clean_end f w' →
  ∃ r w'' n', process f (w', n) = (r, (w'', n')) ∧ r ≠ Panic ∧ shared_inv w'' ∧
    (r = Ok tt → peer_inv w'').
Proof.
  intros Hr Hrun Hf Hc. pose proof (peer_run_inv _ _ _ Hrun (ready_inv _ Hr)) as Hi.
  pose proof (process_post f w' Hi Hf Hc n) as Hp.
  destruct (process f (w', n)) as [r [w'' n']]. cbn in Hp. exists r, w'', n'.
  destruct r as [[]|e|]; cbn in Hp; split_and!; try done. by apply pi_shared.
Qed.

(** ** Before the connection is open *)
Definition needs_session (d : byte) : bool :=
  bool_decide (d ∈ [DescriptorBegin; DescriptorAttach; DescriptorFlow; DescriptorTransfer;
                    DescriptorDetach; DescriptorEnd]).

(** Nothing happens before [open]: on a connection that is not open yet,
    [begin], [attach], [flow], [transfer], [detach] and [end] are refused with
    an error and change nothing, neither the broker nor the registries nor
    what has been sent. *)
Theorem unopened_rejects (orc : Oracle) (mtch : Matcher) (w : world L) (f : Frame)
    (p : Performative) (k n : nat) :
  ready_peer w → DecodePerformative (f_Body f) = Ok (p, k) → needs_session (p_Descriptor p) = true →
  ∃ e n', process f (w, n) = (Err e, (w, n')).
Proof.
  intros (_ & Hst & _ & Hm & _) Hd Hneed. pose proof (DecodePerformative_spec (f_Body f)) as Hs.
  rewrite Hd in Hs. destruct Hs as (Hk & _).
  unfold process, wrap, lift, mbind, go_bind. rewrite Hd, slice_from_Ok by done.
  unfold needs_session in Hneed. apply bool_decide_eq_true in Hneed.
  rewrite !elem_of_cons in Hneed. destruct Hneed as [E|[E|[E|[E|[E|[E|E]]]]]]; rewrite ?E;
    [..|by apply not_elem_of_nil in E];
    repeat (case_bool_decide as Hx; [try (by vm_compute in Hx)|clear Hx]);
    unfold onBegin, onAttach, onFlow, onTransfer, onDetach, onEnd, get_, mbind, go_bind; cbn [fst];
    rewrite ?Hm, ?lookup_empty, ?Hst; by eexists _, _.
Qed.
End runs.

(** ** Acknowledgement of transfers *)

(** A successful sequence is a sequence of successes. *)
Lemma go_bind_inv {S A B} (m : go S A) (f : A → go S B) s b s' :
  (m ≫= f) s = (Ok b, s') → ∃ a s1, m s = (Ok a, s1) ∧ f a s1 = (Ok b, s').
Proof.
  unfold mbind, go_bind. destruct (m s) as [[a|e|] s1]; intros E; [by exists a, s1|done..].
Qed.

Section transfers.
Context {orc : Oracle} {mtch : Matcher} {L : Type} `{BodyLogLaws L}.
Implicit Types w : world L.

(** What a client that reads a frame of the peer sees: the performative that
    was sent, up to trailing nulls, and the payload. *)
Definition client_sees (max : Z) (raw : bytes) (ch : Z) (perf : Performative) (payload : bytes) : Prop :=
  ∀ rest, ∃ f p n, ReadFrame max (raw ++ rest) = (Ok f, rest) ∧ f_Channel f = ch ∧
    f_Type f = FrameTypeAMQP ∧ DecodePerformative (f_Body f) = Ok (p, n) ∧
    p_Descriptor p = p_Descriptor perf ∧
    (∀ i, Performative_Field p i = Performative_Field perf i) ∧ drop n (f_Body f) = payload.

Lemma sent_frame_seen max ch perf payload raw :
  sent_frame max ch FrameTypeAMQP perf payload raw →
  0 ≤ ch < 2 ^ 16 → Forall wf_value (p_Fields perf) →
  Performative_Validate (mkPerformative (p_Descriptor perf) (trimNulls (p_Fields perf))) = Ok tt →
  (∀ body, EncodePerformative perf = Ok body →
     8 + Z.of_nat (length body) + Z.of_nat (length payload) < 2 ^ 32) →
  client_sees max raw ch perf payload ∧ (0 < max → Z.of_nat (length raw) ≤ max).
Proof.
  intros (body & Eb & Em) Hch Hwf Hval Hlen. specialize (Hlen _ Eb).
  set (fr := mkFrame 0 (z2b 2) FrameTypeAMQP ch (body ++ payload)) in *.
  assert (frame_wf fr) as Hfw.
  { split_and!; [apply Hch|apply Hch|done| |by left].
    change (8 + Z.of_nat (length (body ++ payload)) < 2 ^ 32). rewrite length_app. lia. }
  assert (frame_fits max fr) as Hfit.
  { split; [done|]. intros Hmax. by eapply Frame_Marshal_Ok_bound. }
  destruct Hfit as [_ Hmax]. rewrite (Frame_Marshal_wf fr max Hfw Hmax) in Em. injection Em as <-.
  split; [|intros; rewrite length_frame_bytes; [auto|done]].
  intros rest. destruct (performative_decodes perf body payload Hwf Eb) as [Hd Hf]; [lia|done|].
  exists (parsed fr), (mkPerformative (p_Descriptor perf) (trimNulls (p_Fields perf))), (length body).
  split_and!; [by apply ReadFrame_bytes|done|done|exact Hd|done|exact Hf|]. cbn. by rewrite drop_app_length.
Qed.

Lemma peer_write_inv ch typ perf payload w n w' n' :
  peer_write ch typ perf payload (w, n) = (Ok tt, (w', n')) →
  ∃ raw, sent_frame (k_MaxFrame (pr_connection (w_peer w))) ch typ perf payload raw ∧
    w' = set_out (w_out w ++ raw) w.
Proof.
  intros E. pattern w'. refine ((λ H, wpe_elim _ (λ r w', r = Ok tt → _ w') _ _ _ _ _ H E eq_refl) _).
  apply wpe_peer_write; [done|]. intros raw Hraw _. by exists raw.
Qed.

(** How long an encoded performative can be. *)
Lemma encode_list_length k l b :
  (∀ v e, v ∈ l → encodeValue v = Ok e → (length e ≤ k)%nat) →
  encodeList l = Ok b → (length b ≤ 9 + k * length l)%nat.
Proof.
  intros Hk. assert (∀ pl, encode_concat encodeValue l = Ok pl → (length pl ≤ k * length l)%nat) as Hc.
  { induction l as [|v l IH]; [intros pl E; injection E as <-; cbn; lia|]. intros pl. cbn [encode_concat].
    intros (e & Ee & (es & Ees & [= <-])%res_bind_Ok)%res_bind_Ok.
    rewrite length_app. cbn [length]. specialize (IH (λ v e Hv, Hk v e (list_elem_of_further _ _ _ Hv)) es Ees).
    specialize (Hk v e (list_elem_of_here _ _) Ee). lia. }
  unfold encodeList, encode_list_with. destruct l as [|v l]; [intros [= <-]; cbn; lia|].
  intros (pl & Epl & E)%res_bind_Ok. specialize (Hc _ Epl).
  case_match; injection E as <-; rewrite ?length_app, ?length_be_put; cbn [length] in *; lia.
Qed.

Lemma EncodePerformative_length k p b :
  (∀ v e, v ∈ p_Fields p → encodeValue v = Ok e → (length e ≤ k)%nat) →
  EncodePerformative p = Ok b → (length b ≤ 12 + k * length (p_Fields p))%nat.
Proof.
  intros Hk (? & _ & (l & El & [= <-])%res_bind_Ok)%res_bind_Ok. cbn [app length].
  apply (encode_list_length k) in El.
  - unfold trimNulls in El. rewrite length_take in El. nia.
  - intros v e Hv. apply Hk. unfold trimNulls in Hv. apply elem_of_take in Hv as (i & Hi & _).
    by eapply list_elem_of_lookup_2.
Qed.

Definition ack (deliveryID : Z) : Performative :=
  mkPerformative DescriptorDisposition [VBool true; VU32 deliveryID; VNil; VBool true; accepted_state].

Lemma ack_seen max ch d raw :
  sent_frame max ch FrameTypeAMQP (ack d) [] raw → 0 ≤ ch < 2 ^ 16 → 0 ≤ d < 2 ^ 32 →
  client_sees max raw ch (ack d) [].
Proof.
  intros Hs Hch Hd. eapply sent_frame_seen; [done|done| |done|].
  - cbn. repeat constructor; cbn; try done; lia.
  - intros body Eb. apply (EncodePerformative_length 8) in Eb; [cbn [length ack p_Fields] in *; lia|].
    intros v e Hv. cbn [ack p_Fields] in Hv. rewrite !elem_of_cons in Hv. destruct Hv as [->|[->|[->|[->|[->|Hv]]]]];
      [..|by apply not_elem_of_nil in Hv]; try (intros [= <-]; cbn; lia).
    cbn. repeat case_match; intros E; simplify_res; rewrite ?length_cons, ?length_be_put; cbn; lia.
Qed.

(** C17. No acknowledgement without publication: when [onTransfer] accepts a
    transfer, the message body was published to the link's address and the
    publication succeeded; an unsettled transfer is answered with exactly one
    frame, which the client reads as a settled, accepted disposition for its
    delivery, and a settled transfer with nothing. *)
Theorem transfer_acknowledged (w w' : world L) (ch : Z) (perf : Performative) (payload : bytes)
    (n n' : nat) :
  0 ≤ ch < 2 ^ 16 → Forall wf_value (p_Fields perf) →
  onTransfer ch perf payload (w, n) = (Ok tt, (w', n')) →
  ∃ id l body msgs n1 n2,
    pr_linkIDs (w_peer w) !! link_slot ch (Performative_Uint perf 0) = Some id ∧
    r_items (w_links w) !! id = Some l ∧ l_Role l = RoleReceiver ∧
    DecodeDataSection payload = Ok body ∧ Z.of_nat (length body) ≤ l_MaxMessageSize l ∧
    Service_Publish (mkPublish (l_Address l) "" None body 0 0 (Performative_Bool perf 4) "")
      (w_delivery w, n1) = (Ok msgs, (w_delivery w', n2)) ∧
    ∃ raw, w_out w' = w_out w ++ raw ∧
      if Performative_Bool perf 4 then raw = []
      else client_sees (k_MaxFrame (pr_connection (w_peer w))) raw ch (ack (Performative_Uint perf 1)) [].
Proof.
  intros Hch Hwf E. unfold onTransfer in E. apply go_bind_inv in E as (w0 & s0 & [= <- <-] & E).
  cbn [fst] in E. destruct (pr_sessionIDs (w_peer w) !! ch) as [sid|]; [|done].
  apply go_bind_inv in E as ([] & [w1 m1] & E1 & E).
  assert (∃ reg, w1 = set_sessions reg w ∧ m1 = n) as (reg & -> & ->).
  { unfold on_sessions, on, quietly in E1. cbn in E1. destruct (with_session _ _ _) as [r reg].
    injection E1 as _ <- <-. by exists reg. }
  destruct (pr_linkIDs (w_peer w) !! _) as [id|] eqn:Ek; [|done]. unfold LinkRegistry_Get in E.
  destruct (r_items (w_links w) !! id) as [l|] eqn:El; [|done].
  apply go_bind_inv in E as ([] & [w2 m2] & Eg & E). unfold guard_err in Eg.
  case_bool_decide as Hr; [|done]. cbn [negb] in Eg. injection Eg as <- <-.
  apply go_bind_inv in E as (body & [w2 m2] & Eb & E). injection Eb as Eb <- <-.
  apply go_bind_inv in E as ([] & [w2 m2] & Ec & E).
  assert (∃ reg2, w2 = set_links reg2 (set_sessions reg w) ∧ m2 = n ∧
    Z.of_nat (length body) ≤ l_MaxMessageSize l) as (reg2 & -> & -> & Hsize).
  { unfold on_links, on, quietly, with_link in Ec. cbn in Ec. rewrite El in Ec.
    destruct (Link_Consume _ l) as [r l'] eqn:Econ. injection Ec as -> <- <-.
    eexists. split_and!; [done|done|]. by eapply Link_Consume_size. }
  apply go_bind_inv in E as (msgs & [w3 m3] & Ep & E).
  unfold on_delivery, on in Ep. cbn [fst snd w_delivery set_links set_sessions] in Ep.
  destruct (Service_Publish _ _) as [r [b m]] eqn:Epub. injection Ep as -> <- <-.
  exists id, l, body, msgs, n, m. split_and!; [done|done|done|done|done| |].
  - rewrite Epub. do 2 f_equal. destruct (negb _) eqn:Eneg.
    + apply peer_write_inv in E as (raw & _ & ->). done.
    + by injection E as <- <-.
  - destruct (Performative_Bool perf 4) eqn:Es; cbn [negb] in E.
    + injection E as <- <-. exists []. by rewrite app_nil_r.
    + apply peer_write_inv in E as (raw & Hraw & ->). exists raw. split; [done|].
      apply ack_seen; [done|done|]. by apply Uint_range.
Qed.
End transfers.

(** ** Dispositions, negotiation and authentication *)
Section protocol.
Context (orc : Oracle) (mtch : Matcher) {L : Type} `{BodyLogLaws L}.
Implicit Types w : world L.

(** The disposition loop ends on every range of delivery numbers, up to
    and including the largest [uint32] and also when the range is empty: it
    returns without an error, forgets exactly the deliveries of the range
    and leaves the other connections' sessions and links and the socket
    alone. *)
Theorem disposition_ends (w : world L) (perf : Performative) (n : nat) :
  peer_inv w → Forall wf_value (p_Fields perf) →
  ∃ w' n', onDisposition perf (w, n) = (Ok tt, (w', n')) ∧
    w_sessions w' = w_sessions w ∧ w_links w' = w_links w ∧ w_out w' = w_out w ∧
    wf_broker (w_delivery w') ∧
    ∀ d c, pr_deliveryConsumer (w_peer w') !! d = Some c ↔
      pr_deliveryConsumer (w_peer w) !! d = Some c ∧
      (Performative_Uint perf 1 ≤ d ≤ disposition_last perf → c = "").
Proof.
  intros Hi Hp. pose proof (onDisposition_spec perf w Hp Hi n) as Hd.
  destruct (onDisposition perf (w, n)) as [r [w' n']]. cbn in Hd.
  destruct Hd as (-> & Hi' & E1 & E2 & E3 & _ & Hs). exists w', n'. split_and!; try done.
  by apply peer_broker.
Qed.

(** The reply to [open]. *)
Definition open_reply (c : Connection) : Performative :=
  mkPerformative DescriptorOpen
    [VString "amqp-broker-core"; VNil; VU32 (k_MaxFrame c); VU16 65535;
     VU32 (u32 (Z.quot (k_IdleTimeout c) Millisecond))].

(** C39. Frame size negotiation: a first [open] takes the smaller of the two
    frame sizes, except that a peer's maximum below 512 is ignored; the size
    never grows, the connection becomes open under the client's container
    identifier, and the reply announces the size in force.  A second [open] is
    refused. *)
Theorem onOpen_negotiates (w w' : world L) (perf : Performative) (n n' : nat) (r : res unit) :
  onOpen perf (w, n) = (r, (w', n')) →
  let c := pr_connection (w_peer w) in
  let c' := pr_connection (w_peer w') in
  let peerMax := Performative_Uint perf 2 in
  if bool_decide (k_State c = ConnHeader) then
    k_State c' = ConnOpen ∧ k_ContainerID c' = Performative_String perf 0 ∧
    k_MaxFrame c' = (if (512 <=? peerMax) && (peerMax <? k_MaxFrame c) then peerMax else k_MaxFrame c) ∧
    k_MaxFrame c' ≤ k_MaxFrame c ∧
    (r = Ok tt → ∃ raw, w_out w' = w_out w ++ raw ∧
       sent_frame (k_MaxFrame c') 0 FrameTypeAMQP (open_reply c') [] raw)
  else r = Err (ErrNew "duplicate open") ∧ w' = w.
Proof.
  intros E. cbv zeta.
  refine (wpe_elim _ (λ r w', if bool_decide (k_State (pr_connection (w_peer w)) = ConnHeader) then _ else _)
    _ _ _ _ _ _ E). clear E. unfold onOpen. wpe_step. wpe_step. wpe_step.
  case_bool_decide as Hst; cbn [negb]; (wpe_step; [try done|try done]).
  set (peerMax := Performative_Uint perf 2).
  assert (∀ w1 m, k_State (pr_connection (w_peer w1)) = ConnHeader →
    k_ContainerID (pr_connection (w_peer w1)) = Performative_String perf 0 →
    k_MaxFrame (pr_connection (w_peer w1)) = m → w_out w1 = w_out w →
    m ≤ k_MaxFrame (pr_connection (w_peer w)) →
    wpe (on_connection (Connection_Transition ConnOpen);;
         w ← get_; peer_write 0 FrameTypeAMQP (open_reply (pr_connection (w_peer w))) [])
      (λ r w', k_State (pr_connection (w_peer w')) = ConnOpen ∧
        k_ContainerID (pr_connection (w_peer w')) = Performative_String perf 0 ∧
        k_MaxFrame (pr_connection (w_peer w')) = m ∧
        k_MaxFrame (pr_connection (w_peer w')) ≤ k_MaxFrame (pr_connection (w_peer w)) ∧
        (r = Ok tt → ∃ raw, w_out w' = w_out w ++ raw ∧
          sent_frame (k_MaxFrame (pr_connection (w_peer w'))) 0 FrameTypeAMQP
            (open_reply (pr_connection (w_peer w'))) [] raw)) w1) as Hrest.
  { intros w1 m H1' H2' H3' H4' H5'. wpe_step. apply wpe_on_connection. rewrite Transition_eq, H1'.
    cbn [transition_valid]. rewrite bool_decide_true by done. cbn [orb fst snd]. wpe_step. wpe_step.
    apply wpe_peer_write; cbn; rewrite ?H3', ?H4'; [intros; by split_and!|].
    intros raw Hraw. split_and!; try done. intros _. by exists raw. }
  wpe_step. apply wpe_on_connection. cbn [modify fst snd]. wpe_step.
  destruct ((512 <=? peerMax) && _) eqn:Em.
  - apply wpe_on_connection. cbn [modify fst snd]. apply Hrest; try done. zlia.
  - wpe_step. by apply Hrest.
Qed.

(** The state of a world after the two reads of the handshake. *)
Lemma ReadFull_Ok n s h s' : ReadFull n s = (Ok h, s') → s = h ++ s' ∧ length h = n.
Proof.
  unfold ReadFull. case_bool_decide; [|by destruct s]. intros E. injection E as <- <-.
  rewrite take_drop, length_take. split; [done|lia].
Qed.

Lemma ReadFull_no_panic n s : (ReadFull n s).1 ≠ Panic.
Proof. unfold ReadFull. case_bool_decide; [done|]. by destruct s. Qed.

Lemma Authenticate_wpe (a : StaticAuthenticator) mech resp (Q : res Identity → world L → Prop) w :
  (∀ e, Q (Err e) w) → (∀ i, authenticate a mech resp = Ok i → Q (Ok i) w) →
  wpe (Authenticate a mech resp) Q w.
Proof.
  intros He HQ. unfold Authenticate. wpe_step. wpe_step; [done|]. wpe_step.
  destruct (authenticate a mech resp) as [i|e|] eqn:E; [by apply HQ|done|].
  unfold authenticate in E. by repeat case_match.
Qed.

(** What the configured authenticator grants. *)
Definition grants (a : StaticAuthenticator) (mechanism : string) (response : bytes) (who : Identity) : Prop :=
  mechanism = "ANONYMOUS" ∧ au_AllowAnonymous a = true ∧ who = mkIdentity "anonymous" mechanism None ∨
  mechanism = "PLAIN" ∧ who = mkIdentity (au_Username a) mechanism None ∧
    ∃ authz, Split zero_separator response = [authz; string_bytes (au_Username a); string_bytes (au_Password a)].

Lemma authenticate_grants a mech resp who : authenticate a mech resp = Ok who → grants a mech resp who.
Proof.
  intros E. destruct (decide (mech = "ANONYMOUS")) as [->|Hn].
  - apply authenticate_exact in E as [-> Ha]. by left.
  - destruct (decide (mech = "PLAIN")) as [->|Hp].
    + apply authenticate_exact in E as [-> Hr]. by right.
    + unfold authenticate in E. by rewrite !bool_decide_eq_false_2 in E.
Qed.

(** The bytes of a client that authenticates: a frame with the SASL init, whose
    mechanism and response the authenticator grants, then the AMQP header. *)
Definition sasl_init (a : StaticAuthenticator) (max : Z) (input : bytes) (who : Identity) : Prop :=
  ∃ f rest init k,
    ReadFrame max input = (Ok f, AMQPHeader ++ rest) ∧ DecodePerformative (f_Body f) = Ok (init, k) ∧
    p_Descriptor init = DescriptorSASLInit ∧
    grants a (Performative_String init 0) (Performative_Binary init 1) who.

(** The SASL exchange ends with an identity the authenticator granted for what
    the client sent. *)
Lemma handshake_sasl_spec (a : StaticAuthenticator) w :
  wpe (handshake_sasl a) (λ r w', r ≠ Panic ∧
    pr_connection (w_peer w') = pr_connection (w_peer w) ∧
    (r = Ok tt → sasl_init a (k_MaxFrame (pr_connection (w_peer w))) (w_in w) (pr_identity (w_peer w')))) w.
Proof.
  unfold handshake_sasl. wpe_step. apply wpe_net_Write; [by intros|].
  wpe_step. apply wpe_peer_write; [by intros|]. intros raw _. wpe_step. wpe_step.
  wpe_step. apply wpe_net_Read; [by intros|]. cbn [w_in set_out].
  pose proof (ReadFrame_spec (k_MaxFrame (pr_connection (w_peer w))) (w_in w)) as Hr. cbn.
  destruct (ReadFrame _ (w_in w)) as [[f|e|] i] eqn:Ef; [|by split_and!|done]. cbn [fst snd]. clear Hr.
  wpe_step. wpe_step. wpe_step. pose proof (DecodePerformative_spec (f_Body f)) as Hd.
  destruct (DecodePerformative (f_Body f)) as [[init k]|e|] eqn:Ed; [|wpe_auto; by split_and!|done]. clear Hd.
  wpe_step. apply wpe_guard; intros Hg; [by split_and!|]. apply negb_false_iff, bool_decide_eq_true in Hg.
  wpe_step. wpe_step. apply Authenticate_wpe.
  - intros e. wpe_step. apply wpe_peer_write; [by intros|]. intros raw' _. wpe_auto. by split_and!.
  - intros who Hwho. wpe_step. apply wpe_peer_write; [by intros|]. intros raw' _. wpe_step.
    apply wpe_on_peer. wpe_step. apply wpe_net_Read; [by intros|].
    cbn [w_in set_peer set_out set_in]. pose proof (ReadFull_no_panic 8 i) as Hp.
    destruct (ReadFull 8 i) as [[h|e|] i'] eqn:Er; cbn [fst snd] in *; [|by split_and!|done].
    apply ReadFull_Ok in Er as [Ei _].
    wpe_step. wpe_step. wpe_step. destruct (ValidateProtocolHeader_spec h) as [Hv Hh].
    destruct (ValidateProtocolHeader h) as [x|e|]; [|wpe_auto; by split_and!|done].
    apply wpe_guard; intros Hx; [by split_and!|]. split_and!; [done|done|]. intros _. cbn.
    destruct (proj1 (Hh x) eq_refl) as [[-> ->]|[-> ->]]; [|done].
    exists f, i', init, k. split_and!; [by rewrite Ef, Ei|done|done|by apply authenticate_grants].
Qed.

(** How a peer came in: with the plain AMQP header and no new identity, or
    with SASL and an identity the authenticator granted for the client's init. *)
Definition admitted (cfg : ServerConfig) w w' : Prop :=
  (∃ rest, w_in w = AMQPHeader ++ rest) ∧ pr_identity (w_peer w') = pr_identity (w_peer w) ∨
  ∃ a rest, sc_Auth cfg = Some a ∧ w_in w = SASLHeader ++ rest ∧
    sasl_init a (k_MaxFrame (pr_connection (w_peer w))) rest (pr_identity (w_peer w')).

(** C31. Authentication: the handshake never panics, and a completed one is
    either a plain AMQP header, which leaves the peer without a new identity,
    or a SASL exchange: the client's bytes are the SASL header, a frame with a
    SASL init and the AMQP header, an authenticator is configured, and the
    mechanism and response of that init are PLAIN with the configured user
    name and password, or ANONYMOUS where that is allowed; the peer's identity
    is that user, or anonymous.  Either way the connection then waits for
    [open]. *)
Theorem handshake_authenticates (cfg : ServerConfig) (w w' : world L) (n n' : nat) (r : res unit) :
  handshake cfg (w, n) = (r, (w', n')) →
  r ≠ Panic ∧
  (r = Ok tt → k_State (pr_connection (w_peer w')) = ConnHeader ∧ admitted cfg w w').
Proof.
  intros E.
  refine (wpe_elim _ (λ r w', r ≠ Panic ∧
    (r = Ok tt → k_State (pr_connection (w_peer w')) = ConnHeader ∧ admitted cfg w w')) _ _ _ _ _ _ E).
  clear E. set (P := admitted cfg w).
  assert (∀ w1, (∀ w2, w_peer w2 = w_peer w1 → P (set_connection (set_ConnState ConnHeader (pr_connection (w_peer w1))) w2)) →
    wpe (net_Write AMQPHeader;; on_connection (Connection_Transition ConnHeader))
      (λ r w', r ≠ Panic ∧ (r = Ok tt → k_State (pr_connection (w_peer w')) = ConnHeader ∧ P w')) w1) as Hrest.
  { intros w1 HP. wpe_step. apply wpe_net_Write; [by intros|]. apply wpe_on_connection.
    rewrite Transition_eq. destruct (transition_valid _ _); cbn [fst snd]; [|by split].
    split; [done|]. intros _. split; [done|]. by apply HP. }
  unfold handshake. wpe_step. apply wpe_net_Read; [by intros|].
  pose proof (ReadFull_no_panic 8 (w_in w)) as Hp.
  destruct (ReadFull 8 (w_in w)) as [[h|e|] i] eqn:Er; cbn [fst snd] in *; [|by split|done].
  apply ReadFull_Ok in Er as [Ein _]. wpe_step. wpe_step.
  destruct (ValidateProtocolHeader_spec h) as [Hv Hh].
  destruct (ValidateProtocolHeader h) as [x|e|]; [|by split|done].
  destruct (proj1 (Hh x) eq_refl) as [[-> ->]|[-> ->]].
  - change (b2z (z2b 0) =? 3) with false. cbn iota. wpe_step. wpe_step. apply Hrest.
    intros w2 E2. left. split; [by eexists|]. cbn. by rewrite E2.
  - change (b2z (z2b 3) =? 3) with true. cbn iota. wpe_step.
    destruct (sc_Auth cfg) as [a|] eqn:Ea; [|wpe_auto; by split].
    eapply wpe_mono; [apply handshake_sasl_spec|]. intros r1 w1 (Hr & Ec & Hauth).
    destruct r1 as [[]|e|]; [|by split|done]. apply Hrest. intros w2 E2. right.
    exists a, i. split_and!; [done|done|]. cbn. rewrite E2. by apply Hauth.
Qed.
End protocol.

(** ** The frame loop *)

(** A computation that leaves the input of the connection alone. *)
Definition keeps_in {L A} (m : env (world L) A) : Prop := ∀ s, w_in (m s).2.1 = w_in s.1.

Create HintDb keeps_in.

Section keeps_in.
Context {orc : Oracle} {mtch : Matcher} {L : Type} `{BodyLog L}.
Implicit Types w : world L.

Lemma keeps_ret {A} (a : A) : keeps_in (mret a : env (world L) A).
Proof. done. Qed.
Lemma keeps_raise {A} e : keeps_in (raise e : env (world L) A).
Proof. done. Qed.
Lemma keeps_panic {A} : keeps_in (panic : env (world L) A).
Proof. done. Qed.
Lemma keeps_lift {A} (r : res A) : keeps_in (lift r : env (world L) A).
Proof. done. Qed.
Lemma keeps_guard b e : keeps_in (guard_err b e : env (world L) unit).
Proof. by destruct b. Qed.
Lemma keeps_get : keeps_in (get_ : env (world L) (world L)).
Proof. done. Qed.
Lemma keeps_ask {A} (f : nat → A) : keeps_in (ask f : env (world L) A).
Proof. done. Qed.
Lemma keeps_bind {A B} (m : env (world L) A) (f : A → env (world L) B) :
  keeps_in m → (∀ a, keeps_in (f a)) → keeps_in (m ≫= f).
Proof.
  intros Hm Hf s. specialize (Hm s). unfold mbind, go_bind.
  destruct (m s) as [[a|e|] s']; cbn in *; [|done..]. by rewrite Hf.
Qed.
Lemma keeps_try {A} (m : env (world L) A) : keeps_in m → keeps_in (try m).
Proof. intros Hm s. specialize (Hm s). unfold try. by destruct (m s) as [[a|e|] s']. Qed.
Lemma keeps_wrap {A} t (m : env (world L) A) : keeps_in m → keeps_in (wrap t m).
Proof. intros Hm s. specialize (Hm s). unfold wrap. by destruct (m s) as [[a|e|] s']. Qed.
Lemma keeps_on {T A} (get : world L → T) put (m : env T A) :
  (∀ t w, w_in (put t w) = w_in w) → keeps_in (on get put m).
Proof. intros Hp [w n]. unfold on. cbn. destruct (m _) as [r [t n']]. apply Hp. Qed.
Lemma keeps_update (f : world L → world L) : (∀ w, w_in (f w) = w_in w) → keeps_in (update_ f).
Proof. intros Hf [w n]. apply Hf. Qed.
End keeps_in.

#[export] Hint Resolve keeps_ret keeps_raise keeps_panic keeps_lift keeps_guard keeps_get keeps_ask
  keeps_bind keeps_try keeps_wrap : keeps_in.
#[export] Hint Extern 1 (keeps_in (on _ _ _)) => (by apply keeps_on) : keeps_in.
#[export] Hint Extern 1 (keeps_in (update_ _)) => (by apply keeps_update) : keeps_in.

Ltac keeps_in :=
  repeat (intros; match goal with
    | |- keeps_in (match ?x with _ => _ end) => destruct x
    | |- keeps_in (mbind _ _) => apply keeps_bind
    | _ => solve [eauto 2 with keeps_in]
    end).

Section loop.
Context {orc : Oracle} {mtch : Matcher} {L : Type} `{BodyLog L}.

Lemma keeps_peer_write ch typ perf payload : keeps_in (L := L) (peer_write ch typ perf payload).
Proof.
  assert (∀ k raw, keeps_in (write_loop (W := world L * nat) net_Write k raw)) as Hw.
  { intros k. induction k as [|k IH]; intros [|b raw]; cbn [write_loop]; unfold net_Write; keeps_in. }
  unfold peer_write, WriteFrame. keeps_in.
Qed.
#[local] Hint Resolve keeps_peer_write : keeps_in.

Lemma keeps_flow turns ch h id : keeps_in (L := L) (flow_loop turns ch h id).
Proof.
  induction turns as [|turns IH]; cbn [flow_loop]; unfold on_delivery, on_links, on_peer; keeps_in.
Qed.

Lemma keeps_disposition fuel : ∀ id last, keeps_in (L := L) (disposition_loop fuel id last).
Proof.
  induction fuel as [|fuel IH]; intros id last; cbn [disposition_loop]; unfold on_delivery, on_peer; keeps_in.
Qed.
#[local] Hint Resolve keeps_flow keeps_disposition : keeps_in.

(** Handlers write to the socket and never read from it. *)
Lemma keeps_process f : keeps_in (L := L) (process f).
Proof.
  unfold process, onOpen, onBegin, onAttach, onFlow, onTransfer, onDisposition, onDetach, onEnd, onClose,
    server_randomID, rand_Read, clock_Now, on_connection, on_sessions, on_links, on_delivery, on_peer.
  keeps_in.
Qed.
End loop.

Section termination.
Context {orc : Oracle} {mtch : Matcher} {L : Type} `{BodyLog L}.

(** A frame that was read has shortened the input. *)
Lemma net_Read_shorter max (w w' : world L) n n' f :
  net_Read (ReadFrame max) (w, n) = (Ok f, (w', n')) → (length (w_in w') < length (w_in w))%nat.
Proof.
  intros E. refine (wpe_elim _ (λ r w', r = Ok f → (length (w_in w') < length (w_in w))%nat)
    _ _ _ _ _ _ E eq_refl). apply wpe_net_Read; [done|]. intros E'.
  pose proof (ReadFrame_spec max (w_in w)) as Hr. destruct (ReadFrame max (w_in w)) as [r s'].
  cbn in *. subst r. destruct Hr as (_ & raw & -> & Hl & Hp).
  pose proof (ParseFrame_spec raw max) as Hs. rewrite Hp in Hs. destruct Hs as (_ & ? & _).
  rewrite length_app. lia.
Qed.

Lemma handle_loop_fuel k1 : ∀ k2 (w : world L) n,
  (length (w_in w) < k1)%nat → (length (w_in w) < k2)%nat →
  handle_loop k1 (w, n) = handle_loop k2 (w, n).
Proof.
  induction k1 as [|k1 IH]; intros [|k2] w n H1 H2; [lia..|]. cbn [handle_loop].
  unfold get_, mbind, go_bind. cbn [fst].
  destruct (net_Read _ (w, n)) as [[f|e|] [w1 n1]] eqn:E1; [|done..]. apply net_Read_shorter in E1.
  unfold clock_Now, ask. cbn [fst snd].
  destruct (on_connection _ _) as [[[]|e|] [w2 n2]] eqn:E2; [|done..].
  assert (w_in w2 = w_in w1) as K2.
  { unfold on_connection, on, quietly in E2. cbn in E2. by injection E2 as <- <-. }
  pose proof (keeps_process f (w2, n2)) as K3. cbn [fst] in K3.
  destruct (process f (w2, n2)) as [[[]|e|] [w3 n3]]; [|done..]. cbn in K3.
  case_bool_decide; [done|]. apply IH; rewrite K3, K2; lia.
Qed.

(** C29. The frame loop ends: every turn that goes on has consumed at least a
    frame header, so for an input of [k] bytes the loop is over after at most
    [k + 1] turns; any larger bound gives the same outcome and the same final
    state. *)
Theorem handle_loop_ends (w : world L) (n fuel : nat) :
  (length (w_in w) < fuel)%nat →
  handle_loop fuel (w, n) = handle_loop (S (length (w_in w))) (w, n).
Proof. intros Hf. apply handle_loop_fuel; lia. Qed.

(** ** The end of a connection *)
Lemma server_randomID_eq prefix (w : world L) n :
  server_randomID prefix (w, n) =
  (match o_rand n 10 with inl e => Err e | inr b => Ok (id_of prefix b) end, (w, S n)).
Proof.
  unfold server_randomID, rand_Read, ask, mbind, go_bind. cbn [fst snd]. by destruct (o_rand n 10).
Qed.

Lemma ConnRegistry_Add_full c r :
  if (cr_max r <=? Z.of_nat (size (cr_items r))) || bool_decide (is_Some (cr_items r !! k_ID c))
  then ∃ e, ConnRegistry_Add c r = (Err e, r) else ∃ r', ConnRegistry_Add c r = (Ok tt, r').
Proof.
  unfold ConnRegistry_Add, guard_err, mbind, go_bind, gets, raise, mret, go_ret, modify, Datatypes.id.
  destruct (cr_max r <=? _); [by eexists|]. case_bool_decide; by eexists.
Qed.

(** No trace of the connection [id] in the registries. *)
Definition forgotten (id : string) (w : world L) : Prop :=
  cr_items (w_connections w) !! id = None ∧
  ∀ sid s, r_items (w_sessions w) !! sid = Some s → s_ConnectionID s ≠ id.

Lemma handle_cleanup_spec id (w : world L) :
  wpe (handle_cleanup id) (λ r w', r ≠ Panic ∧ forgotten id w') w.
Proof.
  unfold handle_cleanup. wpe_step. wpe_step. unfold SessRegistry_RemoveConnection.
  wpe_step. wpe_step. wpe_step. wpe_step. wpe_step.
  wpe_step. apply wpe_on_connections. cbn [ConnRegistry_Remove modify fst snd].
  wpe_step. wpe_step. apply wpe_on_connection. cbn [w_peer set_connections set_sessions].
  set (c := pr_connection (w_peer w)).
  assert (∀ c' : Connection, forgotten id (set_connection c'
    (set_connections (mkConnRegistry (cr_max (w_connections w)) (delete id (cr_items (w_connections w))))
      (set_sessions (foldl (remove_owned session_key s_ConnectionID id) (w_sessions w) l') w)))) as Hf.
  { intros c'. split; cbn.
    - destruct (decide (id = k_ID c')) as [<-|Hne].
      + by rewrite lookup_alter_eq, lookup_delete_eq.
      + by rewrite lookup_alter_ne, lookup_delete_eq.
    - intros sid s Hs. by apply (remove_owned_left session_key s_ConnectionID) in Hs as [_ ?]. }
  rewrite Transition_eq. destruct (transition_valid _ _); cbn [fst snd]; wpe_auto; split; done || apply Hf.
Qed.

(** C30. However a registered connection ends, by a closed socket, a protocol
    error or a panic, it and its sessions are gone from the registries
    afterwards.  The connection is the one whose identifier [handle] draws
    first, from the random bytes it is given; when there are none, the
    identifier is in use or the limit of connections is reached, the handler
    returns an error and nothing at all has changed. *)
Theorem handle_cleans_up (cfg : ServerConfig) (remote : string) (w w' : world L) (n n' : nat)
    (r : res unit) :
  handle cfg remote (w, n) = (r, (w', n')) →
  match o_rand n 10 with
  | inl _ => w' = w ∧ ∃ e, r = Err e
  | inr b =>
      let id := id_of "conn" b in
      if (cr_max (w_connections w) <=? Z.of_nat (size (cr_items (w_connections w)))) ||
         bool_decide (is_Some (cr_items (w_connections w) !! id))
      then w' = w ∧ ∃ e, r = Err e
      else forgotten id w'
  end.
Proof.
  intros E. unfold handle in E. unfold mbind at 1, go_bind at 1 in E. rewrite server_randomID_eq in E.
  destruct (o_rand n 10) as [e|b]; [injection E as <- <- _; eauto|]. cbv zeta. cbv beta iota in E.
  set (id := id_of "conn" b) in *. match type of E with ?m _ = _ => set (rest := m) in E end.
  refine (wpe_elim rest (λ r w', if _ || _ then w' = w ∧ ∃ e, r = Err e else forgotten id w') w (S n) _ w' n' _ E).
  unfold rest. clear E rest. wpe_step. wpe_step. wpe_step. apply wpe_on_connections.
  pose proof (ConnRegistry_Add_full
    (connection_New id remote (sc_MaxFrame cfg) (sc_IdleTimeout cfg) now) (w_connections w)) as Hadd.
  cbn [k_ID connection_New] in Hadd. destruct (_ || _).
  { destruct Hadd as [e ->]. split; [by destruct w|by eexists]. }
  destruct Hadd as [r' ->]. cbn [fst snd].
  wpe_step. apply wpe_on_peer. apply wpe_deferred. intros k.
  eapply wpe_mono; [apply handle_cleanup_spec|]. by intros r1 w1 [_ Hf].
Qed.
End termination.

(** ** Concrete connections

    A server with the queue ["jobs"], and the frames of a client that opens,
    begins a session on channel 1, attaches a sending link and transfers. *)
#[local] Existing Instance test_oracle.

Definition amqp_cfg : ServerConfig :=
  mkServerConfig 4096 Second (Some (mkStaticAuthenticator "user" "secret" false)).

Definition wire_frame (ch : Z) (p : Performative) (payload : bytes) : bytes :=
  match FrameFor ch p payload with
  | Ok f => match Frame_Marshal f 0 with Ok raw => raw | _ => [] end
  | _ => []
  end.

Definition c_open : Performative := mkPerformative DescriptorOpen [VString "client"; VNil; VU32 1024].
Definition c_begin : Performative := mkPerformative DescriptorBegin [VNil; VU32 0; VU32 10; VU32 10].
Definition c_attach (receiver : bool) : Performative :=
  mkPerformative DescriptorAttach [VString "link"; VU32 0; VBool receiver; VNil; VNil; VString "jobs"].
Definition c_transfer : Performative := mkPerformative DescriptorTransfer [VU32 0; VU32 7].
Definition c_hello : bytes := EncodeDataSection (string_bytes "hello").
Definition c_end : Performative := mkPerformative DescriptorEnd [].
Definition c_close : Performative := mkPerformative DescriptorClose [].

Definition amqp_world (input : bytes) : world MemoryLog :=
  mkWorld (conn_NewRegistry 10) sess_NewRegistry link_NewRegistry demo_broker
    (mkPeer (connection_New "conn_1" "client" 4096 Second 1) no_identity ∅ ∅ ∅) input [].

Definition conn_run (input : bytes) : res unit * (world MemoryLog * nat) :=
  handle amqp_cfg "client" (amqp_world (AMQPHeader ++ input), O).

(** A client can bring the handler down: it opens, begins, attaches, ends
    the session without detaching, begins again on the same channel and
    transfers on the old handle; the link slot survives the session, its link
    does not, and the handler dereferences nil. *)
Theorem transfer_after_end_panics :
  (conn_run (wire_frame 0 c_open [] ++ wire_frame 1 c_begin [] ++ wire_frame 1 (c_attach false) [] ++
     wire_frame 1 c_end [] ++ wire_frame 1 c_begin [] ++ wire_frame 1 c_transfer c_hello)).1 = Panic.
Proof. vm_compute. reflexivity. Qed.

(** The end of a connection leaks its links: after a connection with an
    attached receiver has closed in order, its session and the connection are
    gone, but the link is still registered and its consumer still counts as
    connected. *)
Theorem closed_connection_leaks :
  let '(r, (w, _)) :=
    conn_run (wire_frame 0 c_open [] ++ wire_frame 1 c_begin [] ++ wire_frame 1 (c_attach true) [] ++
      wire_frame 0 c_close []) in
  r = Ok tt ∧ map_to_list (r_items (w_sessions w)) = [] ∧ map_to_list (cr_items (w_connections w)) = [] ∧
  length (map_to_list (r_items (w_links w))) = 1%nat ∧
  (λ c, (cn_Connected c.2)) <$> map_to_list (mm_consumers (b_mem (w_delivery w))) = [true].
Proof. vm_compute. repeat split; reflexivity. Qed.

(** *** Witnesses *)
Definition amqp_ready : world MemoryLog :=
  set_connection (set_ConnState ConnHeader (connection_New "conn_1" "client" 4096 Second 1))
    (amqp_world []).

Lemma amqp_ready_ready : ready_peer amqp_ready.
Proof.
  split_and!; try reflexivity. split; [exact demo_wf|apply reg_inv_empty|apply reg_inv_empty].
Qed.

Definition perf_frame (ch : Z) (p : Performative) (payload : bytes) : Frame :=
  match FrameFor ch p payload with Ok f => f | _ => mkFrame 0 (z2b 2) FrameTypeAMQP ch [] end.

Lemma amqp_fresh : Fresh test_oracle amqp_ready.
Proof. intros n b _. split; reflexivity. Qed.

Lemma connection_never_panics_witness :
  ∃ r w' n', process (perf_frame 0 c_open []) (amqp_ready, O) = (r, (w', n')) ∧ r ≠ Panic.
Proof.
  destruct (connection_never_panics [] amqp_ready amqp_ready test_oracle StandardMatcher
    (perf_frame 0 c_open []) O) as (r & w' & n' & H1 & H2 & _).
  - exact amqp_ready_ready.
  - apply run_done.
  - exact amqp_fresh.
  - intros p n E. vm_compute in E. injection E as <- _. intros E. vm_compute in E. discriminate E.
  - exists r, w', n'. split; [exact H1|exact H2].
Defined.

Lemma unopened_rejects_witness :
  ∃ e n', process (perf_frame 1 c_begin []) (amqp_ready, O) = (Err e, (amqp_ready, n')).
Proof.
  apply (unopened_rejects test_oracle StandardMatcher amqp_ready (perf_frame 1 c_begin []) c_begin
    (length (f_Body (perf_frame 1 c_begin []))) O).
  - exact amqp_ready_ready.
  - vm_compute. reflexivity.
  - vm_compute. reflexivity.
Defined.

Definition amqp_attached : world MemoryLog * nat :=
  (for_each [perf_frame 0 c_open []; perf_frame 1 c_begin []; perf_frame 1 (c_attach false) []]
     process (amqp_ready, O)).2.

Lemma transfer_acknowledged_witness :
  ∃ w' n' raw, onTransfer 1 c_transfer c_hello amqp_attached = (Ok tt, (w', n')) ∧
    w_out w' = w_out amqp_attached.1 ++ raw ∧ client_sees 1024 raw 1 (ack 7) [].
Proof.
  destruct (onTransfer 1 c_transfer c_hello amqp_attached) as [r [w' n']] eqn:E.
  assert (r = Ok tt) as -> by (change r with (r, (w', n')).1; rewrite <-E; vm_compute; reflexivity).
  destruct amqp_attached as [wa na] eqn:Ea.
  destruct (transfer_acknowledged wa w' 1 c_transfer c_hello na n')
    as (id & l & body & ms & n1 & n2 & _ & _ & _ & _ & _ & _ & raw & H1 & H2).
  - lia.
  - repeat constructor; cbn; lia.
  - exact E.
  - exists w', n', raw. split; [reflexivity|]. split; [exact H1|].
    replace 1024 with (k_MaxFrame (pr_connection (w_peer wa))); [exact H2|].
    change wa with (wa, na).1. rewrite <-Ea. vm_compute. reflexivity.
Defined.

Lemma disposition_ends_witness :
  ∃ w' n', onDisposition (mkPerformative DescriptorDisposition [VBool true; VU32 3; VU32 5])
    (amqp_ready, O) = (Ok tt, (w', n')) ∧ w_out w' = [].
Proof.
  destruct (disposition_ends test_oracle amqp_ready
    (mkPerformative DescriptorDisposition [VBool true; VU32 3; VU32 5]) O)
    as (w' & n' & H1 & _ & _ & H2 & _).
  - apply ready_inv, amqp_ready_ready.
  - repeat constructor; cbn; lia.
  - exists w', n'. split; [exact H1|exact H2].
Defined.

Lemma onOpen_negotiates_witness :
  k_MaxFrame (pr_connection (w_peer (onOpen c_open (amqp_ready, O)).2.1)) = 1024.
Proof.
  destruct (onOpen c_open (amqp_ready, O)) as [r [w' n']] eqn:E. cbn [fst snd].
  pose proof (onOpen_negotiates test_oracle amqp_ready w' c_open O n' r E) as H.
  apply H.
Defined.

Definition c_init : Performative :=
  mkPerformative DescriptorSASLInit
    [VSymbol "PLAIN"; VBinary ([z2b 0] ++ string_bytes "user" ++ [z2b 0] ++ string_bytes "secret")].

Lemma handshake_authenticates_witness :
  ∃ w' n', handshake amqp_cfg
      (amqp_world (SASLHeader ++ wire_frame 0 c_init [] ++ AMQPHeader), O) = (Ok tt, (w', n')) ∧
    k_State (pr_connection (w_peer w')) = ConnHeader.
Proof.
  destruct (handshake amqp_cfg (amqp_world (SASLHeader ++ wire_frame 0 c_init [] ++ AMQPHeader), O))
    as [r [w' n']] eqn:E.
  assert (r = Ok tt) as -> by (change r with (r, (w', n')).1; rewrite <-E; vm_compute; reflexivity).
  exists w', n'. split; [reflexivity|].
  apply (proj2 (handshake_authenticates test_oracle amqp_cfg _ w' O n' (Ok tt) E)).
  reflexivity.
Defined.

Definition amqp_opening : world MemoryLog :=
  set_in (wire_frame 0 c_open [] ++ wire_frame 1 c_begin [] ++ wire_frame 0 c_close []) amqp_ready.

Lemma handle_loop_ends_witness :
  (handle_loop 500 (amqp_opening, O)).1 = Ok tt ∧
  handle_loop 500 (amqp_opening, O) = handle_loop (S (length (w_in amqp_opening))) (amqp_opening, O).
Proof.
  split; [vm_compute; reflexivity|].
  apply (handle_loop_ends amqp_opening O 500). apply Nat.ltb_lt. vm_compute. reflexivity.
Defined.

Lemma handle_cleans_up_witness :
  ∃ b w' n', o_rand O 10 = inr b ∧
    conn_run (wire_frame 0 c_open [] ++ wire_frame 1 c_begin [] ++ wire_frame 0 c_close []) = (Ok tt, (w', n')) ∧
    forgotten (id_of "conn" b) w'.
Proof.
  destruct (conn_run (wire_frame 0 c_open [] ++ wire_frame 1 c_begin [] ++ wire_frame 0 c_close [])) as [r [w' n']] eqn:E.
  assert (r = Ok tt) as -> by (change r with (r, (w', n')).1; rewrite <-E; vm_compute; reflexivity).
  eexists _, w', n'. split; [reflexivity|]. split; [reflexivity|].
  exact (handle_cleans_up amqp_cfg "client" _ w' O n' (Ok tt) E).
Defined.
