(* ===== verification/PeerSteps.v ===== *)
(** * An AMQP connection is a sequence of broker calls

    What the connection handler does to the delivery service, whatever bytes
    the client sends and however the connection ends: [via] is closed under
    the control structures of the handler, and holds of each of its parts. *)

From S2P Require Import Prelude Bytes Wire Codec Text Duration Matcher Address Message Transaction Env.
From S2P Require Import Memory BodyLog Router Delivery DeliveryInv DeliveryFacts TxService TxFacts Broker.
From S2P Require Import Connection Registry Session Link Peer PeerInv PeerFacts.

Create HintDb via.

Section via.
Context `{orc : Oracle, mtch : !Matcher} {L : Type} `{BodyLog L}.

(** [m] changes the broker by broker calls only, however it ends. *)
Definition via {A} (m : env (world L) A) : Prop :=
  ∀ s, rtc step (w_delivery s.1) (w_delivery (m s).2.1).

(** ** Control structures *)
Lemma via_bind {A B} (m : env (world L) A) (f : A → env (world L) B) :
  via m → (∀ a, via (f a)) → via (m ≫= f).
Proof.
  intros Hm Hf s. specialize (Hm s). unfold mbind, go_bind.
  destruct (m s) as [[a|e|] s']; cbn in *; [|done..]. etrans; [exact Hm|apply Hf].
Qed.

Lemma via_ret {A} (a : A) : via (mret a).
Proof. by intros s. Qed.

Lemma via_raise {A} e : via (raise (A := A) e).
Proof. by intros s. Qed.

Lemma via_panic {A} : via (panic (A := A)).
Proof. by intros s. Qed.

Lemma via_lift {A} (r : res A) : via (lift r).
Proof. by intros s. Qed.

Lemma via_guard b e : via (guard_err b e).
Proof. intros s. by destruct b. Qed.

Lemma via_try {A} (m : env (world L) A) : via m → via (try m).
Proof. intros Hm s. specialize (Hm s). unfold try. by destruct (m s) as [[a|e|] s']. Qed.

Lemma via_wrap {A} text (m : env (world L) A) : via m → via (wrap text m).
Proof. intros Hm s. specialize (Hm s). unfold wrap. by destruct (m s) as [[a|e|] s']. Qed.

Lemma via_deferred {A} d (m : env (world L) A) : via d → via m → via (deferred d m).
Proof.
  intros Hd Hm s. specialize (Hm s). unfold deferred. destruct (m s) as [r s'].
  specialize (Hd s'). destruct (d s') as [r' s'']. cbn in *. by etrans.
Qed.

Lemma via_get : via get_.
Proof. by intros s. Qed.

Lemma via_ask {A} (f : nat → A) : via (ask f).
Proof. by intros s. Qed.

Lemma via_ctx : via ctx_Err.
Proof. apply via_bind; [apply via_ask|]. intros [e|]; [apply via_raise|apply via_ret]. Qed.

Lemma via_rand n : via (rand_Read n).
Proof. apply via_bind; [apply via_ask|]. intros [e|b]; [apply via_raise|apply via_ret]. Qed.

Lemma via_update f : (∀ w, w_delivery (f w) = w_delivery w) → via (update_ f).
Proof. intros Hf s. cbn. by rewrite Hf. Qed.

Lemma via_on {T A} (get : world L → T) put (m : env T A) :
  (∀ t w, w_delivery (put t w) = w_delivery w) → via (on get put m).
Proof. intros Hp s. unfold on. destruct (m _) as [r [t n]]. cbn. by rewrite Hp. Qed.

(** A call of the delivery service. *)
Lemma via_call {A} (m : env (broker L) A) c :
  call_in_range c → (∀ s, (exec c s).2 = (m s).2) → via (on_delivery m).
Proof.
  intros Hc Hm [w n]. specialize (Hm (w_delivery w, n)). unfold on_delivery, on.
  cbn. destruct (m (w_delivery w, n)) as [r [b n']]. cbn.
  destruct (exec c (w_delivery w, n)) as [r1 [b1 n1]] eqn:E. cbn in Hm. simplify_eq.
  apply rtc_once. by eapply step_call.
Qed.
End via.

#[local] Hint Resolve via_ret via_raise via_panic via_lift via_guard via_get via_ask via_ctx via_rand : via.

Lemma ignored_step {S A} (m : go S A) s : (ignore m s).2 = (m s).2.
Proof. unfold ignore, mbind, go_bind. by destruct (m s) as [[a|e|] s']. Qed.

Ltac via_step :=
  lazymatch goal with
  | |- via (mbind _ _) => apply via_bind; [|intros ?]
  | |- via (try _) => apply via_try
  | |- via (wrap _ _) => apply via_wrap
  | |- via (update_ _) => by apply via_update
  | |- via (on_peer _) => by apply via_update
  | |- via (on_connection _) => by apply via_on
  | |- via (on_connections _) => by apply via_on
  | |- via (on_sessions _) => by apply via_on
  | |- via (on_links _) => by apply via_on
  | |- via (on _ _ _) => by apply via_on
  | |- via (let '(_, _) := ?x in _) => destruct x as [??] eqn:?
  | |- via (match ?x with _ => _ end) => destruct x eqn:?
  | |- via (if ?b then _ else _) => destruct b eqn:?
  | |- _ => by eauto with via
  end.
Ltac via_auto := repeat via_step.

Section handlers.
Context (cfg : ServerConfig) `{orc : Oracle, mtch : !Matcher} {L : Type} `{BodyLog L}.

(** ** The socket *)
Lemma via_net_Write raw : via (net_Write (L := L) raw).
Proof. unfold net_Write. via_auto. Qed.

Lemma via_net_Read {A} (m : go bytes A) : via (net_Read (L := L) m).
Proof. unfold net_Read. via_auto. Qed.

Lemma via_write_loop fuel raw : via (write_loop (net_Write (L := L)) fuel raw).
Proof.
  revert raw. induction fuel as [|fuel IH]; intros [|c raw]; cbn [write_loop]; via_auto.
  apply via_net_Write.
Qed.

Lemma via_peer_write channel typ perf payload : via (peer_write (L := L) channel typ perf payload).
Proof. unfold peer_write, WriteFrame. via_auto. apply via_write_loop. Qed.
#[local] Hint Resolve via_net_Write via_net_Read via_peer_write : via.

Lemma via_randomID prefix : via (server_randomID (L := L) prefix).
Proof. unfold server_randomID. via_auto. Qed.
#[local] Hint Resolve via_randomID : via.

(** ** The handshake and the performatives *)
Lemma via_handshake : via (handshake (L := L) cfg).
Proof. unfold handshake, handshake_sasl, Authenticate, clock_Now. via_auto. Qed.

Lemma via_onOpen perf : via (onOpen (L := L) perf).
Proof. unfold onOpen. via_auto. Qed.

Lemma via_onBegin channel : via (onBegin (L := L) channel).
Proof. unfold onBegin, clock_Now. via_auto. Qed.

Lemma via_onAttach channel perf : via (onAttach (L := L) channel perf).
Proof.
  unfold onAttach, clock_Now. via_auto.
  by eapply (via_call _ (CallRegister _ _ 100 AtLeastOnce)); [|intros s'; exact (ignored_step (Service_Register _ _ _ _) s')].
Qed.

Lemma via_flow_loop turns channel handle id : via (flow_loop (L := L) turns channel handle id).
Proof.
  induction turns as [|turns IH]; cbn [flow_loop]; via_auto.
  by apply (via_call _ (CallAcquire id)); [|apply ignored_step].
Qed.
#[local] Hint Resolve via_flow_loop : via.

Lemma via_onFlow channel perf : via (onFlow (L := L) channel perf).
Proof. unfold onFlow. via_auto. Qed.

Lemma via_onTransfer channel perf payload : via (onTransfer (L := L) channel perf payload).
Proof.
  unfold onTransfer. via_auto.
  by eapply (via_call _ (CallPublish _)); [|intros s'; exact (ignored_step (Service_Publish _) s')].
Qed.

Lemma via_disposition_loop fuel id last : via (disposition_loop (L := L) fuel id last).
Proof.
  revert id. induction fuel as [|fuel IH]; intros id; cbn [disposition_loop]; via_auto.
  by apply (via_call _ (CallSettle (default "" (pr_deliveryConsumer (w_peer a) !! id)) id StateAccepted)).
Qed.

Lemma via_onDisposition perf : via (onDisposition (L := L) perf).
Proof. unfold onDisposition. apply via_disposition_loop. Qed.

Lemma via_onDetach channel perf : via (onDetach (L := L) channel perf).
Proof. unfold onDetach. via_auto. by eapply (via_call _ (CallDisconnect _)); [|intros s'; reflexivity]. Qed.

Lemma via_onEnd channel : via (onEnd (L := L) channel).
Proof. unfold onEnd. via_auto. Qed.

Lemma via_onClose : via (onClose (L := L)).
Proof. unfold onClose. via_auto. Qed.
#[local] Hint Resolve via_onOpen via_onBegin via_onAttach via_onFlow via_onTransfer via_onDisposition
  via_onDetach via_onEnd via_onClose via_handshake : via.

Lemma via_process frame : via (process (L := L) frame).
Proof. unfold process. via_auto. Qed.
#[local] Hint Resolve via_process : via.

(** ** The connection *)
Lemma via_handle_loop fuel : via (handle_loop (L := L) fuel).
Proof. induction fuel as [|fuel IH]; cbn [handle_loop]; unfold clock_Now; via_auto. Qed.
#[local] Hint Resolve via_handle_loop : via.

Lemma via_handle remote : via (handle (L := L) cfg remote).
Proof.
  unfold handle, clock_Now. via_auto. apply via_deferred; [|by via_auto].
  unfold handle_cleanup. via_auto.
Qed.
End handlers.

(** ** Property *)

(** A whole AMQP connection, from its first byte to its end, changes the
    broker by service calls only: whatever the client sends and whatever
    fails, and also when the handler ends in an error or a panic, the broker's
    state afterwards is reached from the one before by calls of the delivery
    service, so that its invariant still holds. *)
Theorem amqp_refines_broker (cfg : ServerConfig) (orc : Oracle) (M : Matcher) (L : Type) (HL : BodyLog L)
    (HLaws : BodyLogLaws L) (remote : string) (w w' : world L) (n n' : nat) (r : res unit) :
  wf_broker (w_delivery w) → handle cfg remote (w, n) = (r, (w', n')) →
  rtc step (w_delivery w) (w_delivery w') ∧ wf_broker (w_delivery w').
Proof.
  intros Hw E. pose proof (via_handle cfg remote (w, n)) as Hs. rewrite E in Hs. cbn in Hs.
  split; [exact Hs|]. by apply (steps_advance (w_delivery w)).
Qed.

(** A client that opens, begins, attaches and transfers one message. *)
Definition sending_client : bytes :=
  AMQPHeader ++ wire_frame 0 c_open [] ++ wire_frame 1 c_begin [] ++ wire_frame 1 (c_attach false) [] ++
  wire_frame 1 c_transfer c_hello ++ wire_frame 0 c_close [].

Lemma amqp_refines_broker_witness : ∃ r w' n',
  handle (orc := test_oracle) (mtch := StandardMatcher) amqp_cfg "client" (amqp_world sending_client, O) =
    (r, (w', n')) ∧
  rtc step demo_broker (w_delivery w') ∧
  m_Body <$> map_values (mm_messages (b_mem (w_delivery w'))) = [string_bytes "hello"].
Proof.
  assert (m_Body <$> map_values (mm_messages (b_mem (w_delivery (handle (orc := test_oracle)
    (mtch := StandardMatcher) amqp_cfg "client" (amqp_world sending_client, O)).2.1))) =
    [string_bytes "hello"]) as Hb by (vm_compute; reflexivity).
  destruct (handle (orc := test_oracle) (mtch := StandardMatcher) amqp_cfg "client"
    (amqp_world sending_client, O)) as [r [w' n']] eqn:E.
  exists r, w', n'. split; [reflexivity|]. split; [|exact Hb].
  apply (amqp_refines_broker amqp_cfg test_oracle StandardMatcher MemoryLog _ _ "client"
    (amqp_world sending_client) w' O n' r); [exact demo_wf|exact E].
Defined.
