(* ===== verification/Client.v ===== *)
(** * The command-line client

    Models [cmd/amqp-sim/main.go]: a client that opens a connection, and either
    publishes one message per session or consumes one message.  [client] is
    the [client] struct with the two directions of its socket (what the server
    will still send, what has been sent) and what has been printed.  Writes may
    fail after any prefix and reads at any time (the read deadline).  Parsing
    of the command line is not modelled: [run] takes the flags' values.

    The theorems are about every server: whatever bytes it answers with, the
    client ends without a panic, what it has sent is a beginning of its script,
    and it reports success only when every request was answered in the way the
    protocol asks for.  The last section connects the client to the connection
    handler of the broker. *)

From Stdlib Require Import Ascii String.
From stdpp Require Import pretty.
From S2P Require Import Prelude Bytes Wire Codec CodecFacts Text Duration Matcher Address Message.
From S2P Require Import Transaction Env Memory BodyLog Router Delivery DeliveryInv DeliveryFacts.
From S2P Require Import Connection Registry Session Link Peer PeerInv PeerFacts.

(** ** State *)

(** The two lines the client prints ([fmt.Printf]), by their arguments. *)
Inductive report :=
  | Published (channel : Z) (address body disposition : string)
  | Consumed (address : string) (delivery : Z) (body : bytes).

Record client := mkClient {
  c_in : bytes; c_out : bytes; c_alive : bool; c_max : Z; c_printed : list report }.

Definition cset_in (x : bytes) (c : client) : client :=
  mkClient x (c_out c) (c_alive c) (c_max c) (c_printed c).
Definition cset_out (x : bytes) (c : client) : client :=
  mkClient (c_in c) x (c_alive c) (c_max c) (c_printed c).
Definition cset_alive (x : bool) (c : client) : client :=
  mkClient (c_in c) (c_out c) x (c_max c) (c_printed c).
Definition cset_max (x : Z) (c : client) : client :=
  mkClient (c_in c) (c_out c) (c_alive c) x (c_printed c).
Definition cset_printed (x : list report) (c : client) : client :=
  mkClient (c_in c) (c_out c) (c_alive c) (c_max c) x.

(** ** Operations *)
Section operations.
Context {orc : Oracle}.

Definition conn_Write (raw : bytes) : env client nat :=
  r ← ask o_io;
  match r with
  | None => update_ (λ c, cset_out (c_out c ++ raw) c);; mret (length raw)
  | Some e =>
      k ← ask o_short;
      update_ (λ c, cset_out (c_out c ++ take k raw) c);;
      raise e
  end.

Definition conn_Read {A} (m : go bytes A) : env client A :=
  r ← ask o_io;
  match r with
  | None => on c_in cset_in (quietly m)
  | Some e => raise e
  end.

(** [net.DialTimeout] and [nc.Close]. *)
Definition dial : env client unit :=
  r ← ask o_io;
  match r with None => update_ (cset_alive true) | Some e => raise e end.

Definition conn_Close : env client unit := update_ (cset_alive false).

Definition print (line : report) : env client unit :=
  update_ (λ c, cset_printed (c_printed c ++ [line]) c).

Definition sendPayload (channel : Z) (p : Performative) (payload : bytes) : env client unit :=
  f ← lift (FrameFor channel p payload);
  c ← get_;
  WriteFrame conn_Write f (c_max c).

Definition send (channel : Z) (p : Performative) : env client unit := sendPayload channel p [].

Definition receiveFrame : env client (Frame * Performative * nat) :=
  c ← get_;
  f ← conn_Read (ReadFrame (c_max c));
  '(p, n) ← lift (DecodePerformative (f_Body f));
  mret (f, p, n).

Definition receive : env client Performative :=
  '(_, p, _) ← receiveFrame;
  mret p.

Definition begin (channel : Z) : env client unit :=
  send channel (mkPerformative DescriptorBegin [VNil; VU32 0; VU32 2048; VU32 2048]);;
  reply ← receive;
  guard_err (negb (bool_decide (p_Descriptor reply = DescriptorBegin)))
    (ErrFmtS "expected begin, got %s" (Performative_Name reply)).

Definition publish (channel : Z) (address body : string) : env client unit :=
  begin channel;;
  let handle := 0 in
  send channel (mkPerformative DescriptorAttach
    [VString ("sender-" +:+ pretty channel); VU32 handle; VBool false; VNil; VNil; VNil;
     VString address]);;
  receive;;
  sendPayload channel
    (mkPerformative DescriptorTransfer
       [VU32 handle; VU32 channel; VBinary (string_bytes ("tag-" +:+ pretty channel)); VU32 0;
        VBool false])
    (EncodeDataSection (string_bytes body));;
  reply ← receive;
  guard_err (negb (bool_decide (p_Descriptor reply = DescriptorDisposition)))
    (ErrFmtS "expected disposition, got %s" (Performative_Name reply));;
  print (Published channel address body (Performative_Name reply));;
  send channel (mkPerformative DescriptorEnd []);;
  receive;;
  mret tt.

Definition consume (address : string) : env client unit :=
  let channel := 1 in
  begin channel;;
  let handle := 0 in
  send channel (mkPerformative DescriptorAttach
    [VString "receiver"; VU32 handle; VBool true; VNil; VNil; VString address; VNil]);;
  receive;;
  send channel (mkPerformative DescriptorFlow
    [VU32 0; VU32 2048; VU32 0; VU32 2048; VU32 handle; VU32 0; VU32 1]);;
  '(frame, perf, used) ← receiveFrame;
  guard_err (negb (bool_decide (p_Descriptor perf = DescriptorTransfer)))
    (ErrFmtS "expected transfer, got %s" (Performative_Name perf));;
  section ← lift (slice_from (f_Body frame) used);
  data ← lift (DecodeDataSection section);
  let id := Performative_Uint perf 1 in
  print (Consumed address id data);;
  let accepted := VMap [("descriptor", VU8 (z2b 0x24)); ("value", VList [])] in
  send channel (mkPerformative DescriptorDisposition [VBool false; VU32 id; VNil; VBool true; accepted]);;
  send 0 (mkPerformative DescriptorClose []);;
  receive;;
  mret tt.

(** The flags [-address], [-body], [-mode] and [-sessions]. *)
Definition sim_run (address body mode : string) (sessions : Z) : env client unit :=
  dial;;
  deferred conn_Close (
    update_ (cset_max (2 ^ 20));;
    conn_Write AMQPHeader;;
    header ← conn_Read (ReadFull 8);
    lift (ValidateProtocolHeader header);;
    send 0 (mkPerformative DescriptorOpen [VString "amqp-sim"; VNil; VU32 (2 ^ 20); VU16 65535]);;
    receive;;
    if bool_decide (mode = "consume") then consume address
    else
      for_each (seqZ 0 sessions) (λ i,
        publish (u16 (i + 1)) address (body +:+ "-" +:+ pretty (i + 1)));;
      send 0 (mkPerformative DescriptorClose []);;
      receive;;
      mret tt).
End operations.

(** ** The script of the client

    What the client has to say, as messages (channel, performative, payload),
    and what it makes of the answers. *)
Abbreviation message := (Z * Performative * bytes)%type.
Abbreviation answer := (Frame * Performative * nat)%type.

Definition wire (m : message) : bytes :=
  let '(channel, p, payload) := m in
  match EncodePerformative p with
  | Ok b => frame_bytes (mkFrame 0 (z2b 2) FrameTypeAMQP channel (b ++ payload))
  | _ => []
  end.

Definition transcript (ms : list message) : bytes := concat (wire <$> ms).

Definition open_request : message :=
  (0, mkPerformative DescriptorOpen [VString "amqp-sim"; VNil; VU32 (2 ^ 20); VU16 65535], []).
Definition begin_request (ch : Z) : message :=
  (ch, mkPerformative DescriptorBegin [VNil; VU32 0; VU32 2048; VU32 2048], []).
Definition close_request : message := (0, mkPerformative DescriptorClose [], []).

(** One message published on channel [ch]. *)
Definition publish_script (address body : string) (ch : Z) : list message :=
  [begin_request ch;
   (ch, mkPerformative DescriptorAttach
      [VString ("sender-" +:+ pretty ch); VU32 0; VBool false; VNil; VNil; VNil; VString address], []);
   (ch, mkPerformative DescriptorTransfer
      [VU32 0; VU32 ch; VBinary (string_bytes ("tag-" +:+ pretty ch)); VU32 0; VBool false],
    EncodeDataSection (string_bytes body));
   (ch, mkPerformative DescriptorEnd [], [])].

(** The channel and the body of the [i]-th message, counted from 0. *)
Definition nth_channel (i : Z) : Z := (i + 1) `mod` 65536.
Definition nth_body (body : string) (i : Z) : string := (body +:+ "-" +:+ pretty (i + 1))%string.

Definition publishing (address body : string) (sessions : Z) : list message :=
  open_request ::
  concat ((λ i, publish_script address (nth_body body i) (nth_channel i)) <$> seqZ 0 sessions) ++
  [close_request].

Definition consuming (address : string) (delivery : Z) : list message :=
  [open_request; begin_request 1;
   (1, mkPerformative DescriptorAttach
      [VString "receiver"; VU32 0; VBool true; VNil; VNil; VString address; VNil], []);
   (1, mkPerformative DescriptorFlow
      [VU32 0; VU32 2048; VU32 0; VU32 2048; VU32 0; VU32 0; VU32 1], []);
   (1, mkPerformative DescriptorDisposition
      [VBool false; VU32 delivery; VNil; VBool true;
       VMap [("descriptor", VU8 (z2b 0x24)); ("value", VList [])]], []);
   close_request].

(** Bytes of the server that the client read as this answer. *)
Definition answer_read (max : Z) (raw : bytes) (a : answer) : Prop :=
  let '(f, p, n) := a in
  ParseFrame raw max = Ok f ∧ DecodePerformative (f_Body f) = Ok (p, n).

(** The answers the client insists on: [begin] to [begin], and [disposition]
    to [transfer]; every other request may be answered by anything. *)
Definition acceptable (m : message) (a : answer) : Prop :=
  (p_Descriptor m.1.2 = DescriptorBegin → p_Descriptor a.1.2 = DescriptorBegin) ∧
  (p_Descriptor m.1.2 = DescriptorTransfer → p_Descriptor a.1.2 = DescriptorDisposition).

(** ** Rules for the client *)

(** From [c] to [c'] the client has said [ms], printed [ls] and read the
    answers [reps]. *)
Definition said (c : client) (ms : list message) (ls : list report) (reps : list answer)
    (c' : client) : Prop :=
  c_out c' = c_out c ++ transcript ms ∧ c_printed c' = c_printed c ++ ls ∧ c_max c' = c_max c ∧
  ∃ raws, c_in c = concat raws ++ c_in c' ∧ Forall2 (answer_read (c_max c)) raws reps.

(** What a part of the client does from [c]: it says [ms] and prints [ls]
    completely when it succeeds and a beginning of them when it fails, and the
    answers it consumed satisfy [P]. *)
Definition conv {A} (c : client) (ms : list message) (ls : list report)
    (P : A → list answer → Prop) : res A → client → Prop := λ r c',
  match r with
  | Ok a => ∃ reps, said c ms ls reps c' ∧ P a reps
  | Err _ => c_out c' `prefix_of` c_out c ++ transcript ms ∧
      c_printed c' `prefix_of` c_printed c ++ ls
  | Panic => False
  end.

(** A message small enough for a frame's 32-bit size. *)
Definition sendable (m : message) : Prop :=
  0 ≤ m.1.1 < 2 ^ 16 ∧
  ∀ b, EncodePerformative m.1.2 = Ok b → 8 + Z.of_nat (length b) + Z.of_nat (length m.2) < 2 ^ 32.

Lemma transcript_app ms ms' : transcript (ms ++ ms') = transcript ms ++ transcript ms'.
Proof. unfold transcript. by rewrite fmap_app, concat_app. Qed.

Lemma said_nothing c : said c [] [] [] c.
Proof. split_and!; rewrite ?app_nil_r; [done..|]. by exists []. Qed.

Lemma said_app c ms ls reps c' ms' ls' reps' c'' :
  said c ms ls reps c' → said c' ms' ls' reps' c'' →
  said c (ms ++ ms') (ls ++ ls') (reps ++ reps') c''.
Proof.
  intros (Ho & Hp & Hx & raws & Hi & Hr) (Ho' & Hp' & Hx' & raws' & Hi' & Hr').
  split_and!.
  - by rewrite Ho', Ho, transcript_app, <-app_assoc.
  - by rewrite Hp', Hp, <-app_assoc.
  - by rewrite Hx'.
  - exists (raws ++ raws'). rewrite Hi, Hi', concat_app, <-app_assoc. rewrite Hx in Hr'.
    split; [done|by apply Forall2_app].
Qed.

Lemma conv_app {A} c ms ls reps c' ms' ls' (R : A → list answer → Prop) r c'' :
  said c ms ls reps c' → conv c' ms' ls' (λ a reps', R a (reps ++ reps')) r c'' →
  conv c (ms ++ ms') (ls ++ ls') R r c''.
Proof.
  intros Hs. destruct r as [a|e|]; cbn; [|..|done].
  - intros (reps' & Hs' & HR). eauto using said_app.
  - destruct Hs as (-> & -> & _). by rewrite transcript_app, <-!app_assoc.
Qed.

Lemma conv_Err_app {A B} c ms ls (P : A → list answer → Prop) ms' ls' (R : B → list answer → Prop) e c' :
  conv c ms ls P (Err e) c' → conv c (ms ++ ms') (ls ++ ls') R (Err e) c'.
Proof. cbn. rewrite transcript_app, !app_assoc. intros []. split; by apply prefix_app_r. Qed.

Section rules.
Context {orc : Oracle}.
Implicit Types c : client.

Lemma conv_ret {A} (a : A) (P : A → list answer → Prop) c :
  P a [] → wpe (mret a) (conv c [] [] P) c.
Proof. intros HP. apply wpe_ret. exists []. split; [apply said_nothing|done]. Qed.

Lemma conv_raise {A} e ms ls (P : A → list answer → Prop) c : wpe (raise e) (conv c ms ls P) c.
Proof. apply wpe_raise. cbn. split; by apply prefix_app_r. Qed.

Lemma conv_weaken {A} ms ls (P Q : A → list answer → Prop) (m : env client A) c :
  wpe m (conv c ms ls P) c → (∀ a reps, P a reps → Q a reps) → wpe m (conv c ms ls Q) c.
Proof.
  intros Hm HPQ. eapply wpe_mono; [exact Hm|]. intros [a|e|] c'; cbn; [|done..]. intros (? & ? & ?). eauto.
Qed.

(** Sequencing, for a continuation whose script may depend on what is heard. *)
Lemma conv_choose {A B D} `{Inhabited D} ms1 (ms2 : D → list message) ls1 (ls2 : D → list report)
    (P : A → list answer → Prop) (R : D → B → list answer → Prop)
    (m : env client A) (f : A → env client B) c :
  wpe m (conv c ms1 ls1 P) c →
  (∀ a reps c', P a reps →
     wpe (f a) (λ r c'', ∃ d, conv c' (ms2 d) (ls2 d) (λ b reps', R d b (reps ++ reps')) r c'') c') →
  wpe (m ≫= f) (λ r c'', ∃ d, conv c (ms1 ++ ms2 d) (ls1 ++ ls2 d) (R d) r c'') c.
Proof.
  intros Hm Hf. apply wpe_bind. eapply wpe_mono; [exact Hm|]. intros [a|e|] c'; [|..|done].
  - intros (reps & Hs & HP). eapply wpe_mono; [by apply (Hf a reps)|].
    intros r c'' [d Hd]. exists d. by eapply conv_app.
  - intros He. exists inhabitant. by eapply conv_Err_app.
Qed.

Lemma conv_bind {A B} ms1 ms2 ls1 ls2 (P : A → list answer → Prop) (R : B → list answer → Prop)
    (m : env client A) (f : A → env client B) c :
  wpe m (conv c ms1 ls1 P) c →
  (∀ a reps c', P a reps →
     wpe (f a) (conv c' ms2 ls2 (λ b reps', R b (reps ++ reps'))) c') →
  wpe (m ≫= f) (conv c (ms1 ++ ms2) (ls1 ++ ls2) R) c.
Proof.
  intros Hm Hf.
  assert (wpe (m ≫= f) (λ r c'', ∃ _ : unit, conv c (ms1 ++ ms2) (ls1 ++ ls2) R r c'') c) as Hb.
  { eapply (conv_choose ms1 (λ _, ms2) ls1 (λ _, ls2) P (λ _, R)); [exact Hm|].
    intros a reps c' HP. eapply wpe_mono; [by apply Hf|]. intros r c'' Hr. by exists (). }
  eapply wpe_mono; [exact Hb|]. by intros r c'' [_ Hr].
Qed.

Lemma conv_guard b e c :
  wpe (guard_err b e) (conv c [] [] (λ _ reps, reps = [] ∧ b = false)) c.
Proof. destruct b; [apply conv_raise|by apply conv_ret]. Qed.

Lemma conv_print line c : wpe (print line) (conv c [] [line] (λ _ reps, reps = [])) c.
Proof.
  unfold print. wpe_step. exists []. split; [|done].
  split_and!; cbn; rewrite ?app_nil_r; try done. by exists [].
Qed.

Lemma conv_lift {A} (r : res A) c :
  r ≠ Panic → wpe (lift r) (conv c [] [] (λ a reps, reps = [] ∧ r = Ok a)) c.
Proof. destruct r as [a|e|]; intros ?; [by apply conv_ret|apply conv_raise|done]. Qed.

Lemma wpe_cask {A} (f : nat → A) (Q : res A → client → Prop) c :
  (∀ n, Q (Ok (f n)) c) → wpe (ask f) Q c.
Proof. intros HQ n. apply HQ. Qed.

Lemma wpe_conn_Write raw (Q : res nat → client → Prop) c :
  (∀ e k, Q (Err e) (cset_out (c_out c ++ take k raw) c)) →
  Q (Ok (length raw)) (cset_out (c_out c ++ raw) c) →
  wpe (conn_Write raw) Q c.
Proof.
  intros He HQ. unfold conn_Write. wpe_step. apply wpe_cask. intros n.
  destruct (o_io n) as [e|]; [|by wpe_auto].
  wpe_step. apply wpe_cask. intros k. wpe_auto. apply He.
Qed.

Lemma wpe_conn_Read {A} (m : go bytes A) (Q : res A → client → Prop) c :
  (∀ e, Q (Err e) c) → Q (m (c_in c)).1 (cset_in (m (c_in c)).2 c) → wpe (conn_Read m) Q c.
Proof.
  intros He HQ. unfold conn_Read. wpe_step. apply wpe_cask. intros n.
  destruct (o_io n) as [e|]; [by wpe_auto|]. by wpe_auto.
Qed.

Lemma conv_sendPayload ch p payload c :
  sendable (ch, p, payload) →
  wpe (sendPayload ch p payload) (conv c [(ch, p, payload)] [] (λ _ reps, reps = [])) c.
Proof.
  intros [Hch Hlen]. cbn in Hch, Hlen. unfold sendPayload. apply wpe_bind, wpe_lift.
  pose proof (FrameFor_no_panic ch p payload) as Hp.
  destruct (FrameFor ch p payload) as [f|e|] eqn:Ef; [|split; by apply prefix_app_r|done].
  apply res_bind_Ok in Ef as (b & Eb & [= <-]). specialize (Hlen b Eb).
  wpe_step. wpe_step. unfold WriteFrame. set (fr := mkFrame _ _ _ _ _).
  assert (frame_wf fr) as Hwf.
  { split_and!; [apply Hch|apply Hch|done| |by left].
    change (8 + Z.of_nat (length (b ++ payload)) < 2 ^ 32). rewrite length_app. lia. }
  wpe_step. wpe_step. pose proof (Frame_Marshal_no_panic 0 FrameTypeAMQP ch (b ++ payload) (c_max c)) as Hm.
  destruct (Frame_Marshal fr (c_max c)) as [raw|e|] eqn:Em; [|split; by apply prefix_app_r|done].
  rewrite (Frame_Marshal_wf fr _ Hwf (Frame_Marshal_Ok_bound _ _ _ Hwf Em)) in Em. injection Em as <-.
  assert (transcript [(ch, p, payload)] = frame_bytes fr) as Et.
  { unfold transcript. cbn [fmap list_fmap concat wire]. rewrite Eb. apply app_nil_r. }
  unfold conv. rewrite Et.
  destruct (frame_bytes fr) as [|x raw] eqn:Er; [exfalso; by apply (f_equal length) in Er|].
  cbn [length write_loop]. wpe_step. apply wpe_conn_Write.
  { intros e k. split; [apply prefix_app, prefix_take|by apply prefix_app_r]. }
  wpe_step. wpe_step. rewrite slice_from_Ok by done. rewrite drop_all.
  destruct (length raw); cbn [write_loop]; wpe_step; exists []; (split; [|done]); split_and!;
    cbn [c_out c_printed c_in cset_out]; rewrite ?Et, ?app_nil_r; try done; by exists [].
Qed.

Lemma conv_receiveFrame c :
  wpe receiveFrame (conv c [] [] (λ a reps, reps = [a] ∧ (a.2 ≤ length (f_Body a.1.1))%nat)) c.
Proof.
  unfold receiveFrame. wpe_step. wpe_step. wpe_step.
  assert (∀ c', c_out c' = c_out c → c_printed c' = c_printed c →
    c_out c' `prefix_of` c_out c ++ transcript [] ∧ c_printed c' `prefix_of` c_printed c ++ []) as Hsame.
  { intros c' -> ->. split; by apply prefix_app_r. }
  apply wpe_conn_Read; [by intros; apply Hsame|].
  pose proof (ReadFrame_spec (c_max c) (c_in c)) as Hs.
  destruct (ReadFrame (c_max c) (c_in c)) as [[f|e|] s']; cbn [fst snd]; [|by apply Hsame|done].
  destruct Hs as (_ & raw & Hin & _ & Hparse). wpe_step. wpe_step.
  pose proof (DecodePerformative_spec (f_Body f)) as Hd.
  destruct (DecodePerformative (f_Body f)) as [[p n]|e|] eqn:Ed; [|by apply Hsame|done].
  wpe_step. exists [(f, p, n)]. split; [|split; [done|apply Hd]].
  split_and!; cbn; rewrite ?app_nil_r; try done. exists [raw]. cbn. rewrite app_nil_r.
  split; [done|]. constructor; [done|constructor].
Qed.

Lemma conv_receive c :
  wpe receive (conv c [] [] (λ p reps, ∃ f n, reps = [(f, p, n)])) c.
Proof.
  unfold receive. eapply (conv_bind [] [] [] []); [apply conv_receiveFrame|]. intros [[f p] n] reps c' [-> _].
  apply conv_ret. by exists f, n.
Qed.
End rules.

(** *** Sizes: messages made of bounded parts are sendable *)
Lemma pretty_N_go_length k : ∀ x s, (x < 10 ^ N.of_nat k)%N →
  (String.length (pretty_N_go x s) ≤ k + String.length s)%nat.
Proof.
  induction k as [|k IH]; intros x s Hx.
  { replace x with 0%N by (cbn in Hx; lia). by rewrite pretty_N_go_0. }
  destruct (decide (x = 0%N)) as [->|Hz]; [rewrite pretty_N_go_0; lia|].
  rewrite pretty_N_go_step by lia. etransitivity; [apply IH|cbn; lia].
  apply N.Div0.div_lt_upper_bound. rewrite Nat2N.inj_succ, N.pow_succ_r' in Hx. lia.
Qed.

Lemma pretty_length (k : nat) (x : Z) :
  0 ≤ x < 10 ^ Z.of_nat (S k) → (String.length (pretty x) ≤ S k)%nat.
Proof.
  intros Hx. unfold pretty, pretty_Z. destruct x as [|x|x]; [cbn; lia| |lia].
  change (String.length (pretty_N (N.pos x)) ≤ S k)%nat. unfold pretty_N. case_decide; [cbn; lia|].
  rewrite <-(Nat.add_0_r (S k)). apply (pretty_N_go_length (S k) _ ""). lia.
Qed.

Lemma string_length_app s t : String.length (s +:+ t) = (String.length s + String.length t)%nat.
Proof. induction s as [|c s IH]; cbn; [done|]. by rewrite <-IH. Qed.

Lemma length_string_bytes s : length (string_bytes s) = String.length s.
Proof. induction s as [|c s IH]; cbn; [done|]. by rewrite <-IH. Qed.

(** The encoding of a field takes at most [k] bytes. *)
Definition field_within (k : nat) (v : value) : Prop :=
  match v with
  | VString s | VSymbol s => (5 + String.length s ≤ k)%nat
  | VBinary b => (5 + length b ≤ k)%nat
  | VNil | VBool _ | VU8 _ | VU16 _ | VU32 _ => (5 ≤ k)%nat
  | VMap _ => v = accepted_state ∧ (5 ≤ k)%nat
  | _ => False
  end.

Lemma encodeBytes_within s l b : (length (encodeBytes s l b) ≤ 5 + length b)%nat.
Proof. unfold encodeBytes. case_match; rewrite ?length_app, ?length_be_put; cbn; lia. Qed.

Lemma field_within_spec k v e : field_within k v → encodeValue v = Ok e → (length e ≤ k)%nat.
Proof.
  destruct v; try done; cbn [field_within encodeValue]; intros Hk E;
    try (destruct Hk as [[= ->] Hk]; injection E as <-; cbn; lia);
    repeat case_match; simplify_res; rewrite ?length_app, ?length_be_put; cbn; try lia.
  all: etransitivity; [apply encodeBytes_within|]; rewrite ?length_string_bytes; lia.
Qed.

Ltac fields_within :=
  cbn [p_Fields]; rewrite !Forall_cons, Forall_nil; cbn [field_within];
  rewrite ?length_string_bytes, ?string_length_app;
  repeat match goal with |- context [String.length (String ?a ?b)] =>
    let n := eval vm_compute in (String.length (String a b)) in
    change (String.length (String a b)) with n end;
  split_and!; try done; lia.

Lemma sendable_within k ch p payload :
  0 ≤ ch < 2 ^ 16 → Forall (field_within k) (p_Fields p) →
  20 + Z.of_nat k * Z.of_nat (length (p_Fields p)) + Z.of_nat (length payload) < 2 ^ 32 →
  sendable (ch, p, payload).
Proof.
  intros Hch Hf Hlen. split; [done|]. intros b Eb. cbn in *.
  apply (EncodePerformative_length k) in Eb; [nia|].
  intros v e Hv. apply field_within_spec. by eapply Forall_forall in Hf.
Qed.

Lemma EncodeDataSection_length b : (length (EncodeDataSection b) ≤ 8 + length b)%nat.
Proof.
  unfold EncodeDataSection. pose proof (encodeBytes_within (z2b 0xa0) (z2b 0xb0) b).
  repeat case_match; rewrite ?length_app, ?length_be_put; cbn in *; try lia.
Qed.

(** *** Syntax-directed rules: one per statement of the client *)
Section statements.
Context {orc : Oracle} {A : Type}.
Implicit Types (c : client) (ms : list message) (ls : list report) (R : A → list answer → Prop).

Lemma conv_say ch p payload ms ls R (f : env client A) c :
  sendable (ch, p, payload) → (∀ c', wpe f (conv c' ms ls R) c') →
  wpe (sendPayload ch p payload;; f) (conv c ((ch, p, payload) :: ms) ls R) c.
Proof.
  intros Hs Hf. eapply (conv_bind [_] ms [] ls); [by apply conv_sendPayload|]. by intros _ ? c' ->.
Qed.

Lemma conv_hear ms ls R (f : Performative → env client A) c :
  (∀ fr p n c', wpe (f p) (conv c' ms ls (λ b reps, R b ((fr, p, n) :: reps))) c') →
  wpe (receive ≫= f) (conv c ms ls R) c.
Proof.
  intros Hf. eapply (conv_bind [] ms [] ls); [apply conv_receive|].
  intros p ? c' (fr & n & ->). apply Hf.
Qed.

Lemma conv_check (b : bool) e ms ls R (f : env client A) c :
  (b = false → ∀ c', wpe f (conv c' ms ls R) c') →
  wpe (guard_err b e;; f) (conv c ms ls R) c.
Proof.
  intros Hf. eapply (conv_bind [] ms [] ls); [apply conv_guard|]. intros _ ? c' [-> Hb]. by apply Hf.
Qed.

Lemma conv_tell line ms ls R (f : env client A) c :
  (∀ c', wpe f (conv c' ms ls R) c') →
  wpe (print line;; f) (conv c ms (line :: ls) R) c.
Proof.
  intros Hf. eapply (conv_bind [] ms [line] ls); [apply conv_print|]. by intros _ ? c' ->.
Qed.

End statements.

(** ** The operations of the client *)
Section conversations.
Context {orc : Oracle}.
Implicit Types c : client.

Lemma conv_begin ch c :
  0 ≤ ch < 2 ^ 16 →
  wpe (begin ch) (conv c [begin_request ch] [] (λ _, Forall2 acceptable [begin_request ch])) c.
Proof.
  intros Hch. unfold begin, send. apply conv_say.
  { apply (sendable_within 5); [done|repeat constructor|cbn; lia]. }
  intros c1. apply conv_hear. intros fr p n c2.
  eapply conv_weaken; [apply conv_guard|]. cbn. intros _ _ [-> Hb].
  apply negb_false_iff, bool_decide_eq_true in Hb. constructor; [|constructor]. by split.
Qed.

Lemma conv_publish ch address body c :
  0 ≤ ch < 2 ^ 16 → Z.of_nat (String.length address) < 2 ^ 28 →
  Z.of_nat (String.length body) < 2 ^ 31 →
  wpe (publish ch address body)
    (conv c (publish_script address body ch) [Published ch address body "disposition"]
       (λ _, Forall2 acceptable (publish_script address body ch))) c.
Proof.
  intros Hch Ha Hb. assert (String.length (pretty ch) ≤ 5)%nat as Hp by (apply pretty_length; lia).
  unfold publish, send. eapply (conv_bind [_] _ []); [by apply conv_begin|]. intros [] r1 c1 H1.
  apply conv_say.
  { apply (sendable_within (20 + String.length address)); [done| |cbn; lia].
    fields_within. }
  intros c2. apply conv_hear. intros f2 p2 n2 c3. apply conv_say.
  { apply (sendable_within 20); [done| |pose proof (EncodeDataSection_length (string_bytes body)) as He;
      rewrite length_string_bytes in He; cbn [p_Fields length]; lia].
    fields_within. }
  intros c4. apply conv_hear. intros f3 p3 n3 c5. apply conv_check. intros Hd c6.
  apply negb_false_iff, bool_decide_eq_true in Hd.
  assert (Performative_Name p3 = "disposition") as ->.
  { unfold Performative_Name. rewrite Hd. reflexivity. }
  apply conv_tell. intros c7. apply conv_say.
  { apply (sendable_within 5); [done|constructor|cbn; lia]. }
  intros c8. apply conv_hear. intros f4 p4 n4 c9. apply conv_ret.
  eapply (Forall2_app (l1 := [_]) H1). repeat constructor; done.
Qed.

Lemma conv_publishes (l : list Z) address body c :
  Z.of_nat (String.length address) < 2 ^ 28 → Z.of_nat (String.length body) < 2 ^ 30 →
  Forall (λ i, 0 ≤ i < 2 ^ 63) l →
  wpe (for_each l (λ i, publish (u16 (i + 1)) address (body +:+ "-" +:+ pretty (i + 1))))
    (conv c (concat ((λ i, publish_script address (nth_body body i) (nth_channel i)) <$> l))
       ((λ i, Published (nth_channel i) address (nth_body body i) "disposition") <$> l)
       (λ _, Forall2 acceptable
          (concat ((λ i, publish_script address (nth_body body i) (nth_channel i)) <$> l)))) c.
Proof.
  intros Ha Hb Hl. revert c. induction Hl as [|i l Hi Hl IH]; intros c; [by apply conv_ret; constructor|].
  cbn [for_each fmap list_fmap concat].
  assert (String.length (pretty (i + 1)%Z) ≤ 20)%nat as Hp by (apply pretty_length; lia).
  eapply (conv_bind _ _ [_]); [apply conv_publish|].
  - unfold u16. apply Z.mod_pos_bound. lia.
  - done.
  - unfold nth_body. rewrite !string_length_app. cbn [String.length]. lia.
  - intros [] r1 c1 H1. eapply conv_weaken; [apply IH|]. intros [] r2 H2.
    exact (Forall2_app H1 H2).
Qed.

(** What the transfer the client consumed has to be. *)
Definition delivered (delivery : Z) (data : bytes) (a : answer) : Prop :=
  let '(f, p, used) := a in
  p_Descriptor p = DescriptorTransfer ∧ Performative_Uint p 1 = delivery ∧
  DecodeDataSection (drop used (f_Body f)) = Ok data.

Definition consumed_answers (d : Z * bytes) (reps : list answer) : Prop :=
  ∃ a1 a2 a3 a4, reps = [a1; a2; a3; a4] ∧ p_Descriptor a1.1.2 = DescriptorBegin ∧
    delivered d.1 d.2 a3.

Lemma conv_consume address c :
  Z.of_nat (String.length address) < 2 ^ 28 →
  wpe (consume address)
    (λ r c', ∃ d : Z * bytes, conv c (drop 1 (consuming address d.1)) [Consumed address d.1 d.2]
       (λ _, consumed_answers d) r c') c.
Proof.
  intros Ha. unfold consume, send.
  eapply (conv_choose [_] (λ d, drop 2 (consuming address d.1)) []); [by apply conv_begin|].
  intros [] r1 c1 H1. inversion H1 as [|? a1 ? ? [Hb _] H1']; subst. inversion H1'; subst.
  eapply (conv_choose [_] (λ d, drop 3 (consuming address d.1)) []);
    [apply conv_sendPayload, (sendable_within (20 + String.length address)); [done|fields_within|cbn; lia]|].
  intros [] ? c2 ->.
  eapply (conv_choose [] (λ d, drop 3 (consuming address d.1)) []); [apply conv_receive|].
  intros p2 ? c3 (f2 & n2 & ->).
  eapply (conv_choose [_] (λ d, drop 4 (consuming address d.1)) []);
    [apply conv_sendPayload, (sendable_within 5); [done|fields_within|cbn; lia]|].
  intros [] ? c4 ->.
  eapply (conv_choose [] (λ d, drop 4 (consuming address d.1)) []); [apply conv_receiveFrame|].
  intros [[f p] used] ? c5 [-> Hused]. cbn in Hused.
  eapply (conv_choose [] (λ d, drop 4 (consuming address d.1)) []); [apply conv_guard|].
  intros [] ? c6 [-> Hd%negb_false_iff%bool_decide_eq_true].
  rewrite slice_from_Ok by done.
  eapply (conv_choose [] (λ d, drop 4 (consuming address d.1)) []); [by apply conv_lift|].
  intros sec ? c7 [-> [= <-]].
  eapply (conv_choose [] (λ d, drop 4 (consuming address d.1)) []);
    [apply conv_lift, DecodeDataSection_no_panic|].
  intros data ? c8 [-> Hdata].
  eapply wpe_mono; [|intros r c' Hr; exists (Performative_Uint p 1, data); exact Hr].
  apply conv_tell. intros c9. apply conv_say.
  { apply (sendable_within 8); [done|fields_within|cbn; lia]. }
  intros c10. apply conv_say.
  { apply (sendable_within 5); [done|constructor|cbn; lia]. }
  intros c11. apply conv_hear. intros f4 p4 n4 c12. apply conv_ret.
  eexists _, _, _, _. split; [reflexivity|]. split; [by apply Hb|]. split_and!; done.
Qed.
End conversations.

(** ** Whole runs *)
Definition fresh_client (input : bytes) : client := mkClient input [] false 0 [].

(** A run against a server that sends [input]: it does not panic, the socket
    is closed, it has sent and printed a beginning of what it had to, and when
    it succeeds all of it, having read a protocol header and the answers [P]
    describes. *)
Definition whole (input : bytes) (script : list message) (ls : list report)
    (P : list answer → Prop) (r : res unit) (c : client) : Prop :=
  r ≠ Panic ∧ c_alive c = false ∧
  c_out c `prefix_of` AMQPHeader ++ transcript script ∧ c_printed c `prefix_of` ls ∧
  (r = Ok tt →
     c_out c = AMQPHeader ++ transcript script ∧ c_printed c = ls ∧
     ∃ header protocol raws reps, input = header ++ concat raws ++ c_in c ∧
       ValidateProtocolHeader header = Ok protocol ∧ Forall2 (answer_read (2 ^ 20)) raws reps ∧ P reps).

Section whole_runs.
Context {orc : Oracle}.

(** What [run] does after the [open] has been answered. *)
Definition after_open (address body mode : string) (sessions : Z) : env client unit :=
  if bool_decide (mode = "consume") then consume address
  else
    for_each (seqZ 0 sessions) (λ i,
      publish (u16 (i + 1)) address (body +:+ "-" +:+ pretty (i + 1)));;
    send 0 (mkPerformative DescriptorClose []);;
    receive;;
    mret tt.

Lemma whole_cut input script ls P e c :
  c_out c `prefix_of` AMQPHeader → c_printed c = [] → c_alive c = false →
  whole input script ls P (Err e) c.
Proof.
  intros Ho Hp Ha. split_and!; try done; [by apply prefix_app_r|rewrite Hp; apply prefix_nil].
Qed.

(** From the header exchange on, [whole] is [conv] and a closed socket. *)
Lemma conv_whole input script ls P h protocol rest r c c' :
  input = h ++ rest → ValidateProtocolHeader h = Ok protocol →
  c_in c = rest → c_out c = AMQPHeader → c_printed c = [] → c_max c = 2 ^ 20 →
  conv c script ls (λ _, P) r c' → whole input script ls P r (cset_alive false c').
Proof.
  intros Hin Hv Hi Ho Hp Hm Hc. unfold whole. cbn [c_alive cset_alive c_out c_printed c_in].
  destruct r as [[]|e|]; cbn in Hc; [|..|done].
  - destruct Hc as (reps & (Ho' & Hp' & _ & raws & Hi' & Hr) & HP).
    rewrite Ho in Ho'. rewrite Hp in Hp'. cbn [app] in Hp'. rewrite Hm in Hr.
    rewrite Ho', Hp'. split_and!; try done. intros _. split_and!; try done.
    exists h, protocol, raws, reps. split_and!; try done. by rewrite Hin, <-Hi, Hi'.
  - rewrite Ho, Hp in Hc. by split_and!; try apply Hc.
Qed.

Lemma run_whole {D} `{Inhabited D} (ms : D → list message) (ls : D → list report)
    (P : D → list answer → Prop) address body mode sessions input :
  (∀ c, wpe (after_open address body mode sessions)
     (λ r c', ∃ d, conv c (ms d) (ls d) (λ _, P d) r c') c) →
  wpe (sim_run address body mode sessions)
    (λ r c, ∃ d, whole input (open_request :: ms d) (ls d)
       (λ reps, ∃ a reps', reps = a :: reps' ∧ P d reps') r c)
    (fresh_client input).
Proof.
  intros Hrest. unfold sim_run. wpe_step. unfold dial. wpe_step. apply wpe_cask. intros n.
  destruct (o_io n) as [e|]; wpe_step; [exists inhabitant; apply whole_cut; [apply prefix_nil|done|done]|].
  apply wpe_deferred. unfold conn_Close. eapply wpe_mono.
  2: { intros r c Hc. wpe_step. change (∃ d, whole input (open_request :: ms d) (ls d)
         (λ reps, ∃ a reps', reps = a :: reps' ∧ P d reps') r (cset_alive false c)). exact Hc. }
  assert (∀ e c, c_out c `prefix_of` AMQPHeader → c_printed c = [] →
    ∃ d, whole input (open_request :: ms d) (ls d) (λ reps, ∃ a reps', reps = a :: reps' ∧ P d reps')
      (Err e) (cset_alive false c)) as Hcut.
  { intros e c Ho Hp. exists inhabitant. by apply whole_cut. }
  wpe_step. wpe_step. wpe_step.
  apply wpe_conn_Write; [intros e k; apply Hcut; [apply prefix_take|done]|].
  wpe_step. apply wpe_conn_Read; [intros e; by apply Hcut|].
  cbn [c_in c_out cset_out cset_max cset_alive fresh_client].
  destruct (ReadFull 8 input) as [r rest] eqn:Er. destruct r as [h|e|]; [|by apply Hcut|].
  2: { pose proof (ReadFull_no_panic 8 input) as Hn. by rewrite Er in Hn. }
  apply ReadFull_Ok in Er as [Hin _]. cbn [fst snd]. wpe_step. wpe_step.
  pose proof (ValidateProtocolHeader_spec h) as [Hv _].
  destruct (ValidateProtocolHeader h) as [protocol|e|] eqn:Eh; [|by apply Hcut|done].
  match goal with |- wpe _ _ ?c0 => eapply (wpe_mono _ (λ r c, ∃ d, conv c0 (open_request :: ms d)
    (ls d) (λ _ reps, ∃ a reps', reps = a :: reps' ∧ P d reps') r c)) end.
  2: { intros r c [d Hd]. exists d. eapply conv_whole; [exact Hin|exact Eh|..|exact Hd]; done. }
  eapply (conv_choose [_] ms []).
  { apply conv_sendPayload, (sendable_within 13); [done|fields_within|cbn; lia]. }
  intros [] ? c1 ->. eapply (conv_choose [] ms []); [apply conv_receive|].
  intros p ? c2 (f & k & ->). eapply wpe_mono; [apply Hrest|]. intros r c [d Hd]. exists d.
  destruct r as [[]|e|]; cbn in *; try done. destruct Hd as (reps & Hs & HP).
  exists reps. split; [done|]. by exists (f, p, k), reps.
Qed.
End whole_runs.

(** C14. The publishing client against every server: whatever the server sends
    and however the network fails, [run] ends without a panic and with the
    socket closed; what it has sent is a beginning of its script (header,
    [open], and per session [begin], [attach], [transfer], [end], then
    [close]), and what it has printed a beginning of the list of published
    messages.  It returns without an error only when it has sent and printed
    all of it and has read one answer per request, with every [begin] answered
    by [begin] and every [transfer] by [disposition].  The channel of message
    [i] is [i] modulo 65536. *)
Theorem sim_publishes (orc : Oracle) (address body mode : string) (sessions : Z) (input : bytes)
    (n : nat) :
  mode ≠ "consume" → sessions < 2 ^ 63 →
  Z.of_nat (String.length address) < 2 ^ 28 → Z.of_nat (String.length body) < 2 ^ 30 →
  let '(r, (c, _)) := sim_run address body mode sessions (fresh_client input, n) in
  whole input (publishing address body sessions)
    ((λ i, Published (nth_channel i) address (nth_body body i) "disposition") <$> seqZ 0 sessions)
    (Forall2 acceptable (publishing address body sessions)) r c.
Proof.
  intros Hmode Hs Ha Hb.
  set (ms := concat ((λ i, publish_script address (nth_body body i) (nth_channel i)) <$> seqZ 0 sessions)).
  pose proof (run_whole (λ _ : unit, ms ++ [close_request])
    (λ _, ((λ i, Published (nth_channel i) address (nth_body body i) "disposition") <$> seqZ 0 sessions) ++ [])
    (λ _, Forall2 acceptable (ms ++ [close_request])) address body mode sessions input) as Hw.
  unshelve epose proof (Hw _ n) as Hc; [|clear Hw;
    destruct (sim_run address body mode sessions (fresh_client input, n)) as [r [c n']];
    destruct Hc as [[] Hc]; cbn [fst snd] in Hc].
  2: { rewrite app_nil_r in Hc. destruct Hc as (? & ? & ? & ? & Hok). split_and!; try done.
    intros Hr. destruct (Hok Hr) as (? & ? & h & pr & raws & reps & ? & ? & ? & a & reps' & -> & HP).
    split_and!; try done. exists h, pr, raws, (a :: reps'). split_and!; try done.
    constructor; [done|exact HP]. }
  - intros c0. unfold after_open. rewrite bool_decide_eq_false_2 by done.
    eapply wpe_mono; [|intros r' c' Hr'; exists (); exact Hr'].
    eapply conv_bind; [apply conv_publishes; [done|done|]|].
    { apply Forall_forall. intros i Hi%elem_of_seqZ. lia. }
    intros [] r1 c1 H1. apply conv_say; [apply (sendable_within 5); [done|constructor|cbn; lia]|].
    intros c2. apply conv_hear. intros f p k c3. apply conv_ret. apply (Forall2_app H1).
    by repeat constructor.
Qed.

(** The consuming client against every server: [run] in consume mode ends
    without a panic and with the socket closed; for one delivery identifier and
    one body, what it has sent is a beginning of [open], [begin], [attach],
    [flow], the settled and accepted [disposition] of that delivery and
    [close]; it reports that delivery, and settles it, only after it has read
    a transfer that carries it, and the body it prints is the transfer's. *)
Theorem sim_consumes (orc : Oracle) (address body : string) (sessions : Z) (input : bytes) (n : nat) :
  Z.of_nat (String.length address) < 2 ^ 28 →
  let '(r, (c, _)) := sim_run address body "consume" sessions (fresh_client input, n) in
  ∃ delivery data,
    whole input (consuming address delivery) [Consumed address delivery data]
      (λ reps, ∃ a1 a2 a3 a4 a5, reps = [a1; a2; a3; a4; a5] ∧
         p_Descriptor a2.1.2 = DescriptorBegin ∧ delivered delivery data a4) r c.
Proof.
  intros Ha.
  pose proof (run_whole (λ d : Z * bytes, drop 1 (consuming address d.1))
    (λ d, [Consumed address d.1 d.2]) (λ d, consumed_answers d)
    address body "consume" sessions input) as Hw.
  unshelve epose proof (Hw _ n) as Hc; [|clear Hw;
    destruct (sim_run address body "consume" sessions (fresh_client input, n)) as [r [c n']];
    destruct Hc as [[id data] Hc]; cbn [fst snd] in Hc].
  2: { exists id, data. destruct Hc as (? & ? & ? & ? & Hok). split_and!; try done.
    intros Hr. destruct (Hok Hr) as (? & ? & h & pr & raws & reps & ? & ? & ? & a & reps' & -> & HP).
    split_and!; try done. exists h, pr, raws, (a :: reps'). split_and!; try done.
    destruct HP as (a1 & a2 & a3 & a4 & -> & Hb & Hd). by exists a, a1, a2, a3, a4. }
  - intros c0. unfold after_open. rewrite bool_decide_eq_true_2 by done. by apply conv_consume.
Qed.

(** ** The client and the broker

    The two ends of one connection: the server's output is a function of what
    the client has sent and the other way round, so the conversation is their
    iteration, in which every round delivers what the other side has written
    so far (a read past it fails).  The conversation is over when a round adds
    nothing. *)
#[local] Existing Instance test_oracle.

Definition ttl_broker : broker MemoryLog :=
  mkBroker (mkMemory {["jobs" := mkAddress "jobs" KindQueue true 10 Hour "" false 0 1]} ∅ ∅ ∅ ∅)
    NewMemoryLog 0.

Definition server_on (b : broker MemoryLog) (sent : bytes) : res unit * (world MemoryLog * nat) :=
  handle amqp_cfg "client" (set_delivery b (amqp_world sent), O).

Definition client_on (mode : string) (received : bytes) : res unit * (client * nat) :=
  sim_run "jobs" "hi" mode 2 (fresh_client received, O).

Fixpoint dialogue (b : broker MemoryLog) (mode : string) (rounds : nat) : bytes :=
  match rounds with
  | O => []
  | S k => c_out (client_on mode (w_out (server_on b (dialogue b mode k)).2.1)).2.1
  end.

(** The broker, the server's answers and the client's end of it after so many
    rounds. *)
Definition answers_to (b : broker MemoryLog) (mode : string) (rounds : nat) : bytes :=
  w_out (server_on b (dialogue b mode rounds)).2.1.
Definition broker_after (b : broker MemoryLog) (mode : string) (rounds : nat) : broker MemoryLog :=
  w_delivery (server_on b (dialogue b mode rounds)).2.1.

Definition stored (b : broker MemoryLog) : list (string * bytes * State) :=
  (λ m, (m_Address m, m_Body m, m_State m)) <$> map_values (mm_messages (b_mem b)).

(** The client of the command line against this broker: two messages are
    published and stored; a consuming client then receives the first of them
    and accepts it, both sides end in order, and the message stays acquired,
    because the settlement is refused by the consumer's record
    ([Settle_never_succeeds]) and the handler drops that error. *)
Theorem sim_end_to_end :
  let b := broker_after ttl_broker "publish" 12 in
  let c := (client_on "publish" (answers_to ttl_broker "publish" 12)).2.1 in
  let b' := broker_after b "consume" 8 in
  let c' := (client_on "consume" (answers_to b "consume" 8)).2.1 in
  (server_on ttl_broker (c_out c)).1 = Ok tt ∧
  c_printed c = [Published 1 "jobs" "hi-1" "disposition"; Published 2 "jobs" "hi-2" "disposition"] ∧
  stored b = [("jobs", string_bytes "hi-1", StateAvailable); ("jobs", string_bytes "hi-2", StateAvailable)] ∧
  (server_on b (c_out c')).1 = Ok tt ∧
  c_printed c' = [Consumed "jobs" 1 (string_bytes "hi-1")] ∧
  stored b' = [("jobs", string_bytes "hi-1", StateAcquired); ("jobs", string_bytes "hi-2", StateAvailable)].
Proof. vm_compute. repeat split; reflexivity. Qed.

(** *** Witnesses: the same runs *)
Lemma sim_publishes_witness :
  let c := (client_on "publish" (answers_to ttl_broker "publish" 12)).2.1 in
  c_out c = AMQPHeader ++ transcript (publishing "jobs" "hi" 2).
Proof.
  cbv zeta. pose proof (sim_publishes test_oracle "jobs" "hi" "publish" 2
    (answers_to ttl_broker "publish" 12) O) as H.
  change (sim_run "jobs" "hi" "publish" 2 (fresh_client (answers_to ttl_broker "publish" 12), O))
    with (client_on "publish" (answers_to ttl_broker "publish" 12)) in H.
  assert ((client_on "publish" (answers_to ttl_broker "publish" 12)).1 = Ok tt) as Hok
    by (vm_compute; reflexivity).
  destruct (client_on "publish" (answers_to ttl_broker "publish" 12)) as [r [c n]].
  cbn [fst] in Hok. subst r. cbn [fst snd].
  destruct H as (_ & _ & _ & _ & H); [discriminate|lia|cbn; lia|cbn; lia|].
  exact (proj1 (H eq_refl)).
Defined.

Lemma sim_consumes_witness :
  let b := broker_after ttl_broker "publish" 12 in
  let c := (client_on "consume" (answers_to b "consume" 8)).2.1 in
  ∃ delivery data, c_printed c = [Consumed "jobs" delivery data] ∧
    c_out c = AMQPHeader ++ transcript (consuming "jobs" delivery).
Proof.
  cbv zeta. pose proof (sim_consumes test_oracle "jobs" "hi" 2
    (answers_to (broker_after ttl_broker "publish" 12) "consume" 8) O) as H.
  change (sim_run "jobs" "hi" "consume" 2
      (fresh_client (answers_to (broker_after ttl_broker "publish" 12) "consume" 8), O))
    with (client_on "consume" (answers_to (broker_after ttl_broker "publish" 12) "consume" 8)) in H.
  assert ((client_on "consume" (answers_to (broker_after ttl_broker "publish" 12) "consume" 8)).1 = Ok tt)
    as Hok by (vm_compute; reflexivity).
  destruct (client_on "consume" (answers_to (broker_after ttl_broker "publish" 12) "consume" 8)) as [r [c n]].
  cbn [fst] in Hok. subst r. cbn [fst snd].
  destruct H as (delivery & data & _ & _ & _ & _ & H); [cbn; lia|].
  exists delivery, data. destruct (H eq_refl) as (H1 & H2 & _). split; [exact H2|exact H1].
Defined.
