(* ===== verification/Snapshot.v ===== *)
(** * Metadata snapshots

    Models [internal/storage/infrastructure/snapshot.go]: the copy of the store
    that is written when the broker closes, what [Restore] makes of it (bodies
    stay in the log, acquired and unsettled messages are released, consumers
    come back disconnected), and the file that holds it, written to a temporary
    file that replaces the old one.  [encoding/json] is an interface with the
    round trip its documentation promises for valid UTF-8 text. *)

From Stdlib Require Import String.
From S2P Require Import Prelude Bytes Duration Matcher Address Message Transaction Env Memory.

(** ** Snapshot and restore *)
Record Snapshot := mkSnapshot {
  sn_Version : Z;
  sn_Addresses : list Address; sn_Bindings : list Binding; sn_Messages : list Message;
  sn_Consumers : list Consumer; sn_Transactions : list Transaction }.

Section operations.
Context `{orc : Oracle}.

Definition Memory_Snapshot : env Memory Snapshot :=
  ctx_Err;;
  m ← get_;
  addresses ← map_range (map_values (mm_addresses m));
  bindings ← map_range (map_values (mm_bindings m));
  messages ← map_range (map_values (mm_messages m));
  consumers ← map_range (map_values (mm_consumers m));
  transactions ← map_range (map_values (mm_transactions m));
  mret (mkSnapshot 1 addresses bindings (set_Body [] <$> messages) consumers transactions).

(** [m.addresses[a.Name] = a] for every element. *)
Definition index_by {A} (key : A → string) (l : list A) : gmap string A :=
  foldl (λ m x, <[key x := x]> m) ∅ l.

Definition released (msg : Message) : Message := set_Redelivered true (set_State StateReleased msg).

(** A message of the snapshot: an acquired one goes back, unless it is staged
    in a transaction. *)
Definition restore_message (msg : Message) : Message :=
  if bool_decide (m_State msg = StateAcquired) && bool_decide (m_TransactionID msg = "")
  then released msg else msg.

Definition release_unsettled (id : string) : env Memory unit :=
  m ← get_;
  match mm_messages m !! id with
  | Some msg => update_ (set_messages (insert id (released msg)))
  | None => mret tt
  end.

(** A consumer of the snapshot comes back without credit or connection. *)
Definition disconnected (c : Consumer) : Consumer :=
  mkConsumer (cn_ID c) (cn_Address c) (cn_Prefetch c) 0 ∅ (cn_Semantics c) false
    (cn_CreatedAt c) (cn_LastSeen c).

Definition restore_consumer (c : Consumer) : env Memory unit :=
  ids ← map_range ((map_to_list (cn_Unsettled c)).*2);
  for_each ids release_unsettled;;
  update_ (set_consumers (insert (cn_ID c) (disconnected c))).

(** [Restore] after its context check. *)
Definition restore_all (s : Snapshot) : env Memory unit :=
  guard_err (negb (sn_Version s =? 1)) (ErrFmt "unsupported snapshot version" [sn_Version s]);;
  put_ (mkMemory (index_by a_Name (sn_Addresses s)) (index_by bd_ID (sn_Bindings s))
          (index_by m_ID (restore_message <$> sn_Messages s)) ∅ ∅);;
  for_each (sn_Consumers s) restore_consumer;;
  update_ (set_transactions (λ _, index_by tx_ID (sn_Transactions s))).

Definition Memory_Restore (s : Snapshot) : env Memory unit :=
  ctx_Err;;
  restore_all s.
End operations.

(** ** The snapshot file *)

(** [json.MarshalIndent] and [json.Unmarshal] of a snapshot, to documents
    [D]; [json_text] holds when every string is valid UTF-8. *)
Class SnapshotJSON (D : Type) := {
  json_Marshal : Snapshot → error + D;
  json_Unmarshal : D → error + Snapshot;
  json_text : Snapshot → Prop;
  json_roundtrip : ∀ s d, json_text s → json_Marshal s = inr d → json_Unmarshal d = inr s
}.

(** The directory: [metadata.json], and the temporary file, whose contents
    are [None] until the document has been written completely. *)
Record SnapshotFile (D : Type) := mkSnapshotFile {
  sf_path : option D; sf_tmp : option (option D) }.
Arguments mkSnapshotFile {D}.
Arguments sf_path {D}.
Arguments sf_tmp {D}.

Section file.
Context `{orc : Oracle} {D : Type} `{SnapshotJSON D}.

(** The store and the directory. *)
Abbreviation stored := (Memory * SnapshotFile D)%type.

Definition on_memory {A} (m : env Memory A) : env stored A := on fst (λ m s, (m, snd s)) m.

(** A system call: its error, or its effect on the directory. *)
Definition sys (f : SnapshotFile D → SnapshotFile D) : env stored unit :=
  r ← ask o_io;
  match r with
  | Some e => raise e
  | None => update_ (λ s, (fst s, f (snd s)))
  end.

Definition from_json {A} (r : error + A) : env stored A :=
  match r with inl e => raise e | inr a => mret a end.

Definition SnapshotFile_Load : env stored unit :=
  wrap "read metadata snapshot" (sys id);;
  s ← get_;
  match sf_path (snd s) with
  | None => mret tt
  | Some d =>
      doc ← wrap "decode metadata snapshot" (from_json (json_Unmarshal d));
      on_memory (Memory_Restore doc)
  end.

(** The steps on the temporary file, from [Chmod] to [Rename]. *)
Definition replace_file (d : D) : env stored unit :=
  sys id;;
  sys (λ f, mkSnapshotFile (sf_path f) (Some (Some d)));;
  sys id;;
  sys id;;
  sys (λ f, mkSnapshotFile (mjoin (sf_tmp f)) None).

(** [Save] once the store has been copied: no context is asked any more. *)
Definition write_snapshot (s : Snapshot) : env stored unit :=
  d ← from_json (json_Marshal s);
  sys id;;
  sys (λ f, mkSnapshotFile (sf_path f) (Some None));;
  deferred (try (sys (λ f, mkSnapshotFile (sf_path f) None));; mret tt) (replace_file d).

Definition SnapshotFile_Save : env stored unit :=
  s ← on_memory Memory_Snapshot;
  write_snapshot s.
End file.

(** ** What a restart makes of the store *)

(** The messages some consumer has not settled. *)
Definition unsettled_ids (cs : list Consumer) : gset string :=
  list_to_set (cs ≫= λ c, (map_to_list (cn_Unsettled c)).*2).

(** A message is released when somebody held it. *)
Definition recover (unsettled : gset string) (msg : Message) : Message :=
  let held := bool_decide (m_ID msg ∈ unsettled ∨ (m_State msg = StateAcquired ∧ m_TransactionID msg = "")) in
  mkMessage (m_ID msg) (m_Address msg) (m_RoutingKey msg) (m_Headers msg) [] (m_Priority msg)
    (m_CreatedAt msg) (m_ExpiresAt msg) (if held then StateReleased else m_State msg)
    (m_DeliveryCount msg) (if held then true else m_Redelivered msg) (m_TransactionID msg)
    (m_LogOffset msg).

(** A consumer has to connect again. *)
Definition offline (c : Consumer) : Consumer :=
  mkConsumer (cn_ID c) (cn_Address c) (cn_Prefetch c) 0 ∅ (cn_Semantics c) false
    (cn_CreatedAt c) (cn_LastSeen c).

Definition recovered (m : Memory) : Memory :=
  mkMemory (mm_addresses m) (mm_bindings m)
    (recover (unsettled_ids (map_values (mm_consumers m))) <$> mm_messages m)
    (offline <$> mm_consumers m) (mm_transactions m).

(** Every record is under its own identifier. *)
Definition keyed_memory (m : Memory) : Prop :=
  keyed a_Name (mm_addresses m) ∧ keyed bd_ID (mm_bindings m) ∧ keyed m_ID (mm_messages m) ∧
  keyed cn_ID (mm_consumers m) ∧ keyed tx_ID (mm_transactions m).

(** ** Lemmas *)
Lemma index_by_snoc {A} (key : A → string) l x : index_by key (l ++ [x]) = <[key x := x]> (index_by key l).
Proof. unfold index_by. by rewrite foldl_app. Qed.

Lemma index_by_lookup {A} (key : A → string) (l : list A) : NoDup (key <$> l) →
  ∀ k x, index_by key l !! k = Some x ↔ x ∈ l ∧ key x = k.
Proof.
  induction l as [|y l IH] using rev_ind; intros Hnd k x.
  { split; [done|]. intros [Hx _]. by apply not_elem_of_nil in Hx. }
  rewrite fmap_app in Hnd. apply NoDup_app in Hnd as (Hnd & Hdis & _).
  rewrite index_by_snoc, lookup_insert_Some, (IH Hnd), elem_of_app, list_elem_of_singleton. split.
  - intros [[<- <-]|[Hne [Hx Hk]]]; auto.
  - intros [[Hx| ->] <-]; [|by left]. right. split; [|done]. intros E.
    apply (Hdis (key x)); [by apply list_elem_of_fmap_2|]. rewrite <-E. by left.
Qed.

Lemma index_by_values {A} (key : A → string) (f : A → A) (m : gmap string A) l :
  keyed key m → (∀ x, key (f x) = key x) → l ≡ₚ map_values m → index_by key (f <$> l) = f <$> m.
Proof.
  intros Hm Hf Hl. apply map_eq. intros k. apply option_eq. intros y.
  rewrite index_by_lookup, lookup_fmap_Some.
  - rewrite list_elem_of_fmap. split.
    + intros [(x & -> & Hx) Hk]. rewrite Hl in Hx. apply (elem_of_keyed_values key) in Hx; [|done].
      exists x. rewrite Hf in Hk. by rewrite <-Hk.
    + intros (x & <- & Hx). rewrite Hf, (Hm _ _ Hx). split; [|done]. exists x. split; [done|].
      rewrite Hl. apply (elem_of_keyed_values key); [done|]. by rewrite (Hm _ _ Hx).
  - rewrite <-list_fmap_compose, (list_fmap_ext _ key); [|by intros; apply Hf].
    rewrite Hl. by apply NoDup_keyed_values.
Qed.

Lemma index_by_map {A} (key : A → string) (m : gmap string A) l :
  keyed key m → l ≡ₚ map_values m → index_by key l = m.
Proof.
  intros Hm Hl. rewrite <-(list_fmap_id l), (index_by_values key id m); [|done..].
  apply map_fmap_id.
Qed.

(** Releasing the messages of a set. *)
Definition release_in (ids : gset string) (msg : Message) : Message :=
  if bool_decide (m_ID msg ∈ ids) then released msg else msg.

Lemma release_in_ID ids msg : m_ID (release_in ids msg) = m_ID msg.
Proof. unfold release_in. by case_bool_decide. Qed.

Lemma release_in_union X Y msg : release_in Y (release_in X msg) = release_in (X ∪ Y) msg.
Proof.
  unfold release_in. repeat case_bool_decide; try done; exfalso; rewrite elem_of_union in *; tauto.
Qed.

Lemma release_in_fmap X Y (base : gmap string Message) :
  release_in Y <$> (release_in X <$> base) = release_in (X ∪ Y) <$> base.
Proof.
  rewrite <-map_fmap_compose. apply map_fmap_ext. intros k m _. cbn. apply release_in_union.
Qed.

Lemma release_in_one id (ms : gmap string Message) :
  keyed m_ID ms →
  match ms !! id with Some msg => <[id := released msg]> ms | None => ms end = release_in {[id]} <$> ms.
Proof.
  intros Hm. apply map_eq. intros k. rewrite lookup_fmap. destruct (decide (k = id)) as [->|Hne].
  - destruct (ms !! id) as [msg|] eqn:E; [|by rewrite E]. rewrite lookup_insert_eq. cbn.
    unfold release_in. by rewrite (Hm _ _ E), bool_decide_true by set_solver.
  - assert (release_in {[id]} <$> ms !! k = ms !! k) as ->.
    { destruct (ms !! k) as [msg|] eqn:E; [|done]. cbn. unfold release_in.
      by rewrite (Hm _ _ E), bool_decide_false by set_solver. }
    destruct (ms !! id); [by rewrite lookup_insert_ne|done].
Qed.

Lemma recover_eq ids msg : recover ids msg = release_in ids (restore_message (set_Body [] msg)).
Proof.
  assert (m_ID (restore_message (set_Body [] msg)) = m_ID msg) as Hid
    by (unfold restore_message; by case_match).
  unfold release_in. rewrite Hid. unfold recover, restore_message. destruct msg. cbn.
  repeat case_bool_decide; cbn in *; try done; naive_solver.
Qed.

Section restore.
Context `{orc : Oracle}.

Lemma release_loop ids : ∀ (t : Memory) (Q : res unit → Memory → Prop),
  keyed m_ID (mm_messages t) →
  Q (Ok tt) (set_messages (fmap (release_in (list_to_set ids))) t) →
  wpe (for_each ids release_unsettled) Q t.
Proof.
  induction ids as [|id ids IH]; intros t Q Hk HQ; cbn [for_each].
  - wpe_auto. replace t with (set_messages (fmap (release_in (list_to_set []))) t); [done|].
    destruct t as [a b ms c x]. unfold set_messages. cbn. f_equal. rewrite <-(map_fmap_id ms) at 2.
    apply map_fmap_ext. intros k m _. unfold release_in. by rewrite bool_decide_false by set_solver.
  - wpe_step. unfold release_unsettled at 1. wpe_step. wpe_step.
    assert (wpe (for_each ids release_unsettled) Q (set_messages (λ _, release_in {[id]} <$> mm_messages t) t)) as Hrest.
    { apply IH; [cbn; intros k x Hx; apply lookup_fmap_Some in Hx as (y & <- & Hy); rewrite release_in_ID; by apply Hk|].
      replace (set_messages _ _) with (set_messages (fmap (release_in (list_to_set (id :: ids)))) t); [done|].
      unfold set_messages. cbn. f_equal. by rewrite release_in_fmap. }
    rewrite <-(release_in_one id _ Hk) in Hrest.
    destruct (mm_messages t !! id); wpe_auto; [done|]. by destruct t.
Qed.

(** The messages and consumers while the consumers of a snapshot are
    restored. *)
Lemma restore_consumers_loop A B base cs X : keyed m_ID base → ∀ done_,
  wpe (for_each cs restore_consumer)
    (λ r t, r = Ok tt ∧ t = mkMemory A B (release_in (unsettled_ids (done_ ++ cs)) <$> base)
       (index_by cn_ID (disconnected <$> (done_ ++ cs))) X)
    (mkMemory A B (release_in (unsettled_ids done_) <$> base) (index_by cn_ID (disconnected <$> done_)) X).
Proof.
  intros Hk. induction cs as [|c cs IH]; intros done_; cbn [for_each].
  { wpe_auto. by rewrite app_nil_r. }
  wpe_step. unfold restore_consumer. wpe_step. wpe_step. wpe_step. apply release_loop.
  { cbn. intros k x (y & <- & Hy)%lookup_fmap_Some. rewrite release_in_ID. by apply Hk. }
  wpe_step.
  specialize (IH (done_ ++ [c])). rewrite <-app_assoc in IH. cbn [app] in IH.
  assert (index_by cn_ID (disconnected <$> done_ ++ [c]) =
    <[cn_ID c := disconnected c]> (index_by cn_ID (disconnected <$> done_))) as Ec
    by (rewrite fmap_app; exact (index_by_snoc cn_ID _ (disconnected c))).
  rewrite Ec in IH.
  unfold set_messages, set_consumers. cbn [mm_addresses mm_bindings mm_messages mm_consumers mm_transactions].
  rewrite release_in_fmap.
  replace (unsettled_ids done_ ∪ list_to_set l') with (unsettled_ids (done_ ++ [c])); [exact IH|].
  unfold unsettled_ids. rewrite bind_app. cbn. rewrite app_nil_r, list_to_set_app_L. f_equal.
  apply list_to_set_perm_L. by rewrite H.
Qed.

(** [Restore] of a snapshot of [m]. *)
Lemma Restore_snapshot (m t : Memory) la lb lm lc lt (Q : res unit → Memory → Prop) :
  keyed_memory m →
  la ≡ₚ map_values (mm_addresses m) → lb ≡ₚ map_values (mm_bindings m) →
  lm ≡ₚ map_values (mm_messages m) → lc ≡ₚ map_values (mm_consumers m) →
  lt ≡ₚ map_values (mm_transactions m) →
  Q (Ok tt) (recovered m) →
  wpe (restore_all (mkSnapshot 1 la lb (set_Body [] <$> lm) lc lt)) Q t.
Proof.
  intros (Ka & Kb & Km & Kc & Kt) Ha Hb Hm Hc Ht HQ. unfold restore_all.
  cbn [sn_Version sn_Addresses sn_Bindings sn_Messages sn_Consumers sn_Transactions].
  wpe_step. wpe_step; [done|]. wpe_step. wpe_step.
  rewrite (index_by_map a_Name _ la Ka Ha), (index_by_map bd_ID _ lb Kb Hb), <-list_fmap_compose.
  rewrite (index_by_values m_ID (restore_message ∘ set_Body []) _ lm Km); [|intros x; cbn; unfold restore_message; by case_match|done].
  set (base := (restore_message ∘ set_Body []) <$> mm_messages m).
  assert (keyed m_ID base) as Kbase.
  { intros k x (y & <- & Hy)%lookup_fmap_Some. rewrite <-(Km _ _ Hy). cbn. unfold restore_message. by case_match. }
  pose proof (restore_consumers_loop (mm_addresses m) (mm_bindings m) base lc ∅ Kbase []) as Hloop.
  replace (release_in (unsettled_ids []) <$> base) with base in Hloop.
  2: { rewrite <-(map_fmap_id base) at 1. apply map_fmap_ext. intros k x _. unfold release_in.
       by rewrite bool_decide_false by (unfold unsettled_ids; set_solver). }
  cbn [app fmap list_fmap] in Hloop. wpe_step. eapply wpe_mono; [exact Hloop|].
  intros r t' [-> ->]. wpe_step. cbn.
  rewrite (index_by_values cn_ID disconnected _ lc Kc); [|done|done].
  rewrite (index_by_map tx_ID _ lt Kt Ht).
  replace (release_in _ <$> base) with (recover (unsettled_ids (map_values (mm_consumers m))) <$> mm_messages m); [done|].
  unfold base. rewrite <-map_fmap_compose. apply map_fmap_ext. intros k x _. rewrite recover_eq. cbn.
  f_equal. unfold unsettled_ids. apply list_to_set_perm_L. by rewrite Hc.
Qed.
End restore.

(** A snapshot of [m]: its records in some order, the messages without their
    bodies. *)
Definition snapshot_of (m : Memory) (s : Snapshot) : Prop :=
  ∃ la lb lm lc lt, s = mkSnapshot 1 la lb (set_Body [] <$> lm) lc lt ∧
    la ≡ₚ map_values (mm_addresses m) ∧ lb ≡ₚ map_values (mm_bindings m) ∧
    lm ≡ₚ map_values (mm_messages m) ∧ lc ≡ₚ map_values (mm_consumers m) ∧
    lt ≡ₚ map_values (mm_transactions m).

Section file_rules.
Context `{orc : Oracle} {D : Type} `{SnapshotJSON D}.

Lemma wpe_Snapshot (Q : res Snapshot → Memory → Prop) m :
  (∀ e, Q (Err e) m) → (∀ s, snapshot_of m s → Q (Ok s) m) → wpe Memory_Snapshot Q m.
Proof.
  intros He HQ. unfold Memory_Snapshot. wpe_auto; [done|]. apply HQ.
  by exists l', l'0, l'1, l'2, l'3.
Qed.

Lemma wpe_sys f (Q : res unit → Memory * SnapshotFile D → Prop) s :
  (∀ e, Q (Err e) s) → Q (Ok tt) (fst s, f (snd s)) → wpe (sys f) Q s.
Proof.
  intros He HQ n. unfold sys, mbind, go_bind, ask. cbn. destruct (o_io n); cbn; auto.
Qed.

Lemma quiet_sys `{!Quiet orc} f (Q : res unit → Memory * SnapshotFile D → Prop) s :
  Q (Ok tt) (fst s, f (snd s)) → wpe (sys f) Q s.
Proof.
  intros HQ n. unfold sys, mbind, go_bind, ask. cbn. by rewrite quiet_io.
Qed.

(** A snapshot the codec accepts. *)
Definition encodable (s : Snapshot) : Prop := json_text s ∧ ∃ d, json_Marshal s = inr d.

(** The file holds the document of a snapshot of [m]. *)
Definition saved (m : Memory) (f : SnapshotFile D) : Prop :=
  ∃ s d, snapshot_of m s ∧ json_Marshal s = inr d ∧ sf_path f = Some d.

Lemma quiet_Save `{!Quiet orc} (m : Memory) f (Q : res unit → Memory * SnapshotFile D → Prop) :
  (∀ s, snapshot_of m s → encodable s) →
  (∀ f', saved m f' → Q (Ok tt) (m, f')) → wpe SnapshotFile_Save Q (m, f).
Proof.
  intros Hjson HQ. unfold SnapshotFile_Save. wpe_step. unfold on_memory. wpe_step. unfold Memory_Snapshot.
  wpe_step. apply quiet_ctx_Err. wpe_auto. set (s := mkSnapshot _ _ _ _ _ _).
  assert (snapshot_of m s) as Hs by by exists l', l'0, l'1, l'2, l'3.
  destruct (Hjson s Hs) as [_ [d Ed]]. cbn. unfold write_snapshot, from_json. rewrite Ed. do 3 wpe_step. apply quiet_sys.
  wpe_step. apply quiet_sys. apply wpe_deferred. unfold replace_file.
  do 4 (wpe_step; apply quiet_sys). apply quiet_sys. wpe_step. wpe_step. apply quiet_sys. wpe_auto.
  cbn. apply HQ. by exists s, d.
Qed.

Lemma quiet_Load `{!Quiet orc} (m t : Memory) f (Q : res unit → Memory * SnapshotFile D → Prop) :
  keyed_memory m → (∀ s, snapshot_of m s → encodable s) → saved m f →
  Q (Ok tt) (recovered m, f) → wpe SnapshotFile_Load Q (t, f).
Proof.
  intros Hk Hjson (s & d & Hs & Ed & Ef) HQ. unfold SnapshotFile_Load.
  wpe_step. wpe_step. apply quiet_sys. wpe_step. wpe_step. cbn. rewrite Ef.
  destruct (Hjson s Hs) as [Ht _]. rewrite (json_roundtrip s d Ht Ed). unfold from_json.
  wpe_step. wpe_step. wpe_step. unfold on_memory. wpe_step.
  destruct Hs as (la & lb & lm & lc & lt & -> & Ha & Hb & Hm & Hc & Hlt).
  unfold Memory_Restore. wpe_step. apply quiet_ctx_Err. cbn. by apply (Restore_snapshot m).
Qed.

(** Writing in every environment: it succeeds with the new document in place,
    or fails with the old one. *)
Lemma wpe_write_snapshot s (m : Memory) f (Q : res unit → Memory * SnapshotFile D → Prop) :
  (∀ e f', sf_path f' = sf_path f → Q (Err e) (m, f')) →
  (∀ d f', json_Marshal s = inr d → sf_path f' = Some d → Q (Ok tt) (m, f')) →
  wpe (write_snapshot s) Q (m, f).
Proof.
  intros He HQ. unfold write_snapshot.
  wpe_step. unfold from_json. destruct (json_Marshal s) as [e|d] eqn:Ed; wpe_step; [by apply He|].
  wpe_step. apply wpe_sys; [by intros; apply He|]. wpe_step. apply wpe_sys; [by intros; apply He|]. cbn.
  apply wpe_deferred.
  set (P := λ (r : res unit) (x : Memory * SnapshotFile D), ∀ f1, sf_path f1 = sf_path (snd x) → Q r (fst x, f1)).
  assert (∀ r1 x, P r1 x → wpe (try (sys (λ f, mkSnapshotFile (sf_path f) None));; mret tt)
    (λ r' x', Q (match r' with Panic => Panic | _ => r1 end) x') x) as Hclean.
  { intros r1 [m1 f1] HP. wpe_step. wpe_step. apply wpe_sys; [intros e; wpe_auto; by apply HP|]. wpe_auto. by apply HP. }
  assert (∀ e f1, sf_path f1 = sf_path f → P (Err e) (m, f1)) as Hee.
  { intros e f1 E f2 E2. apply He. by rewrite E2. }
  unfold replace_file. do 4 (wpe_step; apply wpe_sys; [intros; apply Hclean; by apply Hee|]).
  apply wpe_sys; [intros; apply Hclean; by apply Hee|]. apply Hclean. cbn. intros f1 E1. by apply (HQ d).
Qed.

Lemma wpe_Save (m : Memory) f (Q : res unit → Memory * SnapshotFile D → Prop) :
  (∀ e f', sf_path f' = sf_path f → Q (Err e) (m, f')) →
  (∀ f', saved m f' → Q (Ok tt) (m, f')) → wpe SnapshotFile_Save Q (m, f).
Proof.
  intros He HQ. unfold SnapshotFile_Save. wpe_step. unfold on_memory. wpe_step.
  apply wpe_Snapshot; [by intros; apply He|]. intros s Hs. cbn.
  apply wpe_write_snapshot; [done|]. intros d f' Ed Ef. apply HQ. by exists s, d.
Qed.

(** ** Properties *)

(** C25. Saving the metadata is all or nothing: the store is not changed, and
    either [Save] succeeds and the file holds the complete document of a
    snapshot of the store, or it fails, at any step, and the file is the one
    that was there before. *)
Theorem Save_atomic (m m' : Memory) (f f' : SnapshotFile D) (n n' : nat) (r : res unit) :
  SnapshotFile_Save ((m, f), n) = (r, ((m', f'), n')) →
  m' = m ∧ (r = Ok tt ∧ saved m f' ∨ (∃ e, r = Err e) ∧ sf_path f' = sf_path f).
Proof.
  intros E. refine (wpe_elim _ (λ r x, fst x = m ∧
    (r = Ok tt ∧ saved m (snd x) ∨ (∃ e, r = Err e) ∧ sf_path (snd x) = sf_path f)) (m, f) n r (m', f') n' _ E).
  apply wpe_Save; [|by eauto]. intros e f1 E1. split; [done|]. right. split; [by exists e|done].
Qed.

(** A restart keeps the metadata: in a quiet environment, saving the store
    and loading the file into a new store succeeds, and the new store has the
    same addresses, bindings and transactions, every message, without its body
    and released where it was acquired outside a transaction or unsettled, and
    every consumer, disconnected and without credit. *)
Theorem Save_Load_recovers `{!Quiet orc} (m t : Memory) (f : SnapshotFile D) (n : nat) :
  keyed_memory m → (∀ s, snapshot_of m s → encodable s) →
  ∃ f' n1 n2, SnapshotFile_Save ((m, f), n) = (Ok tt, ((m, f'), n1)) ∧
    SnapshotFile_Load ((t, f'), n1) = (Ok tt, ((recovered m, f'), n2)).
Proof.
  intros Hk Hjson.
  assert (wpe SnapshotFile_Save (λ r x, r = Ok tt ∧ fst x = m ∧ saved m (snd x)) (m, f)) as Hsave
    by by apply quiet_Save.
  specialize (Hsave n). destruct (SnapshotFile_Save ((m, f), n)) as [r [[m1 f'] n1]].
  cbn in Hsave. destruct Hsave as (-> & -> & Hs).
  assert (wpe SnapshotFile_Load (λ r x, r = Ok tt ∧ x = (recovered m, f')) (t, f')) as Hload
    by by apply (quiet_Load m).
  specialize (Hload n1). destruct (SnapshotFile_Load ((t, f'), n1)) as [r [x n2]] eqn:El. cbn in Hload.
  destruct Hload as [-> ->]. by exists f', n1, n2.
Qed.
End file_rules.

(** ** Witnesses *)

(** A codec that stores the snapshot itself. *)
Definition identity_json : SnapshotJSON Snapshot := {|
  json_Marshal := inr; json_Unmarshal := inr; json_text := λ _, True;
  json_roundtrip := λ s d _ E, f_equal inr (eq_sym (inr_inj _ _ E)) |}.

(** A store with an acquired message that its consumer has not settled. *)
Definition demo_memory : Memory :=
  let msg := mkMessage "m1" "jobs" "" ∅ [] 4 1 (1000 * Hour) StateAcquired 1 false "" 0 in
  mkMemory {["jobs" := mkAddress "jobs" KindQueue true 10 0 "" false 0 1]} ∅ {["m1" := msg]}
    {["c1" := mkConsumer "c1" "jobs" 5 4 {[1%Z := "m1"]} AtLeastOnce true 0 0]} ∅.

Lemma demo_memory_keyed : keyed_memory demo_memory.
Proof.
  assert (∀ {A} (key : A → string), keyed key (∅ : gmap string A)) as He by done.
  assert (∀ {A} (key : A → string) x, keyed key ({[key x := x]} : gmap string A)) as H1
    by by intros A key x k y [<- <-]%lookup_singleton_Some.
  unfold keyed_memory, demo_memory. cbn. split_and!; [apply (H1 _ a_Name (mkAddress "jobs" _ _ _ _ _ _ _ _))|apply He|apply (H1 _ m_ID (mkMessage "m1" _ _ _ _ _ _ _ _ _ _ _ _))|
    apply (H1 _ cn_ID (mkConsumer "c1" _ _ _ _ _ _ _ _))|apply He].
Qed.

(** What the next process finds of the message. *)
Definition restarted (s : Memory) : list (State * bool) :=
  (λ m, (m_State m, m_Redelivered m)) <$> map_values (mm_messages s).

Lemma Save_Load_recovers_witness : ∃ f' n1 n2,
  SnapshotFile_Save (orc := test_oracle) (H := identity_json) ((demo_memory, mkSnapshotFile None None), O) =
    (Ok tt, ((demo_memory, f'), n1)) ∧
  SnapshotFile_Load (orc := test_oracle) (H := identity_json) ((NewMemory, f'), n1) =
    (Ok tt, ((recovered demo_memory, f'), n2)) ∧
  restarted (recovered demo_memory) = [(StateReleased, true)].
Proof.
  destruct (Save_Load_recovers (orc := test_oracle) (H := identity_json) demo_memory NewMemory
    (mkSnapshotFile None None) O demo_memory_keyed) as (f' & n1 & n2 & E1 & E2).
  - intros s _. split; [exact I|]. by exists s.
  - exists f', n1, n2. split; [exact E1|]. split; [exact E2|]. vm_compute. reflexivity.
Defined.

(** An environment in which the disk is full. *)
Definition full_disk : Oracle.
Proof.
  refine {|
    o_ctx := λ _, None; o_now := o_now (Oracle := test_oracle); o_rand := o_rand (Oracle := test_oracle);
    o_rand_length := o_rand_length (Oracle := test_oracle);
    o_io := λ n, if (n =? 9)%nat then Some (ErrNew "no space left on device") else None;
    o_short := λ _, O; o_order := λ _ _ l, l; o_order_perm := λ _ _ _, Permutation_refl _ |}.
  discriminate.
Defined.

Lemma Save_atomic_witness :
  let f := mkSnapshotFile (Some (mkSnapshot 1 [] [] [] [] [])) None in
  ∃ m' f' n', SnapshotFile_Save (orc := full_disk) (H := identity_json) ((demo_memory, f), O) =
    (Err (ErrNew "no space left on device"), ((m', f'), n')) ∧ m' = demo_memory ∧ sf_path f' = sf_path f.
Proof.
  intros f. destruct (SnapshotFile_Save (orc := full_disk) (H := identity_json) ((demo_memory, f), O))
    as [r [[m' f'] n']] eqn:E.
  assert (r = Err (ErrNew "no space left on device")) as ->.
  { change r with (fst (r, (m', f', n'))). rewrite <-E. vm_compute. reflexivity. }
  exists m', f', n'. split; [reflexivity|].
  destruct (Save_atomic (orc := full_disk) (H := identity_json) demo_memory m' f f' O n' _ E)
    as [-> [[E' _]|[_ Ef]]]; [discriminate|]. split; [reflexivity|exact Ef].
Defined.
