(* ===== verification/Runtime.v ===== *)
(** * The broker process

    Models [internal/broker/runtime.go]: how the parts are put together on a
    data directory, the sweep the worker of [internal/worker/service.go] runs,
    the status report and the graceful stop.  The directory is the snapshot
    file and the message log; everything else is built anew by [Build].  For
    [Close] the AMQP server either has ended all its connections or the
    context ends first; its listener is in Lifecycle.v. *)

From Stdlib Require Import Ascii String.
From S2P Require Import Prelude Bytes Text Duration Matcher Address Message Transaction Env.
From S2P Require Import Memory BodyLog FileLog FileLogFacts Router Delivery DeliveryInv DeliveryFacts.
From S2P Require Import TxService TxFacts Broker Cluster Connection Registry Session Link Peer.
From S2P Require Import Snapshot.

(** ** State *)
Record Settings := mkSettings {
  st_NodeID : string; st_AMQPAddress : string; st_MaxFrame : Z; st_IdleTimeout : duration;
  st_MaxConnections : Z; st_DataDir : string; st_LeaseTTL : duration; st_Shards : Z;
  st_AuthToken : string; st_AllowAnonymous : bool }.

(** The defaults at the start of [Build]. *)
Definition with_defaults (s : Settings) : Settings :=
  mkSettings (st_NodeID s) (st_AMQPAddress s)
    (if st_MaxFrame s =? 0 then 2 ^ 20 else st_MaxFrame s) (st_IdleTimeout s)
    (if st_MaxConnections s =? 0 then 1024 else st_MaxConnections s) (st_DataDir s)
    (if st_LeaseTTL s <=? 0 then 15 * Second else st_LeaseTTL s)
    (if st_Shards s =? 0 then 32 else st_Shards s) (st_AuthToken s) (st_AllowAnonymous s).

Record Runtime (D : Type) := mkRuntime {
  rn_Config : string; rn_Delivery : broker FileLog; rn_txTTL : duration;
  rn_Connections : ConnRegistry; rn_Sessions : SessRegistry; rn_Links : LinkRegistry;
  rn_Cluster : cluster; rn_Snapshot : SnapshotFile D; rn_AMQP : ServerConfig }.
Arguments mkRuntime {D}.
Arguments rn_Config {D}.
Arguments rn_Delivery {D}.
Arguments rn_txTTL {D}.
Arguments rn_Connections {D}.
Arguments rn_Sessions {D}.
Arguments rn_Links {D}.
Arguments rn_Cluster {D}.
Arguments rn_Snapshot {D}.
Arguments rn_AMQP {D}.

Definition set_broker {D} (b : broker FileLog) (r : Runtime D) : Runtime D :=
  mkRuntime (rn_Config r) b (rn_txTTL r) (rn_Connections r) (rn_Sessions r) (rn_Links r)
    (rn_Cluster r) (rn_Snapshot r) (rn_AMQP r).
Definition set_cluster {D} (c : cluster) (r : Runtime D) : Runtime D :=
  mkRuntime (rn_Config r) (rn_Delivery r) (rn_txTTL r) (rn_Connections r) (rn_Sessions r)
    (rn_Links r) c (rn_Snapshot r) (rn_AMQP r).
Definition set_snapshot {D} (f : SnapshotFile D) (r : Runtime D) : Runtime D :=
  mkRuntime (rn_Config r) (rn_Delivery r) (rn_txTTL r) (rn_Connections r) (rn_Sessions r)
    (rn_Links r) (rn_Cluster r) f (rn_AMQP r).

(** The data directory a process leaves behind. *)
Definition directory {D} (r : Runtime D) : SnapshotFile D * FileLog :=
  (rn_Snapshot r, b_log (rn_Delivery r)).

Record RuntimeStatus := mkRuntimeStatus {
  ss_node_id : string; ss_addresses : Z; ss_connections : Z; ss_leases : Z; ss_storage : string }.

(** ** Operations *)
Section operations.
Context `{orc : Oracle, mtch : !Matcher} {D : Type} `{SnapshotJSON D}.
Abbreviation disk := (SnapshotFile D * FileLog)%type.

(** [snap.Load(ctx, mem)] into a new store. *)
Definition load_memory : env disk Memory :=
  on (λ d, (NewMemory, fst d)) (λ s d, (snd s, snd d))
    (SnapshotFile_Load;; s ← get_; mret (fst s)).

Definition register_self (settings : Settings) : env disk Coordinator :=
  on (λ _, NewCoordinator) (λ _ d, d)
    (try (RegisterNode (mkNode (st_NodeID settings) (st_Shards settings) false 0 false));; get_).

Definition Build (settings : Settings) : env disk (Runtime D) :=
  let settings := with_defaults settings in
  memory ← load_memory;
  on snd (λ l d, (fst d, l)) OpenFileLog;;
  coordinator ← register_self settings;
  d ← get_;
  mret (mkRuntime (st_NodeID settings) (mkBroker memory (snd d) 0) (NewService_ttl (30 * Second))
    (conn_NewRegistry (st_MaxConnections settings)) sess_NewRegistry link_NewRegistry
    (mkClusterService (st_NodeID settings) (st_Shards settings) (st_LeaseTTL settings) ∅, coordinator)
    (fst d)
    (mkServerConfig (st_MaxFrame settings) (st_IdleTimeout settings)
       (Some (mkStaticAuthenticator "" "" (st_AllowAnonymous settings))))).

(** The [select] of the AMQP server's [Close]: every handler has ended, or
    the context has. *)
Definition Server_Close {T} : env T unit := ctx_Err.

Definition on_broker {A} (m : env (broker FileLog) A) : env (Runtime D) A := on rn_Delivery set_broker m.

(** On the store and its file. *)
Definition on_store {A} (m : env (Memory * SnapshotFile D) A) : env (Runtime D) A :=
  on (λ r, (b_mem (rn_Delivery r), rn_Snapshot r))
     (λ s r, set_snapshot (snd s) (set_broker (set_mem (fst s) (rn_Delivery r)) r)) m.

Definition save_memory : env (Runtime D) unit := on_store SnapshotFile_Save.

Definition Runtime_Close : env (Runtime D) unit :=
  Server_Close;;
  save_memory;;
  on_broker (log Log_Close).

Definition Runtime_Sweep : env (Runtime D) Z :=
  a ← on_broker SweepExpired;
  t ← on_broker Tx_Sweep;
  mret (a + t).

Definition Runtime_Status : env (Runtime D) RuntimeStatus :=
  leases ← try (on rn_Cluster set_cluster Service_Leases);
  addresses ← try (on_broker (mem address_List));
  r ← get_;
  let count {A} (x : error + list A) := match x with inr l => Z.of_nat (length l) | inl _ => 0 end in
  mret (mkRuntimeStatus (rn_Config r) (count addresses) (ConnRegistry_Count (rn_Connections r))
    (count leases) "memory+filelog").
End operations.

(** [worker.New]: the interval between sweeps. *)
Definition worker_interval (interval : duration) : duration :=
  if interval <=? 0 then Second else interval.

(** ** Lemmas *)
Lemma wf_keyed {L} `{BodyLogLaws L} (b : broker L) : wf_broker b → keyed_memory (b_mem b).
Proof.
  intros Hw. split_and!; intros k x Hx.
  - by apply (wb_addresses b Hw _ _ Hx).
  - by apply (wb_bindings b Hw _ _ Hx).
  - by apply (wb_messages b Hw _ _ Hx).
  - by apply (wb_consumers b Hw _ _ Hx).
  - by apply (wb_transactions b Hw _ _ Hx).
Qed.

(** Dropping the body and releasing keep a message well formed. *)
Lemma wf_recover view ids m : wf_message view m → m_ID (recover ids m) = m_ID m ∧ wf_message view (recover ids m).
Proof.
  intros Hm. rewrite recover_eq, release_in_ID. split; [unfold restore_message; by case_match|].
  unfold release_in, restore_message. repeat case_match; unfold wf_message in *; cbn; naive_solver.
Qed.

Lemma recovered_wf {L} `{BodyLogLaws L} (b : broker L) (l : L) (seq : Z) :
  wf_broker b → log_inv l → log_view l = log_view (b_log b) →
  wf_broker (mkBroker (recovered (b_mem b)) l seq).
Proof.
  intros Hw Hi Hv. destruct (Hw) as [_ Ha Hb _ _ Ht]. split; cbn; try done.
  - intros k m (m0 & <- & Hm)%lookup_fmap_Some. rewrite Hv.
    destruct (wb_messages b Hw _ _ Hm) as [<- Hwm]. by apply wf_recover.
  - intros k c (c0 & <- & Hc)%lookup_fmap_Some. destruct (wb_consumers b Hw _ _ Hc) as [<- (?&?&?&?&?)].
    split; [done|]. unfold wf_consumer. cbn. split_and!; try done; lia.
Qed.

Lemma clean_view_eq ms l l' : clean_log ms l → clean_log ms l' → fl_view l' = fl_view l.
Proof. intros (_ & Hd & Ho) (_ & Hd' & Ho'). unfold fl_view. by rewrite Hd, Ho, Hd', Ho'. Qed.

Lemma defaults_usable s : 0 ≤ st_Shards s < 2 ^ 32 → 0 ≤ st_MaxFrame s < 2 ^ 32 →
  0 < st_Shards (with_defaults s) ∧ 0 < st_LeaseTTL (with_defaults s) ∧
  0 < st_MaxFrame (with_defaults s) < 2 ^ 32 ∧ st_MaxConnections (with_defaults s) ≠ 0.
Proof.
  intros Hs Hf. assert (0 < 15 * Second) by done. unfold with_defaults. cbn.
  destruct (Z.eqb_spec (st_Shards s) 0), (Z.leb_spec (st_LeaseTTL s) 0), (Z.eqb_spec (st_MaxFrame s) 0),
    (Z.eqb_spec (st_MaxConnections s) 0); lia.
Qed.

Section quiet.
Context `{orc : Oracle, mtch : !Matcher, !Quiet orc} {D : Type} `{SnapshotJSON D}.

(** A stop without failures writes the snapshot and closes the log. *)
Lemma quiet_Close (r : Runtime D) (Q : res unit → Runtime D → Prop) :
  (∀ s, snapshot_of (b_mem (rn_Delivery r)) s → encodable s) →
  fd_open (fl_file (b_log (rn_Delivery r))) = true →
  (∀ f file, saved (b_mem (rn_Delivery r)) f → fd_data file = fd_data (fl_file (b_log (rn_Delivery r))) →
     Q (Ok tt) (set_snapshot f (set_broker (set_log (set_file file (b_log (rn_Delivery r))) (rn_Delivery r)) r))) →
  wpe Runtime_Close Q r.
Proof.
  intros Hjson Ho HQ. destruct r as [node [m [file o] q] ttl cs ss ls cl f srv]. cbn in *.
  unfold Runtime_Close, Server_Close. wpe_step. apply quiet_ctx_Err. wpe_step. unfold save_memory, on_store. wpe_step.
  apply quiet_Save; [done|]. intros f' Hf'. cbn. unfold on_broker, log. wpe_step. cbn. wpe_step.
  unfold Log_Close. cbn. unfold FileLog_Close, file_Close. apply wpe_on_file. wpe_step.
  apply quiet_file_op; [done|]. wpe_auto. cbn. by apply (HQ f' (mkFile (fd_data file) (fd_pos file) false)).
Qed.

(** Building on a directory that such a stop left. *)
Lemma quiet_Build (settings : Settings) (m : Memory) (ms : list (string * bytes))
    (d : SnapshotFile D * FileLog) (Q : res (Runtime D) → SnapshotFile D * FileLog → Prop) :
  keyed_memory m → (∀ s, snapshot_of m s → encodable s) → saved m (fst d) →
  Forall loggable ms → fd_data (fl_file (snd d)) = encode_records (raw_records ms) →
  (∀ r, rn_Delivery r = mkBroker (recovered m) (b_log (rn_Delivery r)) 0 →
     clean_log ms (b_log (rn_Delivery r)) → fd_open (fl_file (b_log (rn_Delivery r))) = true →
     rn_Connections r = conn_NewRegistry (st_MaxConnections (with_defaults settings)) →
     rn_Sessions r = sess_NewRegistry → rn_Links r = link_NewRegistry →
     cs_owned (fst (rn_Cluster r)) = ∅ → co_leases (snd (rn_Cluster r)) = ∅ →
     Q (Ok r) (directory r)) →
  wpe (Build settings) Q d.
Proof.
  intros Hk Hjson Hs Hms Hd HQ. destruct d as [f l]. cbn in *. unfold Build. wpe_step.
  unfold load_memory. wpe_step. wpe_step. cbn. apply (quiet_Load m); [done..|]. wpe_auto. cbn.
  apply (quiet_Open ms); [done..|]. intros l' Hl' Ho'. wpe_step. unfold register_self. wpe_step. wpe_step.
  wpe_step. unfold RegisterNode. wpe_step. apply quiet_ctx_Err.
  wpe_auto; cbn; by apply (HQ (mkRuntime _ (mkBroker _ _ _) _ _ _ _ _ _ _)).
Qed.
End quiet.

(** What [Build] makes of its settings, whatever the directory holds. *)
Lemma Build_shape `{orc : Oracle} {D} `{SnapshotJSON D} (settings : Settings)
    (d d' : SnapshotFile D * FileLog) (r : Runtime D) (n n' : nat) :
  Build settings (d, n) = (Ok r, (d', n')) →
  let s := with_defaults settings in
  cs_shards (fst (rn_Cluster r)) = st_Shards s ∧ cs_ttl (fst (rn_Cluster r)) = st_LeaseTTL s ∧
  sc_MaxFrame (rn_AMQP r) = st_MaxFrame s ∧
  sc_Auth (rn_AMQP r) = Some (mkStaticAuthenticator "" "" (st_AllowAnonymous s)) ∧
  cr_max (rn_Connections r) = st_MaxConnections s ∧ d' = directory r.
Proof.
  intros E s. refine (wpe_elim _ (λ x d', ∀ r, x = Ok r →
    cs_shards (fst (rn_Cluster r)) = st_Shards s ∧ cs_ttl (fst (rn_Cluster r)) = st_LeaseTTL s ∧
    sc_MaxFrame (rn_AMQP r) = st_MaxFrame s ∧
    sc_Auth (rn_AMQP r) = Some (mkStaticAuthenticator "" "" (st_AllowAnonymous s)) ∧
    cr_max (rn_Connections r) = st_MaxConnections s ∧ d' = directory r) d n (Ok r) d' n' _ E r eq_refl). clear.
  unfold Build. fold s. apply wpe_bind. intros k. destruct (load_memory (d, k)) as [[m|e|] [d1 n1]]; cbn; try done.
  apply wpe_bind. intros k'. destruct (on _ _ OpenFileLog (d1, k')) as [[m'|e|] [d2 n2]]; cbn; try done.
  apply wpe_bind. intros k''. destruct (register_self s (d2, k'')) as [[c|e|] [d3 n3]]; cbn; try done.
  wpe_auto. intros r [= <-]. cbn. split_and!; try done. by destruct d3.
Qed.

(** Opening an empty file, in any environment. *)
Lemma Open_empty `{orc : Oracle} l : fd_data (fl_file l) = [] →
  wpe OpenFileLog (λ r l', r = Ok tt → good_log l') l.
Proof.
  intros Hd. unfold OpenFileLog. wpe_step. wpe_step. apply wpe_io; [done|]. wpe_step. wpe_step.
  apply wpe_io; [done|]. wpe_step. wpe_step. rewrite Hd. wpe_step. wpe_step. unfold reindex.
  set (I := λ l' : FileLog, fd_data (fl_file l') = [] ∧ fl_offsets l' = ∅).
  assert (∀ l', I l' → fd_open (fl_file l') = true → good_log l') as HI.
  { intros l' [H1 H2] Ho. exists []. split; [|done]. by split_and!. }
  assert (∀ e l', wpe (try (on_file file_Close);; raise (A := unit) e) (λ r l'', r = Ok tt → good_log l'') l') as Herr.
  { intros e l'. intros n. unfold try, mbind, go_bind. by destruct (on_file file_Close (l', n)) as [[|?|] [? ?]]. }
  wpe_step. apply wpe_on_file, wpe_Seek; [intros; apply Herr|]. intros ? ->. cbn. wpe_step. wpe_step. wpe_step.
  cbn [fl_file fd_data set_file length reindex_loop]. wpe_step.
  apply wpe_on_file, wpe_Seek; [intros; apply Herr|]. intros ? ->. cbn. wpe_step. wpe_step. unfold read_uint32.
  wpe_step. apply wpe_on_file, wpe_ReadFull; [|by intros b ->].
  intros e f Hf. cbn in Hf. case_match; wpe_step; [|apply Herr]. wpe_step.
  apply wpe_on_file, wpe_Seek; [intros; apply Herr|]. intros ? ->. cbn. wpe_step. wpe_step. intros _. by apply HI.
Qed.

(** A runtime on an empty directory has just started, in any environment, with
    an empty log. *)
Lemma Build_fresh `{orc : Oracle} {D} `{SnapshotJSON D} (settings : Settings) (f : SnapshotFile D)
    (l : FileLog) (d' : SnapshotFile D * FileLog) (r : Runtime D) (n n' : nat) :
  sf_path f = None → fd_data (fl_file l) = [] →
  Build settings ((f, l), n) = (Ok r, (d', n')) →
  started (rn_Delivery r) ∧ good_log (b_log (rn_Delivery r)).
Proof.
  intros Hf Hl E. refine (wpe_elim _ (λ x d', ∀ r, x = Ok r → started (rn_Delivery r) ∧ good_log (b_log (rn_Delivery r)))
    (f, l) n (Ok r) d' n' _ E r eq_refl).
  clear - Hf Hl. unfold Build. apply wpe_bind. unfold load_memory, SnapshotFile_Load. wpe_step. wpe_step. wpe_step. wpe_step.
  apply wpe_sys; [done|]. wpe_step. wpe_step. cbn. rewrite Hf. wpe_step. wpe_step. wpe_step. wpe_step. cbn. wpe_step. wpe_step.
  eapply wpe_mono; [by apply Open_empty|]. intros [[]|e|] l' Hl'; [|done..]. cbn.
  apply wpe_bind. intros k. destruct (register_self _ (_, k)) as [[c|e|] [d3 n3]] eqn:Er; cbn; try done.
  assert (d3 = (f, l')) as ->.
  { unfold register_self, on in Er. cbn in Er.
    match type of Er with context [(?m ≫= ?f) ?s] => by destruct ((m ≫= f) s) as [? [? ?]]; simplify_eq end. }
  wpe_auto. intros r [= <-]. destruct (Hl' eq_refl) as (ms & Hc & Ho). split; [|by exists ms]. split; [done|].
  by apply (clean_log_view ms).
Qed.

Lemma Build_started `{orc : Oracle} {D} `{SnapshotJSON D} (settings : Settings) (f : SnapshotFile D)
    (l : FileLog) (d' : SnapshotFile D * FileLog) (r : Runtime D) (n n' : nat) :
  sf_path f = None → fd_data (fl_file l) = [] →
  Build settings ((f, l), n) = (Ok r, (d', n')) → started (rn_Delivery r).
Proof. intros Hf Hl E. by destruct (Build_fresh settings f l d' r n n' Hf Hl E). Qed.

(** ** Calls of the front ends *)

(** A runtime whose broker is reached from [b0] by broker calls, with [k]
    shards. *)
Definition runtime_ok {D} (k : Z) (b0 : broker FileLog) (r : Runtime D) : Prop :=
  rtc step b0 (rn_Delivery r) ∧ cs_shards (fst (rn_Cluster r)) = k.

(** [m] does to the broker what the call [c] does. *)
Definition performs {A} `{orc : Oracle, mtch : !Matcher} (m : env (broker FileLog) A) (c : call) : Prop :=
  ∀ s, (exec c s).2 = (m s).2 ∧ is_panic (exec c s).1 = is_panic (m s).1.

(** [m] changes nothing and does not panic. *)
Definition reads {A} (m : env Memory A) : Prop :=
  ∀ x, wpe m (λ r x', is_panic r = false ∧ x' = x) x.

Lemma ignore_performs {S A} (m : go S A) s :
  (ignore m s).2 = (m s).2 ∧ is_panic (ignore m s).1 = is_panic (m s).1.
Proof. unfold ignore, mbind, go_bind. by destruct (m s) as [[a|e|] s']. Qed.

Section calls.
Context `{orc : Oracle, mtch : !Matcher} {D : Type}.
Implicit Types r : Runtime D.

Lemma broker_called {A} (m : env (broker FileLog) A) c k b0 r :
  wf_broker b0 → call_in_range c → performs m c → runtime_ok k b0 r →
  wpe (on_broker m) (λ x r', is_panic x = false ∧ runtime_ok k b0 r') r.
Proof.
  intros Hw Hc Hm [Hs Hk]. unfold on_broker. wpe_step. intros n.
  destruct (Hm (rn_Delivery r, n)) as [E1 E2].
  destruct (steps_advance _ _ Hw Hs) as [Hwa _].
  pose proof (exec_step c _ Hc Hwa n) as (Hp & _).
  destruct (exec c (rn_Delivery r, n)) as [r1 [b1 n1]] eqn:E. cbn in Hp, E1, E2.
  destruct (m (rn_Delivery r, n)) as [x [b n']]. cbn in *. split.
  - rewrite <-E2. by destruct r1.
  - split; [|done]. cbn. simplify_eq. eapply rtc_r; [exact Hs|]. by eapply step_call.
Qed.

Lemma broker_reads {A} (m : env Memory A) k b0 r :
  reads m → runtime_ok k b0 r →
  wpe (on_broker (mem m)) (λ x r', is_panic x = false ∧ runtime_ok k b0 r') r.
Proof.
  intros Hm Hr. unfold on_broker, mem. do 2 wpe_step.
  eapply wpe_mono; [apply Hm|]. intros x y [Hp ->]. split; [done|].
  destruct r as [? [] ? ? ? ? ? ? ?]. exact Hr.
Qed.

Lemma address_List_reads : reads address_List.
Proof. intros x. unfold address_List, Memory_List. by wpe_auto. Qed.

Lemma ListBindings_reads s : reads (address_ListBindings s).
Proof. intros x. unfold address_ListBindings. by apply wpe_ListBindings. Qed.

Lemma Depth_reads s : reads (Memory_Depth s).
Proof. intros x. unfold Memory_Depth. by wpe_auto. Qed.

Lemma TxGet_reads s : reads (TransactionMemory_Get s).
Proof. intros x. by apply wpe_TxGet. Qed.
End calls.

(** ** Properties *)

(** A graceful restart loses nothing: when a broker whose log file is whole
    stops and a new process starts on the same directory, without failures,
    both succeed; the new store is the recovered one (same addresses, bindings
    and transactions, every message with its metadata), the log serves every
    body at its old offset, the invariant of the broker holds, and no
    connection, session, link or lease is left over. *)
Theorem restart_recovers (orc : Oracle) (HO : Quiet orc) (M : Matcher) (D : Type) (HJ : SnapshotJSON D)
    (settings : Settings) (r : Runtime D) (ms : list (string * bytes)) (n : nat) :
  wf_broker (rn_Delivery r) → clean_log ms (b_log (rn_Delivery r)) →
  fd_open (fl_file (b_log (rn_Delivery r))) = true →
  (∀ s, snapshot_of (b_mem (rn_Delivery r)) s → encodable s) →
  ∃ r1 n1 r2 n2,
    Runtime_Close (r, n) = (Ok tt, (r1, n1)) ∧
    Build settings (directory r1, n1) = (Ok r2, (directory r2, n2)) ∧
    b_mem (rn_Delivery r2) = recovered (b_mem (rn_Delivery r)) ∧
    fl_view (b_log (rn_Delivery r2)) = fl_view (b_log (rn_Delivery r)) ∧
    wf_broker (rn_Delivery r2) ∧
    rn_Connections r2 = conn_NewRegistry (st_MaxConnections (with_defaults settings)) ∧
    rn_Sessions r2 = sess_NewRegistry ∧ rn_Links r2 = link_NewRegistry ∧
    co_leases (snd (rn_Cluster r2)) = ∅.
Proof.
  intros Hw Hc Ho Hjson. destruct (Hc) as (Hms & Hd & _).
  assert (wpe Runtime_Close (λ x r1, x = Ok tt ∧ saved (b_mem (rn_Delivery r)) (rn_Snapshot r1) ∧
    fd_data (fl_file (b_log (rn_Delivery r1))) = fd_data (fl_file (b_log (rn_Delivery r)))) r) as Hclose.
  { apply quiet_Close; [done|done|]. intros f file Hf Hfile. done. }
  specialize (Hclose n). destruct (Runtime_Close (r, n)) as [x [r1 n1]].
  cbn in Hclose. destruct Hclose as (-> & Hs & Hd1).
  assert (wpe (Build settings) (λ x d, ∃ r2, x = Ok r2 ∧ d = directory r2 ∧
    b_mem (rn_Delivery r2) = recovered (b_mem (rn_Delivery r)) ∧
    fl_view (b_log (rn_Delivery r2)) = fl_view (b_log (rn_Delivery r)) ∧
    wf_broker (rn_Delivery r2) ∧
    rn_Connections r2 = conn_NewRegistry (st_MaxConnections (with_defaults settings)) ∧
    rn_Sessions r2 = sess_NewRegistry ∧ rn_Links r2 = link_NewRegistry ∧
    co_leases (snd (rn_Cluster r2)) = ∅) (directory r1)) as Hbuild.
  { apply (quiet_Build settings (b_mem (rn_Delivery r)) ms); [by apply wf_keyed|done|done|done|exact (eq_trans Hd1 Hd)|].
    intros r2 Eb Hc2 _ E1 E2 E3 _ E4. exists r2. pose proof (clean_view_eq _ _ _ Hc Hc2) as Hv.
    split_and!; try done; [by rewrite Eb|]. rewrite Eb. apply recovered_wf; [done|by apply (clean_log_view ms)|done]. }
  specialize (Hbuild n1). destruct (Build settings (directory r1, n1)) as [x [d n2]] eqn:E.
  cbn in Hbuild. destruct Hbuild as (r2 & -> & -> & H2). by exists r1, n1, r2, n2.
Qed.

(** Stopping changes nothing but the files, in every environment and
    whatever fails: it never panics, the store, the bodies the log serves and
    the leases the node holds are as before (no lease is released), and the
    metadata file is the old one or, when the stop got far enough, a complete
    new snapshot. *)
Theorem Close_only_saves (orc : Oracle) (M : Matcher) (D : Type) (HJ : SnapshotJSON D)
    (r r' : Runtime D) (x : res unit) (n n' : nat) :
  Runtime_Close (r, n) = (x, (r', n')) →
  is_panic x = false ∧ b_mem (rn_Delivery r') = b_mem (rn_Delivery r) ∧
  fl_view (b_log (rn_Delivery r')) = fl_view (b_log (rn_Delivery r)) ∧
  rn_Cluster r' = rn_Cluster r ∧
  (sf_path (rn_Snapshot r') = sf_path (rn_Snapshot r) ∨ saved (b_mem (rn_Delivery r)) (rn_Snapshot r')) ∧
  (x = Ok tt → saved (b_mem (rn_Delivery r)) (rn_Snapshot r')).
Proof.
  intros E. refine (wpe_elim _ (λ x r', is_panic x = false ∧ b_mem (rn_Delivery r') = b_mem (rn_Delivery r) ∧
    fl_view (b_log (rn_Delivery r')) = fl_view (b_log (rn_Delivery r)) ∧ rn_Cluster r' = rn_Cluster r ∧
    (sf_path (rn_Snapshot r') = sf_path (rn_Snapshot r) ∨ saved (b_mem (rn_Delivery r)) (rn_Snapshot r')) ∧
    (x = Ok tt → saved (b_mem (rn_Delivery r)) (rn_Snapshot r'))) r n x r' n' _ E).
  unfold Runtime_Close, Server_Close. wpe_step. wpe_step; [split_and!; by auto|]. wpe_step. unfold save_memory, on_store. wpe_step.
  apply wpe_Save; [intros e f Ef; cbn; split_and!; by auto|]. intros f Hf. cbn. unfold on_broker, log. wpe_step. wpe_step.
  unfold Log_Close. cbn. unfold FileLog_Close, file_Close. apply wpe_on_file. wpe_step.
  apply wpe_file_op; [intros e; cbn; split_and!; by auto|]. intros _. wpe_auto. cbn. split_and!; by auto.
Qed.

(** Whatever the settings leave at zero, a runtime that [Build] returns can
    be used: the number of shards is not zero, so every address hashes to a
    shard in range, leases have a positive time to live, and the frame size
    and connection limits are set. *)
Theorem Build_usable (orc : Oracle) (D : Type) (HJ : SnapshotJSON D) (settings : Settings)
    (d d' : SnapshotFile D * FileLog) (r : Runtime D) (n n' : nat) :
  0 ≤ st_Shards settings < 2 ^ 32 → 0 ≤ st_MaxFrame settings < 2 ^ 32 →
  Build settings (d, n) = (Ok r, (d', n')) →
  (∀ a, ∃ shard, Service_Shard (fst (rn_Cluster r)) a = Ok shard ∧
     0 ≤ shard < cs_shards (fst (rn_Cluster r))) ∧
  0 < cs_ttl (fst (rn_Cluster r)) ∧ 0 < sc_MaxFrame (rn_AMQP r) < 2 ^ 32 ∧
  cr_max (rn_Connections r) ≠ 0 ∧ d' = directory r.
Proof.
  intros Hsh Hmf E. destruct (Build_shape _ _ _ _ _ _ E) as (Es & Et & Ef & _ & Ec & Ed).
  set (s := with_defaults settings) in *.
  destruct (defaults_usable settings Hsh Hmf) as (Hs & Ht & Hf & Hc). fold s in Hs, Ht, Hf, Hc.
  rewrite Es, Et, Ef, Ec. split_and!; try done; [|lia..]. intros a. unfold Service_Shard. rewrite Es.
  destruct (Z.eqb_spec (st_Shards s) 0); [lia|]. eexists. split; [done|].
  apply Z.mod_pos_bound. lia.
Qed.

(** The configured token does not protect the AMQP port: whatever the
    settings, the authenticator of the server that [Build] makes accepts a
    PLAIN response with an empty user name and an empty password. *)
Theorem token_not_required (orc : Oracle) (D : Type) (HJ : SnapshotJSON D) (settings : Settings)
    (d d' : SnapshotFile D * FileLog) (r : Runtime D) (n n' : nat) :
  Build settings (d, n) = (Ok r, (d', n')) →
  ∃ a, sc_Auth (rn_AMQP r) = Some a ∧
    authenticate a "PLAIN" [zero_byte; zero_byte] = Ok (mkIdentity "" "PLAIN" None).
Proof.
  intros E. destruct (Build_shape _ _ _ _ _ _ E) as (_ & _ & _ & Ea & _). by eexists.
Qed.

(** The periodic sweep is safe in every environment: it never panics, it
    keeps the invariant of the broker, and no message outside a transaction is
    lost, whatever fails on the way; nothing else of the runtime changes. *)
Theorem Sweep_safe (orc : Oracle) (M : Matcher) (D : Type) (r r' : Runtime D) (x : res Z) (n n' : nat) :
  wf_broker (rn_Delivery r) → Runtime_Sweep (r, n) = (x, (r', n')) →
  is_panic x = false ∧ wf_broker (rn_Delivery r') ∧ keeps_settled (rn_Delivery r) (rn_Delivery r') ∧
  r' = set_broker (rn_Delivery r') r.
Proof.
  intros Hw E. set (P := λ (x : res Z) r', is_panic x = false ∧ wf_broker (rn_Delivery r') ∧
    keeps_settled (rn_Delivery r) (rn_Delivery r') ∧ r' = set_broker (rn_Delivery r') r).
  refine (wpe_elim _ P r n x r' n' _ E). unfold Runtime_Sweep, on_broker. wpe_step. wpe_step.
  eapply wpe_mono; [by apply safe_to_step, SweepExpired_safe|].
  intros [a|e|] b (Hp & Hb & Ha); [|split_and!; try done; apply Ha|done].
  wpe_step. wpe_step. cbn. eapply wpe_mono; [by apply Tx_Sweep_step|].
  intros [t|e|] b' (Hp' & Hb' & Ha'); [wpe_step| |done]; split_and!; try done; apply Ha'.
Qed.

(** ** Concrete runs *)
Definition demo_settings : Settings := mkSettings "node-1" ":5672" 0 0 0 "./data" 0 0 "" true.

Definition empty_directory : SnapshotFile Snapshot * FileLog :=
  (mkSnapshotFile None None, mkFileLog (mkFile [] 0 false) ∅).

Definition demo_Build (d : SnapshotFile Snapshot * FileLog) (n : nat) : res (Runtime Snapshot) * nat :=
  let '(r, (_, n')) := Build (orc := test_oracle) (H := identity_json) demo_settings (d, n) in (r, n').

Definition calls (cs : list call) (r : Runtime Snapshot) (n : nat) : Runtime Snapshot * nat :=
  let '(b, n') := exec_all cs (rn_Delivery r, n) in (set_broker b r, n').

(** A process on an empty directory. *)
Definition built : Runtime Snapshot * nat :=
  match demo_Build empty_directory O with
  | (Ok r, n) => (r, n)
  | (_, n) => (mkRuntime "" (mkBroker NewMemory (snd empty_directory) 0) 0 (conn_NewRegistry 0)
                sess_NewRegistry link_NewRegistry (mkClusterService "" 0 0 ∅, NewCoordinator)
                (fst empty_directory) (mkServerConfig 0 0 None), n)
  end.

(** It publishes two messages, one of which a consumer holds. *)
Definition running : Runtime Snapshot * nat :=
  calls
    [CallCreate (mkCreate "jobs" KindQueue true 3 "" ""); CallRegister "c1" "jobs" 5 AtLeastOnce;
     CallPublish (mkPublish "jobs" "" None (string_bytes "held") 1 (1000 * Hour) false "");
     CallAcquire "c1";
     CallPublish (mkPublish "jobs" "" None (string_bytes "waiting") 1 (1000 * Hour) false "")]
    (fst built) (snd built).

(** The process stops, starts again, and two acquisitions follow. *)
Definition after_restart : res unit * list State * list (res bytes) :=
  let '(r, n) := running in
  let '(closed, (r1, n1)) := Runtime_Close (orc := test_oracle) (H := identity_json) (r, n) in
  match demo_Build (directory r1) n1 with
  | (Ok r2, n2) =>
      let '(r3, n3) := calls [CallRegister "c2" "jobs" 5 AtLeastOnce] r2 n2 in
      let acquire s := Service_Acquire (orc := test_oracle) "c2" s in
      let '(x1, s1) := acquire (rn_Delivery r3, n3) in
      let '(x2, s2) := acquire s1 in
      let body (x : res (Message * Z)) := match x with Ok (m, _) => Ok (m_Body m) | Err e => Err e | Panic => Panic end in
      (closed, m_State <$> map_values (mm_messages (b_mem (rn_Delivery r3))), [body x1; body x2])
  | _ => (closed, [], [])
  end.

(** A message that a consumer held when the broker stopped is not delivered
    again: of two messages, the one that was waiting is delivered after the
    restart, the held one is in state released, which the list of ready
    messages leaves out. *)
Theorem restart_loses_acquired :
  after_restart = (Ok tt, [StateReleased; StateAvailable],
    [Ok (string_bytes "waiting"); Err (ErrNew "no message available")]).
Proof. vm_compute. reflexivity. Qed.

Definition running_records : list (string * bytes) :=
  (λ m, (m_ID m, m_Body m)) <$> map_values (mm_messages (b_mem (rn_Delivery (fst running)))).

Lemma built_started : started (rn_Delivery (fst built)).
Proof.
  split; [vm_compute; reflexivity|]. apply (clean_log_view []). split_and!; [constructor|vm_compute; reflexivity..].
Qed.

Lemma running_wf : wf_broker (rn_Delivery (fst running)).
Proof.
  unfold running, calls. destruct (exec_all _ _) as [b n] eqn:E. cbn. change b with (fst (b, n)). rewrite <-E.
  apply (steps_advance (rn_Delivery (fst built))); [apply started_wf, built_started|].
  apply exec_all_steps. repeat constructor; cbn; lia.
Qed.

Lemma running_clean : clean_log running_records (b_log (rn_Delivery (fst running))).
Proof.
  split_and!; [apply loggable_all|..]; vm_compute; reflexivity.
Qed.

Lemma restart_recovers_witness : ∃ r1 n1 r2 n2,
  Runtime_Close (orc := test_oracle) (H := identity_json) (fst running, snd running) = (Ok tt, (r1, n1)) ∧
  Build (orc := test_oracle) (H := identity_json) demo_settings (directory r1, n1) =
    (Ok r2, (directory r2, n2)) ∧
  b_mem (rn_Delivery r2) = recovered (b_mem (rn_Delivery (fst running))) ∧ wf_broker (rn_Delivery r2).
Proof.
  destruct (restart_recovers test_oracle test_oracle_quiet StandardMatcher Snapshot identity_json demo_settings
    (fst running) running_records (snd running)) as (r1 & n1 & r2 & n2 & E1 & E2 & E3 & _ & E4 & _).
  - exact running_wf.
  - exact running_clean.
  - vm_compute. reflexivity.
  - intros s _. split; [exact I|]. exists s. reflexivity.
  - exists r1, n1, r2, n2. split; [exact E1|].
    split; [exact E2|]. split; [exact E3|exact E4].
Defined.

(** The node holds a lease when it stops. *)
Definition leasing : Runtime Snapshot :=
  set_cluster (snd (Service_Ensure (orc := test_oracle) "jobs" (rn_Cluster (fst built), O))).1 (fst built).

Lemma Close_only_saves_witness : ∃ r' n',
  Runtime_Close (orc := test_oracle) (H := identity_json) (leasing, O) = (Ok tt, (r', n')) ∧
  rn_Cluster r' = rn_Cluster leasing ∧ length (map_to_list (co_leases (snd (rn_Cluster r')))) = 1%nat.
Proof.
  destruct (Runtime_Close (orc := test_oracle) (H := identity_json) (leasing, O)) as [x [r' n']] eqn:E.
  assert (x = Ok tt) as -> by (change x with (fst (x, (r', n'))); rewrite <-E; vm_compute; reflexivity).
  destruct (Close_only_saves test_oracle StandardMatcher Snapshot identity_json leasing r' (Ok tt) O n' E)
    as (_ & _ & _ & Ec & _). exists r', n'. split; [reflexivity|]. split; [exact Ec|].
  rewrite Ec. vm_compute. reflexivity.
Defined.

Lemma built_by_Build : ∃ d' n',
  Build (orc := test_oracle) (H := identity_json) demo_settings (empty_directory, O) = (Ok (fst built), (d', n')).
Proof.
  destruct (Build (orc := test_oracle) (H := identity_json) demo_settings (empty_directory, O)) as [x [d' n']] eqn:E.
  exists d', n'. f_equal. change x with (fst (x, (d', n'))). rewrite <-E. vm_compute. reflexivity.
Qed.

Lemma Build_usable_witness : ∃ shard, Service_Shard (fst (rn_Cluster (fst built))) "jobs" = Ok shard ∧ 0 ≤ shard < 32.
Proof.
  destruct built_by_Build as (d' & n' & E).
  destruct (Build_usable test_oracle Snapshot identity_json demo_settings empty_directory d' (fst built) O n')
    as (H1 & _).
  - cbn. lia.
  - cbn. lia.
  - exact E.
  - exact (H1 "jobs").
Defined.

Lemma token_not_required_witness : ∃ a, sc_Auth (rn_AMQP (fst built)) = Some a ∧
  authenticate a "PLAIN" [zero_byte; zero_byte] = Ok (mkIdentity "" "PLAIN" None).
Proof.
  destruct built_by_Build as (d' & n' & E).
  exact (token_not_required test_oracle Snapshot identity_json demo_settings empty_directory d' (fst built) O n' E).
Defined.

Lemma Sweep_safe_witness : ∃ x r' n', Runtime_Sweep (orc := test_oracle) (fst running, snd running) = (x, (r', n')) ∧
  is_panic x = false ∧ wf_broker (rn_Delivery r').
Proof.
  destruct (Runtime_Sweep (orc := test_oracle) (fst running, snd running)) as [x [r' n']] eqn:E.
  destruct (Sweep_safe test_oracle StandardMatcher Snapshot (fst running) r' x (snd running) n' running_wf E)
    as (H1 & H2 & _). exists x, r', n'. split; [reflexivity|]. split; [exact H1|exact H2].
Defined.
