(* ===== verification/Config.v ===== *)
(** * Configuration

    Models [internal/config/config.go]: the defaults, the YAML file, the
    durations in it, the environment variables that override it and the
    validation, and the settings [cmd/broker/main.go] makes of the result.
    Reading the file, [yaml.v3] and the environment are parameters.  [Load]
    returns a configuration beside an error; no caller reads it. *)

From Stdlib Require Import Ascii String.
From S2P Require Import Prelude Bytes Text Duration Env Cluster Connection Peer Runtime.

(** ** Data *)
Record ConfigAMQP := mkConfigAMQP {
  ca_Address : string; ca_MaxFrameSize : Z; ca_IdleTimeout : duration; ca_IdleTimeoutRaw : string;
  ca_MaxConnections : Z }.
Record ConfigAuth := mkConfigAuth { ch_Token : string; ch_AllowAnonymous : bool }.
Record ConfigStorage := mkConfigStorage { ct_Driver : string; ct_DataDir : string; ct_DSN : string }.
Record ConfigLimits := mkConfigLimits { cl_BodyBytes : Z; cl_RequestsPerSecond : Z }.
Record ConfigWorkers := mkConfigWorkers {
  cw_SweepInterval : duration; cw_SweepIntervalRaw : string; cw_LeaseTTL : duration; cw_LeaseTTLRaw : string }.

Record Config := mkConfig {
  cf_NodeID : string; cf_HTTP : string; cf_GRPC : string; cf_AMQP : ConfigAMQP; cf_Auth : ConfigAuth;
  cf_Storage : ConfigStorage; cf_Limits : ConfigLimits; cf_Workers : ConfigWorkers;
  cf_Shutdown : duration }.

Definition Default : Config :=
  mkConfig "node-1" ":8080" ":9090" (mkConfigAMQP ":5672" (2 ^ 20) (30 * Second) "" 1024)
    (mkConfigAuth "" true) (mkConfigStorage "file" "./data" "") (mkConfigLimits (2 ^ 20) 200)
    (mkConfigWorkers Second "" (15 * Second) "") (10 * Second).

Definition set_amqp (a : ConfigAMQP) (c : Config) : Config :=
  mkConfig (cf_NodeID c) (cf_HTTP c) (cf_GRPC c) a (cf_Auth c) (cf_Storage c) (cf_Limits c)
    (cf_Workers c) (cf_Shutdown c).
Definition set_workers (w : ConfigWorkers) (c : Config) : Config :=
  mkConfig (cf_NodeID c) (cf_HTTP c) (cf_GRPC c) (cf_AMQP c) (cf_Auth c) (cf_Storage c) (cf_Limits c)
    w (cf_Shutdown c).

(** ** [strconv] *)
Definition ParseBool (s : string) : option bool :=
  if bool_decide (s ∈ ["1"; "t"; "T"; "TRUE"; "true"; "True"]) then Some true
  else if bool_decide (s ∈ ["0"; "f"; "F"; "FALSE"; "false"; "False"]) then Some false
  else None.

(** The value of a non-empty sequence of decimal digits. *)
Fixpoint decimal_loop (x : Z) (l : bytes) : option Z :=
  match l with
  | [] => Some x
  | c :: l' => if digit c then decimal_loop (10 * x + (b2z c - 48)) l' else None
  end.

Definition decimal (l : bytes) : option Z := match l with [] => None | _ => decimal_loop 0 l end.

Definition in_range (lo hi : Z) (x : option Z) : option Z :=
  match x with Some n => if (lo <=? n) && (n <? hi) then Some n else None | None => None end.

(** [strconv.Atoi] on a 64-bit platform: an optional sign and digits. *)
Definition Atoi (s : string) : option Z :=
  match string_bytes s with
  | c :: l =>
      if b2z c =? 45 then in_range (- 2 ^ 63) (2 ^ 63) (Z.opp <$> decimal l)
      else if b2z c =? 43 then in_range (- 2 ^ 63) (2 ^ 63) (decimal l)
      else in_range (- 2 ^ 63) (2 ^ 63) (decimal (c :: l))
  | [] => None
  end.

(** [strconv.ParseUint(s, 10, 32)]. *)
Definition ParseUint32 (s : string) : option Z := in_range 0 (2 ^ 32) (decimal (string_bytes s)).

(** ** Validation *)
Definition newline : string := String (ascii_of_nat 10) EmptyString.

(** [errors.Join] of errors that are texts. *)
Definition errors_Join (all : list string) : res unit :=
  match all with [] => Ok tt | _ => Err (ErrNew (String.concat newline all)) end.

Definition complaint (b : bool) (text : string) : list string := if b then [text] else [].

Definition Config_Validate (c : Config) : res unit :=
  errors_Join (
    complaint (bool_decide (TrimSpace (cf_NodeID c) = "")) "node_id is required" ++
    complaint (bool_decide (cf_HTTP c = "") || bool_decide (cf_GRPC c = "") ||
               bool_decide (ca_Address (cf_AMQP c) = "")) "all listener addresses are required" ++
    complaint (ca_MaxFrameSize (cf_AMQP c) <? 512) "max_frame_size must be at least 512" ++
    complaint (ca_MaxConnections (cf_AMQP c) <? 1) "max_connections must be positive" ++
    complaint (negb (bool_decide (ct_Driver (cf_Storage c) = "memory")) &&
               negb (bool_decide (ct_Driver (cf_Storage c) = "file")) &&
               negb (bool_decide (ct_Driver (cf_Storage c) = "postgres")))
      "storage driver must be memory, file, or postgres" ++
    complaint (bool_decide (ct_Driver (cf_Storage c) = "postgres") &&
               bool_decide (ct_DSN (cf_Storage c) = "")) "postgres dsn is required").

(** ** Loading *)
Section load.
Context (ReadFile : string → error + bytes) (Unmarshal : bytes → Config → error + Config)
  (Getenv : string → string).

Definition stringEnv (key dst : string) : string :=
  let v := Getenv key in if bool_decide (v = "") then dst else v.

(** A variable that is set and parses replaces the value. *)
Definition parsedEnv {A} (parse : string → option A) (key : string) (dst : A) : A :=
  let v := Getenv key in
  if bool_decide (v = "") then dst else match parse v with Some x => x | None => dst end.

Definition override (c : Config) : Config :=
  let a := cf_AMQP c in
  let s := cf_Storage c in
  mkConfig (stringEnv "BROKER_NODE_ID" (cf_NodeID c)) (stringEnv "BROKER_HTTP_ADDRESS" (cf_HTTP c))
    (stringEnv "BROKER_GRPC_ADDRESS" (cf_GRPC c))
    (mkConfigAMQP (stringEnv "BROKER_AMQP_ADDRESS" (ca_Address a))
       (parsedEnv ParseUint32 "BROKER_MAX_FRAME_SIZE" (ca_MaxFrameSize a))
       (ca_IdleTimeout a) (ca_IdleTimeoutRaw a)
       (parsedEnv Atoi "BROKER_MAX_CONNECTIONS" (ca_MaxConnections a)))
    (mkConfigAuth (stringEnv "BROKER_AUTH_TOKEN" (ch_Token (cf_Auth c)))
       (parsedEnv ParseBool "BROKER_ALLOW_ANONYMOUS" (ch_AllowAnonymous (cf_Auth c))))
    (mkConfigStorage (stringEnv "BROKER_STORAGE_DRIVER" (ct_Driver s))
       (stringEnv "BROKER_DATA_DIR" (ct_DataDir s)) (stringEnv "BROKER_POSTGRES_DSN" (ct_DSN s)))
    (cf_Limits c) (cf_Workers c) (cf_Shutdown c).

(** The error of [time.ParseDuration] quotes its argument. *)
Definition duration_field (what raw : string) (old : duration) : res duration :=
  if bool_decide (raw = "") then Ok old
  else match ParseDuration raw with
       | Some d => Ok d
       | None => Err (ErrWrap what (ErrFmtS "time: invalid duration" raw))
       end.

Definition read_config (path : string) : res Config :=
  if bool_decide (path = "") then Ok Default
  else match ReadFile path with
       | inl e => Err (ErrWrap "read config" e)
       | inr b => match Unmarshal b Default with
                  | inl e => Err (ErrWrap "parse yaml" e)
                  | inr c => Ok c
                  end
       end.

Definition Load (path : string) : res Config :=
  c ← read_config path;
  idle ← duration_field "amqp idle timeout" (ca_IdleTimeoutRaw (cf_AMQP c)) (ca_IdleTimeout (cf_AMQP c));
  let c := set_amqp (mkConfigAMQP (ca_Address (cf_AMQP c)) (ca_MaxFrameSize (cf_AMQP c)) idle
             (ca_IdleTimeoutRaw (cf_AMQP c)) (ca_MaxConnections (cf_AMQP c))) c in
  sweep ← duration_field "sweep interval" (cw_SweepIntervalRaw (cf_Workers c)) (cw_SweepInterval (cf_Workers c));
  let w := mkConfigWorkers sweep (cw_SweepIntervalRaw (cf_Workers c)) (cw_LeaseTTL (cf_Workers c))
             (cw_LeaseTTLRaw (cf_Workers c)) in
  let c := set_workers w c in
  lease ← duration_field "lease ttl" (cw_LeaseTTLRaw w) (cw_LeaseTTL w);
  let c := set_workers (mkConfigWorkers (cw_SweepInterval w) (cw_SweepIntervalRaw w) lease (cw_LeaseTTLRaw w)) c in
  let c := override c in
  Config_Validate c;;
  mret c.
End load.

(** What [run] passes to [Build]. *)
Definition run_settings (cfg : Config) : Settings :=
  mkSettings (cf_NodeID cfg) (ca_Address (cf_AMQP cfg)) (ca_MaxFrameSize (cf_AMQP cfg))
    (ca_IdleTimeout (cf_AMQP cfg)) (ca_MaxConnections (cf_AMQP cfg)) (ct_DataDir (cf_Storage cfg))
    (cw_LeaseTTL (cf_Workers cfg)) 32 (ch_Token (cf_Auth cfg)) (ch_AllowAnonymous (cf_Auth cfg)).

(** ** Lemmas *)

(** What a valid configuration satisfies. *)
Record valid_config (c : Config) : Prop := {
  vc_node : TrimSpace (cf_NodeID c) ≠ "";
  vc_listeners : cf_HTTP c ≠ "" ∧ cf_GRPC c ≠ "" ∧ ca_Address (cf_AMQP c) ≠ "";
  vc_frame : 512 ≤ ca_MaxFrameSize (cf_AMQP c);
  vc_connections : 1 ≤ ca_MaxConnections (cf_AMQP c);
  vc_driver : ct_Driver (cf_Storage c) ∈ ["memory"; "file"; "postgres"];
  vc_dsn : ct_Driver (cf_Storage c) = "postgres" → ct_DSN (cf_Storage c) ≠ "" }.

Lemma errors_Join_nil all : errors_Join all = Ok tt ↔ all = [].
Proof. by destruct all. Qed.

Lemma complaint_nil b text : complaint b text = [] ↔ b = false.
Proof. by destruct b. Qed.

Lemma Validate_valid c : Config_Validate c = Ok tt ↔ valid_config c.
Proof.
  unfold Config_Validate. rewrite errors_Join_nil, !app_nil, !complaint_nil, !orb_false_iff, !andb_false_iff,
    !negb_false_iff, !bool_decide_eq_true, !bool_decide_eq_false, !Z.ltb_ge. split.
  - intros (H1 & ((H2 & H3) & H4) & H5 & H6 & H7 & H8). split; try done.
    + rewrite !elem_of_cons. tauto.
    + intros E. by destruct H8.
  - intros [H1 H2 H3 H4 H5 H6]. rewrite !elem_of_cons, elem_of_nil in H5.
    destruct (decide (ct_DSN (cf_Storage c) = "")); tauto.
Qed.

Lemma in_range_Some lo hi x n : in_range lo hi x = Some n → lo ≤ n < hi.
Proof. destruct x as [m|]; [|done]. cbn. case_match; [|done]. intros [= <-]. zlia. Qed.

Lemma Atoi_range s n : Atoi s = Some n → - 2 ^ 63 ≤ n < 2 ^ 63.
Proof. unfold Atoi. repeat case_match; try done; apply in_range_Some. Qed.

Lemma ParseUint32_range s n : ParseUint32 s = Some n → 0 ≤ n < 2 ^ 32.
Proof. apply in_range_Some. Qed.

Lemma parsedEnv_ind {A} (P : A → Prop) getenv parse key dst :
  P dst → (∀ s x, parse s = Some x → P x) → P (parsedEnv getenv parse key dst).
Proof. intros Hd Hp. unfold parsedEnv. repeat case_match; eauto. Qed.

(** A configuration of the types of the struct: a [uint32] and an [int]. *)
Definition typed_config (c : Config) : Prop :=
  0 ≤ ca_MaxFrameSize (cf_AMQP c) < 2 ^ 32 ∧ - 2 ^ 63 ≤ ca_MaxConnections (cf_AMQP c) < 2 ^ 63.

Lemma override_typed getenv c : typed_config c → typed_config (override getenv c).
Proof.
  intros [H1 H2]. split; cbn.
  - apply (parsedEnv_ind (λ x, 0 ≤ x < 2 ^ 32)); [done|apply ParseUint32_range].
  - apply (parsedEnv_ind (λ x, - 2 ^ 63 ≤ x < 2 ^ 63)); [done|apply Atoi_range].
Qed.

(** [Load] overrides the file by the environment and validates the result. *)
Lemma Load_inv rf um ge path c : Load rf um ge path = Ok c →
  ∃ c0 c1, read_config rf um path = Ok c0 ∧ c = override ge c1 ∧ valid_config c ∧
    ca_MaxFrameSize (cf_AMQP c1) = ca_MaxFrameSize (cf_AMQP c0) ∧
    ca_MaxConnections (cf_AMQP c1) = ca_MaxConnections (cf_AMQP c0).
Proof.
  unfold Load, mbind, res_mbind, res_bind. intros E.
  destruct (read_config rf um path) as [c0| |]; try done.
  destruct (duration_field "amqp idle timeout" _ _); try done.
  destruct (duration_field "sweep interval" _ _); try done.
  destruct (duration_field "lease ttl" _ _); try done.
  set (c1 := set_workers _ (set_workers _ _)) in E.
  destruct (Config_Validate (override ge c1)) as [[]| |] eqn:Ev; try done.
  apply Ok_inj in E as <-. exists c0, c1. split_and!; try done. by apply Validate_valid.
Qed.

(** ** Properties *)

(** C36. A configuration that loads is valid and within the types of the
    program, and the broker is built with exactly the limits it names: the
    frame size is at least 512 and below 2^32, at least one connection is
    allowed, the storage driver is a known one, and [Build]'s defaults replace
    neither. *)
Theorem Load_usable (ReadFile : string → error + bytes) (Unmarshal : bytes → Config → error + Config)
    (Getenv : string → string) (path : string) (c : Config) :
  (∀ b c', Unmarshal b Default = inr c' → typed_config c') →
  Load ReadFile Unmarshal Getenv path = Ok c →
  valid_config c ∧ typed_config c ∧
  st_MaxFrame (with_defaults (run_settings c)) = ca_MaxFrameSize (cf_AMQP c) ∧
  st_MaxConnections (with_defaults (run_settings c)) = ca_MaxConnections (cf_AMQP c) ∧
  st_Shards (with_defaults (run_settings c)) = 32.
Proof.
  intros Hyaml E. destruct (Load_inv _ _ _ _ _ E) as (c0 & c1 & E0 & -> & Hv & Ef & Ec).
  assert (typed_config c0) as Ht.
  { unfold read_config in E0. repeat case_match; simplify_res; subst; [|by eapply Hyaml].
    vm_compute. by repeat split. }
  assert (typed_config c1) as Ht1 by (unfold typed_config in *; by rewrite Ef, Ec).
  pose proof (override_typed Getenv c1 Ht1) as Ht2. destruct (Hv) as [_ _ Hf Hc _ _]. split_and!; try done.
  - unfold with_defaults, run_settings. cbn [st_MaxFrame]. case_match; zlia.
  - unfold with_defaults, run_settings. cbn [st_MaxConnections]. case_match; zlia.
Qed.

(** Validation is exact: it succeeds exactly on the valid configurations,
    and fails, without a panic, on every other. *)
Theorem Validate_exact (c : Config) :
  (Config_Validate c = Ok tt ↔ valid_config c) ∧ is_panic (Config_Validate c) = false.
Proof.
  split; [apply Validate_valid|]. unfold Config_Validate, errors_Join. by case_match.
Qed.

(** ** Witnesses *)

(** A file that turns anonymous access off, and an environment that sets the
    frame size, and a connection limit that does not parse. *)
Definition demo_yaml (b : bytes) (c : Config) : error + Config :=
  inr (mkConfig (cf_NodeID c) (cf_HTTP c) (cf_GRPC c)
    (mkConfigAMQP ":5671" 4096 (ca_IdleTimeout (cf_AMQP c)) "1m30s" 8)
    (mkConfigAuth "secret" false) (cf_Storage c) (cf_Limits c) (cf_Workers c) (cf_Shutdown c)).

Definition demo_env (key : string) : string :=
  if bool_decide (key = "BROKER_MAX_FRAME_SIZE") then "65536"
  else if bool_decide (key = "BROKER_MAX_CONNECTIONS") then "many" else "".

Definition demo_loaded : Config :=
  match Load (λ _, inr []) demo_yaml demo_env "broker.yaml" with Ok c => c | _ => Default end.

Lemma Load_usable_witness :
  valid_config demo_loaded ∧ typed_config demo_loaded ∧
  st_MaxFrame (with_defaults (run_settings demo_loaded)) = 65536 ∧
  st_MaxConnections (with_defaults (run_settings demo_loaded)) = 8 ∧
  ca_IdleTimeout (cf_AMQP demo_loaded) = 90 * Second.
Proof.
  destruct (Load_usable (λ _, inr []) demo_yaml demo_env "broker.yaml" demo_loaded) as (H1 & H2 & H3 & H4 & _).
  - intros b c' E. assert (c' = match demo_yaml b Default with inr x => x | inl _ => Default end) as -> by (rewrite E; reflexivity).
    vm_compute. repeat split; congruence.
  - vm_compute. reflexivity.
  - split; [exact H1|]. split; [exact H2|]. split; [rewrite H3; vm_compute; reflexivity|].
    split; [rewrite H4; vm_compute; reflexivity|]. vm_compute. reflexivity.
Defined.
