(* ===== verification/Lifecycle.v ===== *)
(** * The life of the process

    Models [run] and [shutdownRuntime] of [cmd/broker/main.go], [Start],
    [accept] and [Close] of the AMQP server, [Start] and [Close] of the gRPC
    server and the worker's goroutine: what runs beside what, and how the
    process stops.  A [Process] is the runtime with its goroutines: the
    program counter of [run], the two contexts, the listeners with the number
    of handlers they wait for, and the worker.  [fire] performs one action of
    [run] or of a goroutine; [process_step] is an action in some environment.
    A handler acts by one service call at a time, so calls of handlers, of the
    sweep and the steps of [run] interleave.

    [http.Server] and [grpc.Server] are their documented behaviour: a graceful
    stop refuses new requests and waits for those in progress; a handler that
    overran the middleware's [TimeoutHandler] is no longer waited for.  A
    panic ends the process and is no action; that none of the modelled calls
    panics is shown where they are. *)

From S2P Require Import Prelude Bytes Text Duration Matcher Address Message Transaction Env.
From S2P Require Import Memory BodyLog FileLog FileLogFacts Router Delivery DeliveryInv DeliveryFacts.
From S2P Require Import TxService TxFacts Broker Cluster Connection Registry Session Link Peer.
From S2P Require Import Snapshot Runtime Config.

(** ** State *)

(** Where [run] stands.  Between a [Close...] and the [Wait...] that follows
    it the component has been told to stop and the caller waits for it.  The
    snapshot is taken in one action, which checks the context, and written in
    the next, which does not. *)
Inductive main_pc :=
  | StartRuntime | StartGRPC | StartWorkers | Serving
  | CloseHTTP | WaitHTTP | CloseGRPC | WaitGRPC | WaitWorkers
  | CloseAMQP | WaitAMQP | SaveSnapshot | WriteSnapshot (s : Snapshot) | Returned.

(** The context with the shutdown timeout. *)
Inductive deadline := NoDeadline | Pending | Expired.

(** The goroutine of [ListenAndServe]; [HttpClosed] also stands for one that
    has returned. *)
Inductive http_state := HttpIdle | HttpStarting | HttpOpen | HttpClosed.

(** The goroutine of the worker: before [Start], in its [select], in a sweep,
    and ended ([done] is closed). *)
Inductive worker_state := WorkerNew | WorkerWaiting | WorkerSweeping | WorkerDone.

#[global] Instance deadline_eq_dec : EqDecision deadline.
Proof. solve_decision. Defined.
#[global] Instance http_state_eq_dec : EqDecision http_state.
Proof. solve_decision. Defined.
#[global] Instance worker_state_eq_dec : EqDecision worker_state.
Proof. solve_decision. Defined.

(** The AMQP server's listener: the socket, the accept goroutine, and the
    connection handlers that its wait group counts. *)
Record amqp_listener := mkAmqpListener { al_open : bool; al_accepting : bool; al_handlers : nat }.

(** [http_orphaned]: some handler was left running by its time limit. *)
Record http_server := mkHttpServer { hs_state : http_state; hs_stopping : bool; hs_active : nat; hs_orphaned : bool }.

Record grpc_server := mkGrpcListener { gl_open : bool; gl_active : nat }.

Record Process (D : Type) := mkProcess {
  p_pc : main_pc; p_runtime : Runtime D; p_cancelled : bool; p_deadline : deadline;
  p_amqp : amqp_listener; p_http : http_server; p_grpc : grpc_server; p_worker : worker_state;
  (** The buffered channel, the variable [err], and [joined]. *)
  p_serveErr : option error; p_err : option error; p_joined : list error }.
Arguments mkProcess {D}.
Arguments p_pc {D}.
Arguments p_runtime {D}.
Arguments p_cancelled {D}.
Arguments p_deadline {D}.
Arguments p_amqp {D}.
Arguments p_http {D}.
Arguments p_grpc {D}.
Arguments p_worker {D}.
Arguments p_serveErr {D}.
Arguments p_err {D}.
Arguments p_joined {D}.

Section setters.
Context {D : Type}.
Implicit Types p : Process D.

Definition pset_pc x p : Process D := mkProcess x (p_runtime p) (p_cancelled p) (p_deadline p) (p_amqp p)
  (p_http p) (p_grpc p) (p_worker p) (p_serveErr p) (p_err p) (p_joined p).
Definition pset_runtime x p : Process D := mkProcess (p_pc p) x (p_cancelled p) (p_deadline p) (p_amqp p)
  (p_http p) (p_grpc p) (p_worker p) (p_serveErr p) (p_err p) (p_joined p).
Definition pset_cancelled x p : Process D := mkProcess (p_pc p) (p_runtime p) x (p_deadline p) (p_amqp p)
  (p_http p) (p_grpc p) (p_worker p) (p_serveErr p) (p_err p) (p_joined p).
Definition pset_deadline x p : Process D := mkProcess (p_pc p) (p_runtime p) (p_cancelled p) x (p_amqp p)
  (p_http p) (p_grpc p) (p_worker p) (p_serveErr p) (p_err p) (p_joined p).
Definition pset_amqp x p : Process D := mkProcess (p_pc p) (p_runtime p) (p_cancelled p) (p_deadline p) x
  (p_http p) (p_grpc p) (p_worker p) (p_serveErr p) (p_err p) (p_joined p).
Definition pset_http x p : Process D := mkProcess (p_pc p) (p_runtime p) (p_cancelled p) (p_deadline p) (p_amqp p)
  x (p_grpc p) (p_worker p) (p_serveErr p) (p_err p) (p_joined p).
Definition pset_grpc x p : Process D := mkProcess (p_pc p) (p_runtime p) (p_cancelled p) (p_deadline p) (p_amqp p)
  (p_http p) x (p_worker p) (p_serveErr p) (p_err p) (p_joined p).
Definition pset_worker x p : Process D := mkProcess (p_pc p) (p_runtime p) (p_cancelled p) (p_deadline p) (p_amqp p)
  (p_http p) (p_grpc p) x (p_serveErr p) (p_err p) (p_joined p).
Definition pset_serveErr x p : Process D := mkProcess (p_pc p) (p_runtime p) (p_cancelled p) (p_deadline p) (p_amqp p)
  (p_http p) (p_grpc p) (p_worker p) x (p_err p) (p_joined p).
Definition pset_err x p : Process D := mkProcess (p_pc p) (p_runtime p) (p_cancelled p) (p_deadline p) (p_amqp p)
  (p_http p) (p_grpc p) (p_worker p) (p_serveErr p) x (p_joined p).
Definition pset_joined x p : Process D := mkProcess (p_pc p) (p_runtime p) (p_cancelled p) (p_deadline p) (p_amqp p)
  (p_http p) (p_grpc p) (p_worker p) (p_serveErr p) (p_err p) x.
End setters.

(** [run] before it starts anything, on a runtime that [Build] returned. *)
Definition initial {D} (r : Runtime D) : Process D :=
  mkProcess StartRuntime r false NoDeadline (mkAmqpListener false false 0)
    (mkHttpServer HttpIdle false 0 false) (mkGrpcListener false 0) WorkerNew None None [].

(** ** Operations *)

(** [case <-done: return nil; case <-ctx.Done(): return ctx.Err()]: [choice]
    is the case taken; [None] when it is not ready. *)
Inductive select := TakeDone | TakeContext.

Definition wait {D} (choice : select) (done : bool) (p : Process D) : option (res unit) :=
  match choice with
  | TakeDone => if done then Some (Ok tt) else None
  | TakeContext => if bool_decide (p_deadline p = Expired) then Some (Err (ErrContext "deadline exceeded")) else None
  end.

(** [if e := ...; e != nil { joined = append(joined, e) }]. *)
Definition join {D} (r : res unit) (p : Process D) : Process D :=
  match r with Err e => pset_joined (p_joined p ++ [e]) p | _ => p end.

Section listeners.
Context {D : Type}.
Implicit Types p : Process D.

(** *** The AMQP server *)
Definition Server_Start (listen : option error) p : res (Process D) :=
  match listen with
  | Some e => Err (ErrWrap "listen AMQP" e)
  | None => Ok (pset_amqp (mkAmqpListener true true (al_handlers (p_amqp p))) p)
  end.

(** [accept]: one turn of its loop, with the connection or the error that
    [Accept] returns; a closed listener only gives an error. *)
Definition accept (connection : bool) p : option (Process D) :=
  let a := p_amqp p in
  if al_accepting a then
    if connection then
      if al_open a then Some (pset_amqp (mkAmqpListener true true (S (al_handlers a))) p) else None
    else Some (pset_amqp (mkAmqpListener (al_open a) false (al_handlers a)) p)
  else None.

(** The deferred [wg.Done] of a handler. *)
Definition handler_end p : option (Process D) :=
  match al_handlers (p_amqp p) with
  | S n => Some (pset_amqp (mkAmqpListener (al_open (p_amqp p)) (al_accepting (p_amqp p)) n) p)
  | O => None
  end.

(** [Close] up to its [select]: cancel, close the listener. *)
Definition close_listener p : Process D :=
  pset_amqp (mkAmqpListener false (al_accepting (p_amqp p)) (al_handlers (p_amqp p))) p.

(** [s.wg.Wait()] has returned. *)
Definition wg_done p : bool := negb (al_accepting (p_amqp p)) && (al_handlers (p_amqp p) =? 0)%nat.

(** *** The gRPC server *)
Definition Grpc_Start (listen : option error) p : res (Process D) :=
  match listen with
  | Some e => Err (ErrWrap "listen gRPC" e)
  | None => Ok (pset_grpc (mkGrpcListener true 0) p)
  end.

(** Called when the root context ends, and by [Close]; the [Stop] after the
    deadline closes the transports, and does not wait for handlers. *)
Definition GracefulStop p : Process D := pset_grpc (mkGrpcListener false (gl_active (p_grpc p))) p.

Definition grpc_stopped p : bool := negb (gl_open (p_grpc p)) && (gl_active (p_grpc p) =? 0)%nat.

(** *** The worker

    Its context is a child of the root context, which is cancelled whenever
    [Stop] is called, so the [cancel] of [Stop] changes nothing. *)
Definition worker_Start p : Process D := pset_worker WorkerWaiting p.

(** The [select] of the loop: the context is done, or the ticker fired. *)
Definition worker_select (choice : select) p : option (Process D) :=
  match p_worker p, choice with
  | WorkerWaiting, TakeContext => if p_cancelled p then Some (pset_worker WorkerDone p) else None
  | WorkerWaiting, TakeDone => Some (pset_worker WorkerSweeping p)
  | _, _ => None
  end.

(** *** The HTTP server *)

(** [go func() { err := httpServer.ListenAndServe() ... }()]. *)
Definition ListenAndServe (listen : option error) p : option (Process D) :=
  let h := p_http p in
  match hs_state h with
  | HttpStarting =>
      if hs_stopping h then Some (pset_http (mkHttpServer HttpClosed true (hs_active h) (hs_orphaned h)) p)
      else match listen with
           | Some e => Some (pset_serveErr (Some e) (pset_http (mkHttpServer HttpClosed false (hs_active h) (hs_orphaned h)) p))
           | None => Some (pset_http (mkHttpServer HttpOpen false (hs_active h) (hs_orphaned h)) p)
           end
  | HttpOpen =>
      match listen with
      | Some e => Some (pset_serveErr (Some e) (pset_http (mkHttpServer HttpClosed false (hs_active h) (hs_orphaned h)) p))
      | None => None
      end
  | _ => None
  end.

(** [Shutdown] up to its wait: new requests are refused, and a
    [ListenAndServe] that has not begun returns at once. *)
Definition http_Shutdown p : Process D :=
  let h := p_http p in
  pset_http (mkHttpServer (match hs_state h with HttpOpen => HttpClosed | s => s end) true
    (hs_active h) (hs_orphaned h)) p.
End listeners.

(** *** [run] *)
Section run.
Context `{orc : Oracle, mtch : !Matcher} {D : Type} `{SnapshotJSON D}.
Implicit Types p : Process D.

(** [run] up to [runtime.Start]: the configuration is loaded and the runtime
    built on the data directory. *)
Definition run_begin (ReadFile : string → error + bytes) (Unmarshal : bytes → Config → error + Config)
    (Getenv : string → string) (path : string) : env (SnapshotFile D * FileLog) (Process D) :=
  cfg ← lift (Load ReadFile Unmarshal Getenv path);
  r ← wrap "build runtime" (Build (run_settings cfg));
  mret (initial r).

(** [shutdownRuntime]: a new context, and [cause] joined with the result of
    [Close]. *)
Definition shutdownRuntime (cause : error) p : Process D :=
  pset_pc CloseAMQP (pset_deadline Pending (pset_joined [cause] p)).

(** The next action of [run]; [listen] is the result of the system call that
    opens a listener, [n] the number of the next question to the environment. *)
Definition run_next (listen : option error) (choice : select) (n : nat) p : option (Process D) :=
  match p_pc p with
  | StartRuntime =>
      Some match Server_Start listen p with
           | Ok p' => pset_pc StartGRPC p'
           | Err e => pset_pc Returned (pset_joined [e] p)
           | Panic => p
           end
  | StartGRPC =>
      Some match Grpc_Start listen p with
           | Ok p' => pset_pc StartWorkers p'
           | Err e => shutdownRuntime e p
           | Panic => p
           end
  | StartWorkers =>
      let p := worker_Start p in
      Some (pset_pc Serving (pset_http (mkHttpServer HttpStarting (hs_stopping (p_http p)) (hs_active (p_http p))
        (hs_orphaned (p_http p))) p))
  | Serving =>
      match choice, p_serveErr p with
      | TakeContext, _ => if p_cancelled p then Some (pset_pc CloseHTTP (pset_deadline Pending p)) else None
      | TakeDone, Some e =>
          Some (pset_pc CloseHTTP (pset_deadline Pending (pset_cancelled true (pset_err (Some e) (pset_serveErr None p)))))
      | TakeDone, None => None
      end
  | CloseHTTP => Some (pset_pc WaitHTTP (http_Shutdown p))
  | WaitHTTP =>
      (λ r, pset_pc CloseGRPC (join r p)) <$> wait choice (hs_active (p_http p) =? 0)%nat p
  | CloseGRPC => Some (pset_pc WaitGRPC (GracefulStop p))
  | WaitGRPC => (λ r, pset_pc WaitWorkers (join r p)) <$> wait choice (grpc_stopped p) p
  | WaitWorkers =>
      (λ r, pset_pc CloseAMQP (join r p)) <$> wait choice (bool_decide (p_worker p = WorkerDone)) p
  | CloseAMQP => Some (pset_pc WaitAMQP (close_listener p))
  | WaitAMQP =>
      (λ r, match r with
            | Ok _ => pset_pc SaveSnapshot p
            | _ => pset_pc Returned (join r p)
            end) <$> wait choice (wg_done p) p
  | SaveSnapshot =>
      match on_store (on_memory Memory_Snapshot) (p_runtime p, n) with
      | (Ok s, (r', _)) => Some (pset_pc (WriteSnapshot s) (pset_runtime r' p))
      | (Err e, (r', _)) => Some (pset_pc Returned (join (Err e) (pset_runtime r' p)))
      | (Panic, _) => None
      end
  | WriteSnapshot s =>
      let '(r, (r', _)) := (on_store (write_snapshot s);; on_broker (log Log_Close)) (p_runtime p, n) in
      Some (pset_pc Returned (join r (pset_runtime r' p)))
  | Returned => None
  end.

(** [main]: the exit status of the process. *)
Definition exit_status p : option Z :=
  match p_pc p with
  | Returned => Some (match p_joined p with [] => 0 | _ => 1 end)
  | _ => None
  end.

(** Some handler is running. *)
Definition handling p : bool :=
  negb (al_handlers (p_amqp p) =? 0)%nat || negb (hs_active (p_http p) =? 0)%nat || hs_orphaned (p_http p) ||
  negb (gl_active (p_grpc p) =? 0)%nat.

(** The actions of the goroutines and of the outside. *)
Inductive action :=
  | Signal
  | Timeout
  | Accepts (connection : bool)
  | HandlerEnds
  | HttpListens (listen : option error)
  | HttpRequest
  | HttpAnswers
  | HttpTimesOut
  | GrpcStops
  | GrpcRequest
  | GrpcAnswers
  | WorkerSelects (choice : select)
  | WorkerSweeps (n : nat)
  | HandlerCalls (c : call) (n : nat)
  | HandlerRegisters (cs : ConnRegistry) (ss : SessRegistry) (ls : LinkRegistry)
  | HandlerLeases (c : cluster).

Definition set_registries (cs : ConnRegistry) (ss : SessRegistry) (ls : LinkRegistry) (r : Runtime D) : Runtime D :=
  mkRuntime (rn_Config r) (rn_Delivery r) (rn_txTTL r) cs ss ls (rn_Cluster r) (rn_Snapshot r) (rn_AMQP r).

Definition fire (a : action) p : option (Process D) :=
  let h := p_http p in
  match a with
  | Signal => Some (pset_cancelled true p)
  | Timeout => if bool_decide (p_deadline p = Pending) then Some (pset_deadline Expired p) else None
  | Accepts connection => accept connection p
  | HandlerEnds => handler_end p
  | HttpListens listen => ListenAndServe listen p
  | HttpRequest =>
      if bool_decide (hs_state h = HttpOpen)
      then Some (pset_http (mkHttpServer HttpOpen (hs_stopping h) (S (hs_active h)) (hs_orphaned h)) p) else None
  | HttpAnswers =>
      match hs_active h with
      | S n => Some (pset_http (mkHttpServer (hs_state h) (hs_stopping h) n (hs_orphaned h)) p)
      | O => None
      end
  | HttpTimesOut =>
      match hs_active h with
      | S n => Some (pset_http (mkHttpServer (hs_state h) (hs_stopping h) n true) p)
      | O => None
      end
  | GrpcStops => if p_cancelled p then Some (GracefulStop p) else None
  | GrpcRequest =>
      if gl_open (p_grpc p) then Some (pset_grpc (mkGrpcListener true (S (gl_active (p_grpc p)))) p) else None
  | GrpcAnswers =>
      match gl_active (p_grpc p) with
      | S n => Some (pset_grpc (mkGrpcListener (gl_open (p_grpc p)) n) p)
      | O => None
      end
  | WorkerSelects choice => worker_select choice p
  | WorkerSweeps n =>
      if bool_decide (p_worker p = WorkerSweeping) then
        match Runtime_Sweep (p_runtime p, n) with
        | (Panic, _) => None
        | (_, (r, _)) => Some (pset_worker WorkerWaiting (pset_runtime r p))
        end
      else None
  | HandlerCalls c n =>
      if handling p then
        match exec c (rn_Delivery (p_runtime p), n) with
        | (Panic, _) => None
        | (_, (b, _)) => Some (pset_runtime (set_broker b (p_runtime p)) p)
        end
      else None
  | HandlerRegisters cs ss ls =>
      if handling p then Some (pset_runtime (set_registries cs ss ls (p_runtime p)) p) else None
  | HandlerLeases c => if handling p then Some (pset_runtime (set_cluster c (p_runtime p)) p) else None
  end.
End run.

(** An action is possible: a broker call has arguments in their range. *)
Definition action_ok (a : action) : Prop :=
  match a with HandlerCalls c _ => call_in_range c | _ => True end.

(** The environment of the shutdown context agrees with its deadline. *)
Definition deadline_seen {D} (orc : Oracle) (p : Process D) : Prop :=
  p_deadline p = Expired → ∀ n, is_Some (o_ctx n).

Section steps.
Context {D : Type} `{SnapshotJSON D}.

Inductive run_step (p p' : Process D) : Prop :=
  | run_step_next (orc : Oracle) listen choice n :
      deadline_seen orc p → run_next listen choice n p = Some p' → run_step p p'.

Inductive other_step (p p' : Process D) : Prop :=
  | other_step_fire (orc : Oracle) (mtch : Matcher) a : action_ok a → fire a p = Some p' → other_step p p'.

Definition process_step (p p' : Process D) : Prop := run_step p p' ∨ other_step p p'.

(** An execution with [k] actions of [run]. *)
Inductive execution : nat → Process D → Process D → Prop :=
  | execution_here p : execution O p p
  | execution_run k p p1 p2 : run_step p p1 → execution k p1 p2 → execution (S k) p p2
  | execution_other k p p1 p2 : other_step p p1 → execution k p1 p2 → execution k p p2.
End steps.

(** ** The course of a shutdown *)

(** How far [run] has come. *)
Definition rank (pc : main_pc) : nat :=
  match pc with
  | StartRuntime => 0 | StartGRPC => 1 | StartWorkers => 2 | Serving => 3
  | CloseHTTP => 4 | WaitHTTP => 5 | CloseGRPC => 6 | WaitGRPC => 7 | WaitWorkers => 8
  | CloseAMQP => 9 | WaitAMQP => 10 | SaveSnapshot => 11 | WriteSnapshot _ => 12 | Returned => 13
  end.

Section invariant.
Context {D : Type} `{SnapshotJSON D}.
Implicit Types p : Process D.

(** What has been stopped by the time [run] has come this far, when nothing
    was reported. *)
Record stopped p : Prop := {
  sp_http : (5 ≤ rank (p_pc p))%nat → hs_stopping (p_http p) = true ∧ hs_state (p_http p) ≠ HttpOpen;
  sp_requests : (6 ≤ rank (p_pc p))%nat → hs_active (p_http p) = 0%nat;
  sp_grpc : (7 ≤ rank (p_pc p))%nat → gl_open (p_grpc p) = false;
  sp_calls : (8 ≤ rank (p_pc p))%nat → gl_active (p_grpc p) = 0%nat;
  sp_worker : (9 ≤ rank (p_pc p))%nat → p_worker p = WorkerDone;
  sp_listener : (10 ≤ rank (p_pc p))%nat → al_open (p_amqp p) = false;
  sp_handlers : (11 ≤ rank (p_pc p))%nat → al_accepting (p_amqp p) = false ∧ al_handlers (p_amqp p) = 0%nat;
  sp_snapshot : ∀ s, p_pc p = WriteSnapshot s → hs_orphaned (p_http p) = false →
    snapshot_of (b_mem (rn_Delivery (p_runtime p))) s;
  sp_saved : (13 ≤ rank (p_pc p))%nat → hs_orphaned (p_http p) = false →
    saved (b_mem (rn_Delivery (p_runtime p))) (rn_Snapshot (p_runtime p)) }.

(** [f0]: the snapshot file the process was started with. *)
Record process_inv (f0 : SnapshotFile D) p : Prop := {
  pi_deadline : (rank (p_pc p) < 4)%nat → p_deadline p = NoDeadline;
  pi_file : (rank (p_pc p) < 13)%nat → sf_path (rn_Snapshot (p_runtime p)) = sf_path f0;
  pi_stopped : p_joined p = [] → stopped p }.

Lemma initial_inv (r : Runtime D) : process_inv (rn_Snapshot r) (initial r).
Proof. split; [done..|]. intros _. split; cbn; first [lia|by intros ? [=]]. Qed.

(** What saving and closing leave of the runtime: the store, and the log up
    to its file handle. *)
Definition same_broker (r r' : Runtime D) : Prop :=
  b_mem (rn_Delivery r') = b_mem (rn_Delivery r) ∧
  fl_offsets (b_log (rn_Delivery r')) = fl_offsets (b_log (rn_Delivery r)) ∧
  fd_data (fl_file (b_log (rn_Delivery r'))) = fd_data (fl_file (b_log (rn_Delivery r))).

Lemma same_broker_wf (r r' : Runtime D) :
  same_broker r r' → wf_broker (rn_Delivery r) → wf_broker (rn_Delivery r').
Proof.
  intros (Em & Eo & Ed) Hw.
  assert (fl_view (b_log (rn_Delivery r')) = fl_view (b_log (rn_Delivery r))) as Ev
    by (unfold fl_view; by rewrite Eo, Ed).
  destruct Hw as [Hl Ha Hb Hm Hc Ht]. split; rewrite ?Em; try done.
  - change (fl_inv (b_log (rn_Delivery r'))). unfold fl_inv. rewrite Eo, Ed. exact Hl.
  - cbn. rewrite Ev. exact Hm.
Qed.

(** The copy of the store is a snapshot of it and changes nothing. *)
Lemma wpe_take `{orc : Oracle} (r : Runtime D) :
  wpe (on_store (on_memory Memory_Snapshot)) (λ x r', r' = r ∧ match x with
    | Ok s => snapshot_of (b_mem (rn_Delivery r)) s
    | Err _ => True
    | Panic => False end) r.
Proof.
  unfold on_store, on_memory. wpe_step. wpe_step.
  apply wpe_Snapshot; intros; (split; [by destruct r as [? [] ? ? ? ? ? ? ?]|done]).
Qed.

(** In every environment, the last part of [Close] fails with the old
    snapshot in place, or the new one is whole. *)
Lemma wpe_write_close `{orc : Oracle} s (r : Runtime D) :
  wpe (on_store (write_snapshot s);; on_broker (log Log_Close)) (λ x r', is_panic x = false ∧ same_broker r r' ∧
    (x = Ok tt → ∃ d, json_Marshal s = inr d ∧ sf_path (rn_Snapshot r') = Some d)) r.
Proof.
  unfold on_store. wpe_step. wpe_step. apply wpe_write_snapshot; [intros e f Ef; by cbn|].
  intros d f Ed Ef. cbn. unfold on_broker, log. wpe_step. wpe_step. unfold Log_Close. cbn.
  unfold FileLog_Close, file_Close. apply wpe_on_file. wpe_step.
  apply wpe_file_op; [intros e; cbn; by split_and!|]. intros _. wpe_auto. cbn. split_and!; try done. by exists d.
Qed.

(** After the deadline no copy is taken. *)
Lemma late_take `{orc : Oracle} (r : Runtime D) n :
  (∀ k, is_Some (o_ctx k)) →
  ∃ e n', on_store (on_memory Memory_Snapshot) (r, n) = (Err e, (r, n')).
Proof.
  intros Hc. destruct (Hc n) as [e He]. exists e, (S n).
  unfold on_store, on_memory, Memory_Snapshot, ctx_Err, ask, on, raise, mbind, go_bind.
  cbn. rewrite He. cbn. by destruct r as [? [] ? ? ? ? ? ? ?].
Qed.

(** The two results of a [select]. *)
Lemma wait_inv choice done p r :
  wait choice done p = Some r →
  r = Ok tt ∧ done = true ∨ (∃ e, r = Err e) ∧ p_deadline p = Expired.
Proof. unfold wait. repeat case_match; intros; simplify_eq; [by left|]. right. case_bool_decide; by eauto. Qed.

Lemma join_inv (r : res unit) p : p_joined (join r p) = [] → p_joined p = [] ∧ (is_panic r = false → r = Ok tt).
Proof. destruct r as [[]|e|]; cbn; try done. by intros []%app_eq_nil. Qed.

Lemma join_same (r : res unit) p :
  p_pc (join r p) = p_pc p ∧ p_runtime (join r p) = p_runtime p ∧ p_deadline (join r p) = p_deadline p ∧
  p_amqp (join r p) = p_amqp p ∧ p_http (join r p) = p_http p ∧ p_grpc (join r p) = p_grpc p ∧
  p_worker (join r p) = p_worker p.
Proof. by destruct r. Qed.
End invariant.

(** An environment in which every context is done. *)
Definition late_oracle : Oracle.
Proof.
  refine {|
    o_ctx := λ _, Some (ErrContext "deadline exceeded"); o_now := λ n, (1 + Z.of_nat n) * Second;
    o_rand := λ n k, inr (be_put k (Z.of_nat n)); o_io := λ _, None; o_short := λ _, O;
    o_order := λ _ _ l, l; o_order_perm := λ _ _ _, Permutation_refl _ |}.
  - intros _ e [= <-]. by eexists.
  - intros n k b [= <-]. apply length_be_put.
Defined.

(** Facts about the components stopped before [pc]. *)
Ltac at_pc :=
  repeat match goal with
  | H : (?a ≤ ?b)%nat → _ |- _ => specialize (H ltac:(cbn; lia))
  | H : (?a < ?b)%nat → _ |- _ => specialize (H ltac:(cbn; lia))
  end.

Ltac at_rank :=
  repeat match goal with
  | H : (_ ≤ rank ?pc)%nat → _, _ : (_ ≤ rank ?pc)%nat |- _ => specialize (H ltac:(lia))
  end.

Ltac not_yet := split; cbn; try lia; try (by intros ? [=]).
Ltac stop_step := cbn in *; at_pc; not_yet; auto.

Section preservation.
Context {D : Type} `{SnapshotJSON D}.
Implicit Types p : Process D.

(** A completed wait moves [run] on. *)
Lemma waited_inv f0 (p : Process D) (r : res unit) choice (done : bool) pc :
  process_inv f0 p → wait choice done p = Some r →
  (rank (p_pc p) < 13)%nat → (4 ≤ rank (p_pc p))%nat → rank pc = S (rank (p_pc p)) → (rank pc < 13)%nat →
  (done = true → stopped p → stopped (pset_pc pc p)) →
  process_inv f0 (pset_pc pc (join r p)).
Proof.
  intros [Hd Hf Hs] Hw H13 H4 Hr Hr' Hstop. destruct (join_same r p) as (E1 & E2 & E3 & E4 & E5 & E6 & E7).
  split; cbn.
  - lia.
  - rewrite E2. auto.
  - intros [Hj Hp]%join_inv. destruct (wait_inv _ _ _ _ Hw) as [[-> Hdone]|[[e ->] _]]; [|by specialize (Hp eq_refl)].
    cbn. by apply Hstop, Hs.
Qed.

Ltac wait_step Epc :=
  match goal with Hw : wait _ _ ?p = Some _ |- _ =>
    eapply waited_inv; [eassumption|exact Hw|rewrite ?Epc; cbn; lia..|];
    intros Hdone []; rewrite Epc in *
  end.

Lemma run_next_inv (orc : Oracle) f0 listen choice n p p' :
  process_inv f0 p → run_next listen choice n p = Some p' → process_inv f0 p'.
Proof.
  intros Hi E. pose proof Hi as [Hd Hf Hs]. unfold run_next in E.
  destruct (p_pc p) eqn:Epc; cbn in Hd, Hf; at_pc.
  - destruct listen; simplify_eq/=; split; cbn; try done; try lia.
    intros Hj. apply Hs in Hj. not_yet.
  - destruct listen; simplify_eq/=; split; cbn; try done; try lia.
    intros Hj. apply Hs in Hj. not_yet.
  - simplify_eq. split; cbn; try done. intros Hj. not_yet.
  - repeat case_match; simplify_eq; split; cbn; try done; try lia; intros Hj; not_yet.
  - simplify_eq. split; cbn; try done; try lia. intros Hj. not_yet. intros _.
    split; [done|]. by destruct (hs_state (p_http p)).
  - apply fmap_Some in E as (r & Hw & ->). wait_step Epc. apply Nat.eqb_eq in Hdone. stop_step.
  - simplify_eq. split; cbn; try done; try lia. intros Hj. destruct (Hs Hj). rewrite Epc in *. stop_step.
  - apply fmap_Some in E as (r & Hw & ->). wait_step Epc.
    apply andb_true_iff in Hdone as [Ho%negb_true_iff Ha%Nat.eqb_eq]. stop_step.
  - apply fmap_Some in E as (r & Hw & ->). wait_step Epc. apply bool_decide_eq_true in Hdone. stop_step.
  - simplify_eq. split; cbn; try done; try lia. intros Hj. destruct (Hs Hj). rewrite Epc in *. stop_step.
  - apply fmap_Some in E as (r & Hw & ->). destruct (wait_inv _ _ _ _ Hw) as [[-> Hdone]|[[e ->] _]].
    + apply andb_true_iff in Hdone as [Ho%negb_true_iff Ha%Nat.eqb_eq].
      split; cbn; try done; try lia. intros Hj. destruct (Hs Hj). rewrite Epc in *. stop_step.
    + split; cbn; try done; try lia. by intros []%app_eq_nil.
  - pose proof (wpe_take (p_runtime p) n) as [Er Ht].
    destruct (on_store (on_memory Memory_Snapshot) (p_runtime p, n)) as [[s|e|] [r' n']]; [..|done];
      cbn in Er, Ht; subst r'; simplify_eq; (split; cbn; [lia|done|]); [|by intros []%app_eq_nil].
    intros Hj. destruct (Hs Hj). rewrite Epc in *. stop_step. intros s' [= <-] _. exact Ht.
  - pose proof (wpe_write_close s (p_runtime p) n) as (Hp & Hb & Hsave).
    destruct ((on_store (write_snapshot s);; on_broker (log Log_Close)) (p_runtime p, n)) as [r [r' n']].
    cbn in Hp, Hb, Hsave. simplify_eq. destruct (join_same r (pset_runtime r' p)) as (E1 & E2 & E3 & E4 & E5 & E6 & E7).
    split; cbn; try lia. intros [Hj Hr]%join_inv. rewrite (Hr Hp) in *. destruct (Hs Hj). rewrite Epc in *.
    stop_step. intros _ Ho. destruct (Hsave eq_refl) as (d & Ed & Ef). exists s, d.
    split_and!; [|done|done]. destruct Hb as [-> _]. by auto.
  - done.
Qed.

(** A sweep reaches the broker only. *)
Lemma Sweep_runtime `{orc : Oracle, mtch : !Matcher} (r : Runtime D) :
  wpe Runtime_Sweep (λ _ r', r' = set_broker (rn_Delivery r') r) r.
Proof.
  unfold Runtime_Sweep, on_broker. wpe_step. wpe_step.
  apply (wpe_mono _ (λ _ _, True)); [done|]. intros [a|e|] b _; [|done..]. wpe_step. wpe_step.
  apply (wpe_mono _ (λ _ _, True)); [done|]. intros [t|e|] b' _; [by wpe_step|done..].
Qed.

(** What the goroutines do to the runtime, and only while some are left. *)
Lemma fire_runtime (orc : Oracle) (mtch : Matcher) a p p' :
  fire a p = Some p' →
  p_pc p' = p_pc p ∧ p_joined p' = p_joined p ∧
  rn_Snapshot (p_runtime p') = rn_Snapshot (p_runtime p) ∧
  (hs_orphaned (p_http p') = false → hs_orphaned (p_http p) = false) ∧
  (p_runtime p' = p_runtime p ∨ p_worker p = WorkerSweeping ∨ handling p = true).
Proof.
  intros E. destruct a; cbn in E; unfold accept, handler_end, ListenAndServe, worker_select in E;
    repeat case_match; simplify_eq; cbn; split_and!; auto; try done; try (case_bool_decide; [|done]).
  all: try match goal with H : Runtime_Sweep _ = (_, (?r, _)) |- _ =>
    rewrite (wpe_elim _ _ _ _ _ _ _ (Sweep_runtime (p_runtime p)) H) end; cbn; auto.
Qed.

Lemma fire_inv (orc : Oracle) (mtch : Matcher) f0 a p p' :
  process_inv f0 p → fire a p = Some p' → process_inv f0 p'.
Proof.
  intros [Hd Hf Hs] E. destruct (fire_runtime _ _ _ _ _ E) as (Epc & Ej & Ef & Ho & Hr). split.
  - rewrite Epc. intros H4. specialize (Hd H4). destruct a; cbn in E;
      unfold accept, handler_end, ListenAndServe, worker_select in E; repeat case_match; simplify_eq; try done.
    all: match goal with H : bool_decide _ = true |- _ => apply bool_decide_eq_true in H; congruence end.
  - by rewrite Epc, Ef.
  - rewrite Ej. intros Hj. specialize (Hs Hj).
    assert ((11 ≤ rank (p_pc p'))%nat → hs_orphaned (p_http p') = false →
      hs_orphaned (p_http p) = false ∧ p_runtime p' = p_runtime p) as Hquiet.
    { rewrite Epc. intros H11 Ho'. apply Ho in Ho'. split; [done|]. destruct Hs as [H1 H2 H3 H4 H5 H6 H7 _ _].
      destruct Hr as [?|[Hw|Hh]]; [done|..].
      - rewrite (H5 ltac:(lia)) in Hw. done.
      - unfold handling in Hh. destruct (H7 ltac:(lia)) as [_ E1].
        by rewrite E1, (H2 ltac:(lia)), (H4 ltac:(lia)), Ho' in Hh. }
    assert (∀ s, p_pc p' = WriteSnapshot s → hs_orphaned (p_http p') = false →
      snapshot_of (b_mem (rn_Delivery (p_runtime p'))) s) as Hsnap.
    { intros s E' Ho'. destruct Hquiet as [Ho1 ->]; [rewrite E'; cbn; lia|done|].
      apply (sp_snapshot _ Hs); [by rewrite <-Epc|done]. }
    assert ((13 ≤ rank (p_pc p'))%nat → hs_orphaned (p_http p') = false →
      saved (b_mem (rn_Delivery (p_runtime p'))) (rn_Snapshot (p_runtime p'))) as Hsave.
    { intros H13 Ho'. destruct Hquiet as [Ho1 ->]; [lia|done|]. apply (sp_saved _ Hs); [by rewrite <-Epc|done]. }
    destruct Hs as [H1 H2 H3 H4 H5 H6 H7 _ _].
    split; [..|exact Hsnap|exact Hsave]; rewrite Epc; intros Hk; at_rank; clear Hsnap Hquiet;
    clear Hsave Hr Hf Hd Ho; destruct a; cbn in E;
      unfold accept, handler_end, ListenAndServe, worker_select in E; repeat case_match; simplify_eq; cbn in *;
      destruct_and?; try done; try (split; congruence); try congruence.
    all: match goal with H : bool_decide _ = true |- _ => apply bool_decide_eq_true in H; congruence end.
Qed.

Lemma run_step_inv f0 p p' : process_inv f0 p → run_step p p' → process_inv f0 p'.
Proof. intros Hi [orc listen choice n _ E]. by eapply run_next_inv. Qed.

Lemma other_step_inv f0 p p' : process_inv f0 p → other_step p p' → process_inv f0 p'.
Proof. intros Hi [orc mtch a _ E]. by eapply fire_inv. Qed.

Lemma steps_inv f0 p p' : process_inv f0 p → rtc process_step p p' → process_inv f0 p'.
Proof.
  intros Hi Hs. induction Hs as [|p p1 p' [Hs|Hs] _ IH]; eauto using run_step_inv, other_step_inv.
Qed.

(** ** The deadline *)

Lemma rank_max pc : (rank pc ≤ 13)%nat.
Proof. destruct pc; cbn; lia. Qed.

(** Every action of [run] brings it further. *)
Lemma run_step_rank p p' : run_step p p' →
  (rank (p_pc p) < rank (p_pc p'))%nat ∧ ((4 ≤ rank (p_pc p))%nat → p_deadline p' = p_deadline p).
Proof.
  intros [orc listen choice n _ E]. unfold run_next, Server_Start, Grpc_Start in E.
  destruct (p_pc p) eqn:Epc; try (apply fmap_Some in E as (r & _ & ->); cbn; split; [lia|]; by destruct r).
  all: try (destruct listen, choice; cbn in E; simplify_eq; repeat case_match; simplify_eq; cbn;
    (split; [lia|]); intros; first [done|lia]).
  - apply fmap_Some in E as (r & _ & ->). destruct r; cbn; by split; [lia|].
  - destruct ((on_store (write_snapshot s);; on_broker (log Log_Close)) (p_runtime p, n)) as [r [r' n']].
    simplify_eq. cbn. split; [lia|]. by destruct r.
Qed.

Lemma other_step_keeps p p' : other_step p p' →
  p_pc p' = p_pc p ∧ p_joined p' = p_joined p ∧ rn_Snapshot (p_runtime p') = rn_Snapshot (p_runtime p) ∧
  (p_deadline p = Expired → p_deadline p' = Expired).
Proof.
  intros [orc mtch a _ E]. destruct (fire_runtime _ _ _ _ _ E) as (E1 & E2 & E3 & _). split_and!; try done.
  intros Hd. destruct a; cbn in E; unfold accept, handler_end, ListenAndServe, worker_select in E;
    repeat case_match; simplify_eq; cbn; done.
Qed.

(** After the deadline nothing holds [run] up. *)
Lemma run_enabled p : p_deadline p = Expired → (4 ≤ rank (p_pc p))%nat → p_pc p ≠ Returned → ∃ p', run_step p p'.
Proof.
  intros Hd H4 Hr.
  assert (∃ p', run_next (orc := late_oracle) None TakeContext O p = Some p') as [p' E].
  { unfold run_next, wait. rewrite Hd. destruct (p_pc p); cbn in H4; try lia; try done; try by eexists.
    match goal with |- context [let '(_, _) := ?x in _] => destruct x as [r [r' n']] end. by eexists. }
  exists p'. apply (run_step_next _ _ late_oracle None TakeContext O); [|done].
  intros _ n. by eexists.
Qed.

Lemma execution_rank k p p' : execution k p p' → (k + rank (p_pc p) ≤ rank (p_pc p'))%nat.
Proof.
  intros He. induction He as [p|k p p1 p2 Hs _ IH|k p p1 p2 Hs _ IH]; [lia|..].
  - destruct (run_step_rank _ _ Hs). lia.
  - destruct (other_step_keeps _ _ Hs) as [E _]. by rewrite E in IH.
Qed.

Lemma execution_steps k p p' : execution k p p' → rtc process_step p p'.
Proof. intros He. induction He; [done|..]; (eapply rtc_l; [|done]); unfold process_step; auto. Qed.

(** *** After a clean return nothing moves *)
Lemma returned_quiet f0 p p' :
  process_inv f0 p → p_pc p = Returned → p_joined p = [] → hs_orphaned (p_http p) = false →
  process_step p p' →
  p_runtime p' = p_runtime p ∧ p_pc p' = Returned ∧ p_joined p' = [] ∧ hs_orphaned (p_http p') = false.
Proof.
  intros Hi Hpc Hj Ho [Hs|[orc mtch a _ E]].
  { destruct (run_step_rank _ _ Hs) as [Hr _]. rewrite Hpc in Hr. pose proof (rank_max (p_pc p')). cbn in Hr. lia. }
  destruct (fire_runtime _ _ _ _ _ E) as (E1 & E2 & _ & _ & Hr). rewrite E1, E2.
  destruct (pi_stopped _ _ Hi Hj) as [H1 H2 H3 H4 H5 H6 H7 _ _]. rewrite Hpc in *. cbn in *. at_pc. destruct H7 as [H7 H8].
  assert (handling p = false) as Hh by (unfold handling; by rewrite H2, H4, H8, Ho).
  split_and!; try done.
  - destruct Hr as [?|[?|?]]; [done|congruence..].
  - destruct a; cbn in E; unfold accept, handler_end, ListenAndServe, worker_select in E;
      repeat case_match; simplify_eq; cbn in *; congruence.
Qed.

Lemma returned_stays f0 p p' :
  process_inv f0 p → p_pc p = Returned → p_joined p = [] → hs_orphaned (p_http p) = false →
  rtc process_step p p' → p_runtime p' = p_runtime p.
Proof.
  intros Hi Hpc Hj Ho Hs. revert Hi Hpc Hj Ho. induction Hs as [|p p1 p' Hs Hrest IH]; [done|]. intros Hi Hpc Hj Ho.
  destruct (returned_quiet f0 p p1 Hi Hpc Hj Ho Hs) as (E1 & E2 & E3 & E4). rewrite <-E1. apply IH; try done.
  eapply steps_inv; [exact Hi|]. by apply rtc_once.
Qed.

(** *** After the deadline nothing is saved *)
Record late (f0 : SnapshotFile D) p : Prop := {
  lt_deadline : p_deadline p = Expired;
  lt_rank : (4 ≤ rank (p_pc p))%nat;
  lt_file : sf_path (rn_Snapshot (p_runtime p)) = sf_path f0;
  lt_untaken : ∀ s, p_pc p ≠ WriteSnapshot s;
  lt_joined : p_pc p = Returned → p_joined p ≠ [] }.

Lemma late_step f0 p p' : late f0 p → process_step p p' → late f0 p'.
Proof.
  intros [Hd H4 Hf Hu Hj] [Hs|Hs].
  - destruct (run_step_rank _ _ Hs) as [Hr Hd']. destruct Hs as [orc listen choice n Hseen E].
    assert (sf_path (rn_Snapshot (p_runtime p')) = sf_path f0 ∧ (∀ s, p_pc p' ≠ WriteSnapshot s) ∧
      (p_pc p' = Returned → p_joined p' ≠ [])) as (?&?&?); [|split; [by rewrite Hd'|lia|done..]]. clear Hj Hr Hd'.
    unfold run_next in E. destruct (p_pc p) eqn:Epc; cbn in H4; try lia; simplify_eq; try done; try by destruct (Hu s).
    all: try (apply fmap_Some in E as (r & Hw & ->); destruct (join_same r p) as (_ & Er & _); cbn; by rewrite Er).
    + apply fmap_Some in E as (r & Hw & ->).
      destruct (wait_inv _ _ _ _ Hw) as [[-> _]|[[e ->] _]]; cbn; [done|]. split_and!; [done..|]. by intros _ []%app_eq_nil.
    + destruct (late_take (p_runtime p) n (Hseen Hd)) as (e & n' & E'). rewrite E' in E. simplify_eq. cbn.
      split_and!; [done..|]. by intros _ []%app_eq_nil.
  - destruct (other_step_keeps _ _ Hs) as (E1 & E2 & E3 & E4). split; rewrite ?E1, ?E2, ?E3; auto.
Qed.

Lemma late_steps f0 p p' : late f0 p → rtc process_step p p' → late f0 p'.
Proof. intros Hl Hs. induction Hs; eauto using late_step. Qed.

Lemma expired_late f0 p :
  process_inv f0 p → p_deadline p = Expired → (rank (p_pc p) ≤ rank SaveSnapshot)%nat → late f0 p.
Proof.
  intros [Hd Hf _] Hex Hr. cbn in Hr. assert (4 ≤ rank (p_pc p))%nat as H4.
  { destruct (Nat.lt_ge_cases (rank (p_pc p)) 4) as [H4|]; [|done]. apply Hd in H4. congruence. }
  split; try done; [apply Hf; lia|..]; destruct (p_pc p); cbn in Hr; try lia; done.
Qed.

(** *** The invariant of the broker *)
Lemma process_step_wf p p' :
  process_step p p' → wf_broker (rn_Delivery (p_runtime p)) → wf_broker (rn_Delivery (p_runtime p')).
Proof.
  intros [[orc listen choice n _ E]|[orc mtch a Ha E]] Hw.
  - unfold run_next, Server_Start, Grpc_Start in E. destruct (p_pc p).
    all: try (apply fmap_Some in E as ([[]|e|] & _ & ->); exact Hw).
    all: try (repeat case_match; simplify_eq; exact Hw).
    { pose proof (wpe_take (p_runtime p) n) as [Er _].
      destruct (on_store _ _) as [[s|e|] [r' n']]; cbn in Er; subst; simplify_eq; exact Hw. }
    pose proof (wpe_write_close s (p_runtime p) n) as (_ & Hb & _).
    destruct ((on_store (write_snapshot s);; on_broker (log Log_Close)) (p_runtime p, n)) as [r [r' n']]. cbn in Hb. simplify_eq.
    destruct (join_same r (pset_runtime r' p)) as (_ & Er & _). cbn. rewrite Er. by apply (same_broker_wf (p_runtime p)).
  - destruct a; cbn in E; unfold accept, handler_end, ListenAndServe, worker_select in E;
      repeat case_match; simplify_eq; cbn; try exact Hw.
    all: match goal with
    | H : Runtime_Sweep _ = _ |- _ => by destruct (Sweep_safe _ _ _ _ _ _ _ _ Hw H) as (_ & ? & _)
    | H : exec ?c _ = _ |- _ => by destruct (wpe_elim _ _ _ _ _ _ _ (exec_step c _ Ha Hw) H) as (_ & ? & _)
    end.
Qed.

Lemma steps_wf p p' :
  rtc process_step p p' → wf_broker (rn_Delivery (p_runtime p)) → wf_broker (rn_Delivery (p_runtime p')).
Proof. intros Hs. induction Hs; eauto using process_step_wf. Qed.

(** [run] on an empty directory. *)
Lemma run_begin_fresh `{orc : Oracle} ReadFile Unmarshal Getenv path f d' p n n' :
  sf_path f = None →
  run_begin ReadFile Unmarshal Getenv path ((f, mkFileLog (mkFile [] 0 false) ∅), n) = (Ok p, (d', n')) →
  ∃ r, p = initial r ∧ wf_broker (rn_Delivery r) ∧ good_log (b_log (rn_Delivery r)).
Proof.
  intros Hf. unfold run_begin, wrap, lift, mbind, go_bind. cbn.
  destruct (Load _ _ _ _) as [cfg|e|]; [|done..]. destruct (Build _ _) as [[r|e|] [d1 n1]] eqn:E; [|done..].
  intros [= <- <- <-]. exists r. split; [done|].
  destruct (Build_fresh (run_settings cfg) f (mkFileLog (mkFile [] 0 false) ∅) d1 r n n1 Hf eq_refl E) as [Hst Hg]. split; [by apply started_wf|done].
Qed.
End preservation.

(** ** Properties *)

(** C15. The process always stops: once the shutdown timeout has expired, in
    whatever state of the listeners, handlers and worker, and whatever they do
    from then on, [run] is never held up until it has returned, and it returns
    within nine more actions of its own. *)
Theorem shutdown_terminates (D : Type) (HJ : SnapshotJSON D) (r : Runtime D) (p p' : Process D) (k : nat) :
  rtc process_step (initial r) p → p_deadline p = Expired → execution k p p' →
  (k ≤ 9)%nat ∧ (p_pc p' = Returned ∨ ∃ p'', run_step p' p'').
Proof.
  intros Hs Hd He. pose proof (steps_inv _ _ _ (initial_inv r) Hs) as Hi.
  assert (4 ≤ rank (p_pc p))%nat as H4.
  { destruct (Nat.lt_ge_cases (rank (p_pc p)) 4) as [H4|]; [|done]. apply Hi in H4. congruence. }
  pose proof (execution_rank _ _ _ He). pose proof (rank_max (p_pc p')).
  split; [lia|]. assert (p_pc p' = Returned ∨ p_pc p' ≠ Returned) as [?|Hr] by (destruct (p_pc p'); by auto); [by left|].
  right. apply run_enabled; [|lia|done]. clear Hr.
  clear - He Hd H4. revert Hd H4. induction He as [p|k p p1 p2 Hs _ IH|k p p1 p2 Hs _ IH]; intros Hd H4; [done|..].
  - destruct (run_step_rank _ _ Hs) as [Hr Hd']. apply IH; [|lia]. rewrite Hd'; done.
  - destruct (other_step_keeps _ _ Hs) as (E & _ & _ & Hd'). apply IH; [auto|]. by rewrite E.
Qed.

(** C12. Exit status 0 means a complete shutdown: when [run] returns without an
    error, and no HTTP handler was left behind by its time limit, no AMQP
    handler, accept loop, HTTP request, gRPC call or sweep is left, the
    metadata file is a snapshot of the final store, and nothing that can still
    happen changes the runtime. *)
Theorem clean_exit_saves (D : Type) (HJ : SnapshotJSON D) (r : Runtime D) (p p' : Process D) :
  rtc process_step (initial r) p → exit_status p = Some 0 → hs_orphaned (p_http p) = false →
  rtc process_step p p' →
  p_runtime p' = p_runtime p ∧
  saved (b_mem (rn_Delivery (p_runtime p))) (rn_Snapshot (p_runtime p)) ∧
  p_amqp p = mkAmqpListener false false 0 ∧ hs_state (p_http p) ≠ HttpOpen ∧ hs_active (p_http p) = 0%nat ∧
  p_grpc p = mkGrpcListener false 0 ∧ p_worker p = WorkerDone.
Proof.
  intros Hs He Ho Hs'. pose proof (steps_inv _ _ _ (initial_inv r) Hs) as Hi. unfold exit_status in He.
  destruct (p_pc p) eqn:Epc; try done. destruct (p_joined p) eqn:Ej; [|done].
  split; [by eapply returned_stays|]. destruct (pi_stopped _ _ Hi Ej). rewrite Epc in *. cbn in *. at_pc.
  destruct (p_amqp p), (p_grpc p). cbn in *. destruct_and?. subst. split_and!; auto.
Qed.

(** A late shutdown loses the metadata: once the shutdown timeout has expired
    before [run] has taken the snapshot, whatever happens afterwards, the
    metadata file keeps the content it had when the process started, and the
    exit status is not 0.  (A snapshot already taken is still written.) *)
Theorem late_shutdown_saves_nothing (D : Type) (HJ : SnapshotJSON D) (r : Runtime D) (p p' : Process D) :
  rtc process_step (initial r) p → p_deadline p = Expired → (rank (p_pc p) ≤ rank SaveSnapshot)%nat →
  rtc process_step p p' →
  sf_path (rn_Snapshot (p_runtime p')) = sf_path (rn_Snapshot r) ∧ exit_status p' ≠ Some 0.
Proof.
  intros Hs Hd Hr Hs'. pose proof (steps_inv _ _ _ (initial_inv r) Hs) as Hi.
  destruct (late_steps _ _ _ (expired_late _ _ Hi Hd Hr) Hs') as [_ _ Hf _ Hj]. split; [done|].
  unfold exit_status. destruct (p_pc p'); try done. by destruct (p_joined p'); [destruct (Hj eq_refl)|].
Qed.

(** The invariant of the broker holds from the start of [run] on an empty
    data directory to its end, whatever the configuration: in every state that
    any interleaving of the calls of the handlers, the sweeps and the actions
    of [run] reaches, shutdown and failures included. *)
Theorem process_keeps_invariant (orc : Oracle) (D : Type) (HJ : SnapshotJSON D)
    (ReadFile : string → error + bytes) (Unmarshal : bytes → Config → error + Config)
    (Getenv : string → string) (path : string) (f : SnapshotFile D) (d' : SnapshotFile D * FileLog)
    (p0 p : Process D) (n n' : nat) :
  sf_path f = None →
  run_begin ReadFile Unmarshal Getenv path ((f, mkFileLog (mkFile [] 0 false) ∅), n) = (Ok p0, (d', n')) →
  rtc process_step p0 p → wf_broker (rn_Delivery (p_runtime p)).
Proof.
  intros Hf E Hs. destruct (run_begin_fresh _ _ _ _ _ _ _ _ _ Hf E) as (r & -> & Hw & _). by apply (steps_wf _ _ Hs).
Qed.

(** [run] performs [Runtime.Close] in three actions: the wait for the
    handlers, which is the first question [Runtime_Close] asks, the copy of the
    store, and the rest. *)
Theorem Close_in_three `{orc : Oracle} {D : Type} `{SnapshotJSON D} (r : Runtime D) (n : nat) :
  Runtime_Close (r, n) =
    match o_ctx n with
    | Some e => (Err e, (r, S n))
    | None =>
        (s ← on_store (on_memory Memory_Snapshot);
         on_store (write_snapshot s);; on_broker (log Log_Close)) (r, S n)
    end.
Proof.
  unfold Runtime_Close, Server_Close, ctx_Err, ask, raise, save_memory, SnapshotFile_Save, on_store, mbind, go_bind.
  cbn -[on_memory write_snapshot on_broker]. destruct (o_ctx n); [done|]. unfold on. cbn -[on_memory write_snapshot on_broker].
  destruct (on_memory _ _) as [[s|e|] [[m f] k]]; [|done..]. cbn.
  by destruct (write_snapshot s _) as [[[]|e|] [[m' f'] k']].
Qed.

(** The accept loop ends for good at the first error of [Accept], also one
    that leaves the listener open: no connection is accepted any more, while
    the process goes on. *)
Theorem accept_never_resumes {D : Type} `{SnapshotJSON D} (p p' : Process D) :
  p_pc p ≠ StartRuntime → al_accepting (p_amqp p) = false → rtc process_step p p' →
  al_accepting (p_amqp p') = false ∧ (al_handlers (p_amqp p') ≤ al_handlers (p_amqp p))%nat.
Proof.
  intros Hpc Ha Hs. revert Hpc Ha. induction Hs as [|p p1 p' Hs _ IH]; [done|]. intros Hpc Ha.
  assert (p_pc p1 ≠ StartRuntime ∧ al_accepting (p_amqp p1) = false ∧
    (al_handlers (p_amqp p1) ≤ al_handlers (p_amqp p))%nat) as (H1 & H2 & H3).
  { destruct Hs as [Hs|[orc mtch a _ E]].
    - destruct (run_step_rank _ _ Hs) as [Hr _]. split; [by intros E; rewrite E in Hr; cbn in Hr; lia|].
      destruct Hs as [orc listen choice n _ E]. unfold run_next, Grpc_Start in E. destruct (p_pc p); try done.
      all: try (apply fmap_Some in E as ([[]|e|] & _ & ->); by cbn).
      all: repeat case_match; simplify_eq; cbn; try done.
      all: match goal with |- context [join ?r ?q] => by destruct (join_same r q) as (_ & _ & _ & -> & _) end.
    - destruct (fire_runtime _ _ _ _ _ E) as (E1 & _). rewrite E1. split; [done|].
      destruct a; cbn in E; unfold accept, handler_end, ListenAndServe, worker_select in E;
        repeat case_match; simplify_eq; cbn in *; try done; split; (done || lia). }
  destruct (IH H1 H2) as [H4 H5]. split; [done|lia].
Qed.

(** ** Concrete executions *)
Inductive move :=
  | Run (listen : option error) (choice : select)
  | Other (a : action).

(** One move, in an environment that agrees with the deadline; a move that is
    not possible changes nothing. *)
Definition make (m : move) (p : Process Snapshot) : Process Snapshot :=
  default p match m with
  | Run listen choice =>
      if bool_decide (p_deadline p = Expired)
      then run_next (orc := late_oracle) (H := identity_json) listen choice O p
      else run_next (orc := test_oracle) (H := identity_json) listen choice O p
  | Other a => fire (orc := test_oracle) (mtch := StandardMatcher) a p
  end.

Abbreviation play ms p := (foldl (λ q m, make m q) p ms).

Definition move_ok (m : move) : Prop := match m with Other a => action_ok a | _ => True end.

Lemma play_steps ms (p : Process Snapshot) : Forall move_ok ms → rtc (process_step (H := identity_json)) p (play ms p).
Proof.
  revert p. induction ms as [|m ms IH]; intros p Hok; [done|]. apply Forall_cons in Hok as [Hm Hok].
  cbn [foldl]. etrans; [|by apply IH]. unfold make. destruct m as [listen choice|a].
  - case_bool_decide as Hd.
    + destruct (run_next _ _ _ _) as [p'|] eqn:E; [|done]. apply rtc_once. left.
      eapply (run_step_next _ _ late_oracle); [|exact E]. intros _ n. by eexists.
    + destruct (run_next _ _ _ _) as [p'|] eqn:E; [|done]. apply rtc_once. left.
      by eapply (run_step_next _ _ test_oracle); [intros ?|exact E].
  - destruct (fire _ _) as [p'|] eqn:E; [|done]. apply rtc_once. right.
    by eapply (other_step_fire _ _ test_oracle StandardMatcher).
Qed.

(** The listeners start, and a client publishes a message. *)
Definition starts : list move :=
  [Run None TakeDone; Run None TakeDone; Run None TakeDone; Other (HttpListens None); Other (Accepts true);
   Other (HandlerCalls (CallPublish (mkPublish "jobs" "" None (string_bytes "late") 1 (1000 * Hour) false "")) 50)].

(** The shutdown up to the wait for the AMQP handlers. *)
Definition stops : list move :=
  [Run None TakeContext; Run None TakeDone; Run None TakeDone; Run None TakeDone; Run None TakeDone;
   Other (WorkerSelects TakeContext); Run None TakeDone; Run None TakeDone; Other (Accepts false)].

(** The snapshot is taken and written. *)
Definition closes : list move := [Run None TakeDone; Run None TakeDone; Run None TakeDone].

(** The client leaves; a sweep runs; the broker is told to stop. *)
Definition clean_run : list move :=
  starts ++ [Other HandlerEnds; Other (WorkerSelects TakeDone); Other (WorkerSweeps 100); Other Signal] ++ stops ++
  closes.

(** The client stays connected until the deadline. *)
Definition connected_run : list move := starts ++ [Other Signal] ++ stops ++ [Other Timeout].

(** The HTTP listener fails to start. *)
Definition failing_run : list move :=
  [Run None TakeDone; Run None TakeDone; Run None TakeDone; Other (HttpListens (Some (ErrIO "address already in use")));
   Run None TakeDone; Run None TakeDone; Run None TakeDone; Run None TakeDone; Run None TakeDone;
   Other (WorkerSelects TakeContext); Run None TakeDone; Run None TakeDone; Other (Accepts false)] ++ closes.

Definition stored (p : Process Snapshot) : nat := length (map_values (mm_messages (b_mem (rn_Delivery (p_runtime p))))).
Definition in_file (p : Process Snapshot) : option nat := (λ d, length (sn_Messages d)) <$> sf_path (rn_Snapshot (p_runtime p)).

(** The error of [ListenAndServe] is received into [err], which nothing reads:
    a broker whose HTTP port is taken shuts down and exits with status 0. *)
Theorem listen_failure_exits_0 :
  let p := play failing_run (initial (fst running)) in
  exit_status p = Some 0 ∧ p_err p = Some (ErrIO "address already in use").
Proof. vm_compute. split; reflexivity. Qed.

(** With the default timeouts an idle AMQP client outlasts the shutdown (30
    and 10 seconds): nothing closes its connection, the wait for its handler
    ends with the deadline, and [Close] returns before the snapshot is
    written; all three messages are missing from the metadata file. *)
Theorem connected_client_loses_metadata :
  let p := play (connected_run ++ [Run None TakeContext]) (initial (fst running)) in
  cf_Shutdown Default < ca_IdleTimeout (cf_AMQP Default) ∧
  exit_status p = Some 1 ∧ stored p = 3%nat ∧ in_file p = None.
Proof. vm_compute. repeat split; reflexivity. Qed.

Ltac moves_ok := repeat constructor.

Lemma shutdown_terminates_witness :
  p_deadline (play connected_run (initial (fst running))) = Expired ∧
  (p_pc (play connected_run (initial (fst running))) = Returned ∨
   ∃ p'', run_step (H := identity_json) (play connected_run (initial (fst running))) p'').
Proof.
  split; [vm_compute; reflexivity|].
  refine (proj2 (shutdown_terminates Snapshot identity_json (fst running) (play connected_run (initial (fst running)))
    (play connected_run (initial (fst running))) O _ _ _)).
  - apply play_steps. moves_ok.
  - vm_compute. reflexivity.
  - apply execution_here.
Defined.

Lemma clean_exit_saves_witness :
  saved (H := identity_json) (b_mem (rn_Delivery (p_runtime (play clean_run (initial (fst running))))))
    (rn_Snapshot (p_runtime (play clean_run (initial (fst running))))) ∧
  stored (play clean_run (initial (fst running))) = 3%nat ∧ in_file (play clean_run (initial (fst running))) = Some 3%nat.
Proof.
  split; [|vm_compute; split; reflexivity].
  refine (proj1 (proj2 (clean_exit_saves Snapshot identity_json (fst running) (play clean_run (initial (fst running)))
    (play clean_run (initial (fst running))) _ _ _ _))).
  - apply play_steps. moves_ok.
  - vm_compute. reflexivity.
  - vm_compute. reflexivity.
  - constructor.
Defined.

Lemma late_shutdown_saves_nothing_witness :
  sf_path (rn_Snapshot (p_runtime (play [Run None TakeContext] (play connected_run (initial (fst running)))))) =
    sf_path (rn_Snapshot (fst running)) ∧
  exit_status (play [Run None TakeContext] (play connected_run (initial (fst running)))) = Some 1.
Proof.
  split; [|vm_compute; reflexivity].
  refine (proj1 (late_shutdown_saves_nothing Snapshot identity_json (fst running) (play connected_run (initial (fst running)))
    (play [Run None TakeContext] (play connected_run (initial (fst running)))) _ _ _ _)).
  - apply play_steps. moves_ok.
  - vm_compute. reflexivity.
  - vm_compute. lia.
  - apply play_steps. moves_ok.
Defined.

(** [run] on an empty directory with the defaults; it serves a client that
    creates a queue and publishes, and stops. *)
Abbreviation fresh := (run_begin (orc := test_oracle) (H := identity_json) (λ _, inr []) (λ _ c, inr c) (λ _, "")
  "broker.yaml" (empty_directory, O)).

Definition fresh_process : Process Snapshot :=
  match fst fresh with Ok p => p | _ => initial (fst built) end.

Definition fresh_run : list move :=
  [Run None TakeDone; Run None TakeDone; Run None TakeDone; Other (Accepts true);
   Other (HandlerCalls (CallCreate (mkCreate "jobs" KindQueue true 3 "" "")) 50);
   Other (HandlerCalls (CallPublish (mkPublish "jobs" "" None (string_bytes "x") 1 Hour false "")) 60);
   Other HandlerEnds; Other Signal] ++ stops ++ closes.

Lemma process_keeps_invariant_witness :
  wf_broker (rn_Delivery (p_runtime (play fresh_run fresh_process))) ∧
  exit_status (play fresh_run fresh_process) = Some 0 ∧ stored (play fresh_run fresh_process) = 1%nat.
Proof.
  split; [|vm_compute; split; reflexivity].
  destruct fresh as [x [d' n']] eqn:E.
  assert (x = Ok fresh_process) as -> by (change x with (fst (x, (d', n'))); rewrite <-E; vm_compute; reflexivity).
  refine (process_keeps_invariant test_oracle Snapshot identity_json (λ _, inr []) (λ _ c, inr c) (λ _, "")
    "broker.yaml" (mkSnapshotFile None None) d' fresh_process (play fresh_run fresh_process) O n' _ E _).
  - reflexivity.
  - apply play_steps. moves_ok.
Defined.
