(* ===== verification/Recovery.v ===== *)
(** * From publishing to the next start

    What the parts give together: while files work, the log file stays a
    sequence of whole records through every broker call ([logs]), so that the
    directory a clean exit leaves is one the next process can start from.
    [reliable_step] is a step of the process in such an environment, with
    bodies that fit into a record beside the message's identifier.  A body
    just below the limit of [Append] does not: the last theorem shows that it
    is accepted, and that the next start refuses the file. *)

From Stdlib Require Import Ascii String.
From S2P Require Import Prelude Bytes Text Duration Matcher Address Message Transaction Env.
From S2P Require Import Memory BodyLog FileLog FileLogFacts Router Delivery DeliveryInv DeliveryFacts.
From S2P Require Import TxService TxFacts Broker Cluster Connection Registry Session Link Peer.
From S2P Require Import Snapshot Runtime Config Lifecycle.

Create HintDb logs.

(** ** Calls keep the log clean *)
Section logs.
Context `{orc : Oracle, !FilesWork orc, mtch : !Matcher}.

(** [m] keeps the log clean, however it ends. *)
Definition logs {A} (m : env (broker FileLog) A) : Prop :=
  ∀ s, good_log (b_log s.1) → good_log (b_log (m s).2.1).

(** *** Control structures *)
Lemma logs_bind {A B} (m : env (broker FileLog) A) (f : A → env (broker FileLog) B) :
  logs m → (∀ a, logs (f a)) → logs (m ≫= f).
Proof.
  intros Hm Hf s Hs. specialize (Hm s Hs). unfold mbind, go_bind.
  destruct (m s) as [[a|e|] s']; [by apply Hf|done..].
Qed.

Lemma logs_ret {A} (a : A) : logs (mret a).
Proof. by intros s. Qed.

Lemma logs_raise {A} e : logs (raise (A := A) e).
Proof. by intros s. Qed.

Lemma logs_panic {A} : logs (panic (A := A)).
Proof. by intros s. Qed.

Lemma logs_lift {A} (r : res A) : logs (lift r).
Proof. by intros s. Qed.

Lemma logs_guard b e : logs (guard_err b e).
Proof. intros s. by destruct b. Qed.

Lemma logs_get : logs get_.
Proof. by intros s. Qed.

Lemma logs_ask {A} (f : nat → A) : logs (ask f).
Proof. by intros s. Qed.

Lemma logs_try {A} (m : env (broker FileLog) A) : logs m → logs (try m).
Proof. intros Hm s Hs. specialize (Hm s Hs). unfold try. by destruct (m s) as [[a|e|] s']. Qed.

Lemma logs_wrap {A} text (m : env (broker FileLog) A) : logs m → logs (wrap text m).
Proof. intros Hm s Hs. specialize (Hm s Hs). unfold wrap. by destruct (m s) as [[a|e|] s']. Qed.

Lemma logs_mem {A} (m : env Memory A) : logs (mem m).
Proof. intros s Hs. unfold mem, on. by destruct (m _) as [r [t n]]. Qed.

Lemma logs_for_each {X} (l : list X) body : (∀ x, logs (body x)) → logs (for_each l body).
Proof. intros Hb. induction l as [|x l IH]; cbn; [apply logs_ret|]. by apply logs_bind. Qed.

Lemma logs_fold_each {X B} (l : list X) (acc : B) body :
  (∀ b x, logs (body b x)) → logs (fold_each l acc body).
Proof. intros Hb. revert acc. induction l as [|x l IH]; intros acc; cbn; [apply logs_ret|]. by apply logs_bind. Qed.

(** *** The log itself *)
Lemma logs_wpe {A} (m : env FileLog A) : (∀ l, good_log l → wpe m (λ _ l', good_log l') l) → logs (log m).
Proof.
  intros Hm [b n] Hs. specialize (Hm _ Hs n). unfold log, on. cbn [fst snd] in *. by destruct (m _) as [r [l n']].
Qed.

Lemma logs_read off : logs (log (Log_Read off)).
Proof. apply logs_wpe. intros l Hl. by apply Read_good. Qed.

Lemma logs_append id body : loggable (id, body) → logs (log (Log_Append id body)).
Proof. intros Hid. apply logs_wpe. intros l Hl. by apply Append_good. Qed.
End logs.

#[local] Hint Resolve logs_ret logs_raise logs_panic logs_lift logs_guard logs_get logs_ask logs_mem logs_read : logs.

Ltac logs_step :=
  lazymatch goal with
  | |- logs (mbind _ _) => apply logs_bind; [|intros ?]
  | |- logs (try _) => apply logs_try
  | |- logs (wrap _ _) => apply logs_wrap
  | |- logs (for_each _ _) => apply logs_for_each; intros ?
  | |- logs (fold_each _ _ _) => apply logs_fold_each; intros ??
  | |- logs (let '(_, _) := ?x in _) => destruct x as [??] eqn:?
  | |- logs (match ?x with _ => _ end) => destruct x eqn:?
  | |- logs (if ?b then _ else _) => destruct b eqn:?
  | |- _ => by eauto with logs
  end.
Ltac logs_auto := repeat logs_step.

(** A body that fits into a record with the identifier of a message
    (["msg_"], 24 digits, a line break). *)
Definition small_body (b : bytes) : Prop := Z.of_nat (length b) + 29 ≤ record_limit.

Lemma small_loggable b body : length b = 12%nat → small_body body → loggable (id_of "msg" b, body).
Proof.
  intros Hb Hs. split; [by apply log_id_msg|]. unfold small_record, small_body in *. cbn [fst snd].
  destruct (hex_encode_line b) as [_ Hl]. unfold record_of, id_of.
  rewrite !string_bytes_app, !length_app, Hl, Hb. cbn. lia.
Qed.

Section calls.
Context `{orc : Oracle, !FilesWork orc, mtch : !Matcher}.

Lemma logs_clock : logs clock_Now.
Proof. apply logs_ask. Qed.
Lemma logs_rand n : logs (rand_Read n).
Proof. unfold rand_Read. apply logs_bind; [apply logs_ask|]. intros [e|b]; auto with logs. Qed.
Lemma logs_range {A} (l : list A) : logs (map_range l).
Proof. apply logs_ask. Qed.
#[local] Hint Resolve logs_clock logs_rand logs_range : logs.

Lemma logs_deadLetter msg reason : logs (deadLetter msg reason).
Proof. unfold deadLetter. logs_auto. Qed.
#[local] Hint Resolve logs_deadLetter : logs.

Lemma logs_enforce name : logs (enforceMaxLength name).
Proof.
  unfold enforceMaxLength. logs_auto. generalize (a_MaxLength a). generalize (length a0) as fuel. intros fuel k.
  revert a0. induction fuel as [|fuel IH]; intros ready; cbn; logs_auto.
Qed.
#[local] Hint Resolve logs_enforce : logs.

(** A new message: its identifier is one the log can store. *)
Lemma logs_message {B} p (f : Message → env (broker FileLog) B) :
  (∀ msg, loggable (m_ID msg, m_Body msg) → logs (f msg)) → small_body (p_Body p) →
  logs (id ← randomID "msg"; now ← clock_Now; msg ← lift (NewMessage id p now); f msg).
Proof.
  intros Hf Hp s Hs. unfold randomID, rand_Read, clock_Now, ask, lift, mret, go_ret, mbind, go_bind. cbn.
  destruct (o_rand s.2 12) as [e|b] eqn:Eb; cbn; [done|].
  destruct (NewMessage _ _ _) as [msg|e|] eqn:Em; [|done..]. apply Hf; [|done].
  destruct (NewMessage_Ok _ _ _ _ Em) as (-> & _ & -> & _).
  apply small_loggable; [by eapply o_rand_length|done].
Qed.

Lemma logs_publish_route p created route : small_body (p_Body p) → logs (publish_route p created route).
Proof.
  intros Hp. unfold publish_route. apply logs_message; [|done]. intros msg Hm.
  apply logs_bind; [by apply logs_wrap, logs_append|intros ?]. logs_auto.
Qed.

Lemma logs_Publish p : small_body (p_Body p) → logs (Service_Publish p).
Proof.
  intros Hp. unfold Service_Publish. logs_auto. apply logs_publish_route. by destruct (_ =? _).
Qed.

Lemma logs_stage_route p out route : small_body (p_Body p) → logs (stage_route p out route).
Proof.
  intros Hp. unfold stage_route. apply logs_message; [|done]. intros msg Hm.
  apply logs_bind; [by apply logs_append|intros ?]. logs_auto.
Qed.

Lemma logs_Stage p : small_body (p_Body p) → logs (Stage p).
Proof. intros Hp. unfold Stage. logs_auto. apply logs_stage_route. by destruct (_ =? _). Qed.

Lemma logs_next : logs next_delivery.
Proof. by intros s. Qed.

Lemma logs_CommitStaged id : logs (CommitStaged id).
Proof. unfold CommitStaged. logs_auto. Qed.
Lemma logs_RollbackStaged id : logs (RollbackStaged id).
Proof. unfold RollbackStaged. logs_auto. Qed.
#[local] Hint Resolve logs_next logs_CommitStaged logs_RollbackStaged : logs.

Lemma logs_complete tx state : logs (complete_tx tx state).
Proof. unfold complete_tx. logs_auto. Qed.
#[local] Hint Resolve logs_complete : logs.

Lemma logs_rollback tx state : logs (tx_rollback tx state).
Proof. unfold tx_rollback, rollback_op. logs_auto. Qed.
#[local] Hint Resolve logs_rollback : logs.

(** The body that a call publishes fits. *)
Definition call_fits (c : call) : Prop :=
  match c with CallPublish p | CallStagePublish _ p => small_body (p_Body p) | _ => True end.

Lemma logs_exec c : call_fits c → logs (exec c).
Proof.
  intros Hc. destruct c; cbn [exec call_fits] in *; unfold ignore.
  - logs_auto.
  - logs_auto.
  - logs_auto.
  - apply logs_bind; [by apply logs_Publish|intros ?; apply logs_ret].
  - unfold Service_Register. logs_auto.
  - unfold Service_Acquire. logs_auto.
  - unfold Service_Settle. logs_auto.
  - unfold Service_Disconnect, disconnect_one. logs_auto.
  - unfold SweepExpired, sweep_one. logs_auto.
  - unfold ReplayDead, replay_one. logs_auto.
  - unfold Declare_tx, txID. logs_auto.
  - apply logs_bind; [|intros ?; apply logs_ret]. unfold StagePublish. logs_auto. by apply logs_Stage.
  - unfold Tx_Commit, commit_op. logs_auto.
  - unfold Tx_Rollback. logs_auto.
  - unfold Tx_Sweep, sweep_tx. logs_auto.
Qed.

Lemma logs_Sweep {D} (r : Runtime D) n :
  good_log (b_log (rn_Delivery r)) → good_log (b_log (rn_Delivery (Runtime_Sweep (r, n)).2.1)).
Proof.
  intros Hr. pose proof (logs_exec CallSweepExpired I) as H1. pose proof (logs_exec CallSweepTx I) as H2.
  cbn [exec] in H1, H2. unfold Runtime_Sweep, on_broker, on, mbind, go_bind. cbn [fst snd].
  specialize (H1 (rn_Delivery r, n) Hr). rewrite (proj1 (ignore_performs _ _)) in H1.
  destruct (SweepExpired (rn_Delivery r, n)) as [[a|e|] [b n1]]; [|exact H1..]. cbn in H1 |- *.
  specialize (H2 (b, n1) H1). rewrite (proj1 (ignore_performs _ _)) in H2.
  by destruct (Tx_Sweep (b, n1)) as [[t|e|] [b' n2]].
Qed.
End calls.

(** ** A process on a reliable disk *)
Definition action_fits (a : action) : Prop :=
  match a with HandlerCalls c _ => call_fits c | _ => True end.

Section process.
Context {D : Type} `{SnapshotJSON D}.
Implicit Types p : Process D.

Inductive reliable_step p p' : Prop :=
  | reliable_run (orc : Oracle) listen choice n :
      FilesWork orc → deadline_seen orc p → run_next listen choice n p = Some p' → reliable_step p p'
  | reliable_other (orc : Oracle) (mtch : Matcher) a :
      FilesWork orc → action_ok a → action_fits a → fire a p = Some p' → reliable_step p p'.

Lemma reliable_process p p' : reliable_step p p' → process_step p p'.
Proof. intros [orc listen choice n _ Hd E|orc mtch a _ Ha _ E]; [left|right]; by econstructor. Qed.

Lemma reliable_steps p p' : rtc reliable_step p p' → rtc process_step p p'.
Proof. intros Hs. induction Hs; [done|]. eapply rtc_l; [by apply reliable_process|done]. Qed.

(** The log while the process runs, and after a clean return. *)
Record disk_ok p : Prop := {
  dk_running : (rank (p_pc p) < 13)%nat → good_log (b_log (rn_Delivery (p_runtime p)));
  dk_returned : p_pc p = Returned → p_joined p = [] → hs_orphaned (p_http p) = false →
    ∃ ms, clean_log ms (b_log (rn_Delivery (p_runtime p))) }.

Lemma same_clean (r r' : Runtime D) ms :
  same_broker r r' → clean_log ms (b_log (rn_Delivery r)) → clean_log ms (b_log (rn_Delivery r')).
Proof. intros (_ & Eo & Ed) (H1 & H2 & H3). split_and!; [done|by rewrite Ed|by rewrite Eo]. Qed.

Lemma run_disk_ok (orc : Oracle) f0 listen choice n p p' :
  process_inv f0 p → disk_ok p → run_next listen choice n p = Some p' → disk_ok p'.
Proof.
  intros Hi [Hg _] E. unfold run_next, Server_Start, Grpc_Start in E. destruct (p_pc p) eqn:Epc; cbn in Hg; at_pc.
  all: try (apply fmap_Some in E as (r & _ & ->); destruct (join_same r p) as (_ & Er & _); split; cbn; by rewrite ?Er).
  all: try (destruct listen, choice; cbn in E; simplify_eq; repeat case_match; simplify_eq; split; by cbn).
  - apply fmap_Some in E as (r & Hw & ->). destruct (wait_inv _ _ _ _ Hw) as [[-> _]|[[e ->] _]]; split; cbn; try done.
    by intros _ []%app_eq_nil.
  - pose proof (wpe_take (p_runtime p) n) as [Er _].
    destruct (on_store _ _) as [[s|e|] [r' n']]; [..|done]; cbn in Er; subst; simplify_eq; (split; cbn; try done; try lia).
    by intros _ []%app_eq_nil.
  - pose proof (wpe_write_close s (p_runtime p) n) as (_ & Hb & _).
    destruct ((on_store (write_snapshot s);; on_broker (log Log_Close)) (p_runtime p, n)) as [r [r' n']]. cbn in Hb. simplify_eq.
    destruct (join_same r (pset_runtime r' p)) as (_ & Er & _). split; cbn; [lia|]. intros _ _ _. rewrite Er.
    destruct Hg as (ms & Hc & _). exists ms. by apply (same_clean (p_runtime p)).
Qed.

Lemma fire_disk_ok (orc : Oracle) (mtch : Matcher) f0 a p p' :
  FilesWork orc → action_ok a → action_fits a → process_inv f0 p → disk_ok p → fire a p = Some p' → disk_ok p'.
Proof.
  intros HF Ha Hfits Hi [Hg Hr] E. destruct (fire_runtime _ _ _ _ _ E) as (Epc & Ej & _ & Ho & _). split.
  - rewrite Epc. intros Hk. specialize (Hg Hk). clear Hr Ho.
    destruct a; cbn in E; unfold accept, handler_end, ListenAndServe, worker_select in E;
      repeat case_match; simplify_eq; cbn; try exact Hg.
    all: match goal with
    | H : Runtime_Sweep (_, ?n) = _ |- _ => pose proof (logs_Sweep (p_runtime p) n Hg) as HS; by rewrite H in HS
    | H : exec ?c ?s = _ |- _ => pose proof (logs_exec c Hfits s Hg) as HS; by rewrite H in HS
    end.
  - rewrite Epc, Ej. intros H1 H2 H3%Ho. destruct (returned_quiet f0 p p' Hi H1 H2 H3) as [-> _]; [|by apply Hr].
    right. by econstructor.
Qed.

Lemma reliable_disk_ok f0 p p' :
  rtc reliable_step p p' → process_inv f0 p → disk_ok p → disk_ok p' ∧ process_inv f0 p'.
Proof.
  intros Hs. induction Hs as [|p p1 p' Hs _ IH]; [done|]. intros Hi Hd. apply IH.
  - eapply steps_inv; [exact Hi|]. by apply rtc_once, reliable_process.
  - destruct Hs as [orc listen choice n _ _ E|orc mtch a HF Ha Hf E]; [by eapply run_disk_ok|by eapply fire_disk_ok].
Qed.

(** [run] on the directory that a clean exit left. *)
Lemma run_begin_again `{orc : Oracle, !Quiet orc, mtch : !Matcher} ReadFile Unmarshal Getenv path cfg (r : Runtime D) ms n :
  Load ReadFile Unmarshal Getenv path = Ok cfg →
  wf_broker (rn_Delivery r) → clean_log ms (b_log (rn_Delivery r)) →
  saved (b_mem (rn_Delivery r)) (rn_Snapshot r) →
  (∀ s, snapshot_of (b_mem (rn_Delivery r)) s → encodable s) →
  ∃ r' n', run_begin ReadFile Unmarshal Getenv path (directory r, n) = (Ok (initial r'), (directory r', n')) ∧
    b_mem (rn_Delivery r') = recovered (b_mem (rn_Delivery r)) ∧
    fl_view (b_log (rn_Delivery r')) = fl_view (b_log (rn_Delivery r)) ∧
    wf_broker (rn_Delivery r') ∧ good_log (b_log (rn_Delivery r')).
Proof.
  intros Hl Hw Hc Hs Hj. destruct (Hc) as (Hms & Hd & _).
  assert (wpe (Build (run_settings cfg)) (λ x d, ∃ r', x = Ok r' ∧ d = directory r' ∧
    b_mem (rn_Delivery r') = recovered (b_mem (rn_Delivery r)) ∧
    fl_view (b_log (rn_Delivery r')) = fl_view (b_log (rn_Delivery r)) ∧
    wf_broker (rn_Delivery r') ∧ good_log (b_log (rn_Delivery r'))) (directory r)) as Hb.
  { apply (quiet_Build _ (b_mem (rn_Delivery r)) ms); [by apply wf_keyed|done|done|done|done|].
    intros r' Eb Hc' Ho' _ _ _ _ _. exists r'. pose proof (clean_view_eq _ _ _ Hc Hc') as Hv.
    split_and!; try done; [by rewrite Eb| |by exists ms].
    rewrite Eb. apply recovered_wf; [done|by apply (clean_log_view ms)|done]. }
  specialize (Hb n). unfold run_begin, wrap, lift, mbind, go_bind. cbn. rewrite Hl.
  destruct (Build (run_settings cfg) (directory r, n)) as [x [d n']]. cbn in Hb.
  destruct Hb as (r' & -> & -> & Hb). by exists r', n'.
Qed.
End process.

(** ** Properties *)

(** C2. Nothing is lost between two runs: the program starts on an empty
    directory, serves any clients in any interleaving, and exits with status 0,
    leaving no HTTP handler behind; files work all the while, and bodies fit
    the log.  Then the next run starts, on that directory and with any
    configuration, and its store is the recovered one (every address,
    binding, transaction, consumer and message of the final store), its log
    serves every body at the offset the messages hold, and the invariant of
    the broker is satisfied. *)
Theorem clean_exit_restarts (orc : Oracle) (D : Type) (HJ : SnapshotJSON D)
    (ReadFile : string → error + bytes) (Unmarshal : bytes → Config → error + Config)
    (Getenv : string → string) (path : string) (f : SnapshotFile D) (d' : SnapshotFile D * FileLog)
    (p0 p : Process D) (n n' : nat) (orc2 : Oracle) (HO : Quiet orc2) (path2 : string) (cfg2 : Config) (n2 : nat) :
  sf_path f = None →
  run_begin ReadFile Unmarshal Getenv path ((f, mkFileLog (mkFile [] 0 false) ∅), n) = (Ok p0, (d', n')) →
  rtc reliable_step p0 p → exit_status p = Some 0 → hs_orphaned (p_http p) = false →
  (∀ s, snapshot_of (b_mem (rn_Delivery (p_runtime p))) s → encodable s) →
  Load ReadFile Unmarshal Getenv path2 = Ok cfg2 →
  ∃ r2 n3, run_begin ReadFile Unmarshal Getenv path2 (directory (p_runtime p), n2) =
      (Ok (initial r2), (directory r2, n3)) ∧
    b_mem (rn_Delivery r2) = recovered (b_mem (rn_Delivery (p_runtime p))) ∧
    fl_view (b_log (rn_Delivery r2)) = fl_view (b_log (rn_Delivery (p_runtime p))) ∧
    wf_broker (rn_Delivery r2).
Proof.
  intros Hf E Hs He Ho Hj Hl. destruct (run_begin_fresh _ _ _ _ _ _ _ _ _ Hf E) as (r & -> & Hw & Hg).
  destruct (reliable_disk_ok _ _ _ Hs (initial_inv r)) as [Hd Hi]; [by split|].
  pose proof (steps_wf _ _ (reliable_steps _ _ Hs) Hw) as Hw'. unfold exit_status in He.
  destruct (p_pc p) eqn:Epc; try done. destruct (p_joined p) eqn:Ej; [|done].
  destruct (dk_returned _ Hd Epc Ej Ho) as [ms Hc]. pose proof (sp_saved _ (pi_stopped _ _ Hi Ej)) as Hsave.
  rewrite Epc in Hsave. specialize (Hsave ltac:(cbn; lia) Ho).
  destruct (run_begin_again (mtch := StandardMatcher) _ _ _ _ _ _ _ n2 Hl Hw' Hc Hsave Hj)
    as (r2 & n3 & H1 & H2 & H3 & H4 & _). by exists r2, n3.
Qed.

(** A body that [Append] accepts may leave no room for the identifier: the
    record is longer than the limit of [reindex], and the next start refuses
    the log as corrupt. *)
Theorem oversized_record_refused (orc : Oracle) (HO : Quiet orc) (id : string) (body : bytes) (l : FileLog) (n : nat) :
  fd_data (fl_file l) = [] → fl_offsets l = ∅ → fd_open (fl_file l) = true →
  Z.of_nat (length body) ≤ record_limit < Z.of_nat (length (record_of id body)) →
  Z.of_nat (length (record_of id body)) < 2 ^ 32 →
  ∃ l1 n1 l2 n2, FileLog_Append id body (l, n) = (Ok 0, (l1, n1)) ∧
    OpenFileLog (l1, n1) = (Err (ErrNew "corrupt message log record"), (l2, n2)).
Proof.
  intros Hd Ho Hopen [Hb Hr] Hr32. destruct l as [f o]. cbn in Hd, Ho, Hopen. subst o.
  set (data := encode_record (record_of id body)).
  assert (wpe (FileLog_Append id body) (λ x l1, x = Ok 0 ∧ fd_data (fl_file l1) = data) (mkFileLog f ∅)) as Ha.
  { apply grown_Append; [done|done| | |done]; [intros k e E; by rewrite quiet_ctx in E|]. cbn. by rewrite Hd. }
  specialize (Ha n). destruct (FileLog_Append id body (_, n)) as [x [l1 n1]]. cbn in Ha. destruct Ha as [-> Hd1].
  exists l1, n1.
  assert (wpe OpenFileLog (λ x _, x = Err (ErrNew "corrupt message log record")) l1) as Hopen1.
  { unfold OpenFileLog. wpe_step. wpe_step. apply quiet_io_ok. wpe_step. wpe_step. apply quiet_io_ok. wpe_auto.
    rewrite Hd1. unfold reindex. wpe_step. apply wpe_on_file, quiet_Seek; [done|]. intros ? ->. cbn -[reindex_loop]. wpe_auto.
    cbn [fl_file fd_data set_file]. cbn [reindex_loop]. wpe_step.
    apply wpe_on_file, quiet_Seek; [done|]. intros ? ->. cbn -[reindex_loop]. wpe_step. wpe_step. unfold read_uint32. wpe_step.
    apply wpe_on_file, quiet_ReadFull; [done|cbn; unfold data; rewrite length_encode_record; lia|].
    cbn -[reindex_loop]. wpe_step. rewrite drop_0. unfold data, encode_record. rewrite take_app_length' by (by rewrite length_be_put).
    rewrite be_get_put_small by (change (256 ^ Z.of_nat 4) with (2 ^ 32); lia). wpe_step. wpe_step; [|zlia].
    wpe_step. wpe_step. unfold file_Close. apply wpe_on_file. wpe_step. apply quiet_file_op; [done|]. by wpe_auto. }
  specialize (Hopen1 n1). destruct (OpenFileLog (l1, n1)) as [x [l2 n2]]. cbn in Hopen1. subst x. by exists l2, n2.
Qed.

(** ** A concrete restart *)

#[local] Instance late_files : FilesWork late_oracle.
Proof. by intros n. Qed.

Definition move_reliable (m : move) : Prop :=
  match m with Other a => action_ok a ∧ action_fits a | _ => True end.

Lemma play_reliable ms (p : Process Snapshot) :
  Forall move_reliable ms → rtc (reliable_step (H := identity_json)) p (play ms p).
Proof.
  revert p. induction ms as [|m ms IH]; intros p Hok; [done|]. apply Forall_cons in Hok as [Hm Hok].
  cbn [foldl]. etrans; [|by apply IH]. unfold make. destruct m as [listen choice|a].
  - case_bool_decide as Hd.
    + destruct (run_next _ _ _ _) as [p'|] eqn:E; [|done]. apply rtc_once.
      eapply (reliable_run _ _ late_oracle); [apply _| |exact E]. intros _ n. by eexists.
    + destruct (run_next _ _ _ _) as [p'|] eqn:E; [|done]. apply rtc_once.
      by eapply (reliable_run _ _ test_oracle); [apply _|intros ?|exact E].
  - destruct (fire _ _) as [p'|] eqn:E; [|done]. apply rtc_once. destruct Hm.
    by eapply (reliable_other _ _ test_oracle StandardMatcher); [apply _|..].
Qed.

Lemma fresh_run_reliable : Forall move_reliable fresh_run.
Proof. repeat constructor; vm_compute; discriminate. Qed.

Lemma clean_exit_restarts_witness : ∃ r2 n3,
  run_begin (orc := test_oracle) (H := identity_json) (λ _, inr []) (λ _ c, inr c) (λ _, "") "broker.yaml"
    (directory (p_runtime (play fresh_run fresh_process)), O) = (Ok (initial r2), (directory r2, n3)) ∧
  (m_State <$> map_values (mm_messages (b_mem (rn_Delivery r2)))) = [StateAvailable] ∧
  fl_view (b_log (rn_Delivery r2)) !! 0 = Some (string_bytes "x").
Proof.
  destruct fresh as [x [d' n']] eqn:E.
  assert (x = Ok fresh_process) as -> by (change x with (fst (x, (d', n'))); rewrite <-E; vm_compute; reflexivity).
  destruct (clean_exit_restarts test_oracle Snapshot identity_json (λ _, inr []) (λ _ c, inr c) (λ _, "")
    "broker.yaml" (mkSnapshotFile None None) d' fresh_process (play fresh_run fresh_process) O n' test_oracle
    test_oracle_quiet "broker.yaml" Default O) as (r2 & n3 & H1 & H2 & H3 & _).
  - reflexivity.
  - exact E.
  - apply play_reliable, fresh_run_reliable.
  - vm_compute. reflexivity.
  - vm_compute. reflexivity.
  - intros s _. split; [exact I|]. exists s. reflexivity.
  - vm_compute. reflexivity.
  - exists r2, n3. split; [exact H1|]. rewrite H2, H3. split; vm_compute; reflexivity.
Defined.
