(* ===== verification/Http.v ===== *)
(** * The HTTP management interface

    Models [internal/platform/httpx]: the middleware chain (request
    identifier, panic recovery, rate limit, bearer token, timeout), the routes
    and the handlers of [server.go] over the runtime, and the counters of
    [metrics.go].  The decoding of request bodies by [encoding/json] is an
    interface; a response is its status and the value that is encoded in it.
    [http.ServeMux] is its documented behaviour: paths are cleaned, a path that
    changes under it is redirected, and patterns are matched against the
    unescaped segments of the escaped path.  The files of the console are a
    parameter. *)

From Stdlib Require Import Ascii String.
From stdpp Require Import pretty.
From S2P Require Import Prelude Bytes Text Duration Matcher Address Message Transaction Env.
From S2P Require Import Memory BodyLog FileLog Router Delivery TxService Broker Cluster.
From S2P Require Import Connection Registry Session Link Peer Snapshot Runtime.

Create HintDb handlers.

(** ** Requests and responses *)

(** [rq_EscapedPath] is [r.URL.EscapedPath()]. *)
Record Request := mkRequest {
  rq_Method : string; rq_EscapedPath : string; rq_Query : string → string;
  rq_Authorization : string; rq_RequestID : string; rq_Body : bytes; rq_ContentLength : Z }.

Definition unhex (c : byte) : option Z :=
  let n := b2z c in
  if (48 <=? n) && (n <=? 57) then Some (n - 48)
  else if (97 <=? n) && (n <=? 102) then Some (n - 87)
  else if (65 <=? n) && (n <=? 70) then Some (n - 55)
  else None.

(** [url.PathUnescape] on bytes; [None] for a malformed escape. *)
Fixpoint unescape (l : bytes) : option bytes :=
  match l with
  | [] => Some []
  | c :: l' =>
      if bool_decide (c = chr 37) then
        match l' with
        | x :: y :: l'' =>
            match unhex x, unhex y with
            | Some a, Some b => (λ r, z2b (16 * a + b) :: r) <$> unescape l''
            | _, _ => None
            end
        | _ => None
        end
      else (λ r, c :: r) <$> unescape l'
  end.

(** Malformed text is left as it is. *)
Definition path_unescape (s : string) : string :=
  match unescape (string_bytes s) with Some b => bytes_string b | None => s end.

(** [r.URL.Path]. *)
Definition rq_Path (r : Request) : string := path_unescape (rq_EscapedPath r).

Inductive payload :=
  | PText (fields : list (string * string))
  | PStatus (s : RuntimeStatus)
  | PMetrics (lines : list (string * Z))
  | PAddress (a : Address) | PAddresses (l : list Address)
  | PBinding (b : Binding) | PBindings (l : list Binding)
  | PDepth (address : string) (depth : Z)
  | PReplayed (n : Z)
  | PConnections (l : list ConnSnapshot)
  | PTransaction (t : Transaction)
  | PRouted (l : list Message) | PStaged (l : list Message)
  | PConsumer (c : Consumer)
  | PDelivery (id : Z) (msg : Message)
  | PSettled
  | PLease (l : Lease) | PLeases (l : list Lease)
  | PError (code : string) (message : error)
  | PStatic (content : bytes).

Record response := mkResponse { rs_Status : Z; rs_Payload : payload }.

Record publishRequest := mkPublishRequest {
  pq_Address : string; pq_RoutingKey : string; pq_Headers : option headers; pq_Body : string;
  pq_Priority : Z; pq_TTL : string; pq_Settled : bool }.

Definition publishRequest_domain (p : publishRequest) : res Publish :=
  match (if bool_decide (pq_TTL p = "") then Some 0 else ParseDuration (pq_TTL p)) with
  | None => Err (ErrWrap "invalid ttl" (ErrFmtS "time: invalid duration" (pq_TTL p)))
  | Some ttl => Ok (mkPublish (pq_Address p) (pq_RoutingKey p) (pq_Headers p) (string_bytes (pq_Body p))
                      (pq_Priority p) ttl (pq_Settled p) "")
  end.

(** ** The interface of the request decoder

    [dec limit body] is [json.Decoder.Decode], without unknown fields, of a
    body read through [http.MaxBytesReader]; an error is its text. *)
Class RequestJSON := {
  dec_Create : Z → bytes → string + Create;
  dec_Bind : Z → bytes → string + Bind;
  dec_Pause : Z → bytes → string + option bool;
  dec_Replay : Z → bytes → string + Z;
  dec_Declare : Z → bytes → string + string;
  dec_Publish : Z → bytes → string + publishRequest;
  dec_Consumer : Z → bytes → string + (string * string * Z * Semantics);
  dec_Settle : Z → bytes → string + (Z * State);
  (** The prefetch field is a [uint32]. *)
  dec_Consumer_range : ∀ limit b id a n sem, dec_Consumer limit b = inr (id, a, n, sem) → 0 ≤ n < 2 ^ 32
}.

(** ** State *)
Record Metrics := mkMetrics {
  mt_Requests : Z; mt_Failures : Z; mt_Published : Z; mt_Delivered : Z; mt_Expired : Z }.

(** The counters are [uint64]. *)
Definition count_request (m : Metrics) : Metrics :=
  mkMetrics (u64 (mt_Requests m + 1)) (mt_Failures m) (mt_Published m) (mt_Delivered m) (mt_Expired m).
Definition count_failure (m : Metrics) : Metrics :=
  mkMetrics (mt_Requests m) (u64 (mt_Failures m + 1)) (mt_Published m) (mt_Delivered m) (mt_Expired m).
Definition count_published (n : Z) (m : Metrics) : Metrics :=
  mkMetrics (mt_Requests m) (mt_Failures m) (u64 (mt_Published m + n)) (mt_Delivered m) (mt_Expired m).
Definition count_delivered (m : Metrics) : Metrics :=
  mkMetrics (mt_Requests m) (mt_Failures m) (mt_Published m) (u64 (mt_Delivered m + 1)) (mt_Expired m).

(** The samples [Metrics.Write] prints, without the comments. *)
Definition Metrics_Write (m : Metrics) (connections : Z) : list (string * Z) :=
  [("broker_http_requests_total", mt_Requests m); ("broker_http_failures_total", mt_Failures m);
   ("broker_messages_published_total", mt_Published m);
   ("broker_messages_delivered_total", mt_Delivered m); ("broker_connections", connections)].

Record Middleware := mkMiddleware {
  mw_Token : string; mw_AllowAnonymous : bool; mw_Timeout : duration; mw_BodyLimit : Z; mw_Rate : Z;
  mw_window : time; mw_count : Z }.

Record api (D : Type) := mkApi {
  ap_Runtime : Runtime D; ap_Metrics : Metrics; ap_Middleware : Middleware }.
Arguments mkApi {D}.
Arguments ap_Runtime {D}.
Arguments ap_Metrics {D}.
Arguments ap_Middleware {D}.

(** ** Routes *)
Inductive endpoint :=
  | EConsole | EConsoleRedirect | EHealth | EReady | EMetrics | EStatus
  | ECreateAddress | EListAddresses | ECreateBinding | EListBindings
  | EDepth (name : string) | EPause (name : string) | EReplay | EConnections
  | ETransaction (id : string) | EDeclare | ECommit (id : string) | ERollback (id : string)
  | EPublish | EStagePublish (id : string) | ECreateConsumer | EAcquire (id : string)
  | ESettle (id : string) | EEnsureLease (address : string) | ELeases.

(** A pattern of [http.ServeMux]: literal segments, a wildcard, or the rest of
    the path after a trailing slash. *)
Inductive pattern :=
  | PLit (s : string) (p : pattern)
  | PWild (p : string → endpoint) (rest : list string)
  | PEnd (e : endpoint)
  | PTree (e : endpoint).

Fixpoint lits (l : list string) (p : pattern) : pattern :=
  match l with [] => p | s :: l' => PLit s (lits l' p) end.

(** A wildcard stands for one segment, which is not a trailing slash. *)
Fixpoint pattern_match (p : pattern) (segs : list string) : option endpoint :=
  match p, segs with
  | PLit s p', x :: segs' => if bool_decide (x = s) then pattern_match p' segs' else None
  | PWild e rest, x :: segs' => if bool_decide (x ≠ "/" ∧ segs' = rest) then Some (e x) else None
  | PEnd e, [] => Some e
  | PTree e, _ :: _ => Some e
  | _, _ => None
  end.

Definition routes : list (string * pattern) := [
  ("GET", lits ["console"] (PTree EConsole)); ("GET", lits ["console"] (PEnd EConsoleRedirect));
  ("GET", lits ["healthz"] (PEnd EHealth)); ("GET", lits ["readyz"] (PEnd EReady));
  ("GET", lits ["metrics"] (PEnd EMetrics)); ("GET", lits ["v1"; "status"] (PEnd EStatus));
  ("POST", lits ["v1"; "addresses"] (PEnd ECreateAddress));
  ("GET", lits ["v1"; "addresses"] (PEnd EListAddresses));
  ("POST", lits ["v1"; "bindings"] (PEnd ECreateBinding));
  ("GET", lits ["v1"; "bindings"] (PEnd EListBindings));
  ("GET", lits ["v1"; "addresses"] (PWild EDepth ["depth"]));
  ("POST", lits ["v1"; "addresses"] (PWild EPause ["pause"]));
  ("POST", lits ["v1"; "dead-letters"; "replay"] (PEnd EReplay));
  ("GET", lits ["v1"; "connections"] (PEnd EConnections));
  ("GET", lits ["v1"; "transactions"] (PWild ETransaction []));
  ("POST", lits ["v1"; "transactions"] (PEnd EDeclare));
  ("POST", lits ["v1"; "transactions"] (PWild ECommit ["commit"]));
  ("POST", lits ["v1"; "transactions"] (PWild ERollback ["rollback"]));
  ("POST", lits ["v1"; "messages"] (PEnd EPublish));
  ("POST", lits ["v1"; "transactions"] (PWild EStagePublish ["messages"]));
  ("POST", lits ["v1"; "consumers"] (PEnd ECreateConsumer));
  ("POST", lits ["v1"; "consumers"] (PWild EAcquire ["acquire"]));
  ("POST", lits ["v1"; "consumers"] (PWild ESettle ["settle"]));
  ("POST", lits ["v1"; "cluster"; "leases"] (PWild EEnsureLease []));
  ("GET", lits ["v1"; "cluster"; "leases"] (PEnd ELeases))].

(** The parts of a path after its first slash. *)
Definition path_parts (path : string) : list string := drop 1 (split_string c_slash path).

(** The segments as the mux compares them: unescaped, a trailing slash as a
    segment of its own. *)
Fixpoint match_segments (parts : list string) : list string :=
  match parts with
  | [] => []
  | [s] => [if bool_decide (s = "") then "/" else path_unescape s]
  | s :: parts' => path_unescape s :: match_segments parts'
  end.

Definition segments (path : string) : list string := match_segments (path_parts path).

(** [path.Clean] of a rooted path, by its parts. *)
Definition clean_part (out : list string) (s : string) : list string :=
  if bool_decide (s = "") || bool_decide (s = ".") then out
  else if bool_decide (s = "..") then take (pred (length out)) out
  else out ++ [s].

Definition rooted (parts : list string) : string := foldr (λ s p, ("/" +:+ s +:+ p)%string) "" parts.

(** [cleanPath]: it begins with a slash, and keeps its last one. *)
Definition clean_path (path : string) : string :=
  let path := if bool_decide (string_bytes path !! 0%nat = Some c_slash) then path else ("/" +:+ path)%string in
  let parts := foldl clean_part [] (path_parts path) in
  if bool_decide (parts = []) then "/"
  else (rooted parts +:+ (if bool_decide (last (string_bytes path) = Some c_slash) then "/" else ""))%string.

(** A [GET] pattern serves [HEAD] too. *)
Definition method_serves (pattern method : string) : bool :=
  bool_decide (pattern = method) || (bool_decide (pattern = "GET") && bool_decide (method = "HEAD")).

(** A path that is not clean is redirected to the clean one, except for
    [CONNECT]; a path that only other methods serve is refused with 405.  The
    mux would also redirect to a pattern with a trailing slash; the only one,
    [/console/], has a pattern without it beside it. *)
Definition mux (method path : string) : response + endpoint :=
  let found := omap (λ r, (λ e, (r.1, e)) <$> pattern_match r.2 (segments path)) routes in
  if bool_decide (path = "*") then inl (mkResponse 400 (PText []))
  else if bool_decide (method ≠ "CONNECT" ∧ clean_path path ≠ path) then
    inl (mkResponse 301 (PText [("path", clean_path path)]))
  else match List.find (λ r, method_serves r.1 method) found with
       | Some (_, e) => inr e
       | None => inl (mkResponse (if bool_decide (found = []) then 404 else 405) (PText []))
       end.

(** ** Handlers *)
Section handlers.
Context `{orc : Oracle, mtch : !Matcher} {D : Type} `{SnapshotJSON D} `{RequestJSON}
  (console : string → response).

Definition on_runtime {A} (m : env (Runtime D) A) : env (api D) A :=
  on ap_Runtime (λ r a, mkApi r (ap_Metrics a) (ap_Middleware a)) m.
Definition on_service {A} (m : env (broker FileLog) A) : env (api D) A := on_runtime (on_broker m).
Definition on_cluster {A} (m : env cluster A) : env (api D) A := on_runtime (on rn_Cluster set_cluster m).
Definition on_metrics (f : Metrics → Metrics) : env (api D) unit :=
  update_ (λ a, mkApi (ap_Runtime a) (f (ap_Metrics a)) (ap_Middleware a)).

Definition JSON (status : Z) (p : payload) : env (api D) response := mret (mkResponse status p).
Definition Error (status : Z) (code message : string) : env (api D) response :=
  JSON status (PError code (ErrNew message)).

Definition fail (status : Z) (code : string) (e : error) : env (api D) response :=
  on_metrics count_failure;;
  JSON status (PError code e).

(** [x, err := m; if err != nil { s.fail(...); return }]. *)
Definition answer {A} (m : env (api D) A) (status : Z) (code : string) (k : A → env (api D) response) :
    env (api D) response :=
  r ← try m;
  match r with inl e => fail status code e | inr a => k a end.

(** [strings.Contains(err.Error(), ...)]. *)
Definition too_large (text : string) : bool :=
  bool_decide (String.index 0 "request body too large" text ≠ None).

Definition decode {A} (dec : Z → bytes → string + A) (r : Request) (k : A → env (api D) response) :
    env (api D) response :=
  a ← get_;
  match dec (mw_BodyLimit (ap_Middleware a)) (rq_Body r) with
  | inl text => Error (if too_large text then 413 else 400) "invalid_json" text
  | inr x => k x
  end.

Definition h_publish (r : Request) : env (api D) response :=
  decode dec_Publish r (λ q,
    answer (lift (publishRequest_domain q)) 422 "invalid_message" (λ p,
    answer (on_service (Service_Publish p)) 422 "publish_failed" (λ items,
      on_metrics (count_published (Z.of_nat (length items)));;
      JSON 201 (PRouted items)))).

Definition h_stagePublish (id : string) (r : Request) : env (api D) response :=
  decode dec_Publish r (λ q,
    answer (lift (publishRequest_domain q)) 422 "invalid_message" (λ p,
    answer (on_service (StagePublish id p)) 409 "stage_failed" (λ items, JSON 202 (PStaged items)))).

Definition h_replay (r : Request) : env (api D) response :=
  let replay limit :=
    let limit := if limit <=? 0 then 100 else limit in
    answer (on_service (ReplayDead limit)) 500 "replay_failed" (λ n, JSON 200 (PReplayed n)) in
  if 0 <? rq_ContentLength r then decode dec_Replay r replay else replay 0.

Definition h_health : env (api D) response := JSON 200 (PText [("status", "ok")]).

Definition h_ready : env (api D) response :=
  a ← get_;
  JSON 200 (PText [("status", "ready"); ("node_id", rn_Config (ap_Runtime a))]).

Definition h_metrics : env (api D) response :=
  a ← get_;
  JSON 200 (PMetrics (Metrics_Write (ap_Metrics a) (ConnRegistry_Count (rn_Connections (ap_Runtime a))))).

Definition h_status : env (api D) response :=
  s ← on_runtime Runtime_Status;
  JSON 200 (PStatus s).

Definition h_createAddress (r : Request) : env (api D) response :=
  decode dec_Create r (λ c,
    answer (on_service (mem (address_Create c))) 422 "invalid_address" (λ a, JSON 201 (PAddress a))).

Definition h_listAddresses : env (api D) response :=
  answer (on_service (mem address_List)) 500 "list_failed" (λ l, JSON 200 (PAddresses l)).

Definition h_createBinding (r : Request) : env (api D) response :=
  decode dec_Bind r (λ b,
    answer (on_service (mem (address_Bind b))) 422 "invalid_binding" (λ x, JSON 201 (PBinding x))).

Definition h_listBindings (r : Request) : env (api D) response :=
  answer (on_service (mem (address_ListBindings (rq_Query r "source")))) 500 "list_failed"
    (λ l, JSON 200 (PBindings l)).

Definition h_depth (name : string) : env (api D) response :=
  answer (on_service (Service_Depth name)) 404 "address_not_found" (λ n, JSON 200 (PDepth name n)).

Definition h_pause (name : string) (r : Request) : env (api D) response :=
  decode dec_Pause r (λ paused,
    answer (on_service (mem (address_Pause name (default true paused)))) 404 "address_not_found"
      (λ a, JSON 200 (PAddress a))).

Definition h_connections : env (api D) response :=
  items ← on_runtime (on rn_Connections (λ _ x, x) ConnRegistry_List);
  JSON 200 (PConnections items).

Definition h_transaction (id : string) : env (api D) response :=
  answer (on_service (Tx_Get id)) 404 "transaction_not_found" (λ t, JSON 200 (PTransaction t)).

Definition h_declareTransaction (r : Request) : env (api D) response :=
  decode dec_Declare r (λ conn,
    a ← get_;
    answer (on_service (Declare_tx (rn_txTTL (ap_Runtime a)) conn)) 422 "declare_failed"
      (λ t, JSON 201 (PTransaction t))).

Definition h_commitTransaction (id : string) : env (api D) response :=
  answer (on_service (Tx_Commit id)) 409 "commit_failed" (λ t, JSON 200 (PTransaction t)).

Definition h_rollbackTransaction (id : string) : env (api D) response :=
  answer (on_service (Tx_Rollback id)) 409 "rollback_failed" (λ t, JSON 200 (PTransaction t)).

Definition h_createConsumer (r : Request) : env (api D) response :=
  decode dec_Consumer r (λ '(id, address, prefetch, sem),
    answer (on_service (Service_Register id address prefetch sem)) 422 "consumer_failed"
      (λ c, JSON 201 (PConsumer c))).

Definition h_acquire (id : string) : env (api D) response :=
  answer (on_service (Service_Acquire id)) 409 "acquire_failed" (λ '(msg, d),
    on_metrics count_delivered;;
    JSON 200 (PDelivery d msg)).

Definition h_settle (id : string) (r : Request) : env (api D) response :=
  decode dec_Settle r (λ '(d, state),
    answer (on_service (Service_Settle id d state)) 409 "settlement_failed" (λ _, JSON 200 PSettled)).

Definition h_ensureLease (address : string) : env (api D) response :=
  answer (on_cluster (Service_Ensure address)) 409 "lease_failed" (λ l, JSON 201 (PLease l)).

Definition h_leases : env (api D) response :=
  answer (on_cluster Service_Leases) 500 "lease_list_failed" (λ l, JSON 200 (PLeases l)).

(** The handler that a route names. *)
Definition handle_endpoint (e : endpoint) (r : Request) : env (api D) response :=
  match e with
  | EConsole => mret (console (rq_Path r))
  | EConsoleRedirect => mret (mkResponse 307 (PText [("Location", "/console/")]))
  | EHealth => h_health
  | EReady => h_ready
  | EMetrics => h_metrics
  | EStatus => h_status
  | ECreateAddress => h_createAddress r
  | EListAddresses => h_listAddresses
  | ECreateBinding => h_createBinding r
  | EListBindings => h_listBindings r
  | EDepth name => h_depth name
  | EPause name => h_pause name r
  | EReplay => h_replay r
  | EConnections => h_connections
  | ETransaction id => h_transaction id
  | EDeclare => h_declareTransaction r
  | ECommit id => h_commitTransaction id
  | ERollback id => h_rollbackTransaction id
  | EPublish => h_publish r
  | EStagePublish id => h_stagePublish id r
  | ECreateConsumer => h_createConsumer r
  | EAcquire id => h_acquire id
  | ESettle id => h_settle id r
  | EEnsureLease address => h_ensureLease address
  | ELeases => h_leases
  end.

(** [instrument] around the mux. *)
Definition instrument (r : Request) : env (api D) response :=
  on_metrics count_request;;
  match mux (rq_Method r) (rq_EscapedPath r) with
  | inr e => handle_endpoint e r
  | inl rs => mret rs
  end.

(** ** The middleware chain *)

(** The defaults of [Wrap]. *)
Definition Wrap_defaults (m : Middleware) : Middleware :=
  mkMiddleware (mw_Token m) (mw_AllowAnonymous m)
    (if mw_Timeout m <=? 0 then 15 * Second else mw_Timeout m)
    (if mw_BodyLimit m <=? 0 then 2 ^ 20 else mw_BodyLimit m) (mw_Rate m) (mw_window m) (mw_count m).

(** [Handler]: the counters start at zero, behind the wrapped middleware. *)
Definition Handler (r : Runtime D) (m : Middleware) : api D :=
  mkApi r (mkMetrics 0 0 0 0 0) (Wrap_defaults m).

(** [http.TimeoutHandler]: the handler runs on; when the time is over first,
    the client is told so. *)
Definition timeout (next : env (api D) response) : env (api D) response :=
  rs ← next;
  late ← try ctx_Err;
  match late with
  | inl _ => JSON 503 (PError "timeout" (ErrNew "request timed out"))
  | inr _ => mret rs
  end.

Definition open_path (path : string) : bool :=
  bool_decide (path = "/healthz") || bool_decide (path = "/readyz") || bool_decide (path = "/metrics").

(** Whether [authenticate] lets the request pass. *)
Definition authorized (m : Middleware) (r : Request) : bool :=
  mw_AllowAnonymous m || open_path (rq_Path r) ||
  (let value := TrimPrefix (rq_Authorization r) "Bearer " in
   negb (bool_decide (value = "") || negb (bool_decide (value = mw_Token m)))).

Definition mw_authenticate (r : Request) (next : env (api D) response) : env (api D) response :=
  a ← get_;
  if authorized (ap_Middleware a) r then next
  else Error 401 "unauthorized" "valid bearer token required".

(** [allow] at a given time: a fixed window of a second. *)
Definition allow_at (now : time) (m : Middleware) : bool * Middleware :=
  let fresh := time_IsZero (mw_window m) || (Second <=? now - mw_window m) in
  let window := if fresh then now else mw_window m in
  let count := if fresh then 0 else mw_count m in
  let set n := mkMiddleware (mw_Token m) (mw_AllowAnonymous m) (mw_Timeout m) (mw_BodyLimit m) (mw_Rate m) window n in
  if mw_Rate m <=? count then (false, set count) else (true, set (count + 1)).

Definition allow : env (api D) bool :=
  now ← clock_Now;
  a ← get_;
  let '(ok, m) := allow_at now (ap_Middleware a) in
  put_ (mkApi (ap_Runtime a) (ap_Metrics a) m);;
  mret ok.

Definition limit (next : env (api D) response) : env (api D) response :=
  a ← get_;
  ok ← (if 0 <? mw_Rate (ap_Middleware a) then allow else mret true);
  if negb ok then Error 429 "rate_limited" "request rate exceeded" else next.

(** [recoverer]: a panic becomes a response. *)
Definition recoverer (next : env (api D) response) : env (api D) response := λ s,
  match next s with
  | (Panic, s') => Error 500 "internal" "internal server error" s'
  | x => x
  end.

(** [requestID]: the identifier of the response, which is the client's or
    random (a failing random source leaves the buffer zero). *)
Definition mw_requestID (r : Request) : env (api D) string :=
  if negb (bool_decide (rq_RequestID r = "")) then mret (rq_RequestID r)
  else
    x ← try (rand_Read 8);
    mret (hex_encode (match x with inr b => b | inl _ => replicate 8 zero_byte end)).

Definition serve (r : Request) : env (api D) (string * response) :=
  id ← mw_requestID r;
  rs ← recoverer (limit (mw_authenticate r (timeout (instrument r))));
  mret (id, rs).
End handlers.

#[export] Hint Unfold h_health h_ready h_metrics h_status h_createAddress h_listAddresses h_createBinding
  h_listBindings h_depth h_pause h_replay h_connections h_transaction h_declareTransaction
  h_commitTransaction h_rollbackTransaction h_publish h_stagePublish h_createConsumer h_acquire h_settle
  h_ensureLease h_leases : handlers.
