(* ===== verification/HttpFacts.v ===== *)
(** * Properties of the HTTP interface

    Every request is answered and leads to broker calls only, so the theorems
    about the broker hold behind it; requests without the token do not reach
    the runtime; the rate limit; the routes do not overlap.  What each request
    does is in HttpApi.v. *)

From Stdlib Require Import Ascii String.
From S2P Require Import Prelude Bytes Text Duration Matcher Address Message Transaction Env.
From S2P Require Import Memory BodyLog FileLog FileLogFacts Router Delivery DeliveryInv DeliveryFacts.
From S2P Require Import TxService TxFacts Broker Cluster Connection Registry Session Link Peer.
From S2P Require Import Snapshot Runtime Http.

(** ** Calls of the services *)

(** The runtime behind the interface is good, see [runtime_ok]. *)
Definition api_ok {D} (k : Z) (b0 : broker FileLog) (a : api D) : Prop := runtime_ok k b0 (ap_Runtime a).

Definition called {D A} (k : Z) (b0 : broker FileLog) (r : res A) (a : api D) : Prop :=
  is_panic r = false ∧ api_ok k b0 a.

Definition answered {D} (k : Z) (b0 : broker FileLog) (r : res response) (a : api D) : Prop :=
  is_ok r ∧ api_ok k b0 a.

Section calls.
Context `{orc : Oracle, mtch : !Matcher} {D : Type}.
Implicit Types a : api D.

Lemma service_called {A} (m : env (broker FileLog) A) c k b0 a :
  wf_broker b0 → call_in_range c → performs m c → api_ok k b0 a → wpe (on_service m) (called k b0) a.
Proof. intros. unfold on_service, on_runtime. wpe_step. by eapply broker_called. Qed.

Lemma reading_called {A} (m : env Memory A) k b0 a :
  reads m → api_ok k b0 a → wpe (on_service (mem m)) (called k b0) a.
Proof. intros. unfold on_service, on_runtime. wpe_step. by apply broker_reads. Qed.

Lemma lift_called {A} (r : res A) k b0 a : is_panic r = false → api_ok k b0 a → wpe (lift r) (called k b0) a.
Proof. intros. wpe_step. by split. Qed.

Lemma answer_answered {A} (m : env (api D) A) st code f k b0 a :
  wpe m (called k b0) a → (∀ x a', api_ok k b0 a' → wpe (f x) (answered k b0) a') →
  wpe (answer m st code f) (answered k b0) a.
Proof.
  intros Hm Hf. unfold answer. wpe_step. wpe_step. eapply wpe_mono; [exact Hm|].
  intros [x|e|] a' [Hp Ha]; [by apply Hf| |done]. unfold fail, on_metrics, JSON. wpe_auto. by split.
Qed.

Lemma JSON_answered st p k b0 a : api_ok k b0 a → wpe (JSON st p) (answered k b0) a.
Proof. intros. unfold JSON. wpe_auto. by split. Qed.

Lemma metrics_answered f st p k b0 a :
  api_ok k b0 a → wpe (on_metrics f;; JSON st p) (answered k b0) a.
Proof. intros Ha. unfold on_metrics, JSON. wpe_auto. by split. Qed.

Lemma decode_answered {A} (dec : Z → bytes → string + A) r f k b0 a :
  api_ok k b0 a →
  (∀ limit x, dec limit (rq_Body r) = inr x → wpe (f x) (answered k b0) a) →
  wpe (decode dec r f) (answered k b0) a.
Proof.
  intros Ha Hf. unfold decode. wpe_auto. destruct (dec _ _) as [text|x] eqn:E; [|by eapply Hf].
  unfold Error. by apply JSON_answered.
Qed.
End calls.

#[local] Hint Resolve JSON_answered metrics_answered : broker.

(** ** Leases *)
Section leases.
Context `{orc : Oracle} {D : Type}.
Implicit Types a : api D.

(** A call of the cluster service that leaves its settings alone. *)
Lemma cluster_called {A} (m : env cluster A) k b0 a :
  (∀ s, cs_shards s.1 = k → wpe m (λ r s', is_panic r = false ∧ cs_shards s'.1 = k) s) →
  api_ok k b0 a → wpe (on_cluster m) (called k b0) a.
Proof.
  intros Hm [Hs Hk]. unfold on_cluster, on_runtime. wpe_step. wpe_step.
  eapply wpe_mono; [by apply Hm|]. intros r s [Hp Hs']. split; [done|]. by split.
Qed.

Lemma Ensure_shards addr k s : k ≠ 0 → cs_shards s.1 = k →
  wpe (Service_Ensure addr) (λ r s', is_panic r = false ∧ cs_shards s'.1 = k) s.
Proof.
  intros Hk Hs. unfold Service_Ensure. wpe_step. wpe_step. unfold Service_Shard.
  destruct (Z.eqb_spec (cs_shards s.1) 0); [lia|]. wpe_step. wpe_step.
  set (acquire := mbind _ _).
  assert (wpe acquire (λ r s', is_panic r = false ∧ cs_shards s'.1 = k) s) as Hacq.
  { unfold acquire, coord, own, Coordinator_Acquire, NewLease. wpe_auto; try done.
    repeat case_match; wpe_auto; done. }
  destruct (cs_owned s.1 !! _); [|done]. wpe_step. wpe_step. case_match; [by wpe_step|done].
Qed.

Lemma Leases_shards k s : cs_shards s.1 = k →
  wpe Service_Leases (λ r s', is_panic r = false ∧ cs_shards s'.1 = k) s.
Proof. intros Hs. unfold Service_Leases, coord, Coordinator_List. by wpe_auto. Qed.
End leases.

(** ** Requests *)
Section requests.
Context `{orc : Oracle, mtch : !Matcher} {D : Type} `{RequestJSON} (console : string → response).
Context (k : Z) (b0 : broker FileLog) (Hk : k ≠ 0) (Hw : wf_broker b0).
Implicit Types a : api D.

Lemma domain_no_panic q : is_panic (publishRequest_domain q) = false.
Proof. unfold publishRequest_domain. by repeat case_match. Qed.

Lemma addresses_read (f : error + list Address → env (Runtime D) RuntimeStatus)
    (rt : Runtime D) (Q : res RuntimeStatus → Runtime D → Prop) :
  (∀ x, wpe (f x) Q rt) → wpe (try (on_broker (mem address_List)) ≫= f) Q rt.
Proof.
  intros Hf. wpe_step. wpe_step. unfold on_broker, mem. wpe_step. wpe_step.
  eapply wpe_mono; [apply address_List_reads|]. intros x m [Hp ->].
  assert (set_broker (set_mem (b_mem (rn_Delivery rt)) (rn_Delivery rt)) rt = rt) as ->
    by by destruct rt as [? [] ? ? ? ? ? ? ?].
  destruct x; [apply Hf|apply Hf|done].
Qed.

Lemma Status_answered a : api_ok k b0 a →
  wpe (s ← on_runtime Runtime_Status; JSON 200 (PStatus s)) (answered k b0) a.
Proof.
  intros [Hs Hsh]. wpe_step. unfold on_runtime, Runtime_Status. wpe_step. wpe_step. wpe_step. wpe_step.
  eapply wpe_mono; [by apply (Leases_shards k)|]. intros r c [Hr Hc].
  destruct r; [| |done]; apply addresses_read; intros x; wpe_auto; by apply JSON_answered.
Qed.

(** An endpoint that makes one call, and one that only reads. *)
Lemma call_answered {A} (m : env (broker FileLog) A) c st code f a :
  call_in_range c → performs m c → (∀ x a', api_ok k b0 a' → wpe (f x) (answered k b0) a') →
  api_ok k b0 a → wpe (answer (on_service m) st code f) (answered k b0) a.
Proof. intros Hc Hm Hf Ha. apply answer_answered; [by eapply service_called|done]. Qed.

Lemma read_answered {A} (m : env Memory A) st code f a :
  reads m → (∀ x a', api_ok k b0 a' → wpe (f x) (answered k b0) a') →
  api_ok k b0 a → wpe (answer (on_service (mem m)) st code f) (answered k b0) a.
Proof. intros Hm Hf Ha. apply answer_answered; [by apply reading_called|done]. Qed.

Lemma replay_answered n a : api_ok k b0 a →
  wpe (answer (on_service (ReplayDead n)) 500 "replay_failed" (λ n, JSON 200 (PReplayed n))) (answered k b0) a.
Proof.
  apply (call_answered _ (CallReplayDead n)); [done|exact (ignore_performs _)|]. eauto with broker.
Qed.

Ltac by_call c := apply (call_answered _ c); [done|exact (ignore_performs _)| |done]; eauto with broker.
Ltac by_read l := apply read_answered; [apply l| |done]; eauto with broker.
Ltac by_decode := apply decode_answered; [done|intros limit c Hd].

(** One endpoint. *)
Lemma endpoint_answered e r a : api_ok k b0 a → wpe (handle_endpoint console e r) (answered k b0) a.
Proof.
  intros Ha. destruct e; cbn [handle_endpoint]; autounfold with handlers.
  - wpe_auto. by split.
  - wpe_auto. by split.
  - by apply JSON_answered.
  - wpe_auto. by apply JSON_answered.
  - wpe_auto. by apply JSON_answered.
  - by apply Status_answered.
  - by_decode. by_call (CallCreate c).
  - by_read address_List_reads.
  - by_decode. by_call (CallBind c).
  - by_read ListBindings_reads.
  - by_read Depth_reads.
  - by_decode. by_call (CallPause name (default true c)).
  - case_match; [|by apply replay_answered]. by_decode. by apply replay_answered.
  - wpe_step. unfold on_runtime, ConnRegistry_List. wpe_auto. apply JSON_answered. by destruct a.
  - by_read TxGet_reads.
  - by_decode. wpe_step. wpe_step. by_call (CallDeclare (rn_txTTL (ap_Runtime a)) c).
  - by_call (CallCommit id).
  - by_call (CallRollback id).
  - by_decode. apply answer_answered; [by apply lift_called; [apply domain_no_panic|]|]. intros p a' Ha'.
    by_call (CallPublish p).
  - by_decode. apply answer_answered; [by apply lift_called; [apply domain_no_panic|]|]. intros p a' Ha'.
    by_call (CallStagePublish id p).
  - by_decode. destruct c as [[[cid addr] n] sem]. apply (call_answered _ (CallRegister cid addr n sem));
      [by eapply dec_Consumer_range|exact (ignore_performs _)| |done]. eauto with broker.
  - apply (call_answered _ (CallAcquire id)); [done|exact (ignore_performs _)| |done]. intros [msg d]. eauto with broker.
  - by_decode. destruct c as [d st]. apply (call_answered _ (CallSettle id d st)); [done|by intros s| |done]. eauto with broker.
  - apply answer_answered; [|by eauto with broker]. apply cluster_called; [|done]. intros s. by apply Ensure_shards.
  - apply answer_answered; [|by eauto with broker]. apply cluster_called; [|done]. intros s. apply Leases_shards.
Qed.
End requests.

(** ** Properties *)

(** The chain around the mux. *)
Lemma limited_answered `{orc : Oracle} {D} (next : env (api D) response) k b0 (a : api D) :
  api_ok k b0 a → (∀ a', api_ok k b0 a' → wpe next (answered k b0) a') →
  wpe (limit next) (answered k b0) a.
Proof.
  intros Ha Hn. unfold limit. wpe_step. wpe_step. wpe_step. case_match; [|wpe_step; by apply Hn].
  unfold allow. wpe_step. wpe_step. wpe_step. wpe_step. destruct (allow_at _ _) as [[] m]; wpe_step; wpe_step; wpe_step.
  - by apply Hn.
  - by apply JSON_answered.
Qed.

Lemma recovered_answered `{orc : Oracle} {D} (next : env (api D) response) k b0 (a : api D) :
  wpe next (answered k b0) a → wpe (recoverer next) (answered k b0) a.
Proof.
  intros Hn n. specialize (Hn n). unfold recoverer. by destruct (next (a, n)) as [[rs|e|] [a' n']], Hn.
Qed.

Lemma serve_answered `{orc : Oracle, mtch : !Matcher} {D} `{RequestJSON} console r k b0 (a : api D) :
  k ≠ 0 → wf_broker b0 → api_ok k b0 a →
  wpe (serve console r) (λ x a', (∃ id rs, x = Ok (id, rs)) ∧ api_ok k b0 a') a.
Proof.
  intros Hk Hw Ha. unfold serve, mw_requestID. wpe_step.
  assert (∀ id : string, wpe (rs ← recoverer (limit (mw_authenticate r (timeout (instrument console r)))); mret (id, rs))
    (λ (x : res (string * response)) a', (∃ id rs, x = Ok (id, rs)) ∧ api_ok k b0 a') a) as Hrest.
  { intros id. wpe_step. eapply wpe_mono.
    - apply recovered_answered, limited_answered; [done|]. intros a1 Ha1. unfold mw_authenticate. wpe_step. wpe_step.
      case_match; [|by apply JSON_answered]. unfold timeout. wpe_step. unfold instrument, on_metrics. wpe_step. wpe_step.
      assert (api_ok k b0 (mkApi (ap_Runtime a1) (count_request (ap_Metrics a1)) (ap_Middleware a1))) as Ha2 by done.
      assert (wpe (match mux (rq_Method r) (rq_EscapedPath r) with inr e => handle_endpoint console e r
        | inl rs => mret rs end) (answered k b0)
        (mkApi (ap_Runtime a1) (count_request (ap_Metrics a1)) (ap_Middleware a1))) as Hm
        by (case_match; [wpe_step; by split|by apply endpoint_answered]).
      eapply wpe_mono; [exact Hm|]. intros [rs|e|] a3 [Ho Ha3]; [|done..].
      wpe_auto; [by apply JSON_answered|by split].
    - intros [rs|e|] a' [Ho Ha']; [|done..]. wpe_step. by eauto. }
  case_match; [wpe_step; apply Hrest|]. wpe_step. wpe_step. wpe_step; wpe_step; apply Hrest.
Qed.

(** Every HTTP request is answered, and behind it is nothing but broker
    calls: whatever the method, path, headers and body, in every environment
    and with any outcomes, [serve] returns one response without a panic, and
    the broker's state afterwards is reached from the one before by calls of
    the address, delivery and transaction services, so that the invariant and
    the conservation theorems of the broker hold behind the interface. *)
Theorem http_refines_broker (orc : Oracle) (M : Matcher) (D : Type) (HR : RequestJSON)
    (console : string → response) (r : Request) (a a' : api D) (n n' : nat) (x : res (string * response)) :
  wf_broker (rn_Delivery (ap_Runtime a)) → cs_shards (fst (rn_Cluster (ap_Runtime a))) ≠ 0 →
  serve console r (a, n) = (x, (a', n')) →
  (∃ id rs, x = Ok (id, rs)) ∧
  rtc step (rn_Delivery (ap_Runtime a)) (rn_Delivery (ap_Runtime a')) ∧
  wf_broker (rn_Delivery (ap_Runtime a')).
Proof.
  intros Hw Hk E.
  destruct (wpe_elim _ _ _ _ _ _ _ (serve_answered console r _ _ a Hk Hw (conj (rtc_refl _ _) eq_refl)) E)
    as [Hx [Hs _]]. split_and!; [done|done|]. by apply (steps_advance (rn_Delivery (ap_Runtime a))).
Qed.

(** ** Authentication *)
Lemma strip_prefix_Some p : ∀ l r, strip_prefix p l = Some r ↔ l = p ++ r.
Proof.
  induction p as [|c p IH]; intros l r; cbn.
  - split; [by intros [= ->]|by intros ->].
  - destruct l as [|d l]; [by split|]. case_bool_decide as Hcd.
    + subst. rewrite IH. split; [by intros ->|by intros [= ->]].
    + split; [done|]. by intros [= ? ?].
Qed.

Lemma TrimPrefix_Some s p r :
  TrimPrefix s p = r ↔ s = (p +:+ r)%string ∨ (s = r ∧ ∀ t, s ≠ (p +:+ t)%string).
Proof.
  unfold TrimPrefix. destruct (strip_prefix (string_bytes p) (string_bytes s)) as [l|] eqn:E.
  - apply strip_prefix_Some in E. assert (s = (p +:+ bytes_string l)%string) as Hs.
    { apply string_bytes_inj. by rewrite string_bytes_app, string_bytes_string. }
    split; [intros <-; by left|]. intros [H|[_ H]]; [|by destruct (H (bytes_string l))].
    apply (f_equal string_bytes) in H. rewrite E, string_bytes_app in H. simplify_list_eq.
    by rewrite bytes_string_bytes.
  - assert (∀ t, s ≠ (p +:+ t)%string) as Hn.
    { intros t ->. rewrite string_bytes_app in E.
      by rewrite (proj2 (strip_prefix_Some _ _ (string_bytes t)) eq_refl) in E. }
    split; [intros <-; by right|]. by intros [->|[? _]]; [destruct (Hn r)|].
Qed.

(** Who gets in, exactly: with anonymous access off, a request to a path
    other than the three open ones passes exactly when a token is configured
    and the header is that token, after [Bearer ] or bare; with an empty
    configured token nothing passes. *)
Theorem authorized_exact (m : Middleware) (r : Request) :
  authorized m r = true ↔
  mw_AllowAnonymous m = true ∨ rq_Path r = "/healthz" ∨ rq_Path r = "/readyz" ∨ rq_Path r = "/metrics" ∨
  mw_Token m ≠ "" ∧
    (rq_Authorization r = ("Bearer " +:+ mw_Token m)%string ∨
     rq_Authorization r = mw_Token m ∧ ∀ t, mw_Token m ≠ ("Bearer " +:+ t)%string).
Proof.
  unfold authorized, open_path.
  set (v := TrimPrefix (rq_Authorization r) "Bearer ").
  assert (v = mw_Token m ↔ rq_Authorization r = ("Bearer " +:+ mw_Token m)%string ∨
     rq_Authorization r = mw_Token m ∧ ∀ t, mw_Token m ≠ ("Bearer " +:+ t)%string) as <-.
  { unfold v. rewrite TrimPrefix_Some. split; intros [H|[H1 H2]]; auto; right; split; try done.
    - intros t. rewrite <-H1. apply H2.
    - intros t. rewrite H1. apply H2. }
  rewrite negb_orb, negb_involutive, !orb_true_iff, andb_true_iff, negb_true_iff, !bool_decide_eq_true,
    bool_decide_eq_false.
  assert (v = mw_Token m → (v ≠ "" ↔ mw_Token m ≠ "")) as Hv by (by intros ->). tauto.
Qed.

(** A request that [authenticate] does not let pass reaches nothing. *)
Lemma unauthorized_blocked (orc : Oracle) (M : Matcher) (D : Type) (HR : RequestJSON)
    (console : string → response) (r : Request) (a a' : api D) (n n' : nat) (x : res (string * response)) :
  authorized (ap_Middleware a) r = false → serve console r (a, n) = (x, (a', n')) →
  ap_Runtime a' = ap_Runtime a ∧ ap_Metrics a' = ap_Metrics a ∧
  ∃ id rs, x = Ok (id, rs) ∧ (rs_Status rs = 401 ∨ rs_Status rs = 429).
Proof.
  intros Hauth E. set (P := λ (x : res (string * response)) a', ap_Runtime a' = ap_Runtime a ∧
    ap_Metrics a' = ap_Metrics a ∧ ∃ id rs, x = Ok (id, rs) ∧ (rs_Status rs = 401 ∨ rs_Status rs = 429)).
  refine (wpe_elim _ P a n x a' n' _ E).
  assert (∀ id : string, wpe (rs ← recoverer (limit (mw_authenticate r (timeout (instrument console r)))); mret (id, rs)) P a) as Hrest.
  { intros id. apply wpe_bind.
    assert (wpe (limit (mw_authenticate r (timeout (instrument console r)))) (λ y a', ap_Runtime a' = ap_Runtime a ∧
      ap_Metrics a' = ap_Metrics a ∧ ∃ rs, y = Ok rs ∧ (rs_Status rs = 401 ∨ rs_Status rs = 429)) a) as Hl.
    { assert (∀ a1, ap_Runtime a1 = ap_Runtime a → ap_Metrics a1 = ap_Metrics a →
        authorized (ap_Middleware a1) r = false →
        wpe (mw_authenticate r (timeout (instrument console r))) (λ y a', ap_Runtime a' = ap_Runtime a ∧
          ap_Metrics a' = ap_Metrics a ∧ ∃ rs, y = Ok rs ∧ (rs_Status rs = 401 ∨ rs_Status rs = 429)) a1) as Hm.
      { intros a1 E1 E2 Ha. unfold mw_authenticate. wpe_step. wpe_step. rewrite Ha. unfold Error, JSON. wpe_auto.
        split_and!; [done|done|]. eexists. split; [done|]. by left. }
      unfold limit. wpe_step. wpe_step. wpe_step. case_match; [|wpe_step; by apply Hm].
      unfold allow. do 4 wpe_step. destruct (allow_at _ _) as [ok m] eqn:Ea. wpe_step. wpe_step. wpe_step.
      assert (authorized m r = false) as Hm'.
      { rewrite <-Hauth. unfold allow_at in Ea. case_match; by inversion Ea; subst. }
      destruct ok; [by apply Hm|]. unfold Error, JSON. cbn. wpe_auto.
      split_and!; [done|done|]. eexists. split; [done|]. by right. }
    intros k. specialize (Hl k). unfold recoverer.
    destruct (limit _ (a, k)) as [[rs|e|] [a1 n1]]; destruct Hl as (H1 & H2 & rs' & [= <-] & Hs).
    cbn. apply wpe_ret. split_and!; [done|done|]. by exists id, rs. }
  unfold serve, mw_requestID. wpe_step. case_match; [wpe_step; apply Hrest|].
  wpe_step. wpe_step. wpe_step; wpe_step; apply Hrest.
Qed.

(** The request carries the configured token, after [Bearer ] or bare. *)
Definition bears_token (m : Middleware) (r : Request) : Prop :=
  mw_Token m ≠ "" ∧
  (rq_Authorization r = ("Bearer " +:+ mw_Token m)%string ∨
   rq_Authorization r = mw_Token m ∧ ∀ t, mw_Token m ≠ ("Bearer " +:+ t)%string).

(** C33. Without the token nothing is reached: with anonymous access off, a
    request to any path but [/healthz], [/readyz] and [/metrics] whose
    Authorization header is not the configured token, after [Bearer ] or bare,
    is answered with 401 (or 429 over the rate), and the runtime, its broker
    and the counters are as before, whatever else the request contains.  When
    the configured token is empty, no header is good. *)
Theorem token_required (orc : Oracle) (M : Matcher) (D : Type) (HR : RequestJSON)
    (console : string → response) (r : Request) (a a' : api D) (n n' : nat) (x : res (string * response)) :
  mw_AllowAnonymous (ap_Middleware a) = false → rq_Path r ∉ ["/healthz"; "/readyz"; "/metrics"] →
  ¬ bears_token (ap_Middleware a) r →
  serve console r (a, n) = (x, (a', n')) →
  ap_Runtime a' = ap_Runtime a ∧ ap_Metrics a' = ap_Metrics a ∧
  ∃ id rs, x = Ok (id, rs) ∧ (rs_Status rs = 401 ∨ rs_Status rs = 429).
Proof.
  intros Hanon Hpath Htok. apply unauthorized_blocked. apply not_true_iff_false.
  rewrite authorized_exact, Hanon. unfold bears_token in Htok.
  assert (rq_Path r ≠ "/healthz" ∧ rq_Path r ≠ "/readyz" ∧ rq_Path r ≠ "/metrics") as (?&?&?)
    by (split_and!; intros E; apply Hpath; rewrite E; set_solver).
  intros [?|[?|[?|[?|?]]]]; done.
Qed.

(** ** The rate limit *)

(** How many of the requests that arrive at the given times are let through. *)
Fixpoint allowed (times : list time) (m : Middleware) : Z :=
  match times with
  | [] => 0
  | t :: times' => let '(ok, m') := allow_at t m in (if ok then 1 else 0) + allowed times' m'
  end.

(** The count never passes the rate. *)
Definition rate_inv (m : Middleware) : Prop := 0 ≤ mw_count m ≤ mw_Rate m.

Lemma allow_at_spec t m : rate_inv m →
  let '(ok, m') := allow_at t m in
  rate_inv m' ∧ mw_Rate m' = mw_Rate m ∧
  (mw_window m' = mw_window m ∧ t - mw_window m < Second ∧
     mw_count m' = mw_count m + (if ok then 1 else 0) ∨
   mw_window m' = t ∧ mw_count m' = (if ok then 1 else 0)).
Proof.
  unfold rate_inv, allow_at, time_IsZero. intros Hm.
  destruct (Z.eqb_spec (mw_window m) 0), (Z.leb_spec Second (t - mw_window m)); cbn [orb];
    match goal with |- context [?a <=? ?b] => destruct (Z.leb_spec a b) end; cbn; lia.
Qed.

Lemma allowed_bound t0 : 0 < t0 → ∀ times m, rate_inv m → Forall (λ t, t0 ≤ t < t0 + Second) times →
  allowed times m ≤ 2 * mw_Rate m - mw_count m ∧
  (t0 ≤ mw_window m → allowed times m ≤ mw_Rate m - mw_count m).
Proof.
  intros H0. induction times as [|t times IH]; intros m Hm Ht; cbn [allowed].
  { unfold rate_inv in Hm. lia. }
  inversion Ht as [|?? Ht1 Ht2]; subst. pose proof (allow_at_spec t m Hm) as Hs.
  assert (t0 ≤ mw_window m → mw_window (snd (allow_at t m)) = mw_window m) as Hw.
  { unfold allow_at, time_IsZero. intros Hw. destruct (Z.eqb_spec (mw_window m) 0); [lia|].
    destruct (Z.leb_spec Second (t - mw_window m)); [lia|]. cbn. by destruct (mw_Rate m <=? mw_count m). }
  assert (t0 ≤ mw_window m → mw_count (snd (allow_at t m)) = mw_count m + (if fst (allow_at t m) then 1 else 0)) as Hc.
  { unfold allow_at, time_IsZero. intros Hw'. destruct (Z.eqb_spec (mw_window m) 0); [lia|].
    destruct (Z.leb_spec Second (t - mw_window m)); [lia|]. cbn. destruct (mw_Rate m <=? mw_count m); cbn; lia. }
  destruct (allow_at t m) as [ok m'] eqn:E. cbn in Hw, Hc. destruct Hs as (Hm' & Er & Hs).
  destruct (IH m' Hm' Ht2) as [IH1 IH2]. rewrite Er in *. unfold rate_inv in *. split.
  - destruct Hs as [(Ew & _ & Ec)|[Ew Ec]]; [lia|]. specialize (IH2 ltac:(lia)). lia.
  - intros Hle. specialize (Hw Hle). specialize (Hc Hle). specialize (IH2 ltac:(lia)). lia.
Qed.

(** C34. The rate limit holds over every interval: of the requests that arrive
    within any second, at most twice the configured rate are let through (an
    interval can meet two windows), and at most the rate when the limiter has
    just started; a request is let through again once a second has passed. *)
Theorem rate_limit_bound (m : Middleware) (t0 : time) (times : list time) :
  rate_inv m → 0 < t0 → Forall (λ t, t0 ≤ t < t0 + Second) times →
  allowed times m ≤ 2 * mw_Rate m ∧
  (mw_window m = 0 → allowed times m ≤ mw_Rate m) ∧
  (∀ t, mw_window m + Second ≤ t → 0 < mw_Rate m → fst (allow_at t m) = true).
Proof.
  intros Hm H0 Ht. destruct (allowed_bound t0 H0 times m Hm Ht) as [H1 _]. split_and!.
  - unfold rate_inv in Hm. lia.
  - intros Hz. destruct times as [|t times]; cbn [allowed]; [unfold rate_inv in Hm; lia|].
    inversion Ht as [|?? Ht1 Ht2]; subst. pose proof (allow_at_spec t m Hm) as Hs.
    assert (mw_window (snd (allow_at t m)) = t ∧ mw_count (snd (allow_at t m)) = if fst (allow_at t m) then 1 else 0) as Hw.
    { unfold allow_at, time_IsZero. rewrite Hz. cbn. by destruct (mw_Rate m <=? 0). }
    destruct (allow_at t m) as [ok m']. cbn in Hw. destruct Hs as (Hm' & Er & _), Hw as [Ew Ec].
    destruct (allowed_bound t0 H0 times m' Hm' Ht2) as [_ IH2]. specialize (IH2 ltac:(lia)). lia.
  - intros t Ht' Hr. unfold allow_at. destruct (Z.leb_spec Second (t - mw_window m)); [|lia].
    rewrite orb_true_r. destruct (Z.leb_spec (mw_Rate m) 0); [lia|]. done.
Qed.

(** ** Routes *)

(** No path matches both patterns: a literal meets another literal, a wildcard
    another continuation, or the lengths differ. *)
Fixpoint disjoint (p q : pattern) : bool :=
  match p, q with
  | PLit s p', PLit t q' => negb (bool_decide (s = t)) || disjoint p' q'
  | PWild _ l, PWild _ l' => negb (bool_decide (l = l'))
  | PLit _ _, PEnd _ | PEnd _, PLit _ _ | PWild _ _, PEnd _ | PEnd _, PWild _ _
  | PTree _, PEnd _ | PEnd _, PTree _ => true
  | _, _ => false
  end.

Lemma disjoint_match p q : disjoint p q = true →
  ∀ segs, pattern_match p segs = None ∨ pattern_match q segs = None.
Proof.
  revert q. induction p as [s p IH|e l|e|e]; intros q Hd segs; destruct q as [t q|e' l'|e'|e'];
    try discriminate Hd; destruct segs as [|x segs]; try (by left); try (by right); cbn in *.
  - repeat case_bool_decide; subst; auto.
  - apply negb_true_iff, bool_decide_eq_false in Hd. repeat case_bool_decide; auto. naive_solver.
Qed.

(** Two routes of the same method, as positions of the table. *)
Definition conflicting (i j : nat) : bool :=
  match routes !! i, routes !! j with
  | Some (m1, p1), Some (m2, p2) => bool_decide (m1 = m2) && negb (disjoint p1 p2)
  | _, _ => false
  end.

Lemma no_conflicts :
  forallb (λ i, forallb (λ j, (i =? j)%nat || negb (conflicting i j)) (seq 0 (length routes)))
    (seq 0 (length routes)) = true.
Proof. vm_compute. reflexivity. Qed.

Lemma route_unique i j m p1 p2 segs :
  routes !! i = Some (m, p1) → routes !! j = Some (m, p2) →
  is_Some (pattern_match p1 segs) → is_Some (pattern_match p2 segs) → i = j.
Proof.
  intros H1 H2 [e1 E1] [e2 E2]. pose proof no_conflicts as Hc. rewrite forallb_forall in Hc.
  assert (∀ n x, routes !! n = Some x → In n (seq 0 (length routes))) as Hin.
  { intros n x Hn. apply list_elem_of_In, elem_of_seq. apply lookup_lt_Some in Hn. lia. }
  specialize (Hc i (Hin _ _ H1)). rewrite forallb_forall in Hc. specialize (Hc j (Hin _ _ H2)).
  apply orb_true_iff in Hc as [Hij|Hc]; [by apply Nat.eqb_eq|].
  unfold conflicting in Hc. rewrite H1, H2, bool_decide_eq_true_2 in Hc by done. cbn in Hc.
  rewrite negb_involutive in Hc. destruct (disjoint_match p1 p2 Hc segs); congruence.
Qed.

(** The routes do not overlap: a path matches at most one pattern of a
    method, so the request is handled by the same handler whatever the order
    of registration and the mux's precedence rules. *)
Theorem routes_unambiguous (i j : nat) (m : string) (p1 p2 : pattern) (path : string) :
  routes !! i = Some (m, p1) → routes !! j = Some (m, p2) →
  is_Some (pattern_match p1 (segments path)) → is_Some (pattern_match p2 (segments path)) → i = j.
Proof. apply route_unique. Qed.

(** ** Witnesses *)
Definition demo_request (method path auth : string) : Request :=
  mkRequest method path (λ _, "") auth "req-1" [] 0.

(** A decoder that accepts one document of each kind. *)
Definition demo_decoder : RequestJSON.
Proof.
  refine {|
    dec_Create := λ _ _, inr (mkCreate "jobs" KindQueue true 3 "" "");
    dec_Bind := λ _ _, inl "unexpected end of JSON input";
    dec_Pause := λ _ _, inr None; dec_Replay := λ _ _, inr 10; dec_Declare := λ _ _, inr "conn";
    dec_Publish := λ _ _, inr (mkPublishRequest "jobs" "" None "hello" 4 "1h" false);
    dec_Consumer := λ _ _, inr ("c9", "jobs", 5, AtLeastOnce);
    dec_Settle := λ _ _, inl "http: request body too large" |}.
  intros limit b id a n sem [= <- <- <- <-]. lia.
Defined.

Definition no_console (path : string) : response := mkResponse 404 (PText []).

Definition api_on (r : Runtime Snapshot) : api Snapshot :=
  Handler r (mkMiddleware "secret" false Second 1024 10 0 0).

Lemma api_on_wf r : wf_broker (rn_Delivery r) → wf_broker (rn_Delivery (ap_Runtime (api_on r))).
Proof. done. Qed.

Definition demo_api : api Snapshot := api_on (fst running).

Abbreviation demo_serve r :=
  (serve (orc := test_oracle) (mtch := StandardMatcher) (H0 := demo_decoder) no_console r (demo_api, snd running)).

Lemma demo_status (r : Request) (st : Z) :
  (match fst (demo_serve r) with Ok (_, rs) => rs_Status rs | _ => 0 end) = st → st ≠ 0 →
  ∃ id rs a' n', demo_serve r = (Ok (id, rs), (a', n')) ∧ rs_Status rs = st.
Proof.
  intros Hst H0. destruct (demo_serve r) as [[[id rs]|e|] [a' n']]; cbn in Hst; [|congruence..].
  by exists id, rs, a', n'.
Qed.

Lemma demo_published : ∃ id rs a' n',
  demo_serve (demo_request "POST" "/v1/messages" "Bearer secret") = (Ok (id, rs), (a', n')) ∧ rs_Status rs = 201.
Proof. apply demo_status; [vm_compute; reflexivity|done]. Qed.

Lemma demo_refused : ∃ id rs a' n',
  demo_serve (demo_request "POST" "/v1/messages" "Bearer guess") = (Ok (id, rs), (a', n')) ∧ rs_Status rs = 401.
Proof. apply demo_status; [vm_compute; reflexivity|done]. Qed.

Lemma demo_shards : cs_shards (fst (rn_Cluster (ap_Runtime demo_api))) ≠ 0.
Proof. vm_compute. discriminate. Qed.

(** Publishing with the token is answered with 201. *)
Lemma http_refines_broker_witness : ∃ id rs a' n',
  demo_serve (demo_request "POST" "/v1/messages" "Bearer secret") = (Ok (id, rs), (a', n')) ∧
  rs_Status rs = 201 ∧ rtc step (rn_Delivery (ap_Runtime demo_api)) (rn_Delivery (ap_Runtime a')).
Proof.
  destruct demo_published as (id & rs & a' & n' & E & Hst). exists id, rs, a', n'.
  split; [exact E|]. split; [exact Hst|].
  exact (proj1 (proj2 (http_refines_broker test_oracle StandardMatcher Snapshot demo_decoder no_console
    (demo_request "POST" "/v1/messages" "Bearer secret") demo_api a' (snd running) n' (Ok (id, rs))
    (api_on_wf (fst running) running_wf) demo_shards E))).
Defined.

Lemma token_required_witness : ∃ id rs a' n',
  demo_serve (demo_request "POST" "/v1/messages" "Bearer guess") = (Ok (id, rs), (a', n')) ∧
  rs_Status rs = 401 ∧ ap_Runtime a' = ap_Runtime demo_api.
Proof.
  destruct demo_refused as (id & rs & a' & n' & E & Hst). exists id, rs, a', n'.
  split; [exact E|]. split; [exact Hst|].
  refine (proj1 (token_required test_oracle StandardMatcher Snapshot demo_decoder no_console
    (demo_request "POST" "/v1/messages" "Bearer guess") demo_api a' (snd running) n' (Ok (id, rs)) _ _ _ E)).
  - reflexivity.
  - apply (bool_decide_unpack _). vm_compute. exact I.
  - intros [_ [He|[He _]]]; vm_compute in He; discriminate He.
Defined.

Lemma rate_limit_bound_witness :
  let m := mkMiddleware "" true Second 1024 2 Second 1 in
  let times := [2 * Second - 1; 2 * Second; 2 * Second + 1; 2 * Second + 2] in
  allowed times m = 3 ∧ allowed times m ≤ 2 * 2.
Proof.
  intros m times. split; [vm_compute; reflexivity|].
  apply (rate_limit_bound m (2 * Second - 1) times).
  - split; cbn; lia.
  - vm_compute. reflexivity.
  - repeat constructor; vm_compute; congruence.
Defined.

Lemma routes_unambiguous_witness : ∃ i m p, routes !! i = Some (m, p) ∧
  pattern_match p (segments "/v1/transactions/t1/commit") = Some (ECommit "t1") ∧ i = 16%nat.
Proof.
  exists 16%nat, "POST", (lits ["v1"; "transactions"] (PWild ECommit ["commit"])).
  split; [reflexivity|]. split; [vm_compute; reflexivity|].
  apply (routes_unambiguous 16 16 "POST" (lits ["v1"; "transactions"] (PWild ECommit ["commit"]))
    (lits ["v1"; "transactions"] (PWild ECommit ["commit"])) "/v1/transactions/t1/commit").
  - reflexivity.
  - reflexivity.
  - vm_compute. eexists. reflexivity.
  - vm_compute. eexists. reflexivity.
Defined.
