(* ===== verification/HttpApi.v ===== *)
(** * The HTTP interface, request by request

    The contract of the management interface, as a table from method and path
    to the service that is asked, and the theorem that [serve] keeps it
    through the whole chain: rate limit, token, timeout, mux, decoding and
    handler.  [asks] is written from the paths themselves, so a route that
    leads to another handler, a handler that calls another service, ignores an
    error or answers with another status does not satisfy it. *)

From Stdlib Require Import Ascii String.
From S2P Require Import Prelude Bytes Text Duration Matcher Address Message Transaction Env.
From S2P Require Import Memory BodyLog FileLog FileLogFacts Router Delivery DeliveryInv DeliveryFacts.
From S2P Require Import TxService TxFacts Broker Cluster Connection Registry Session Link Peer.
From S2P Require Import Snapshot Runtime Http HttpFacts.

(** ** Paths *)

(** A part of a path that the mux leaves as it is. *)
Definition plain_part (s : string) : Prop :=
  c_slash ∉ string_bytes s ∧ s ≠ "" ∧ s ≠ "." ∧ s ≠ "..".

Lemma split_loop_app sep w : sep ∉ w → ∀ cur l, split_loop sep cur (w ++ sep :: l) = (reverse cur ++ w) :: split_loop sep [] l.
Proof.
  induction w as [|c w IH]; intros Hw cur l; cbn.
  - rewrite bool_decide_eq_true_2 by done. by rewrite app_nil_r.
  - apply not_elem_of_cons in Hw as [Hc Hw]. rewrite bool_decide_eq_false_2 by done.
    rewrite IH by done. rewrite reverse_cons, <-app_assoc. done.
Qed.

Lemma split_loop_end sep w : sep ∉ w → ∀ cur, split_loop sep cur w = [reverse cur ++ w].
Proof.
  induction w as [|c w IH]; intros Hw cur; cbn; [by rewrite app_nil_r|].
  apply not_elem_of_cons in Hw as [Hc Hw]. rewrite bool_decide_eq_false_2 by done.
  rewrite IH by done. by rewrite reverse_cons, <-app_assoc.
Qed.

Lemma string_bytes_slash p : string_bytes ("/" +:+ p)%string = c_slash :: string_bytes p.
Proof. by rewrite string_bytes_app. Qed.

Lemma path_parts_rooted parts :
  Forall (λ s, c_slash ∉ string_bytes s) parts → path_parts (rooted parts) = parts.
Proof.
  unfold path_parts, split_string, Split. destruct parts as [|s parts]; [done|]. intros Hp.
  assert (∀ s w, Forall (λ s, c_slash ∉ string_bytes s) (s :: parts) → w = string_bytes s →
    bytes_string <$> split_loop c_slash [] (string_bytes (s +:+ rooted parts)%string) = s :: parts) as Hgo.
  { clear. induction parts as [|t parts IH]; intros s w Hs _; apply Forall_cons in Hs as [Hs Hl].
    - cbn. rewrite string_bytes_app. cbn. rewrite app_nil_r, split_loop_end by done. cbn. by rewrite bytes_string_bytes.
    - cbn [rooted foldr]. rewrite string_bytes_app, string_bytes_slash, split_loop_app by done.
      rewrite fmap_cons. cbn [reverse rev_append app]. rewrite bytes_string_bytes. f_equal. by eapply IH. }
  cbn [rooted foldr]. rewrite string_bytes_slash. cbn [split_loop]. rewrite bool_decide_eq_true_2 by done.
  cbn [fmap list_fmap drop]. rewrite drop_0. by eapply Hgo.
Qed.

Lemma clean_parts_plain parts out :
  Forall plain_part parts → foldl clean_part out parts = out ++ parts.
Proof.
  revert out. induction parts as [|s parts IH]; intros out Hp; cbn; [by rewrite app_nil_r|].
  apply Forall_cons in Hp as [(_ & H1 & H2 & H3) Hp]. unfold clean_part at 2.
  rewrite !bool_decide_eq_false_2 by done. cbn [orb]. rewrite IH by done. by rewrite <-app_assoc.
Qed.

Lemma last_rooted parts s :
  plain_part s → last (string_bytes (rooted (parts ++ [s]))) ≠ Some c_slash.
Proof.
  intros (Hs & Hne & _).
  assert (last (string_bytes s) ≠ Some c_slash) as Hl.
  { intros E. apply last_Some_elem_of in E. done. }
  assert (string_bytes s ≠ []) as Hnil.
  { intros E. apply Hne. rewrite <-(bytes_string_bytes s), E. done. }
  induction parts as [|t parts IH].
  - cbn. rewrite !string_bytes_app. cbn. rewrite app_nil_r, last_cons.
    by destruct (last (string_bytes s)) eqn:E; [|apply last_None in E].
  - change (rooted ((t :: parts) ++ [s])) with ("/" +:+ t +:+ rooted (parts ++ [s]))%string.
    rewrite !string_bytes_app, !last_app.
    destruct (last (string_bytes (rooted (parts ++ [s])))) eqn:E; [done|].
    apply last_None in E. exfalso. clear -E. destruct parts; cbn in E; by rewrite !string_bytes_app in E.
Qed.

Lemma clean_rooted parts : parts ≠ [] → Forall plain_part parts → clean_path (rooted parts) = rooted parts.
Proof.
  intros Hne Hp. unfold clean_path.
  assert (Forall (λ s, c_slash ∉ string_bytes s) parts) as Hs by (eapply Forall_impl; [exact Hp|]; by intros s []).
  assert (string_bytes (rooted parts) !! 0%nat = Some c_slash) as H0.
  { destruct parts; [done|]. cbn [rooted foldr]. by rewrite string_bytes_slash. }
  rewrite (bool_decide_eq_true_2 _ H0), path_parts_rooted, clean_parts_plain by done. cbn [app].
  rewrite bool_decide_eq_false_2 by done.
  destruct parts as [|s parts] using rev_ind; [done|]. clear IHparts.
  apply Forall_app in Hp as [_ [Hp _]%Forall_cons].
  rewrite bool_decide_eq_false_2 by by apply last_rooted. apply string_bytes_inj.
  by rewrite string_bytes_app, app_nil_r.
Qed.

Lemma segments_rooted parts :
  parts ≠ [] → Forall plain_part parts → segments (rooted parts) = path_unescape <$> parts.
Proof.
  intros Hne Hp. unfold segments. rewrite path_parts_rooted by (eapply Forall_impl; [exact Hp|]; by intros s []).
  clear Hne. induction Hp as [|s parts (_ & Hs & _) Hp IH]; [done|]. cbn [match_segments fmap list_fmap].
  destruct parts; [by rewrite bool_decide_eq_false_2|]. by rewrite IH.
Qed.

#[global] Instance plain_part_dec s : Decision (plain_part s).
Proof. unfold plain_part. apply _. Defined.

Lemma mux_rooted method parts :
  parts ≠ [] → Forall plain_part parts →
  mux method (rooted parts) =
    let found := omap (λ r, (λ e, (r.1, e)) <$> pattern_match r.2 (path_unescape <$> parts)) routes in
    match List.find (λ r, method_serves r.1 method) found with
    | Some (_, e) => inr e
    | None => inl (mkResponse (if bool_decide (found = []) then 404 else 405) (PText []))
    end.
Proof.
  intros Hne Hp. unfold mux. rewrite bool_decide_eq_false_2.
  2: { destruct parts; [done|]. cbn [rooted foldr]. intros E. by apply (f_equal string_bytes) in E. }
  rewrite bool_decide_eq_false_2 by (intros [_ []]; by apply clean_rooted). by rewrite segments_rooted.
Qed.

(** A route is taken when its pattern matches. *)
Lemma mux_route method parts i p e :
  method ≠ "HEAD" → routes !! i = Some (method, p) → parts ≠ [] → Forall plain_part parts →
  pattern_match p (path_unescape <$> parts) = Some e → mux method (rooted parts) = inr e.
Proof.
  intros Hm Hi Hne Hp He. rewrite mux_rooted by done. cbn zeta.
  set (f := λ r : string * pattern, _). set (segs := path_unescape <$> parts) in *.
  assert (∀ x, method_serves x method = true ↔ x = method) as Hserves.
  { intros x. unfold method_serves. rewrite orb_true_iff, andb_true_iff, !bool_decide_eq_true. naive_solver. }
  destruct (List.find _ _) as [[m' e']|] eqn:Ef.
  - apply List.find_some in Ef as [Hin Hs]. cbn in Hs. apply Hserves in Hs as ->.
    apply list_elem_of_In, list_elem_of_omap in Hin as ([m2 p2] & Hin & E2). unfold f in E2. cbn in E2.
    apply fmap_Some in E2 as (e2 & E2 & [= <- ->]). apply list_elem_of_lookup in Hin as [j Hj].
    assert (i = j) as <- by (eapply route_unique; [exact Hi|exact Hj|by eexists|by eexists]). congruence.
  - exfalso. eapply List.find_none in Ef; [|apply list_elem_of_In, list_elem_of_omap].
    2: { exists (method, p). split; [by eapply list_elem_of_lookup_2|]. unfold f. cbn. by rewrite He. }
    cbn in Ef. apply not_true_iff_false in Ef. by apply Ef, Hserves.
Qed.

(** The parts of a path of the interface: literal ones, and one from the
    client. *)
Ltac plain := solve [apply (bool_decide_unpack _); vm_compute; exact I | assumption].
Ltac plain_parts := repeat (apply Forall_cons_2; [plain|]); apply Forall_nil_2.

(** ** The contract *)
Section contract.
Context `{orc : Oracle, mtch : !Matcher} {D : Type} `{RequestJSON}.

(** What a request is answered with: a fixed response, or the result of one
    call of a service; [count] is what it does to the counters. *)
Inductive outcome :=
  | Answers (status : Z) (p : payload) (count : Metrics → Metrics)
  | Calls {A : Type} (m : env (Runtime D) A) (status : Z) (shape : A → payload) (count : A → Metrics → Metrics)
      (failure : Z) (code : string).

(** The outcome for the decoded body; one that cannot be decoded is refused. *)
Definition body {A} (dec : Z → bytes → string + A) (limit : Z) (r : Request) (o : A → outcome) : outcome :=
  match dec limit (rq_Body r) with
  | inl text => Answers (if too_large text then 413 else 400) (PError "invalid_json" (ErrNew text)) id
  | inr x => o x
  end.

(** The message in the body; a TTL that is no duration is refused. *)
Definition message_body (limit : Z) (r : Request) (o : Publish → outcome) : outcome :=
  body dec_Publish limit r (λ q, match publishRequest_domain q with
    | Ok p => o p
    | Err e => Answers 422 (PError "invalid_message" e) count_failure
    | Panic => Answers 500 (PText []) id
    end).

Definition requests (r : Request) (method : string) (parts : list string) : Prop :=
  rq_Method r = method ∧ rq_EscapedPath r = rooted parts.

(** A part of the path that the client chooses: it names [path_unescape s]. *)
Definition client_part (s : string) : Prop := plain_part s ∧ path_unescape s ≠ "/".

Abbreviation uncounted := (λ _ m, m).

(** The interface: method and path, the service that is asked, the status and
    value of its success, the status and code of its failure. *)
Inductive asks (rt : Runtime D) (limit : Z) (r : Request) : outcome → Prop :=
  | asks_health :
      requests r "GET" ["healthz"] →
      asks rt limit r (Answers 200 (PText [("status", "ok")]) id)
  | asks_createAddress :
      requests r "POST" ["v1"; "addresses"] →
      asks rt limit r (body dec_Create limit r (λ c,
        Calls (on_broker (mem (address_Create c))) 201 PAddress uncounted 422 "invalid_address"))
  | asks_listAddresses :
      requests r "GET" ["v1"; "addresses"] →
      asks rt limit r (Calls (on_broker (mem address_List)) 200 PAddresses uncounted 500 "list_failed")
  | asks_createBinding :
      requests r "POST" ["v1"; "bindings"] →
      asks rt limit r (body dec_Bind limit r (λ b,
        Calls (on_broker (mem (address_Bind b))) 201 PBinding uncounted 422 "invalid_binding"))
  | asks_listBindings :
      requests r "GET" ["v1"; "bindings"] →
      asks rt limit r (Calls (on_broker (mem (address_ListBindings (rq_Query r "source")))) 200 PBindings uncounted
        500 "list_failed")
  | asks_depth s :
      requests r "GET" ["v1"; "addresses"; s; "depth"] → client_part s →
      asks rt limit r (Calls (on_broker (Service_Depth (path_unescape s))) 200 (PDepth (path_unescape s)) uncounted
        404 "address_not_found")
  | asks_pause s :
      requests r "POST" ["v1"; "addresses"; s; "pause"] → client_part s →
      asks rt limit r (body dec_Pause limit r (λ paused,
        Calls (on_broker (mem (address_Pause (path_unescape s) (default true paused)))) 200 PAddress uncounted
          404 "address_not_found"))
  | asks_replay :
      requests r "POST" ["v1"; "dead-letters"; "replay"] →
      let replay n := Calls (on_broker (ReplayDead (if n <=? 0 then 100 else n))) 200 PReplayed uncounted
        500 "replay_failed" in
      asks rt limit r (if 0 <? rq_ContentLength r then body dec_Replay limit r replay else replay 0)
  | asks_transaction s :
      requests r "GET" ["v1"; "transactions"; s] → client_part s →
      asks rt limit r (Calls (on_broker (Tx_Get (path_unescape s))) 200 PTransaction uncounted
        404 "transaction_not_found")
  | asks_declare :
      requests r "POST" ["v1"; "transactions"] →
      asks rt limit r (body dec_Declare limit r (λ conn,
        Calls (on_broker (Declare_tx (rn_txTTL rt) conn)) 201 PTransaction uncounted 422 "declare_failed"))
  | asks_commit s :
      requests r "POST" ["v1"; "transactions"; s; "commit"] → client_part s →
      asks rt limit r (Calls (on_broker (Tx_Commit (path_unescape s))) 200 PTransaction uncounted 409 "commit_failed")
  | asks_rollback s :
      requests r "POST" ["v1"; "transactions"; s; "rollback"] → client_part s →
      asks rt limit r (Calls (on_broker (Tx_Rollback (path_unescape s))) 200 PTransaction uncounted
        409 "rollback_failed")
  | asks_publish :
      requests r "POST" ["v1"; "messages"] →
      asks rt limit r (message_body limit r (λ p,
        Calls (on_broker (Service_Publish p)) 201 PRouted (λ l, count_published (Z.of_nat (length l)))
          422 "publish_failed"))
  | asks_stage s :
      requests r "POST" ["v1"; "transactions"; s; "messages"] → client_part s →
      asks rt limit r (message_body limit r (λ p,
        Calls (on_broker (StagePublish (path_unescape s) p)) 202 PStaged uncounted 409 "stage_failed"))
  | asks_consumer :
      requests r "POST" ["v1"; "consumers"] →
      asks rt limit r (body dec_Consumer limit r (λ '(id, address, prefetch, sem),
        Calls (on_broker (Service_Register id address prefetch sem)) 201 PConsumer uncounted 422 "consumer_failed"))
  | asks_acquire s :
      requests r "POST" ["v1"; "consumers"; s; "acquire"] → client_part s →
      asks rt limit r (Calls (on_broker (Service_Acquire (path_unescape s))) 200 (λ '(msg, d), PDelivery d msg)
        (λ _, count_delivered) 409 "acquire_failed")
  | asks_settle s :
      requests r "POST" ["v1"; "consumers"; s; "settle"] → client_part s →
      asks rt limit r (body dec_Settle limit r (λ '(d, state),
        Calls (on_broker (Service_Settle (path_unescape s) d state)) 200 (λ _, PSettled) uncounted
          409 "settlement_failed"))
  | asks_ensureLease s :
      requests r "POST" ["v1"; "cluster"; "leases"; s] → client_part s →
      asks rt limit r (Calls (on rn_Cluster set_cluster (Service_Ensure (path_unescape s))) 201 PLease uncounted
        409 "lease_failed")
  | asks_leases :
      requests r "GET" ["v1"; "cluster"; "leases"] →
      asks rt limit r (Calls (on rn_Cluster set_cluster Service_Leases) 200 PLeases uncounted
        500 "lease_list_failed").

(** The response and the state that the outcome prescribes, when the service is
    called in the state [a] with the environment at [n]. *)
Definition obeys (o : outcome) (a : api D) (n : nat) (rs : response) (a' : api D) : Prop :=
  match o with
  | Answers status p count =>
      rs = mkResponse status p ∧ ap_Runtime a' = ap_Runtime a ∧ ap_Metrics a' = count (ap_Metrics a)
  | Calls m status shape count failure code =>
      ∃ x n', m (ap_Runtime a, n) = (x, (ap_Runtime a', n')) ∧
      match x with
      | Ok v => rs = mkResponse status (shape v) ∧ ap_Metrics a' = count v (ap_Metrics a)
      | Err e => rs = mkResponse failure (PError code e) ∧ ap_Metrics a' = count_failure (ap_Metrics a)
      | Panic => False
      end
  end.

(** A handler that keeps to the outcome, unless it panics. *)
Definition handles (h : env (api D) response) (o : outcome) (a : api D) : Prop :=
  ∀ n, match h (a, n) with
       | (Ok rs, (a', _)) => obeys o a n rs a'
       | (Err _, _) => False
       | (Panic, _) => True
       end.

Lemma handles_call {A} (m : env (Runtime D) A) status shape count failure code k a :
  (∀ v (s : api D * nat), k v s = (Ok (mkResponse status (shape v)),
     (mkApi (ap_Runtime s.1) (count v (ap_Metrics s.1)) (ap_Middleware s.1), s.2))) →
  handles (answer (on_runtime m) failure code k) (Calls m status shape count failure code) a.
Proof.
  intros Hk n. unfold answer, try, on_runtime, on, mbind, go_bind. cbn [fst snd].
  destruct (m (ap_Runtime a, n)) as [[v|e|] [rt n']] eqn:E; [|by exists (Err e), n'|done].
  rewrite Hk. cbn. by exists (Ok v), n'.
Qed.

Lemma handles_answer status p a : handles (JSON status p) (Answers status p id) a.
Proof. by intros n. Qed.

Lemma handles_decode {A} (dec : Z → bytes → string + A) r k o limit a :
  mw_BodyLimit (ap_Middleware a) = limit → (∀ x, handles (k x) (o x) a) →
  handles (decode dec r k) (body dec limit r o) a.
Proof.
  intros <- Hk n. unfold decode, body, get_, mbind, go_bind. cbn [fst snd].
  destruct (dec _ _) as [text|x]; [done|]. apply Hk.
Qed.

Lemma handles_message r k o limit a :
  mw_BodyLimit (ap_Middleware a) = limit → (∀ p, handles (k p) (o p) a) →
  handles (decode dec_Publish r (λ q, answer (lift (publishRequest_domain q)) 422 "invalid_message" k))
    (message_body limit r o) a.
Proof.
  intros Hl Hk. apply handles_decode; [done|]. intros q n. unfold answer, try, lift, mbind, go_bind.
  pose proof (domain_no_panic q) as Hp. destruct (publishRequest_domain q) as [p|e|]; [apply Hk|done|done].
Qed.
End contract.

Ltac route i := exists i; eexists; split; [reflexivity|]; cbn [fmap list_fmap lits pattern_match];
  repeat rewrite bool_decide_eq_true_2 by (done || by split); reflexivity.

Section handled.
Context `{orc : Oracle, mtch : !Matcher} {D : Type} `{RequestJSON} (console : string → response).

(** The mux leads to the endpoint of the table. *)
Lemma requests_mux r method parts e :
  requests r method parts → method ≠ "HEAD" → parts ≠ [] → Forall plain_part parts →
  (∃ i p, routes !! i = Some (method, p) ∧ pattern_match p (path_unescape <$> parts) = Some e) →
  mux (rq_Method r) (rq_EscapedPath r) = inr e.
Proof. intros [-> ->] Hm Hne Hp (i & p & Hi & He). by apply (mux_route _ _ i p). Qed.

Ltac led_to e i :=
  exists e; split; [eapply requests_mux; [eassumption|done|done|plain_parts|route i]|];
  cbn [handle_endpoint]; autounfold with handlers.
Ltac calling := apply handles_call; intros ? [[] ?]; reflexivity.

Lemma asks_handled r o (a : api D) :
  asks (ap_Runtime a) (mw_BodyLimit (ap_Middleware a)) r o →
  ∃ e, mux (rq_Method r) (rq_EscapedPath r) = inr e ∧ handles (handle_endpoint console e r) o a.
Proof.
  intros Ha. destruct Ha; try match goal with Hc : client_part _ |- _ => destruct Hc as [Hplain Hslash] end.
  - led_to EHealth 2%nat. apply handles_answer.
  - led_to ECreateAddress 6%nat. apply handles_decode; [done|]. intros c. calling.
  - led_to EListAddresses 7%nat. calling.
  - led_to ECreateBinding 8%nat. apply handles_decode; [done|]. intros c. calling.
  - led_to EListBindings 9%nat. calling.
  - led_to (EDepth (path_unescape s)) 10%nat. calling.
  - led_to (EPause (path_unescape s)) 11%nat. apply handles_decode; [done|]. intros c. calling.
  - led_to EReplay 12%nat. destruct (0 <? rq_ContentLength r); [apply handles_decode; [done|]; intros c|]; calling.
  - led_to (ETransaction (path_unescape s)) 14%nat. calling.
  - led_to EDeclare 15%nat. apply handles_decode; [done|]. intros c n. unfold get_, mbind at 1, go_bind at 1. cbn [fst].
    revert n. change (handles (answer (on_service (Declare_tx (rn_txTTL (ap_Runtime a)) c)) 422 "declare_failed"
      (λ t, JSON 201 (PTransaction t))) (Calls (on_broker (Declare_tx (rn_txTTL (ap_Runtime a)) c)) 201 PTransaction
      (λ _ m, m) 422 "declare_failed") a). calling.
  - led_to (ECommit (path_unescape s)) 16%nat. calling.
  - led_to (ERollback (path_unescape s)) 17%nat. calling.
  - led_to EPublish 18%nat. apply handles_message; [done|]. intros p. calling.
  - led_to (EStagePublish (path_unescape s)) 19%nat. apply handles_message; [done|]. intros p. calling.
  - led_to ECreateConsumer 20%nat. apply handles_decode; [done|]. intros [[[cid addr] n] sem]. calling.
  - led_to (EAcquire (path_unescape s)) 21%nat. apply handles_call. by intros [msg d] [[] ?].
  - led_to (ESettle (path_unescape s)) 22%nat. apply handles_decode; [done|]. intros [d st]. calling.
  - led_to (EEnsureLease (path_unescape s)) 23%nat. calling.
  - led_to ELeases 24%nat. calling.
Qed.
End handled.

(** ** The whole chain *)

(** The client may use the interface: anonymous access is on, or it sends the
    configured token. *)
Definition admits (m : Middleware) (r : Request) : Prop :=
  mw_AllowAnonymous m = true ∨
  mw_Token m ≠ "" ∧ rq_Authorization r = ("Bearer " +:+ mw_Token m)%string.

(** The state in which the mux is entered, as far as handlers see it. *)
Definition counted {D} (a : api D) : api D :=
  mkApi (ap_Runtime a) (count_request (ap_Metrics a)) (ap_Middleware a).

Definition timed_out : response := mkResponse 503 (PError "timeout" (ErrNew "request timed out")).
Definition limited_out : response := mkResponse 429 (PError "rate_limited" (ErrNew "request rate exceeded")).

(** The limiter turns a request away at the time [now]. *)
Definition over_rate (m : Middleware) (now : time) : Prop :=
  0 < mw_Rate m ∧ fst (allow_at now m) = false.

Lemma obeys_counted {D} (o : outcome (D := D)) (a b a' : api D) n rs :
  ap_Runtime a = ap_Runtime b → ap_Metrics a = ap_Metrics b → obeys o a n rs a' → obeys o b n rs a'.
Proof. intros E1 E2. destruct o; cbn; by rewrite E1, E2. Qed.

Section chain.
Context `{orc : Oracle, mtch : !Matcher} {D : Type} `{RequestJSON} (console : string → response).
Implicit Types a : api D.

(** What [asks] prescribes for a request that comes through, and what it sees. *)
Definition kept_contract (o : outcome (D := D)) a (rs : response) (a' : api D) : Prop :=
  (∃ now, over_rate (ap_Middleware a) now) ∧ rs = limited_out ∧
    ap_Runtime a' = ap_Runtime a ∧ ap_Metrics a' = ap_Metrics a ∨
  ∃ k rs1, obeys o (counted a) k rs1 a' ∧ (rs = rs1 ∨ rs = timed_out).

Lemma admits_authorized m r : admits m r → authorized m r = true.
Proof. rewrite authorized_exact. unfold admits. tauto. Qed.

Lemma instrument_kept r o a k b0 :
  k ≠ 0 → wf_broker b0 → api_ok k b0 a →
  asks (ap_Runtime a) (mw_BodyLimit (ap_Middleware a)) r o →
  wpe (timeout (instrument console r)) (λ y a', ∃ rs, y = Ok rs ∧
    ∃ k rs1, obeys o (counted a) k rs1 a' ∧ (rs = rs1 ∨ rs = timed_out)) a.
Proof.
  intros Hk Hw Ha Hasks. unfold timeout. wpe_step. unfold instrument, on_metrics. wpe_step. wpe_step.
  destruct (asks_handled console r o (counted a) Hasks) as (e & -> & Hh).
  pose proof (endpoint_answered console k b0 Hk Hw e r (counted a) Ha) as Hok.
  intros n. specialize (Hh n). specialize (Hok n). fold (counted a).
  destruct (handle_endpoint console e r (counted a, n)) as [[rs|e'|] [a' n']]; [|done|by destruct Hok].
  cbn [fst snd]. unfold JSON. wpe_auto; (eexists; split; [done|]); exists n, rs; auto.
Qed.

Lemma chain_kept r o a k b0 :
  k ≠ 0 → wf_broker b0 → api_ok k b0 a → admits (ap_Middleware a) r →
  asks (ap_Runtime a) (mw_BodyLimit (ap_Middleware a)) r o →
  wpe (recoverer (limit (mw_authenticate r (timeout (instrument console r)))))
    (λ y a', ∃ rs, y = Ok rs ∧ kept_contract o a rs a') a.
Proof.
  intros Hk Hw Ha Hadm Hasks.
  assert (∀ m, mw_AllowAnonymous m = mw_AllowAnonymous (ap_Middleware a) → mw_Token m = mw_Token (ap_Middleware a) →
    mw_BodyLimit m = mw_BodyLimit (ap_Middleware a) →
    wpe (mw_authenticate r (timeout (instrument console r))) (λ y a', ∃ rs, y = Ok rs ∧ kept_contract o a rs a')
      (mkApi (ap_Runtime a) (ap_Metrics a) m)) as Hauth.
  { intros m E1 E2 E3. unfold mw_authenticate. wpe_step. wpe_step. cbn [ap_Middleware].
    rewrite (admits_authorized m r) by (unfold admits; by rewrite E1, E2).
    eapply wpe_mono; [eapply (instrument_kept r o _ k b0); [done|done|exact Ha|]; cbn; by rewrite E3|].
    intros y a' (rs & -> & j & rs1 & Ho & Hrs). exists rs. split; [done|]. right. exists j, rs1. split; [|done].
    by eapply obeys_counted; [..|exact Ho]. }
  assert (wpe (limit (mw_authenticate r (timeout (instrument console r))))
    (λ y a', ∃ rs, y = Ok rs ∧ kept_contract o a rs a') a) as Hlim.
  { unfold limit. wpe_step. wpe_step. wpe_step. destruct (Z.ltb_spec 0 (mw_Rate (ap_Middleware a))) as [Hr|Hr].
    - unfold allow. do 4 wpe_step. destruct (allow_at _ _) as [ok m] eqn:Ea. wpe_step. wpe_step. wpe_step.
      assert (mw_AllowAnonymous m = mw_AllowAnonymous (ap_Middleware a) ∧ mw_Token m = mw_Token (ap_Middleware a) ∧
        mw_BodyLimit m = mw_BodyLimit (ap_Middleware a)) as (E1 & E2 & E3).
      { unfold allow_at in Ea. case_match; by injection Ea as <- <-. }
      destruct ok; [by apply Hauth|]. unfold Error, JSON. cbn. wpe_auto. eexists. split; [done|]. left.
      split; [|done]. eexists. split; [done|]. by rewrite Ea.
    - wpe_step. destruct a. by apply Hauth. }
  intros n. specialize (Hlim n). unfold recoverer.
  destruct (limit _ (a, n)) as [[rs|e|] [a' n']]; [exact Hlim|by destruct Hlim as (? & ? & _)..].
Qed.
End chain.


(** ** Witnesses *)
Abbreviation demo_asks r o := (asks (orc := test_oracle) (mtch := StandardMatcher) (H := demo_decoder)
  (ap_Runtime demo_api) (mw_BodyLimit (ap_Middleware demo_api)) r o).

Definition publish_request : Request := demo_request "POST" "/v1/messages" "Bearer secret".
Definition depth_request : Request := demo_request "GET" "/v1/addresses/%6Aobs/depth" "Bearer secret".

Abbreviation published_outcome := (message_body (D := Snapshot) (H := demo_decoder)
  (mw_BodyLimit (ap_Middleware demo_api)) publish_request (λ p,
    Calls (on_broker (Service_Publish (orc := test_oracle) (mtch := StandardMatcher) p)) 201 PRouted
      (λ l, count_published (Z.of_nat (length l))) 422 "publish_failed")).

Abbreviation depth_outcome := (Calls (D := Snapshot)
  (on_broker (Service_Depth (orc := test_oracle) (path_unescape "%6Aobs"))) 200 (PDepth (path_unescape "%6Aobs"))
  (λ _ m, m) 404 "address_not_found").

