(* ===== verification/Grpc.v ===== *)
(** * The gRPC management interface

    Models [internal/platform/grpcx/server.go]: the interceptor, the six
    methods and their dispatch over the runtime.  A message is a [structpb]
    structure; [encoding/json] and [structpb], through which the conversions
    between structures and Go values go, are an interface.  Listening and the
    graceful stop are in Lifecycle.v. *)

From Stdlib Require Import Ascii String.
From S2P Require Import Prelude Bytes Text Duration Matcher Address Message Transaction Env.
From S2P Require Import Memory BodyLog FileLog FileLogFacts Router Delivery DeliveryInv TxService TxFacts.
From S2P Require Import Broker Cluster Connection Registry Session Link Peer Snapshot Runtime Http HttpFacts.

(** ** Structures *)
Inductive pb_value :=
  | PbNull | PbNumber (n : Z) | PbString (s : string) | PbBool (b : bool)
  | PbStruct (fields : list (string * pb_value)) | PbList (items : list pb_value).

Definition pb_struct : Type := gmap string pb_value.

Definition GetStringValue (v : option pb_value) : string :=
  match v with Some (PbString s) => s | _ => "" end.
Definition GetBoolValue (v : pb_value) : bool := match v with PbBool b => b | _ => false end.

(** The request is never nil: [dispatch] allocates it. *)
Definition stringField (fields : pb_struct) (name : string) : string := GetStringValue (fields !! name).

(** [encoding/json] and [structpb]: documents and generic maps are values of
    the libraries. *)
Class StructJSON := {
  json_document : Type;
  json_map : Type;
  struct_MarshalJSON : pb_struct → error + json_document;
  json_UnmarshalCreate : json_document → error + Create;
  json_MarshalPayload : payload → error + json_document;
  json_UnmarshalMap : json_document → error + json_map;
  NewStruct : json_map → error + pb_struct
}.

Definition fromStruct `{StructJSON} (fields : pb_struct) : error + Create :=
  match struct_MarshalJSON fields with
  | inl e => inl e
  | inr b => json_UnmarshalCreate b
  end.

Definition toStruct `{StructJSON} (v : payload) : error + pb_struct :=
  match json_MarshalPayload v with
  | inl e => inl e
  | inr b => match json_UnmarshalMap b with
             | inl e => inl e
             | inr raw => NewStruct raw
             end
  end.

(** [status.Error(code, text)] of the codes the server uses. *)
Inductive grpc_code := InvalidArgument | NotFound | Internal | Unauthenticated | Unknown.

Definition grpc_result : Type := (grpc_code * error) + pb_struct.

Inductive grpc_method := Health | CreateAddress | GetDepth | PauseAddress | ListConnections | GetTransaction.

Definition FullMethod (m : grpc_method) : string :=
  match m with
  | Health => "/broker.v1.Management/Health"
  | CreateAddress => "/broker.v1.Management/CreateAddress"
  | GetDepth => "/broker.v1.Management/GetDepth"
  | PauseAddress => "/broker.v1.Management/PauseAddress"
  | ListConnections => "/broker.v1.Management/ListConnections"
  | GetTransaction => "/broker.v1.Management/GetTransaction"
  end.

Record GrpcServer := mkGrpcServer { gs_Token : string; gs_AllowAnonymous : bool }.

(** [strings.HasSuffix]. *)
Definition HasSuffix (s suffix : string) : bool :=
  bool_decide (drop (length (string_bytes s) - length (string_bytes suffix)) (string_bytes s) =
               string_bytes suffix).

(** ** Methods *)
Section methods.
Context `{orc : Oracle} {D : Type} `{StructJSON} (srv : GrpcServer).

(** The tail of every method. *)
Definition reply (p : payload) : env (Runtime D) grpc_result :=
  mret (match toStruct p with inl e => inl (Internal, e) | inr s => inr s end).

Definition refuse (code : grpc_code) (e : error) : env (Runtime D) grpc_result := mret (inl (code, e)).

(** [x, err := m; if err != nil { return nil, status.Error(code, ...) }]. *)
Definition grpc_answer {A} (m : env (Runtime D) A) (code : grpc_code)
    (k : A → env (Runtime D) grpc_result) : env (Runtime D) grpc_result :=
  r ← try m;
  match r with inl e => refuse code e | inr a => k a end.

Definition g_Health : env (Runtime D) grpc_result :=
  r ← get_;
  reply (PText [("status", "ready"); ("node_id", rn_Config r)]).

Definition g_CreateAddress (fields : pb_struct) : env (Runtime D) grpc_result :=
  match fromStruct fields with
  | inl e => refuse InvalidArgument e
  | inr req => grpc_answer (on_broker (mem (address_Create req))) InvalidArgument (λ a, reply (PAddress a))
  end.

Definition g_GetDepth (fields : pb_struct) : env (Runtime D) grpc_result :=
  let name := stringField fields "name" in
  if bool_decide (name = "") then refuse InvalidArgument (ErrNew "name required")
  else grpc_answer (on_broker (Service_Depth name)) NotFound (λ n, reply (PDepth name n)).

Definition g_PauseAddress (fields : pb_struct) : env (Runtime D) grpc_result :=
  let name := stringField fields "name" in
  let paused := match fields !! "paused" with Some field => GetBoolValue field | None => true end in
  grpc_answer (on_broker (mem (address_Pause name paused))) NotFound (λ a, reply (PAddress a)).

Definition g_ListConnections : env (Runtime D) grpc_result :=
  items ← on rn_Connections (λ _ r, r) ConnRegistry_List;
  reply (PConnections items).

Definition g_GetTransaction (fields : pb_struct) : env (Runtime D) grpc_result :=
  grpc_answer (on_broker (Tx_Get (stringField fields "id"))) NotFound (λ t, reply (PTransaction t)).

Definition grpc_handler (m : grpc_method) (fields : pb_struct) : env (Runtime D) grpc_result :=
  match m with
  | Health => g_Health
  | CreateAddress => g_CreateAddress fields
  | GetDepth => g_GetDepth fields
  | PauseAddress => g_PauseAddress fields
  | ListConnections => g_ListConnections
  | GetTransaction => g_GetTransaction fields
  end.

(** The [authorization] values of the call's metadata. *)
Definition grpc_authorized (m : grpc_method) (authorization : list string) : bool :=
  gs_AllowAnonymous srv || HasSuffix (FullMethod m) "/Health" ||
  match authorization with
  | [value] => bool_decide (TrimPrefix value "Bearer " = gs_Token srv)
  | _ => false
  end.

Definition interceptor (m : grpc_method) (authorization : list string) (fields : pb_struct) :
    env (Runtime D) grpc_result :=
  if grpc_authorized m authorization then grpc_handler m fields
  else refuse Unauthenticated (ErrNew "valid bearer token required").

(** [dispatch]: a request that does not decode is refused by the library. *)
Definition dispatch (m : grpc_method) (authorization : list string) (raw : error + pb_struct) :
    env (Runtime D) grpc_result :=
  match raw with
  | inl e => refuse Unknown e
  | inr fields => interceptor m authorization fields
  end.
End methods.

(** ** Lemmas *)
Section answers.
Context `{orc : Oracle, mtch : !Matcher} {D : Type} `{StructJSON}.
Implicit Types r : Runtime D.

(** The method returned, and the runtime is good, see [runtime_ok]. *)
Definition returned (k : Z) (b0 : broker FileLog) (x : res grpc_result) (r : Runtime D) : Prop :=
  is_ok x ∧ runtime_ok k b0 r.

Lemma reply_returned p k b0 r : runtime_ok k b0 r → wpe (reply p) (returned k b0) r.
Proof. intros Hr. unfold reply. wpe_auto. by split. Qed.

Lemma refuse_returned c e k b0 r : runtime_ok k b0 r → wpe (refuse c e) (returned k b0) r.
Proof. intros Hr. unfold refuse. wpe_auto. by split. Qed.

Lemma grpc_answer_returned {A} (m : env (Runtime D) A) c p k b0 r :
  wpe m (λ x r', is_panic x = false ∧ runtime_ok k b0 r') r →
  wpe (grpc_answer m c (λ a, reply (p a))) (returned k b0) r.
Proof.
  intros Hm. unfold grpc_answer. wpe_step. wpe_step. eapply wpe_mono; [exact Hm|].
  intros [a|e|] r' [Hp Hr]; [by apply reply_returned|by apply refuse_returned|done].
Qed.

Lemma grpc_handler_returned m fields k b0 r :
  wf_broker b0 → runtime_ok k b0 r → wpe (grpc_handler m fields) (returned k b0) r.
Proof.
  intros Hw Hr. destruct m; cbn [grpc_handler].
  - unfold g_Health. wpe_auto. by apply reply_returned.
  - unfold g_CreateAddress. destruct (fromStruct fields) as [e|c]; [by apply refuse_returned|].
    apply grpc_answer_returned, (broker_called _ (CallCreate c)); [done|done|exact (ignore_performs _)|done].
  - unfold g_GetDepth. case_match; [by apply refuse_returned|].
    apply grpc_answer_returned, (broker_reads (Memory_Depth _)); [apply Depth_reads|done].
  - unfold g_PauseAddress. set (p := match _ with Some f => _ | None => _ end).
    apply grpc_answer_returned, (broker_called _ (CallPause (stringField fields "name") p));
      [done|done|exact (ignore_performs _)|done].
  - unfold g_ListConnections, ConnRegistry_List. wpe_auto. apply reply_returned. by destruct r.
  - unfold g_GetTransaction. apply grpc_answer_returned, (broker_reads (TransactionMemory_Get _)); [apply TxGet_reads|done].
Qed.

Lemma dispatch_returned srv m auth raw k b0 r :
  wf_broker b0 → runtime_ok k b0 r → wpe (dispatch srv m auth raw) (returned k b0) r.
Proof.
  intros Hw Hr. unfold dispatch, interceptor. repeat case_match; try by apply refuse_returned.
  by apply grpc_handler_returned.
Qed.
End answers.

(** ** Properties *)

(** Every gRPC call returns, and behind it is nothing but broker calls: a
    structure or a status, never a panic, whatever the method, the metadata
    and the request, and the broker's state afterwards is reached by calls of
    its services; a call that is not authorized changes nothing at all. *)
Theorem grpc_refines_broker (orc : Oracle) (D : Type) (HJ : StructJSON) (srv : GrpcServer)
    (m : grpc_method) (auth : list string) (raw : error + pb_struct) (r r' : Runtime D) (n n' : nat)
    (x : res grpc_result) :
  wf_broker (rn_Delivery r) → dispatch srv m auth raw (r, n) = (x, (r', n')) →
  is_ok x ∧ rtc step (rn_Delivery r) (rn_Delivery r') ∧ wf_broker (rn_Delivery r') ∧
  (grpc_authorized srv m auth = false → r' = r ∧ ∃ c e, x = Ok (inl (c, e))).
Proof.
  intros Hw E.
  assert (runtime_ok (cs_shards (fst (rn_Cluster r))) (rn_Delivery r) r) as Hr by done.
  pose proof (dispatch_returned srv m auth raw _ _ r Hw Hr) as Hd.
  destruct (wpe_elim _ _ _ _ _ _ _ Hd E) as [Hx [Hs _]]. split_and!; [done|done|by apply (steps_advance (rn_Delivery r))|].
  intros Ha. unfold dispatch, interceptor in E. rewrite Ha in E. destruct raw; by inversion E; eauto.
Qed.

(** ** The contract of the interface *)

(** Who may call: anyone when anonymous access is on, anyone for [Health], and
    who sends exactly one [authorization] value that is the token, after
    [Bearer ] or bare. *)
Definition grpc_admits (srv : GrpcServer) (m : grpc_method) (authorization : list string) : Prop :=
  gs_AllowAnonymous srv = true ∨ m = Health ∨
  ∃ value, authorization = [value] ∧
    (value = ("Bearer " +:+ gs_Token srv)%string ∨
     value = gs_Token srv ∧ ∀ t, gs_Token srv ≠ ("Bearer " +:+ t)%string).

Lemma grpc_authorized_exact srv m auth : grpc_authorized srv m auth = true ↔ grpc_admits srv m auth.
Proof.
  unfold grpc_authorized, grpc_admits. rewrite !orb_true_iff.
  assert (HasSuffix (FullMethod m) "/Health" = true ↔ m = Health) as -> by by destruct m.
  assert ((match auth with [value] => bool_decide (TrimPrefix value "Bearer " = gs_Token srv) | _ => false end) = true ↔
    ∃ value, auth = [value] ∧ (value = ("Bearer " +:+ gs_Token srv)%string ∨
      value = gs_Token srv ∧ ∀ t, gs_Token srv ≠ ("Bearer " +:+ t)%string)) as ->; [|tauto].
  destruct auth as [|value [|value' rest]]; [naive_solver| |naive_solver].
  rewrite bool_decide_eq_true, TrimPrefix_Some. split; [|by intros (v & [= <-] & [?|[? ?]]); subst; auto].
  intros Hv. exists value. split; [done|]. destruct Hv as [?|[? ?]]; subst; auto.
Qed.

Section contract.
Context `{orc : Oracle} {D : Type} `{StructJSON}.

Definition as_struct (p : payload) : grpc_result :=
  match toStruct p with inl e => inl (Internal, e) | inr s => inr s end.

(** A result that needs no service, or the one of a service. *)
Inductive grpc_outcome :=
  | GAnswers (y : grpc_result)
  | GCalls {A : Type} (m : env (Runtime D) A) (shape : A → payload) (code : grpc_code).

(** The text field [s] of a structure: empty when it is missing or no text. *)
Definition has_text (fields : pb_struct) (name s : string) : Prop :=
  match fields !! name with Some (PbString x) => s = x | _ => s = "" end.

(** The flag of a pause: on when it is missing, off when it is no flag. *)
Definition has_flag (fields : pb_struct) (name : string) (b : bool) : Prop :=
  match fields !! name with Some (PbBool x) => b = x | Some _ => b = false | None => b = true end.

(** The methods: the service that is asked, the value of its result and the
    code of its failure. *)
Inductive grpc_asks (r : Runtime D) (fields : pb_struct) : grpc_method → grpc_outcome → Prop :=
  | gasks_Health :
      grpc_asks r fields Health (GAnswers (as_struct (PText [("status", "ready"); ("node_id", rn_Config r)])))
  | gasks_unreadable e :
      fromStruct fields = inl e → grpc_asks r fields CreateAddress (GAnswers (inl (InvalidArgument, e)))
  | gasks_CreateAddress c :
      fromStruct fields = inr c →
      grpc_asks r fields CreateAddress (GCalls (on_broker (mem (address_Create c))) PAddress InvalidArgument)
  | gasks_unnamed :
      has_text fields "name" "" →
      grpc_asks r fields GetDepth (GAnswers (inl (InvalidArgument, ErrNew "name required")))
  | gasks_GetDepth name :
      has_text fields "name" name → name ≠ "" →
      grpc_asks r fields GetDepth (GCalls (on_broker (Service_Depth name)) (PDepth name) NotFound)
  | gasks_PauseAddress name paused :
      has_text fields "name" name → has_flag fields "paused" paused →
      grpc_asks r fields PauseAddress (GCalls (on_broker (mem (address_Pause name paused))) PAddress NotFound)
  | gasks_ListConnections :
      grpc_asks r fields ListConnections
        (GCalls (on rn_Connections (λ _ r, r) ConnRegistry_List) PConnections Internal)
  | gasks_GetTransaction id :
      has_text fields "id" id →
      grpc_asks r fields GetTransaction (GCalls (on_broker (Tx_Get id)) PTransaction NotFound).

(** The result and the state that the outcome prescribes. *)
Definition grpc_obeys (o : grpc_outcome) (r : Runtime D) (n : nat) (x : res grpc_result) (r' : Runtime D) : Prop :=
  match o with
  | GAnswers y => r' = r ∧ x = Ok y
  | GCalls m shape code =>
      ∃ z n', m (r, n) = (z, (r', n')) ∧
      match z with
      | Ok v => x = Ok (as_struct (shape v))
      | Err e => x = Ok (inl (code, e))
      | Panic => x = Panic
      end
  end.

Lemma GetText fields name : has_text fields name (stringField fields name).
Proof. unfold has_text, stringField, GetStringValue. by repeat case_match. Qed.

Lemma called_obeys {A} (m : env (Runtime D) A) shape code r n :
  let '(x, (r', _)) := grpc_answer m code (λ a, reply (shape a)) (r, n) in
  grpc_obeys (GCalls m shape code) r n x r'.
Proof.
  unfold grpc_answer, try, mbind, go_bind. destruct (m (r, n)) as [[v|e|] [r' n']] eqn:E; cbn.
  - by exists (Ok v), n'.
  - by exists (Err e), n'.
  - by exists Panic, n'.
Qed.

Lemma grpc_handler_obeys m fields r n :
  let '(x, (r', _)) := grpc_handler m fields (r, n) in
  ∃ o, grpc_asks r fields m o ∧ grpc_obeys o r n x r'.
Proof.
  assert (∀ A (s : env (Runtime D) A) shape code, grpc_asks r fields m (GCalls s shape code) →
    let '(x, (r', _)) := grpc_answer s code (λ a, reply (shape a)) (r, n) in
    ∃ o, grpc_asks r fields m o ∧ grpc_obeys o r n x r') as Hcall.
  { intros A s shape code Ha. pose proof (called_obeys s shape code r n) as Ho.
    destruct (grpc_answer _ _ _ _) as [x [r' n']]. by eexists. }
  destruct m; cbn [grpc_handler].
  - eexists. split; [constructor|]. done.
  - unfold g_CreateAddress. destruct (fromStruct fields) as [e|c] eqn:E; [|by apply Hcall; constructor].
    eexists. split; [by constructor|]. done.
  - unfold g_GetDepth. pose proof (GetText fields "name") as Ht. case_bool_decide as Hn.
    + rewrite Hn in Ht. eexists. split; [by apply gasks_unnamed|]. done.
    + by apply Hcall; constructor.
  - apply Hcall. constructor; [apply GetText|]. unfold has_flag, GetBoolValue. by repeat case_match.
  - eexists. split; [constructor|]. cbn. by eexists _, _.
  - apply Hcall. constructor. apply GetText.
Qed.
End contract.

(** C35. The gRPC interface does what its methods say: every call returns; a
    request that does not decode, or one without authorization (anonymous
    access is off, the method is not [Health], and the metadata does not hold
    exactly one authorization value that is the token, after [Bearer ] or
    bare), is refused and changes nothing; any other call is exactly one call
    of the service that the method names, with the fields of the request, and
    its result is the value of the service, converted, or the method's code
    with the error's text. *)
Theorem grpc_contract (orc : Oracle) (D : Type) (HJ : StructJSON) (srv : GrpcServer)
    (m : grpc_method) (auth : list string) (raw : error + pb_struct) (r r' : Runtime D) (n n' : nat)
    (x : res grpc_result) :
  wf_broker (rn_Delivery r) → dispatch srv m auth raw (r, n) = (x, (r', n')) →
  is_ok x ∧
  match raw with
  | inl e => r' = r ∧ x = Ok (inl (Unknown, e))
  | inr fields =>
      (¬ grpc_admits srv m auth → r' = r ∧ x = Ok (inl (Unauthenticated, ErrNew "valid bearer token required"))) ∧
      (grpc_admits srv m auth → ∃ o, grpc_asks r fields m o ∧ grpc_obeys o r n x r')
  end.
Proof.
  intros Hw E.
  assert (runtime_ok (cs_shards (fst (rn_Cluster r))) (rn_Delivery r) r) as Hr by done.
  destruct (wpe_elim _ _ _ _ _ _ _ (dispatch_returned srv m auth raw _ _ r Hw Hr) E) as [Hx _]. split; [done|].
  unfold dispatch, interceptor in E. destruct raw as [e|fields]; [by injection E as <- <- _|].
  split; intros Ha; rewrite <-grpc_authorized_exact in Ha.
  - apply not_true_iff_false in Ha. rewrite Ha in E. by injection E as <- <- _.
  - rewrite Ha in E. pose proof (grpc_handler_obeys m fields r n) as Ho. by rewrite E in Ho.
Qed.

(** With no token configured and anonymous access off, the gRPC interface
    is open: an empty [authorization] value passes the interceptor for every
    method, where the HTTP interface lets nothing pass. *)
Theorem grpc_empty_token_open (m : grpc_method) (r : Request) :
  grpc_authorized (mkGrpcServer "" false) m [""] = true ∧
  grpc_authorized (mkGrpcServer "" false) m ["Bearer "] = true ∧
  (open_path (rq_Path r) = false →
   authorized (mkMiddleware "" false Second 1024 10 0 0) r = false).
Proof.
  split_and!; [by destruct m|by destruct m|]. intros Ho. unfold authorized. rewrite Ho. cbn.
  destruct (TrimPrefix _ _); done.
Qed.

(** ** A concrete call *)
Definition demo_structs : StructJSON := {|
  json_document := pb_struct; json_map := pb_struct;
  struct_MarshalJSON := inr;
  json_UnmarshalCreate := λ f, match f !! "name" with
                               | Some (PbString s) => inr (mkCreate s KindQueue true 0 "" "")
                               | _ => inl (ErrNew "name required")
                               end;
  json_MarshalPayload := λ p, match p with PDepth a n => inr {["name" := PbString a; "depth" := PbNumber n]} | _ => inr ∅ end;
  json_UnmarshalMap := inr;
  NewStruct := inr |}.

Abbreviation demo_dispatch auth :=
  (dispatch (orc := test_oracle) (H := demo_structs) (mkGrpcServer "secret" false)
     CreateAddress auth (inr {["name" := PbString "logs"]})).

Lemma demo_created : ∃ x r' n', demo_dispatch ["Bearer secret"] (fst running, snd running) = (x, (r', n')) ∧
  size (mm_addresses (b_mem (rn_Delivery r'))) = 2%nat.
Proof.
  assert (size (mm_addresses (b_mem (rn_Delivery (fst (snd (demo_dispatch ["Bearer secret"]
    (fst running, snd running))))))) = 2%nat) as Hs by (vm_compute; reflexivity).
  destruct (demo_dispatch ["Bearer secret"] (fst running, snd running)) as [x [r' n']].
  exists x, r', n'. split; [done|exact Hs].
Qed.

Lemma grpc_contract_witness : ∃ x r' n',
  demo_dispatch ["Bearer secret"] (fst running, snd running) = (x, (r', n')) ∧
  size (mm_addresses (b_mem (rn_Delivery r'))) = 2%nat ∧
  ∃ o, grpc_asks (orc := test_oracle) (H := demo_structs) (fst running) {["name" := PbString "logs"]} CreateAddress o ∧
    grpc_obeys (H := demo_structs) o (fst running) (snd running) x r'.
Proof.
  destruct demo_created as (x & r' & n' & E & Hs). exists x, r', n'. split; [exact E|]. split; [exact Hs|].
  refine (proj2 (proj2 (grpc_contract test_oracle Snapshot demo_structs
    (mkGrpcServer "secret" false) CreateAddress ["Bearer secret"] (inr {["name" := PbString "logs"]})
    (fst running) r' (snd running) n' x running_wf E)) _).
  right. right. exists "Bearer secret". split; [reflexivity|]. left. reflexivity.
Defined.

Lemma grpc_empty_token_open_witness :
  grpc_authorized (mkGrpcServer "" false) CreateAddress [""] = true ∧
  authorized (mkMiddleware "" false Second 1024 10 0 0)
    (mkRequest "GET" "/v1/status" (λ _, "") "Bearer " "" [] 0) = false.
Proof.
  destruct (grpc_empty_token_open CreateAddress (mkRequest "GET" "/v1/status" (λ _, "") "Bearer " "" [] 0))
    as (H1 & _ & H2). split; [exact H1|]. apply H2. vm_compute. reflexivity.
Defined.
