(* ===== verification/Probe.v ===== *)
(** * The gRPC probe

    Models [cmd/grpc-check/main.go]: it asks a broker for its health and for
    the depth of one queue, and panics at the first failure.  The network is a
    call of [dispatch]; [dialed] is the outcome of [grpc.DialContext]. *)

From Stdlib Require Import Ascii String.
From S2P Require Import Prelude Bytes Text Duration Matcher Address Message Transaction Env.
From S2P Require Import Memory BodyLog FileLog FileLogFacts Router Delivery TxService.
From S2P Require Import Broker Cluster Connection Registry Session Link Peer Snapshot Runtime Http Grpc.

Section probe.
Context `{orc : Oracle} {D : Type} `{StructJSON} (srv : GrpcServer).

(** The closure [call]: [structpb.NewStruct] of these literal fields cannot
    fail, so the fields are the structure. *)
Definition probe_call (m : grpc_method) (fields : pb_struct) : env (Runtime D) ((grpc_code * error) + pb_struct) :=
  dispatch srv m ["Bearer change-me"] (inr fields).

(** [if err != nil { panic(err) }]. *)
Definition must {A} (r : (grpc_code * error) + A) : env (Runtime D) A :=
  match r with inl _ => panic | inr a => mret a end.

(** [main]: the two structures it prints. *)
Definition grpc_check (dialed : option error) : env (Runtime D) (pb_struct * pb_struct) :=
  match dialed with
  | Some _ => panic
  | None =>
      health ← probe_call Health ∅;
      health ← must health;
      depth ← probe_call GetDepth {["name" := PbString "plain.q"]};
      depth ← must depth;
      mret (health, depth)
  end.
End probe.

(** ** Properties *)

(** The probe succeeds exactly where it should: against a broker that admits
    its token, without failures, it prints the conversions of the node's
    health and of the number of available messages in [plain.q], and the
    broker is unchanged; with any other token (and no anonymous access) it
    panics, although the health call passes. *)
Theorem grpc_check_reports (orc : Oracle) (HO : Quiet orc) (D : Type) (HJ : StructJSON) (srv : GrpcServer)
    (r : Runtime D) (n : nat) (h d : pb_struct) :
  toStruct (PText [("status", "ready"); ("node_id", rn_Config r)]) = inr h →
  toStruct (PDepth "plain.q" (Z.of_nat (length (filter (ready "plain.q")
    (map_values (mm_messages (b_mem (rn_Delivery r)))))))) = inr d →
  ∃ n', grpc_check srv None (r, n) =
    (if gs_AllowAnonymous srv || bool_decide (gs_Token srv = "change-me") then Ok (h, d) else Panic, (r, n')).
Proof.
  intros Hh Hd.
  assert (wpe (grpc_check srv None) (λ x r', r' = r ∧
    x = if gs_AllowAnonymous srv || bool_decide (gs_Token srv = "change-me") then Ok (h, d) else Panic) r) as H.
  { unfold grpc_check, probe_call, dispatch, interceptor. wpe_step.
    assert (grpc_authorized srv Health ["Bearer change-me"] = true) as ->.
    { unfold grpc_authorized. by destruct (gs_AllowAnonymous srv). }
    cbn [grpc_handler]. unfold g_Health, reply. wpe_step. wpe_step. wpe_step. rewrite Hh. unfold must. wpe_step. wpe_step. wpe_step.
    assert (grpc_authorized srv GetDepth ["Bearer change-me"] =
      gs_AllowAnonymous srv || bool_decide (gs_Token srv = "change-me")) as ->.
    { unfold grpc_authorized. change (HasSuffix (FullMethod GetDepth) "/Health") with false.
      destruct (gs_AllowAnonymous srv); [done|]. cbn -[TrimPrefix].
      change (TrimPrefix "Bearer change-me" "Bearer ") with "change-me". apply bool_decide_ext. split; congruence. }
    destruct (gs_AllowAnonymous srv || _).
    - unfold g_GetDepth. change (stringField _ "name") with "plain.q". rewrite bool_decide_eq_false_2 by done.
      unfold grpc_answer, Service_Depth, on_broker, mem. wpe_step. wpe_step. wpe_step. wpe_step.
      unfold Memory_Depth. wpe_step. apply quiet_ctx_Err. wpe_auto. cbn.
      match goal with Hp : ?l ≡ₚ _ |- _ => rewrite Hp end. unfold reply. rewrite Hd. unfold must. wpe_auto.
      split; [|done]. by destruct r as [? [] ? ? ? ? ? ? ?].
    - unfold refuse. unfold must. by wpe_auto. }
  specialize (H n). destruct (grpc_check srv None (r, n)) as [x [r' n']]. cbn in H. destruct H as [-> ->]. by exists n'.
Qed.
