(* ===== verification/System.v ===== *)
(** * The node

    The running broker: its runtime behind the HTTP and gRPC interfaces, with
    AMQP connections and sweeps, as one transition system over the parts the
    other files model.  An event is a whole request, call, connection or
    sweep, in any environment and with any outcome. *)

From S2P Require Import Prelude Bytes Text Duration Matcher Address Message Transaction Env.
From S2P Require Import Memory BodyLog FileLog FileLogFacts Router Delivery DeliveryInv DeliveryFacts.
From S2P Require Import TxService TxFacts Broker Cluster Connection Registry Session Link Peer PeerSteps.
From S2P Require Import Snapshot Runtime Http HttpFacts Grpc.

(** ** Events *)
Inductive event :=
  | EventHTTP (r : Request)
  | EventGRPC (m : grpc_method) (authorization : list string) (raw : error + pb_struct)
  | EventAMQP (remote : string) (input : bytes)
  | EventSweep.

Section events.
Context `{orc : Oracle, mtch : !Matcher} {D : Type} `{RequestJSON} `{StructJSON}
  (console : string → response) (srv : GrpcServer).

(** A connection that sends [input]: the handler runs over the runtime's
    registries and delivery service. *)
Definition connection_world (r : Runtime D) (input : bytes) : world FileLog :=
  mkWorld (rn_Connections r) (rn_Sessions r) (rn_Links r) (rn_Delivery r)
    (mkPeer (connection_New "" "" 0 0 0) no_identity ∅ ∅ ∅) input [].

Definition after_connection (w : world FileLog) (r : Runtime D) : Runtime D :=
  mkRuntime (rn_Config r) (w_delivery w) (rn_txTTL r) (w_connections w) (w_sessions w) (w_links w)
    (rn_Cluster r) (rn_Snapshot r) (rn_AMQP r).

Definition on_world {A} (input : bytes) (m : env (world FileLog) A) : env (Runtime D) A :=
  on (λ r, connection_world r input) after_connection m.

Definition occurs (e : event) : env (api D) unit :=
  match e with
  | EventHTTP r => ignore (serve console r)
  | EventGRPC m auth raw => ignore (on_runtime (dispatch srv m auth raw))
  | EventAMQP remote input =>
      a ← get_;
      on_runtime (on_world input (handle (rn_AMQP (ap_Runtime a)) remote))
  | EventSweep => ignore (on_runtime Runtime_Sweep)
  end.
End events.

Inductive node_step {D} (a a' : api D) : Prop :=
  | node_event (orc : Oracle) (mtch : Matcher) (HR : RequestJSON) (HS : StructJSON)
      (console : string → response) (srv : GrpcServer) (e : event) (x : res unit) (n n' : nat) :
      occurs console srv e (a, n) = (x, (a', n')) → node_step a a'.

(** ** Every event keeps the node good *)
Section preservation.
Context `{orc : Oracle, mtch : !Matcher} {D : Type} `{RequestJSON} `{StructJSON}
  (console : string → response) (srv : GrpcServer) (k : Z) (b0 : broker FileLog).
Context (Hk : k ≠ 0) (Hw : wf_broker b0).
Implicit Types a : api D.

Lemma ignore_ok {A} (m : env (api D) A) a :
  wpe m (λ _ a', api_ok k b0 a') a → wpe (ignore m) (λ _ a', api_ok k b0 a') a.
Proof. intros Hm. unfold ignore. wpe_step. eapply wpe_mono; [exact Hm|]. intros [x|e|] a' Ha; [by wpe_step|done..]. Qed.

Lemma occurs_ok e a : api_ok k b0 a → wpe (occurs console srv e) (λ _ a', api_ok k b0 a') a.
Proof.
  intros Ha. destruct e as [r|m auth raw|remote input|]; cbn [occurs].
  - apply ignore_ok. eapply wpe_mono; [by apply serve_answered|]. by intros x a' [_ ?].
  - apply ignore_ok. unfold on_runtime. wpe_step. eapply wpe_mono; [by apply (dispatch_returned srv m auth raw k b0)|].
    by intros x r [_ ?].
  - wpe_step. wpe_step. unfold on_runtime, on_world. wpe_step. wpe_step. intros n.
    pose proof (via_handle (rn_AMQP (ap_Runtime a)) remote (connection_world (ap_Runtime a) input, n)) as Hs.
    destruct Ha as [Hb Hsh]. split; [|exact Hsh]. cbn. etrans; [exact Hb|exact Hs].
  - apply ignore_ok. unfold on_runtime, Runtime_Sweep. wpe_step. wpe_step.
    eapply wpe_mono; [by apply (broker_called SweepExpired CallSweepExpired); [..|exact (ignore_performs _)|exact Ha]|].
    intros [x|e|] r [_ Hr]; [|exact Hr..]. wpe_step.
    eapply wpe_mono; [by apply (broker_called Tx_Sweep CallSweepTx); [..|exact (ignore_performs _)|exact Hr]|].
    intros [y|e|] r' [_ Hr']; [wpe_step|..]; exact Hr'.
Qed.
End preservation.

Lemma node_steps_ok {D} (a a' : api D) k b0 :
  k ≠ 0 → wf_broker b0 → rtc node_step a a' → api_ok k b0 a → api_ok k b0 a'.
Proof.
  intros Hk Hw Hs. induction Hs as [a|a a1 a' Hs _ IH]; [done|]. intros Ha. apply IH.
  destruct Hs as [orc mtch HR HS console srv e x n n' E].
  exact (wpe_elim _ _ _ _ _ _ _ (occurs_ok console srv k b0 Hk Hw e a Ha) E).
Qed.

(** ** Properties *)

(** The whole node: from a runtime that [Build] made on an empty directory,
    after any HTTP requests, gRPC calls, AMQP connections and sweeps, in any
    order, any environment and with any outcomes, the broker is in a state
    reached by service calls from an empty store and satisfies its invariant:
    every stored record is well formed and every message's log offset holds
    its body. *)
Theorem node_invariant (orc : Oracle) (D : Type) (HJ : SnapshotJSON D) (settings : Settings)
    (f : SnapshotFile D) (d' : SnapshotFile D * FileLog) (r : Runtime D) (n n' : nat) (m : Middleware)
    (a : api D) :
  sf_path f = None → 0 ≤ st_Shards settings < 2 ^ 32 → 0 ≤ st_MaxFrame settings < 2 ^ 32 →
  Build settings ((f, mkFileLog (mkFile [] 0 false) ∅), n) = (Ok r, (d', n')) →
  rtc node_step (Handler r m) a →
  started (rn_Delivery r) ∧ rtc step (rn_Delivery r) (rn_Delivery (ap_Runtime a)) ∧
  wf_broker (rn_Delivery (ap_Runtime a)).
Proof.
  intros Hf Hsh Hmf E Hs.
  assert (started (rn_Delivery r)) as Hst by exact (Build_started settings f (mkFileLog (mkFile [] 0 false) ∅) d' r n n' Hf eq_refl E).
  destruct (Build_shape _ _ _ _ _ _ E) as (Ek & _). destruct (defaults_usable settings Hsh Hmf) as (Hk & _).
  assert (api_ok (cs_shards (fst (rn_Cluster r))) (rn_Delivery r) a) as [Hb _].
  { apply (node_steps_ok (Handler r m)); [lia|by apply started_wf|done|by split]. }
  split_and!; [done|done|]. by apply (steps_advance (rn_Delivery r)); [apply started_wf|].
Qed.

(** ** A concrete node

    It serves a request that creates a queue and an AMQP client that sends a
    message to it, and sweeps. *)
Abbreviation node_run es a0 :=
  (foldl (λ s e, (occurs (orc := test_oracle) (mtch := StandardMatcher) (H := demo_decoder) (H0 := demo_structs)
                    no_console (mkGrpcServer "secret" false) e s).2) (a0, O) es).1.

Lemma node_run_steps (es : list event) (a0 : api Snapshot) n0 :
  rtc node_step a0 (foldl (λ s e, (occurs (orc := test_oracle) (mtch := StandardMatcher) (H := demo_decoder)
    (H0 := demo_structs) no_console (mkGrpcServer "secret" false) e s).2) (a0, n0) es).1.
Proof.
  revert a0 n0. induction es as [|e es IH]; intros a0 n0; [done|]. cbn.
  destruct (occurs _ _ e (a0, n0)) as [x [a1 n1]] eqn:E. cbn.
  eapply rtc_l; [|apply IH]. by eapply (node_event _ _ test_oracle StandardMatcher demo_decoder demo_structs).
Qed.

Definition demo_events : list event :=
  [EventHTTP (demo_request "POST" "/v1/addresses" "Bearer secret"); EventAMQP "client" sending_client;
   EventGRPC Health [] (inr ∅); EventSweep].

Definition demo_middleware : Middleware := mkMiddleware "secret" false Second 1024 10 0 0.

Lemma node_invariant_witness :
  wf_broker (rn_Delivery (ap_Runtime (node_run demo_events (Handler (fst built) demo_middleware)))) ∧
  length (map_values (mm_messages (b_mem (rn_Delivery (ap_Runtime
    (node_run demo_events (Handler (fst built) demo_middleware))))))) = 1%nat.
Proof.
  split; [|vm_compute; reflexivity]. destruct built_by_Build as (d' & n' & E).
  refine (proj2 (proj2 (node_invariant test_oracle Snapshot identity_json demo_settings (mkSnapshotFile None None)
    d' (fst built) O n' demo_middleware (node_run demo_events (Handler (fst built) demo_middleware)) _ _ _ E _))).
  - reflexivity.
  - vm_compute. split; congruence.
  - vm_compute. split; congruence.
  - apply node_run_steps.
Defined.
